(* ===== verification/_CoqProject ===== *)
-Q . S2P
Prelude.v
GoStrings.v
GoQuote.v
GoTime.v
GoCalendar.v
Order.v
Metrics.v
Reaper.v
Check.v
Cron.v
Sanitize.v
Writer.v
Yml.v
YmlRender.v
Service.v
Conc.v
DaemonState.v
Daemon.v
DaemonSafety.v
DaemonTheorems.v
DaemonPolicy.v
DaemonReload.v
ReloadSpec.v
Credential.v
SdNotify.v
GoPath.v
Boot.v
BootSpec.v
Control.v
GoFloat.v
GoRegexp.v
Limits.v
HostLimits.v
Templates.v
Config.v
ConfigTheorems.v
ConfigSpec.v
Rotate.v
Target.v
Launch.v
LaunchSpec.v
Spawn.v
Status.v
LogStream.v
LogTarget.v
LogWiring.v
ControlSocket.v
Startup.v
CheckOwner.v
Backoff.v
ControlClient.v
Json.v
StatusJson.v
BootEffects.v
Probe.v
TemplatePasses.v
Version.v
Bringup.v
Platform.v
Doctest.v
