(* ===== verification/Prelude.v ===== *)
(** * gopherd: a verified model of the init process and its libraries

    gopherd is a process supervisor written in Go that can run as PID 1 of a
    container.  It reads one YAML file, starts the services described there in
    dependency order, reaps children, restarts or shuts down according to their
    exit status, runs health checks and cron schedules, captures and forwards
    logs, and answers commands on a control socket.  This library models the Go
    sources under src/ as Rocq definitions and proves what makes them correct.

    ** The parts and where they are

    Shared ground.
    - Prelude.v: results and loops with errors ([foldM]), loops on fuel, 64-bit
      wrap-around ([wrap64]), sorted string lists, the hint database [gopherd].
    - GoStrings.v, GoTime.v, GoCalendar.v, GoPath.v, GoFloat.v, GoRegexp.v,
      GoQuote.v, Json.v: what the sources use of the Go standard library (strings,
      strconv with Quote, unicode/utf8, durations and float64 arithmetic, the
      calendar and time zones of package time, path/filepath, ParseFloat,
      leftmost-first regular expressions, encoding/json).

    Libraries under src/internal and src/check.
    - Order.v: internal/order, [TopoSort] and [TopoLayers].
    - Metrics.v: internal/metrics, every operation and the text format.
    - Reaper.v: internal/reaper, the registry between the reap loop and waiters.
    - Check.v, Probe.v: check/check.go, construction, the health state machine,
      the loop, [WaitReady]; the probes, the HTTP client and the process of an
      exec probe.
    - Backoff.v: internal/backoff, and the delays the reap loop makes of it.
    - Cron.v: internal/cron, parsing into masks and the search for the next tick.
    - Sanitize.v, Writer.v, Rotate.v, Target.v: internal/logger, that is escape
      stripping, the line-buffered prefix writer with its ring and subscribers,
      the rotating file over a directory of names and inodes, and what is checked
      before a log file is opened.  LogTarget.v: targets as a whole, with labels
      and syslog, against the interface [WriteCloser].
    - Limits.v, Templates.v: internal/memory/expr.go, internal/cpu/expr.go, and
      the placeholders of service/env.go, service/file_template.go and
      [expandTemplates]; TemplatePasses.v: the helpers for one kind of placeholder.
    - HostLimits.v: internal/cgroup, internal/cpu/cpu.go, internal/memory/memory.go.
    - SdNotify.v: internal/sdnotify, the listener for readiness messages.
    - Yml.v, YmlRender.v, Config.v, ConfigTheorems.v: internal/yml, the parser, a
      printer to state its round trip, and the configuration built from a tree;
      ConfigSpec.v: what a loaded configuration promises, in the words of the
      format.

    The daemon.
    - Service.v: service/ (signals, exit actions, file conditions, dotenv files,
      the environment of a child, an instance's run state); Credential.v:
      service/user.go.
    - Launch.v: [PrepareStart], the checked readers of dotenv and configuration
      files, the umask shim, and the dispatch of main.go; LaunchSpec.v: what a
      child is launched with, by the settings of its process.
    - Conc.v: goroutines as programs of atomic actions over a shared state, their
      arbitrary interleaving, and a rely-guarantee logic for them.
    - DaemonState.v, Daemon.v: daemon.go, lifecycle.go, sched.go, run.go.  The
      state is the record [daemon] (services by name into a heap of instances,
      pidMap, restart bookkeeping, metrics, reaper, shutdown state, children and
      zombies of the kernel); each goroutine is a program; a critical section
      under [d.mu] is one action.
    - DaemonSafety.v (invariant and guarantee, kept by every goroutine),
      DaemonTheorems.v, DaemonPolicy.v, DaemonReload.v (what follows),
      ReloadSpec.v (a reload by the two configurations).
    - Spawn.v: the handles of an instance (readiness socket, log pipes, timers)
      through [FinishStart] and [MarkExited], and the wait for its group.
    - Startup.v: run.go up to the first service; Boot.v: the start layers, before
      the reap loop, BootSpec.v: what ends and starts mean at boot, and
      BootEffects.v: the calls made for oneshots on the way.
    - CheckOwner.v: as whom exec checks run ([startChecks], [runCheckAsOwner]).
    - Control.v: control/, the command language from the client's arguments to the
      server's callbacks, log streams, and the connection slots; ControlSocket.v:
      the name of the socket; ControlClient.v: [RunClient] as a whole.
    - Status.v, LogStream.v, StatusJson.v: the callbacks that look at the daemon
      ([StatusFn], [LogsFn], the JSON ones); LogWiring.v: which log targets the
      writers of an instance have through starts and reloads.
    - Version.v: version/, the text of the version.
    - Bringup.v: start-up and boot put together; Platform.v: the files that differ
      between Linux and other systems (peer credentials, the subreaper, the
      credentials of datagrams) and the cached limits of the host.
    - Doctest.v: internal/doctest, the harness of the end-to-end tests.

    A component calls another through the file above it: the daemon uses Order
    for its sequences, Service for instances, Reaper, Metrics, Check and Cron;
    Config produces what the daemon and Boot consume ([daemon_config],
    [ordering] of ConfigTheorems.v); Target opens what Rotate writes; Launch puts
    Service, Credential, Templates and HostLimits together; Startup reads
    with Launch, loads with Config, orders with Order, builds the daemon of
    Daemon.v and claims the socket of ControlSocket.v, and Bringup follows its
    layers and instances into Boot; StatusJson takes a request
    from ControlClient through Control to the metrics and back.

    ** What is proved

    - Ordering: the sort returns a start order exactly when there is one and the
      precise error otherwise; layers are the earliest possible.
    - Supervision, under every interleaving of goroutines, exits, timers and
      clients: pids are recorded exactly for running instances; from the
      reap loop on no running instance is forked again and nothing is forked
      during shutdown; shutdown stops services in dependency order and
      run returns only when nothing runs; what each exit does on every branch;
      what a reload keeps, replaces, removes and starts; dependents are closed
      over transitively.
    - Boot: from the configuration file on, no process starts before what it is
      configured to come after has settled without failing, each settles by its
      exit status or the result of its start, failures are not passed, a boot always ends, and no oneshot
      it started is left behind; before that, start-up always comes to a verdict
      for one of the documented reasons.
    - Configuration: an accepted file is well formed, can later only fail for a
      few named reasons, and dropping conditional processes never breaks the
      ordering; parsing terminates, keeps keys unique and reads back what a
      printer writes.
    - Protocols and formats: a client command reaches exactly its callback; slots
      are bounded and never leak; signals, dotenv files, cron fields and templates
      mean what they say; child environments come from the documented sources;
      what status says was true when it was looked at, and as JSON it is read back exactly from what the
      client prints.
    - Health checks fire once per episode and exec probes report what was reaped;
      schedules find the first matching minute (and the case where the search
      does not end).
    - Logs: lines are delivered whole and in order whatever the chunks, slots are
      never overwritten while in use, text is stripped of escapes, rotation keeps
      the stream (and the case where it loses the rotated files), opened log
      files are trusted; a target adds exactly its labels and the line, services
      keep exactly the targets of the configuration, and a log client gets a
      prefix of the lines.
    - Launching: arguments and variables are expanded once and none is lost, the
      credentials are those of the documented table and never truncated, the
      limits of the host are the nearest positive ones, a umask changes nothing
      but the mask, only trusted files are read, and a readiness listener reports
      exactly what authorized senders said; no handle of an instance leaks; an
      exec check has the rights of its service; the delays between restarts are
      the documented geometric sequence, begun anew after a long enough run.
    - The platform and the harness: strangers at the control socket change
      nothing; a listener that cannot tell senders apart is never made; a build
      directory is private, builds that run at once never expose half a binary,
      the daemon under test takes the socket that is dialed, and none is left.

    The manifest lists the properties by importance; a property's doc comment
    carries its number (C1, C2, ...).  Theorems that show a defect are stated as
    such, and Examples next to the definitions show smaller ones.

    ** Conventions, bounds and fuel

    - int and int64 are [Z] with [wrap64] where the source can overflow; bytes
      are [Z] or [ascii]; maps are [gmap], and the order Go walks a map in is an
      argument wherever it can matter.
    - Loops without a structural bound run on fuel with a value of its own for
      exhaustion; every such function has a theorem that it returns: Kahn's loop
      and the layer loop (one unit per service), the parser (67 units per line
      plus a constant, from the depth limit 64), sanitising and the writer (one
      unit per byte), the cron search (2^23 rounds, which covers nine years of
      minutes by days and hours), the dependent closure (one round per service
      and one more), the walk over cgroup directories (one unit per byte of the
      path and three more), the walk to the module root (one unit per component).
    - What the kernel, the file system, the clock, the network and clients answer
      is an input of each action, unconstrained unless a theorem says otherwise.
    - A section under [d.mu] is one action: other goroutines cannot see its
      middle.  Reads of single fields outside the lock are actions of their own.
      A fork returns a pid that no live or unreaped child has, and none that is
      still in pidMap: the reap loop takes a status from Wait4 and the pid out of
      pidMap in two steps, between which the kernel is assumed not to give that
      pid away.  The delay before a restart is an input of the daemon (Backoff.v
      has the delays).
    - The theorems on the running daemon start where run() enters the reap loop
      with the services of the configuration not yet running; the boot is a
      machine of its own because a oneshot started by a client during the boot
      can be forked twice (see the findings), which breaks the bookkeeping the
      invariant states.

    ** Not modelled

    The system calls themselves (prctl, SO_PEERCRED, umask, the options of
    sockets): their answers are inputs; the Wait4 on the group of a stopped
    service in WaitGroupExit, which takes zombies of the group that the reap loop
    would else see, in the model of the daemon; the pidfd behind os.Process and
    its Release; the banner and the text of log messages
    and of usage messages; errors of Wait4 other than EINTR and ECHILD;
    surrogates and numbers that are not whole in JSON, which gopherd never writes;
    of internal/doctest, capturing the daemon's output, the getters and the three
    helper programs. *)

From stdpp Require Export base tactics list option gmap strings sorting fin_sets relations.
From Stdlib Require Export ZArith Lia.

(** ** Fallible code

    A Go function returning [(A, error)] is a function into [result E A]; the
    error type [E] has one constructor per [fmt.Errorf] of the source, with the
    values the message is formatted from. *)
Inductive result (E A : Type) : Type :=
  | Ok (a : A)
  | Err (e : E).
Arguments Ok {E A} a.
Arguments Err {E A} e.

#[export] Instance result_ret {E} : MRet (result E) := λ A a, Ok a.
#[export] Instance result_bind {E} : MBind (result E) := λ A B f m,
  match m with
  | Ok a => f a
  | Err e => Err e
  end.
#[export] Instance result_fmap {E} : FMap (result E) := λ A B f m,
  match m with
  | Ok a => Ok (f a)
  | Err e => Err e
  end.

Definition is_ok {E A} (r : result E A) : bool :=
  match r with Ok _ => true | Err _ => false end.

(** A Go [for range] loop with an early error return. *)
Fixpoint foldM {E S A} (f : S → A → result E S) (s : S) (l : list A) : result E S :=
  match l with
  | [] => Ok s
  | a :: l => match f s a with Ok s' => foldM f s' l | Err e => Err e end
  end.

Section foldM.
  Context {E S A : Type} (f : S → A → result E S).

Lemma foldM_app s l1 l2 :
    foldM f s (l1 ++ l2) =
    match foldM f s l1 with Ok s' => foldM f s' l2 | Err e => Err e end.
  Proof.
    revert s. induction l1 as [|a l1 IH]; intros s; simpl; [done|].
    destruct (f s a); auto.
  Qed.

  (** Induction over the processed prefix. *)
Lemma foldM_ind (P : list A → S → Prop) s l s' :
    P [] s →
    (∀ l1 a s1 s2, a ∈ l → P l1 s1 → f s1 a = Ok s2 → P (l1 ++ [a]) s2) →
    foldM f s l = Ok s' → P l s'.
  Proof.
    intros H0 Hstep. revert s'. induction l as [|a l IH] using rev_ind; intros s'.
    { intros [= <-]. done. }
    rewrite foldM_app. destruct (foldM f s l) as [s1|e] eqn:Hl; [|done].
    simpl. destruct (f s1 a) as [s2|e] eqn:Ha; [|done]. intros [= <-].
    eapply Hstep; [set_solver| |done]. apply IH; [|done].
    intros. eapply Hstep; eauto. set_solver.
  Qed.

  (** A failing loop stops at its first failing iteration. *)
Lemma foldM_err s l e :
    foldM f s l = Err e →
    ∃ l1 a l2 s1, l = l1 ++ a :: l2 ∧ foldM f s l1 = Ok s1 ∧ f s1 a = Err e.
  Proof.
    revert s. induction l as [|a l IH]; intros s; simpl; [done|].
    destruct (f s a) as [s1|e1] eqn:Ha.
    - intros (l1 & b & l2 & s2 & -> & H1 & H2)%IH.
      exists (a :: l1), b, l2, s2. simpl. by rewrite Ha.
    - intros [= <-]. by exists [], a, l, s.
  Qed.

Lemma foldM_ok_all (P : A → Prop) s l s' :
    (∀ s1 a s2, f s1 a = Ok s2 → P a) →
    foldM f s l = Ok s' → ∀ a, a ∈ l → P a.
  Proof.
    intros Hf. revert s. induction l as [|b l IH]; intros s; simpl; [set_solver|].
    destruct (f s b) as [s1|] eqn:Hb; [|done]. intros H a [->|Ha]%elem_of_cons; eauto.
  Qed.

Lemma foldM_total s l :
    (∀ s1 a, a ∈ l → ∃ s2, f s1 a = Ok s2) → ∃ s', foldM f s l = Ok s'.
  Proof.
    revert s. induction l as [|a l IH]; intros s H; simpl; [eauto|].
    destruct (H s a) as [s1 ->]; [set_solver|]. apply IH. set_solver.
  Qed.
End foldM.

(** ** Loops with a measure

    A Go loop without a structural bound runs on fuel; [OutOfFuel] is a value
    of its own, so that a termination theorem says [Done]. *)
Inductive fuelled (A : Type) : Type :=
  | Done (a : A)
  | OutOfFuel.
Arguments Done {A} a.
Arguments OutOfFuel {A}.

(** Fallible code that also runs on fuel. *)
Inductive outcome (E A : Type) : Type :=
  | Ret (a : A)
  | Fail (e : E)
  | NoFuel.
Arguments Ret {E A} a.
Arguments Fail {E A} e.
Arguments NoFuel {E A}.

#[export] Instance outcome_ret {E} : MRet (outcome E) := λ A a, Ret a.
#[export] Instance outcome_bind {E} : MBind (outcome E) := λ A B f m,
  match m with
  | Ret a => f a
  | Fail e => Fail e
  | NoFuel => NoFuel
  end.

Definition lift_result {E A} (r : result E A) : outcome E A :=
  match r with Ok a => Ret a | Err e => Fail e end.

(** A loop that runs [f] until it stops, at most [2 ^ n] times: the depth [n]
    of the recursion is logarithmic, so a bound of millions of rounds costs
    nothing unless they happen. *)
Inductive step_res (A B : Type) : Type :=
  | Cont (a : A)
  | Stop (b : B).
Arguments Cont {A B} a.
Arguments Stop {A B} b.

Fixpoint loop2 {A B} (n : nat) (f : A → step_res A B) (a : A) : step_res A B :=
  match n with
  | O => f a
  | S n => match loop2 n f a with Cont a' => loop2 n f a' | Stop b => Stop b end
  end.

Lemma Zpower_nat_succ_r_2 (n : nat) : (2 ^ Z.of_nat (S n) = 2 * 2 ^ Z.of_nat n)%Z.
Proof. rewrite Nat2Z.inj_succ, Z.pow_succ_r by lia. done. Qed.

Section loop2.
Context {A B : Type} (f : A → step_res A B) (I : A → Prop) (Q : B → Prop).

(** Partial correctness by an invariant, and termination by a measure that
    drops by one a round. *)
Lemma loop2_inv n a :
  (∀ a a', I a → f a = Cont a' → I a') → (∀ a b, I a → f a = Stop b → Q b) → I a →
  match loop2 n f a with Cont a' => I a' | Stop b => Q b end.
Proof.
  intros HI HQ. revert a. induction n as [|n IH]; intros a Ha; simpl.
  - destruct (f a) eqn:E; eauto.
  - pose proof (IH a Ha) as H. destruct (loop2 n f a); [by apply IH|done].
Qed.

Lemma loop2_measure (mu : A → Z) n a :
  (∀ a a', I a → f a = Cont a' → I a') →
  (∀ a a', I a → f a = Cont a' → (0 ≤ mu a' < mu a)%Z) → I a →
  match loop2 n f a with Cont a' => I a' ∧ (0 ≤ mu a' ∧ mu a' + 2 ^ Z.of_nat n ≤ mu a)%Z | Stop _ => True end.
Proof.
  intros HI Hmu. revert a. induction n as [|n IH]; intros a Ha; simpl.
  - destruct (f a) as [a'|] eqn:E; [|done]. specialize (Hmu a a' Ha E). split; [eauto|]. lia.
  - pose proof (IH a Ha) as H. destruct (loop2 n f a) as [a1|]; [|done]. destruct H as [H1 H2].
    pose proof (IH a1 H1) as H3. destruct (loop2 n f a1) as [a2|]; [|done]. destruct H3 as [H3 H4].
    split; [done|]. rewrite Zpower_nat_succ_r_2. lia.
Qed.

Lemma loop2_stuck n a : f a = Cont a → loop2 n f a = Cont a.
Proof. intros Hf. induction n as [|n IH]; simpl; [done|]. by rewrite IH. Qed.
End loop2.

(** ** Machine integers: Go's [int] and [int64] on a 64-bit platform *)
Definition two63 : Z := 9223372036854775808.
Definition two64 : Z := 18446744073709551616.
Definition MaxInt64 : Z := two63 - 1.
Definition MinInt64 : Z := - two63.

Definition wrap64 (z : Z) : Z := (z + two63) `mod` two64 - two63.

Definition in_int64 (z : Z) : Prop := (MinInt64 ≤ z ≤ MaxInt64)%Z.

Lemma wrap64_range (z : Z) : in_int64 (wrap64 z).
Proof.
  unfold in_int64, wrap64, MinInt64, MaxInt64.
  pose proof (Z.mod_pos_bound (z + two63) two64). unfold two63, two64 in *. lia.
Qed.

Lemma wrap64_id (z : Z) : in_int64 z → wrap64 z = z.
Proof.
  unfold in_int64, wrap64, MinInt64, MaxInt64. intros H.
  rewrite Z.mod_small; unfold two63, two64 in *; lia.
Qed.

(** ** Maps with a zero value: reading an absent key of a Go map *)
Definition zget {K} `{Countable K} (m : gmap K Z) (k : K) : Z := default 0%Z (m !! k).

Lemma zget_insert_eq {K} `{Countable K} (m : gmap K Z) (k : K) (v : Z) :
  zget (<[k := v]> m) k = v.
Proof. unfold zget. by rewrite lookup_insert_eq. Qed.

Lemma zget_insert_ne {K} `{Countable K} (m : gmap K Z) (k k' : K) (v : Z) :
  k ≠ k' → zget (<[k := v]> m) k' = zget m k'.
Proof. intros. unfold zget. by rewrite lookup_insert_ne. Qed.

Definition lget {K A} `{Countable K} (m : gmap K (list A)) (k : K) : list A :=
  default [] (m !! k).

Lemma lget_insert_eq {K A} `{Countable K} (m : gmap K (list A)) (k : K) (v : list A) :
  lget (<[k := v]> m) k = v.
Proof. unfold lget. by rewrite lookup_insert_eq. Qed.

Lemma lget_insert_ne {K A} `{Countable K} (m : gmap K (list A)) (k k' : K) (v : list A) :
  k ≠ k' → lget (<[k := v]> m) k' = lget m k'.
Proof. intros. unfold lget. by rewrite lookup_insert_ne. Qed.

(** ** Lists *)
Lemma filter_ext_elem {A} (P Q : A → Prop) `{∀ x, Decision (P x), ∀ x, Decision (Q x)}
    (l : list A) :
  (∀ x, x ∈ l → P x ↔ Q x) → filter P l = filter Q l.
Proof.
  induction l as [|x l IH]; intros H1; [done|]. rewrite !filter_cons, IH by set_solver.
  specialize (H1 x). do 2 case_decide; set_solver.
Qed.

(** A duplicate-free list of elements of [k], as long as [k], is all of [k]. *)
Lemma full_Permutation {A} `{EqDecision A} (l k : list A) :
  NoDup l → (∀ x, x ∈ l → x ∈ k) → length k ≤ length l → l ≡ₚ k.
Proof.
  intros HN Hsub Hlen. apply submseteq_length_Permutation; [|done].
  by apply NoDup_submseteq.
Qed.

(** ** [slices.Sort] on strings: bytewise order *)
Definition sort_strings (l : list string) : list string := merge_sort String.le l.

Lemma sort_strings_perm (l : list string) : sort_strings l ≡ₚ l.
Proof. apply merge_sort_Permutation. Qed.

Lemma sort_strings_sorted (l : list string) : StronglySorted String.le (sort_strings l).
Proof. apply (StronglySorted_merge_sort _). Qed.

(** Iterating a Go map in any order and sorting gives one result: the sort of
    a permutation is the sort. *)
Lemma sort_strings_unique (l1 l2 : list string) :
  l1 ≡ₚ l2 → sort_strings l1 = sort_strings l2.
Proof.
  intros H. apply (StronglySorted_unique String.le); try apply sort_strings_sorted.
  by rewrite !sort_strings_perm.
Qed.

Create HintDb gopherd.
Create Rewrite HintDb gopherd.
#[export] Hint Rewrite @zget_insert_eq @lget_insert_eq @lookup_insert_eq : gopherd.
#[export] Hint Resolve sort_strings_perm sort_strings_sorted wrap64_range : gopherd.
