(* ===== verification/GoStrings.v ===== *)
(** * The Go string library as the sources use it

    A Go string is a byte string: here a [string] of [ascii] bytes, UTF-8 when
    it is text.  The functions of [strings], [strconv], [unicode/utf8], [fmt]
    and [time] below are the ones the modelled components call, with Go's
    behaviour on every byte string (white space and rune counting included).
    [ToLower] and [ToUpper] map the ASCII letters and the four other runes
    whose image is ASCII; the source only compares their results with ASCII
    words, which no other rune can reach. *)

From S2P Require Import Prelude.
From stdpp Require Export pretty.
From Stdlib Require Export Ascii.

Open Scope string_scope.
Open Scope list_scope.
Open Scope nat_scope.

Abbreviation byte_val a := (Z.of_N (N_of_ascii a)).

(** ** Basics *)

Fixpoint take_str (n : nat) (s : string) : string :=
  match n, s with
  | S n, String a s => String a (take_str n s)
  | _, _ => ""
  end.

Fixpoint drop_str (n : nat) (s : string) : string :=
  match n, s with
  | S n, String _ s => drop_str n s
  | _, _ => s
  end.

Definition str1 (a : ascii) : string := String a "".

Fixpoint str_repeat (a : ascii) (n : nat) : string :=
  match n with O => "" | S n => String a (str_repeat a n) end.

Fixpoint str_rev (s : string) : string :=
  match s with "" => "" | String a s => (str_rev s ++ str1 a)%string end.

(** [s[i]], and the zero byte out of range (the callers check the range). *)
Definition at_ (s : string) (i : nat) : ascii := default zero (String.get i s).

Fixpoint str_all (P : ascii → bool) (s : string) : bool :=
  match s with "" => true | String a s => P a && str_all P s end.

Fixpoint str_in (a : ascii) (s : string) : bool :=
  match s with "" => false | String b s => bool_decide (a = b) || str_in a s end.

(** ** package strings *)

Definition HasPrefix (s p : string) : bool := String.prefix p s.

Definition HasSuffix (s p : string) : bool := String.prefix (str_rev p) (str_rev s).

Definition TrimPrefix (s p : string) : string :=
  if HasPrefix s p then drop_str (String.length p) s else s.

Definition CutPrefix (s p : string) : option string :=
  if HasPrefix s p then Some (drop_str (String.length p) s) else None.

Definition Contains (s sub : string) : bool :=
  match String.index 0 sub s with Some _ => true | None => false end.

(** [strings.Cut]: before, after, found. *)
Definition Cut (s sep : string) : string * string * bool :=
  match String.index 0 sep s with
  | Some i => (take_str i s, drop_str (i + String.length sep) s, true)
  | None => (s, "", false)
  end.

(** [strings.Split]/[SplitSeq] on a one-byte separator. *)
Fixpoint Split (sep : ascii) (s : string) : list string :=
  match s with
  | "" => [""]
  | String a s' =>
      if bool_decide (a = sep) then "" :: Split sep s'
      else match Split sep s' with
           | [] => [str1 a]
           | p :: ps => String a p :: ps
           end
  end.

Fixpoint Join (l : list string) (sep : string) : string :=
  match l with
  | [] => ""
  | [s] => s
  | s :: l => (s ++ sep ++ Join l sep)%string
  end.

(** [strings.TrimLeft]/[TrimRight] with an ASCII cutset. *)
Fixpoint TrimLeft (s cutset : string) : string :=
  match s with
  | "" => ""
  | String a s' => if str_in a cutset then TrimLeft s' cutset else s
  end.

Fixpoint TrimRight (s cutset : string) : string :=
  match s with
  | "" => ""
  | String a s' =>
      match TrimRight s' cutset with
      | "" => if str_in a cutset then "" else str1 a
      | r => String a r
      end
  end.

(** ** White space: [unicode.IsSpace] in UTF-8

    The byte length of the white-space rune a string starts with, 0 when it
    starts with none.  U+0085, U+00A0, U+1680, U+2000-U+200A, U+2028, U+2029,
    U+202F, U+205F and U+3000 are the ones outside ASCII. *)
Definition is_ascii_space (a : ascii) : bool :=
  let n := byte_val a in ((9 <=? n) && (n <=? 13) || (n =? 32))%Z.

Definition space_len (s : string) : nat :=
  match s with
  | "" => 0
  | String a s1 =>
      if is_ascii_space a then 1
      else match s1 with
      | "" => 0
      | String b s2 =>
          let x := byte_val a in let y := byte_val b in
          if ((x =? 194) && ((y =? 133) || (y =? 160)))%Z then 2
          else match s2 with
          | "" => 0
          | String c _ =>
              let z := byte_val c in
              if ((x =? 225) && (y =? 154) && (z =? 128)
                  || (x =? 226) && (y =? 128)
                     && ((128 <=? z) && (z <=? 138) || (z =? 168) || (z =? 169) || (z =? 175))
                  || (x =? 226) && (y =? 129) && (z =? 159)
                  || (x =? 227) && (y =? 128) && (z =? 128))%Z
              then 3 else 0
          end
      end
  end.

(** The same looking backwards: the white-space rune a reversed string starts with. *)
Definition space_len_rev (r : string) : nat :=
  if (space_len (take_str 1 r) =? 1)%nat then 1
  else if (space_len (str_rev (take_str 2 r)) =? 2)%nat then 2
  else if (space_len (str_rev (take_str 3 r)) =? 3)%nat then 3
  else 0.

(** Drops leading white space; [skip] counts the bytes left of a rune. *)
Fixpoint trim_front (len : string → nat) (skip : nat) (s : string) : string :=
  match s with
  | "" => ""
  | String _ s' =>
      match skip with
      | S k => trim_front len k s'
      | O => match len s with
             | O => s
             | S k => trim_front len k s'
             end
      end
  end.

Definition TrimSpace (s : string) : string :=
  str_rev (trim_front space_len_rev 0 (str_rev (trim_front space_len 0 s))).

(** [strings.Fields]: the maximal runs between white space. *)
Fixpoint fields_go (skip : nat) (cur : string) (s : string) : list string :=
  let flush := if bool_decide (cur = "") then [] else [cur] in
  match s with
  | "" => flush
  | String a s' =>
      match skip with
      | S k => fields_go k cur s'
      | O => match space_len s with
             | O => fields_go 0 (cur ++ str1 a)%string s'
             | S k => flush ++ fields_go k "" s'
             end
      end
  end.

Definition Fields (s : string) : list string := fields_go 0 "" s.

(** ** Case *)
Definition lower_byte (a : ascii) : ascii :=
  let n := byte_val a in
  if ((65 <=? n) && (n <=? 90))%Z then ascii_of_N (Z.to_N (n + 32)) else a.

Definition upper_byte (a : ascii) : ascii :=
  let n := byte_val a in
  if ((97 <=? n) && (n <=? 122))%Z then ascii_of_N (Z.to_N (n - 32)) else a.

(** U+212A (Kelvin sign) lowers to k, U+0130 to i. *)
Fixpoint ToLower (s : string) : string :=
  match s with
  | String "226" (String "132" (String "170" s')) => String "k" (ToLower s')
  | String "196" (String "176" s') => String "i" (ToLower s')
  | String a s' => String (lower_byte a) (ToLower s')
  | "" => ""
  end.

(** U+0131 (dotless i) raises to I, U+017F (long s) to S. *)
Fixpoint ToUpper (s : string) : string :=
  match s with
  | String "196" (String "177" s') => String "I" (ToUpper s')
  | String "197" (String "191" s') => String "S" (ToUpper s')
  | String a s' => String (upper_byte a) (ToUpper s')
  | "" => ""
  end.

(** ** package strconv *)
Definition is_digit (a : ascii) : bool :=
  let n := byte_val a in ((48 <=? n) && (n <=? 57))%Z.

(** The value of a digit string in a base up to ten; [None] on any other byte. *)
Fixpoint digits_val (base acc : Z) (s : string) : option Z :=
  match s with
  | "" => Some acc
  | String a s' =>
      let d := (byte_val a - 48)%Z in
      if ((0 <=? d) && (d <? base))%Z then digits_val base (acc * base + d) s' else None
  end.

Definition parse_nat (base : Z) (s : string) : option Z :=
  match s with "" => None | _ => digits_val base 0 s end.

(** [strconv.ParseUint s base bits], base 8 or 10. *)
Definition ParseUint (s : string) (base bits : Z) : option Z :=
  v ← parse_nat base s; if (v <? 2 ^ bits)%Z then Some v else None.

(** [strconv.ParseInt s 10 64], which is [strconv.Atoi] on a 64-bit platform. *)
Definition ParseInt (s : string) : option Z :=
  match s with
  | String "-" s' => v ← parse_nat 10 s'; if (v <=? two63)%Z then Some (- v)%Z else None
  | String "+" s' => v ← parse_nat 10 s'; if (v <? two63)%Z then Some v else None
  | _ => v ← parse_nat 10 s; if (v <? two63)%Z then Some v else None
  end.

Definition Atoi (s : string) : option Z := ParseInt s.

(** ** package unicode/utf8 *)

Definition cont_in (lo hi : Z) (s : string) : bool :=
  match s with String a _ => (lo <=? byte_val a)%Z && (byte_val a <=? hi)%Z | "" => false end.

(** The byte length of the first rune; an invalid encoding counts as one byte. *)
Definition rune_len (s : string) : nat :=
  match s with
  | "" => 0
  | String a s1 =>
      let x := byte_val a in
      let tl1 := drop_str 1 s1 in
      let tl2 := drop_str 2 s1 in
      if ((194 <=? x) && (x <=? 223))%Z then (if cont_in 128 191 s1 then 2 else 1)
      else if ((224 <=? x) && (x <=? 239))%Z then
        let lo := (if x =? 224 then 160 else 128)%Z in
        let hi := (if x =? 237 then 159 else 191)%Z in
        if cont_in lo hi s1 && cont_in 128 191 tl1 then 3 else 1
      else if ((240 <=? x) && (x <=? 244))%Z then
        let lo := (if x =? 240 then 144 else 128)%Z in
        let hi := (if x =? 244 then 143 else 191)%Z in
        if cont_in lo hi s1 && cont_in 128 191 tl1 && cont_in 128 191 tl2 then 4 else 1
      else 1
  end.

Fixpoint rune_count_go (skip : nat) (s : string) : nat :=
  match s with
  | "" => 0
  | String _ s' =>
      match skip with
      | S k => rune_count_go k s'
      | O => S (rune_count_go (pred (rune_len s)) s')
      end
  end.

Definition RuneCount (s : string) : nat := rune_count_go 0 s.

(** ** package fmt: [%d], and [%-*s] (widths count runes) *)
Definition fmt_d (z : Z) : string := pretty z.

Definition pad_right (w : nat) (s : string) : string :=
  (s ++ str_repeat " " (w - RuneCount s))%string.

(** ** package time: durations in nanoseconds *)
Definition Second : Z := 1000000000.

(** [Duration.String] of a whole number of seconds. *)
Definition duration_string (secs : Z) : string :=
  let u := Z.abs secs in
  if (u =? 0)%Z then "0s" else
  let s := (fmt_d (u mod 60) ++ "s")%string in
  let m := (u / 60)%Z in
  let s := if (0 <? m)%Z then (fmt_d (m mod 60) ++ "m" ++ s)%string else s in
  let h := (m / 60)%Z in
  let s := if (0 <? h)%Z then (fmt_d h ++ "h" ++ s)%string else s in
  if (secs <? 0)%Z then ("-" ++ s)%string else s.

(** [time.Since], which saturates at the ends of the Duration range. *)
Definition time_since (now start : Z) : Z := Z.max MinInt64 (Z.min MaxInt64 (now - start)).

Definition trunc_seconds (d : Z) : Z := Z.quot d Second.

(** ** Lemmas *)

#[global] Arguments String.append : simpl nomatch.

Lemma app_nil_r_str (s : string) : s +:+ "" = s.
Proof. induction s as [|a s IH]; simpl; [done|]. by rewrite IH. Qed.

Lemma app_assoc_str (s1 s2 s3 : string) : (s1 +:+ s2) +:+ s3 = s1 +:+ (s2 +:+ s3).
Proof. induction s1 as [|a s IH]; simpl; [done|]. by rewrite IH. Qed.

Lemma take_app_str (s1 s2 : string) : take_str (String.length s1) (s1 +:+ s2) = s1.
Proof. induction s1 as [|a s IH]; simpl; [by destruct s2|]. by rewrite IH. Qed.

Lemma drop_app_str (s1 s2 : string) : drop_str (String.length s1) (s1 +:+ s2) = s2.
Proof. by induction s1. Qed.

Lemma str_all_app P s1 s2 : str_all P (s1 +:+ s2) = str_all P s1 && str_all P s2.
Proof. induction s1 as [|a s IH]; simpl; [done|]. by rewrite IH, andb_assoc. Qed.

Lemma str_all_in P s a : str_all P s = true → P a = false → str_in a s = false.
Proof.
  induction s as [|b s IH]; simpl; [done|]. intros [H1 H2]%andb_prop Ha.
  case_bool_decide; subst; simpl; [congruence|auto].
Qed.

Lemma str_in_app a s1 s2 : str_in a (s1 +:+ s2) = str_in a s1 || str_in a s2.
Proof. induction s1 as [|b s IH]; simpl; [done|]. by rewrite IH, orb_assoc. Qed.

(** Searching a one-byte separator. *)
Lemma index_char c s :
  String.index 0 (str1 c) s =
  match s with
  | "" => None
  | String a s' => if bool_decide (a = c) then Some 0 else S <$> String.index 0 (str1 c) s'
  end.
Proof.
  destruct s as [|a s]; [done|]. simpl. destruct (ascii_dec c a) as [<-|Hn].
  - rewrite bool_decide_true by done. by destruct s.
  - rewrite bool_decide_false by done. by destruct (String.index 0 (str1 c) s).
Qed.

Lemma index_char_app c s1 s2 :
  str_in c s1 = false → String.index 0 (str1 c) (s1 +:+ String c s2) = Some (String.length s1).
Proof.
  induction s1 as [|a s IH]; intros Hin; rewrite index_char; simpl in *.
  - by rewrite bool_decide_true.
  - apply orb_false_iff in Hin as [Ha Hs]. apply bool_decide_eq_false in Ha.
    rewrite bool_decide_false by done. by rewrite IH.
Qed.

Lemma index_char_none c s : str_in c s = false → String.index 0 (str1 c) s = None.
Proof.
  induction s as [|a s IH]; intros Hin; rewrite index_char; [done|]. simpl in Hin.
  apply orb_false_iff in Hin as [Ha Hs]. apply bool_decide_eq_false in Ha.
  rewrite bool_decide_false by done. by rewrite IH.
Qed.

Lemma Cut_app c s1 s2 : str_in c s1 = false → Cut (s1 +:+ String c s2) (str1 c) = (s1, s2, true).
Proof.
  intros H. unfold Cut. rewrite index_char_app by done. rewrite take_app_str. simpl.
  replace (s1 +:+ String c s2) with ((s1 +:+ str1 c) +:+ s2) by (by rewrite app_assoc_str).
  replace (String.length s1 + 1) with (String.length (s1 +:+ str1 c)).
  - by rewrite drop_app_str.
  - clear H. induction s1; simpl; auto.
Qed.

Lemma Cut_none c s : str_in c s = false → Cut s (str1 c) = (s, "", false).
Proof. intros H. unfold Cut. by rewrite index_char_none. Qed.

Lemma Contains_char c s : Contains s (str1 c) = str_in c s.
Proof.
  unfold Contains. induction s as [|a s IH]; rewrite index_char; simpl; [done|].
  destruct (decide (a = c)) as [->|Hn].
  - by rewrite !bool_decide_true.
  - rewrite !bool_decide_false by congruence. simpl. rewrite <- IH.
    by destruct (String.index 0 (str1 c) s).
Qed.

Lemma Split_one sep s : str_in sep s = false → Split sep s = [s].
Proof.
  induction s as [|a s IH]; simpl; [done|]. intros [Ha Hs]%orb_false_iff.
  apply bool_decide_eq_false in Ha. rewrite bool_decide_false by done. by rewrite IH.
Qed.

Lemma Split_app sep s1 s2 :
  str_in sep s1 = false → Split sep (s1 +:+ String sep s2) = s1 :: Split sep s2.
Proof.
  induction s1 as [|a s IH]; simpl.
  - intros _. by rewrite bool_decide_true.
  - intros [Ha Hs]%orb_false_iff. apply bool_decide_eq_false in Ha.
    rewrite bool_decide_false by done. by rewrite IH.
Qed.

Lemma Split_Join sep l :
  l ≠ [] → Forall (λ s, str_in sep s = false) l → Split sep (Join l (str1 sep)) = l.
Proof.
  intros Hne Hl. induction l as [|s [|s' l] IH]; [done| |].
  - inversion Hl. by apply Split_one.
  - inversion Hl. change (Join (s :: s' :: l) (str1 sep)) with (s +:+ String sep (Join (s' :: l) (str1 sep))).
    rewrite Split_app by done. by rewrite IH.
Qed.

Lemma HasPrefix_cons a s c p : HasPrefix (String a s) (String c p) = bool_decide (a = c) && HasPrefix s p.
Proof.
  unfold HasPrefix. cbn [String.prefix]. destruct (ascii_dec c a) as [->|Hn].
  - by rewrite bool_decide_true.
  - by rewrite bool_decide_false.
Qed.

Lemma HasPrefix_empty s : HasPrefix s "" = true.
Proof. by destruct s. Qed.

(** *** Trimming *)

Lemma str_rev_app s1 s2 : str_rev (s1 +:+ s2) = str_rev s2 +:+ str_rev s1.
Proof.
  induction s1 as [|a s IH]; simpl; [by rewrite app_nil_r_str|]. by rewrite IH, app_assoc_str.
Qed.

Lemma str_rev_involutive s : str_rev (str_rev s) = s.
Proof. induction s as [|a s IH]; simpl; [done|]. by rewrite str_rev_app, IH. Qed.

Lemma length_app_str s1 s2 : String.length (s1 +:+ s2) = String.length s1 + String.length s2.
Proof. induction s1 as [|a s IH]; simpl; [done|]. by rewrite IH. Qed.

Lemma snoc_str (s : string) : s = "" ∨ ∃ r a, s = r +:+ str1 a.
Proof.
  induction s as [|a s [->|(r & b & ->)]]; [by left|right; by exists "", a|right; by exists (String a r), b].
Qed.

(** A visible ASCII byte. *)
Definition solid (a : ascii) : bool := let n := byte_val a in ((33 <=? n) && (n <=? 126))%Z.

(** A string that starts and ends with visible ASCII bytes. *)
Definition solid_ends (s : string) : Prop :=
  (∃ a s', s = String a s' ∧ solid a = true) ∧ (∃ r b, s = r +:+ str1 b ∧ solid b = true).

Lemma solid_space_len a s : solid a = true → space_len (String a s) = 0.
Proof.
  unfold solid, space_len, is_ascii_space. cbv zeta. intros Ha.
  destruct ((9 <=? byte_val a) && (byte_val a <=? 13) || (byte_val a =? 32))%Z eqn:E; [lia|].
  repeat case_match; try done; lia.
Qed.

Lemma space_len_two x a : solid a = true → space_len (String x (str1 a)) ≠ 2.
Proof.
  unfold solid, space_len, str1. cbv zeta. intros Ha. destruct (is_ascii_space x); [done|].
  destruct ((byte_val x =? 194) && ((byte_val a =? 133) || (byte_val a =? 160)))%Z eqn:E; [lia|done].
Qed.

Lemma space_len_three x y a : solid a = true → space_len (String x (String y (str1 a))) ≠ 3.
Proof.
  unfold solid, space_len, str1. cbv zeta. intros Ha. destruct (is_ascii_space x); [done|].
  destruct ((byte_val x =? 194) && ((byte_val y =? 133) || (byte_val y =? 160)))%Z; [done|].
  match goal with |- (if ?c then _ else _) ≠ _ => destruct c eqn:E; [lia|done] end.
Qed.

Lemma solid_space_len_rev a r : solid a = true → space_len_rev (String a r) = 0.
Proof.
  intros Ha. unfold space_len_rev. cbn [take_str]. rewrite (solid_space_len a "" Ha). cbn [Nat.eqb].
  assert (H2 : (space_len (str_rev (String a (take_str 1 r))) =? 2) = false).
  { apply Nat.eqb_neq. destruct r as [|b r].
    { change (space_len (String a "") ≠ 2). by rewrite solid_space_len. }
    change (take_str 1 (String b r)) with (str1 b). by apply space_len_two. }
  assert (H3 : (space_len (str_rev (String a (take_str 2 r))) =? 3) = false).
  { apply Nat.eqb_neq. destruct r as [|b [|c r]]; [| |by apply space_len_three].
    { change (space_len (String a "") ≠ 3). by rewrite solid_space_len. }
    change (str_rev (String a (take_str 2 (str1 b)))) with (String b (str1 a)).
    unfold space_len, str1. cbv zeta. repeat case_match; done. }
  cbn [take_str] in H2, H3. destruct r; simpl in H2, H3 |- *; by rewrite H2, H3.
Qed.

Lemma TrimSpace_solid s : solid_ends s → TrimSpace s = s.
Proof.
  intros [(a & s' & Hs & Ha) (r & b & Hr & Hb)]. unfold TrimSpace.
  assert (Hf : trim_front space_len 0 s = s).
  { rewrite Hs. cbn [trim_front]. by rewrite solid_space_len. }
  rewrite Hf. assert (Hrev : str_rev s = String b (str_rev r)) by (rewrite Hr, str_rev_app; done).
  rewrite Hrev. cbn [trim_front]. rewrite solid_space_len_rev by done. rewrite <- Hrev.
  apply str_rev_involutive.
Qed.

Lemma TrimSpace_spaces n s : solid_ends s → TrimSpace (str_repeat " " n +:+ s) = s.
Proof.
  intros Hs. rewrite <- (TrimSpace_solid s Hs) at 2. unfold TrimSpace. do 3 f_equal.
  induction n as [|n IH]; simpl; [done|]. exact IH.
Qed.

Lemma solid_ends_app s1 s2 :
  (∃ a s', s1 = String a s' ∧ solid a = true) → (∃ r b, s2 = r +:+ str1 b ∧ solid b = true) →
  solid_ends (s1 +:+ s2).
Proof.
  intros (a & s' & -> & Ha) (r & b & -> & Hb). split.
  - exists a, (s' +:+ (r +:+ str1 b)). done.
  - exists (String a s' +:+ r), b. by rewrite app_assoc_str.
Qed.

Lemma TrimRight_keep s r b cut : s = r +:+ str1 b → str_in b cut = false → TrimRight s cut = s.
Proof.
  intros -> Hb. induction r as [|a r IH]; simpl; [by rewrite Hb|].
  rewrite IH. by destruct r.
Qed.

Lemma TrimLeft_repeat n s c cut :
  str_in c cut = true → TrimLeft (str_repeat c n +:+ s) cut = TrimLeft s cut.
Proof. intros Hc. induction n as [|n IH]; simpl; [done|]. by rewrite Hc. Qed.

Lemma str_all_impl (P Q : ascii → bool) s :
  (∀ a, P a = true → Q a = true) → str_all P s = true → str_all Q s = true.
Proof.
  intros H. induction s as [|a s IH]; simpl; [done|]. intros [H1 H2]%andb_prop.
  by rewrite (H a H1), IH.
Qed.

(** *** Decimal numbers *)

Lemma pretty_N_char_digit x :
  (x < 10)%N → is_digit (pretty_N_char x) = true ∧ (byte_val (pretty_N_char x) - 48 = Z.of_N x)%Z.
Proof.
  intros H. assert (x ∈ [0;1;2;3;4;5;6;7;8;9]%N) as Hx.
  { rewrite !elem_of_cons. lia. }
  rewrite !elem_of_cons in Hx.
  repeat (destruct Hx as [->|Hx]; [by vm_compute|]). by apply not_elem_of_nil in Hx.
Qed.

Lemma pretty_N_go_val x : ∀ s,
  ∃ k : Z, (0 < k)%Z ∧ ∀ acc, digits_val 10 acc (pretty_N_go x s) = digits_val 10 (acc * k + Z.of_N x) s.
Proof.
  induction (N.lt_wf_0 x) as [x _ IH]; intros s.
  destruct (decide (x = 0)%N) as [->|Hx].
  { exists 1%Z. split; [lia|]. intros acc. rewrite pretty_N_go_0. f_equal. lia. }
  rewrite pretty_N_go_step by lia.
  destruct (IH (x `div` 10)%N (N.div_lt x 10 ltac:(lia) ltac:(lia))
    (String (pretty_N_char (x `mod` 10)) s)) as (k & Hk & Heq).
  exists (k * 10)%Z. split; [lia|]. intros acc. rewrite Heq. cbn [digits_val].
  destruct (pretty_N_char_digit (x `mod` 10)) as [_ Hd]; [by apply N.mod_lt|].
  rewrite Hd.
  assert (Hm : (x `mod` 10 < 10)%N) by (by apply N.mod_lt).
  pose proof (N.div_mod x 10 ltac:(lia)) as Hdm.
  set (q := (x `div` 10)%N) in *. set (m := (x `mod` 10)%N) in *. clearbody q m.
  rewrite (proj2 (Z.leb_le _ _)), (proj2 (Z.ltb_lt _ _)) by lia. simpl. f_equal. lia.
Qed.

Lemma pretty_N_go_digits x : ∀ s, str_all is_digit s = true → str_all is_digit (pretty_N_go x s) = true.
Proof.
  induction (N.lt_wf_0 x) as [x _ IH]; intros s Hs.
  destruct (decide (x = 0)%N) as [->|Hx]; [by rewrite pretty_N_go_0|].
  rewrite pretty_N_go_step by lia. apply IH; [apply N.div_lt; lia|]. cbn [str_all].
  destruct (pretty_N_char_digit (x `mod` 10)) as [-> _]; [by apply N.mod_lt|done].
Qed.

Lemma pretty_N_digits (x : N) : str_all is_digit (pretty x) = true.
Proof.
  unfold pretty, pretty_N. case_decide; [done|]. by apply pretty_N_go_digits.
Qed.

Lemma pretty_N_parse (x : N) : parse_nat 10 (pretty x) = Some (Z.of_N x).
Proof.
  unfold pretty, pretty_N. case_decide as Hx; [by subst|].
  destruct (pretty_N_go_val x "") as (k & Hk & Heq). specialize (Heq 0%Z). simpl in Heq.
  unfold parse_nat. destruct (pretty_N_go x "") eqn:E; [|done].
  simpl in Heq. injection Heq as Heq. lia.
Qed.

Lemma fmt_d_nonneg (z : Z) : (0 ≤ z)%Z → fmt_d z = pretty (Z.to_N z).
Proof. intros H. unfold fmt_d. destruct z; [done|done|lia]. Qed.

Lemma fmt_d_digits (z : Z) : (0 ≤ z)%Z → str_all is_digit (fmt_d z) = true.
Proof. intros H. rewrite fmt_d_nonneg by done. apply pretty_N_digits. Qed.

Lemma fmt_d_not_nil (z : Z) : fmt_d z ≠ "".
Proof.
  unfold fmt_d. destruct z as [|p|p]; [done| |done]. intros H.
  pose proof (pretty_N_parse (Npos p)) as Hp. change (pretty (Npos p)) with (pretty (Zpos p)) in Hp.
  by rewrite H in Hp.
Qed.

(** Reading a decimal number back: [Atoi] after [%d]. *)
Lemma digits_val_nonneg base s : ∀ acc v, (0 ≤ base)%Z → (0 ≤ acc)%Z → digits_val base acc s = Some v → (0 ≤ v)%Z.
Proof.
  induction s as [|a s IH]; intros acc v Hb Ha; simpl; [by intros [= <-]|].
  destruct (_ && _)%Z eqn:E; [|done]. apply andb_true_iff in E as [E1 E2]. apply IH; lia.
Qed.

Lemma ParseInt_digits s :
  str_all is_digit s = true →
  ParseInt s = (v ← parse_nat 10 s; if (v <? two63)%Z then Some v else None).
Proof.
  intros H. destruct s as [|a s]; [done|]. simpl in H. apply andb_prop in H as [Ha _].
  destruct a as [[] [] [] [] [] [] [] []]; try done.
Qed.

Lemma Atoi_fmt_d (z : Z) : in_int64 z → Atoi (fmt_d z) = Some z.
Proof.
  unfold in_int64, MinInt64, MaxInt64. intros Hz. unfold Atoi. destruct (Z.le_gt_cases 0 z).
  - rewrite ParseInt_digits by (by apply fmt_d_digits).
    rewrite fmt_d_nonneg, pretty_N_parse by done. simpl. rewrite Z2N.id by lia.
    destruct (Z.ltb_spec z two63); [done|lia].
  - destruct z as [|p|p]; try lia. unfold fmt_d.
    change (pretty (Zneg p)) with (String "-" (pretty (Npos p))). simpl.
    rewrite pretty_N_parse. simpl. destruct (Z.leb_spec (Zpos p) two63); [done|lia].
Qed.

Example duration_string_ex :
  duration_string 0 = "0s" ∧ duration_string 60 = "1m0s" ∧ duration_string 3723 = "1h2m3s".
Proof. by vm_compute. Qed.

Example fields_ex : Fields "  a b	c  " = ["a"; "b"; "c"] ∧ TrimSpace "  a b  " = "a b".
Proof. by vm_compute. Qed.

(** ** Words separated by spaces *)

Definition word (w : string) : Prop := w ≠ "" ∧ str_all solid w = true.

Lemma fields_word w cur s : str_all solid w = true → fields_go 0 cur (w +:+ s) = fields_go 0 (cur +:+ w) s.
Proof.
  revert cur. induction w as [|a w IH]; intros cur H; [by rewrite app_nil_r_str|].
  apply andb_true_iff in H as [Ha H]. cbn [String.append fields_go].
  change (space_len (String a (w +:+ s))) with (space_len (String a (w +:+ s))). rewrite (solid_space_len a _ Ha).
  change (fields_go 0 (cur +:+ str1 a) (w +:+ s) = fields_go 0 (cur +:+ String a w) s).
  rewrite (IH _ H), app_assoc_str. done.
Qed.

Lemma Fields_words ws : Forall word ws → Fields (Join ws " ") = ws.
Proof.
  unfold Fields. induction ws as [|w ws IH]; intros H; [done|]. apply Forall_cons in H as [[Hne Hw] H].
  destruct ws as [|w' ws].
  - cbn [Join]. rewrite <- (app_nil_r_str w) at 1. rewrite fields_word by done. cbn [fields_go].
    change ("" +:+ w) with w. by rewrite bool_decide_false.
  - change (Join (w :: w' :: ws) " ") with (w +:+ String " " (Join (w' :: ws) " ")). rewrite fields_word by done.
    change ("" +:+ w) with w. cbn [fields_go]. change (space_len (String " " _)) with 1. cbv zeta iota.
    rewrite bool_decide_false by done. cbn [app]. f_equal. apply (IH H).
Qed.

Lemma word_ends w : word w → solid_ends w.
Proof.
  intros [Hne Hw]. destruct w as [|a w]; [done|]. split.
  - exists a, w. split; [done|]. by apply andb_true_iff in Hw as [? _].
  - destruct (snoc_str (String a w)) as [?|(r & b & E)]; [done|]. exists r, b. split; [done|].
    rewrite E, str_all_app in Hw. apply andb_true_iff in Hw as [_ Hb]. cbn in Hb. by rewrite andb_true_r in Hb.
Qed.

Lemma Join_ends w ws : Forall word (w :: ws) → solid_ends (Join (w :: ws) " ").
Proof.
  revert w. induction ws as [|w' ws IH]; intros w [Hw H]%Forall_cons; [by apply word_ends|].
  change (Join (w :: w' :: ws) " ") with (w +:+ (" " +:+ Join (w' :: ws) " ")).
  apply solid_ends_app; [apply (word_ends w Hw)|]. destruct (IH w' H) as [_ (r & b' & -> & Hb)].
  exists (" " +:+ r), b'. by rewrite app_assoc_str.
Qed.

Definition line_byte (a : ascii) : bool := solid a || bool_decide (a = " "%char).

(** White space after a text is trimmed with the rest. *)
Lemma TrimSpace_newline s : solid_ends s → TrimSpace (s +:+ str1 "010") = s.
Proof.
  intros [(a & s' & -> & Ha) (r & b & Hr & Hb)]. unfold TrimSpace.
  change (String a s' +:+ str1 "010") with (String a (s' +:+ str1 "010")). cbn [trim_front]. rewrite solid_space_len by done.
  change (String a (s' +:+ str1 "010")) with (String a s' +:+ str1 "010"). rewrite str_rev_app, Hr, str_rev_app.
  change (str_rev (str1 "010") +:+ ?x) with (String "010" x). cbn [trim_front]. change (str_rev (str1 b) +:+ ?x) with (String b x).
  change (space_len_rev (String "010" _)) with 1%nat. cbv iota. cbn [trim_front]. rewrite solid_space_len_rev by done.
  change (String b (str_rev r)) with (str_rev (str1 b) +:+ str_rev r). rewrite <- str_rev_app. apply str_rev_involutive.
Qed.

Lemma fmt_d_word (z : Z) : (0 ≤ z)%Z → word (fmt_d z).
Proof.
  intros H. split; [apply fmt_d_not_nil|]. pose proof (fmt_d_digits z H) as Hd. induction (fmt_d z) as [|a s IH]; [done|].
  cbn in Hd |- *. apply andb_true_iff in Hd as [Ha Hd]. rewrite (IH Hd), andb_true_r. unfold is_digit, solid in *. lia.
Qed.

