(* ===== verification/GoQuote.v ===== *)
(** * strconv.Quote

    Go's quoting of a string, and a reader of what it writes.  Which runes above
    ASCII are printable is a table of the standard library, here the argument
    [isPrint]; the reader does not depend on it. *)

From S2P Require Import Prelude GoStrings.

Open Scope string_scope.
Open Scope list_scope.
Open Scope Z_scope.

Module GoQuote.

Definition chr (z : Z) : ascii := ascii_of_N (Z.to_N z).

Definition quote_char : ascii := "034"%char.
Definition backslash : ascii := "\"%char.

(** [n] digits of [lowerhex]. *)
Definition hexdigit (z : Z) : ascii := at_ "0123456789abcdef" (Z.to_nat z).

Fixpoint hex (n : nat) (z : Z) : string :=
  match n with
  | O => ""
  | S k => String (hexdigit (Z.land (Z.shiftr z (4 * Z.of_nat k)) 15)) (hex k z)
  end.

(** ** Runes *)

(** [utf8.DecodeRuneInString], the width being known to be that of the rune. *)
Definition rune_at (width : nat) (s : string) : Z :=
  let b i := byte_val (at_ s i) in
  match width with
  | 2%nat => b 0%nat `mod` 32 * 64 + b 1%nat `mod` 64
  | 3%nat => b 0%nat `mod` 16 * 4096 + b 1%nat `mod` 64 * 64 + b 2%nat `mod` 64
  | 4%nat => b 0%nat `mod` 8 * 262144 + b 1%nat `mod` 64 * 4096 + b 2%nat `mod` 64 * 64 + b 3%nat `mod` 64
  | _ => b 0%nat
  end.

(** [utf8.AppendRune] of a valid rune. *)
Definition encode_rune (r : Z) : string :=
  if r <? 128 then str1 (chr r)
  else if r <? 2048 then String (chr (192 + r / 64)) (str1 (chr (128 + r `mod` 64)))
  else if r <? 65536 then String (chr (224 + r / 4096)) (String (chr (128 + (r / 64) `mod` 64)) (str1 (chr (128 + r `mod` 64))))
  else String (chr (240 + r / 262144)) (String (chr (128 + (r / 4096) `mod` 64)) (String (chr (128 + (r / 64) `mod` 64)) (str1 (chr (128 + r `mod` 64))))).

(** ** Quoting *)

Section quote.
Context (isPrint : Z → bool).

Definition IsPrint (r : Z) : bool := if r <? 128 then (32 <=? r) && (r <? 127) else isPrint r.

Definition escapes : list (Z * ascii) :=
  [(7, "a"); (8, "b"); (12, "f"); (10, "n"); (13, "r"); (9, "t"); (11, "v")]%char.

Definition short_escape (r : Z) : option ascii := snd <$> List.find (λ p, p.1 =? r) escapes.

(** [appendEscapedRune] of a valid rune. *)
Definition escaped_rune (r : Z) : string :=
  if (r =? 34) || (r =? 92) then String backslash (str1 (chr r))
  else if IsPrint r then encode_rune r
  else match short_escape r with
  | Some c => String backslash (str1 c)
  | None =>
      if (r <? 32) || (r =? 127) then "\x" +:+ hex 2 r
      else if r <? 65536 then "\u" +:+ hex 4 r
      else "\U" +:+ hex 8 r
  end.

(** The first rune of a string, or its first byte when that begins none. *)
Definition piece (s : string) : string :=
  let b := byte_val (at_ s 0) in
  let width := rune_len s in
  if (128 <=? b) && Nat.eqb width 1 then "\x" +:+ hex 2 b else escaped_rune (rune_at width s).

Fixpoint quote_go (skip : nat) (s : string) : string :=
  match s with
  | "" => ""
  | String _ s' =>
      match skip with
      | S k => quote_go k s'
      | O => piece s +:+ quote_go (pred (rune_len s)) s'
      end
  end.

Definition Quote (s : string) : string := String quote_char (quote_go 0 s +:+ str1 quote_char).

End quote.

(** ** Reading back *)

Definition unhexdigit (a : ascii) : option Z :=
  let n := byte_val a in
  if (48 <=? n) && (n <=? 57) then Some (n - 48) else if (97 <=? n) && (n <=? 102) then Some (n - 87) else None.

Fixpoint unhex (n : nat) (acc : Z) (s : string) : option Z :=
  match n, s with
  | O, _ => Some acc
  | S k, String a s => d ← unhexdigit a; unhex k (acc * 16 + d) s
  | _, _ => None
  end.

(** What the text after a backslash stands for, and how long it is. *)
Definition read_escape (s : string) : option (string * nat) :=
  match s with
  | "" => None
  | String c t =>
      if bool_decide (c = "x"%char) then r ← unhex 2 0 t; Some (str1 (chr r), 3%nat)
      else if bool_decide (c = "u"%char) then r ← unhex 4 0 t; Some (encode_rune r, 5%nat)
      else if bool_decide (c = "U"%char) then r ← unhex 8 0 t; Some (encode_rune r, 9%nat)
      else if bool_decide (c = quote_char) || bool_decide (c = backslash) then Some (str1 c, 1%nat)
      else match List.find (λ p, bool_decide (p.2 = c)) escapes with
      | Some p => Some (str1 (chr p.1), 1%nat)
      | None => None
      end
  end.

(** The value up to the closing quote, and what follows it. *)
Fixpoint unquote_go (skip : nat) (s : string) : option (string * string) :=
  match s with
  | "" => None
  | String c s' =>
      match skip with
      | S k => unquote_go k s'
      | O =>
          if bool_decide (c = quote_char) then Some ("", s')
          else if bool_decide (c = backslash) then
            '(v, n) ← read_escape s'; '(w, r) ← unquote_go n s'; Some (v +:+ w, r)
          else '(w, r) ← unquote_go 0 s'; Some (String c w, r)
      end
  end.

Definition read_quoted (s : string) : option (string * string) :=
  match s with
  | String c s => if bool_decide (c = quote_char) then unquote_go 0 s else None
  | "" => None
  end.

Example quote_ex :
  let q s := str1 quote_char +:+ s +:+ str1 quote_char in
  Quote (λ _, true) "a b" = q "a b" ∧ Quote (λ _, false) (str1 (chr 233)) = q "\xe9" ∧
  Quote (λ _, false) (String (chr 195) (str1 (chr 169))) = q "\u00e9" ∧
  read_quoted (q "x\ty\u00e9\\" +:+ " z") = Some ("x" +:+ str1 (chr 9) +:+ "y" +:+ encode_rune 233 +:+ "\", " z").
Proof. repeat split; vm_compute; reflexivity. Qed.

(** ** The round trip *)

Lemma chr_byte (a : ascii) : chr (byte_val a) = a.
Proof. unfold chr. rewrite N2Z.id. apply ascii_N_embedding. Qed.

Lemma byte_range (a : ascii) : 0 ≤ byte_val a < 256.
Proof. pose proof (N_ascii_bounded a). lia. Qed.

Lemma byte_chr (z : Z) : 0 ≤ z < 256 → byte_val (chr z) = z.
Proof. intros. unfold chr. rewrite N_ascii_embedding; lia. Qed.

Lemma length_hex n z : String.length (hex n z) = n.
Proof. induction n; cbn; auto. Qed.

Lemma unhex_digit d : 0 ≤ d < 16 → unhexdigit (hexdigit d) = Some d.
Proof.
  intros H. assert (Hd : d ∈ seqZ 0 16) by (apply elem_of_seqZ; lia). clear H. revert d Hd.
  apply Forall_forall. vm_compute. repeat constructor.
Qed.

Lemma unhex_hex n : ∀ z acc t, 0 ≤ z → unhex n acc (hex n z +:+ t) = Some (acc * 16 ^ Z.of_nat n + z `mod` 16 ^ Z.of_nat n).
Proof.
  induction n as [|n IH]; intros z acc t Hz; [cbn; rewrite Z.mod_1_r; f_equal; lia|].
  cbn [hex String.append unhex]. change 15 with (Z.ones 4). rewrite Z.land_ones by lia. rewrite Z.shiftr_div_pow2 by lia.
  rewrite unhex_digit by (apply Z.mod_pos_bound; lia). cbn [mbind option_bind]. rewrite IH by done. f_equal.
  replace (2 ^ (4 * Z.of_nat n)) with (16 ^ Z.of_nat n) by (change 16 with (2 ^ 4); rewrite <- Z.pow_mul_r by lia; f_equal; lia).
  rewrite Nat2Z.inj_succ, Z.pow_succ_r by lia. rewrite (Z.mul_comm 16 (16 ^ _)), Z.rem_mul_r by lia. change (2 ^ 4) with 16. lia.
Qed.

Definition prepend (v : string) (o : option (string * string)) : option (string * string) := '(w, r) ← o; Some (v +:+ w, r).

Lemma prepend_app v w o : prepend v (prepend w o) = prepend (v +:+ w) o.
Proof. destruct o as [[]|]; [|done]. cbn. by rewrite app_assoc_str. Qed.

Lemma unquote_skip x t : unquote_go (String.length x) (x +:+ t) = unquote_go 0 t.
Proof. induction x; cbn; auto. Qed.

Definition unquoted (a : ascii) : bool := negb (bool_decide (a = quote_char)) && negb (bool_decide (a = backslash)).

Lemma unquote_plain raw t : str_all unquoted raw = true → unquote_go 0 (raw +:+ t) = prepend raw (unquote_go 0 t).
Proof.
  induction raw as [|a raw IH]; intros H; [cbn; by destruct (unquote_go 0 t) as [[]|]|].
  cbn in H. apply andb_true_iff in H as [Ha H]. unfold unquoted in Ha. cbn [String.append unquote_go].
  destruct (bool_decide (a = quote_char)), (bool_decide (a = backslash)); try done. rewrite IH by done.
  by destruct (unquote_go 0 t) as [[]|].
Qed.

Lemma unquote_escape x v t : read_escape (x +:+ t) = Some (v, String.length x) →
  unquote_go 0 (String backslash (x +:+ t)) = prepend v (unquote_go 0 t).
Proof. intros H. cbn [unquote_go]. rewrite bool_decide_false, bool_decide_true, H by done. cbn. by rewrite unquote_skip. Qed.

(** The first rune: a byte, or a valid sequence of two to four. *)
Inductive first_rune : nat → string → Prop :=
  | rune1 a s : first_rune 1 (String a s)
  | rune2 a b s : 194 ≤ byte_val a ≤ 223 → 128 ≤ byte_val b ≤ 191 → first_rune 2 (String a (String b s))
  | rune3 a b c s : 224 ≤ byte_val a ≤ 239 → 128 ≤ byte_val b ≤ 191 → (byte_val a = 224 → 160 ≤ byte_val b) →
      128 ≤ byte_val c ≤ 191 → first_rune 3 (String a (String b (String c s)))
  | rune4 a b c d s : 240 ≤ byte_val a ≤ 244 → 128 ≤ byte_val b ≤ 191 → (byte_val a = 240 → 144 ≤ byte_val b) →
      (byte_val a = 244 → byte_val b ≤ 143) → 128 ≤ byte_val c ≤ 191 → 128 ≤ byte_val d ≤ 191 →
      first_rune 4 (String a (String b (String c (String d s)))).

Lemma rune_first a s : first_rune (rune_len (String a s)) (String a s).
Proof.
  cbn [rune_len]. set (x := byte_val a).
  destruct ((194 <=? x) && (x <=? 223)) eqn:E2.
  { destruct s as [|b s]; [constructor|]. unfold cont_in. destruct ((128 <=? byte_val b) && (byte_val b <=? 191)) eqn:Eb; constructor; lia. }
  destruct ((224 <=? x) && (x <=? 239)) eqn:E3.
  { destruct s as [|b [|c s]]; [constructor|cbn; rewrite andb_false_r; constructor|]. cbn [cont_in drop_str].
    match goal with |- first_rune (if ?c then 3%nat else _) _ => destruct c eqn:Eb end; [|constructor].
    destruct (Z.eqb_spec x 224), (Z.eqb_spec x 237); constructor; subst x; lia. }
  destruct ((240 <=? x) && (x <=? 244)) eqn:E4; [|constructor].
  destruct s as [|b [|c [|d s]]]; [constructor|cbn; rewrite ?andb_false_r; constructor..|]. cbn [cont_in drop_str].
  match goal with |- first_rune (if ?c then 4%nat else _) _ => destruct c eqn:Eb end; [|constructor].
  destruct (Z.eqb_spec x 240), (Z.eqb_spec x 244); constructor; subst x; lia.
Qed.

Lemma chr_eq z a : z = byte_val a → chr z = a.
Proof. intros ->. apply chr_byte. Qed.

Ltac divs := Z.to_euclidean_division_equations; lia.
Ltac same_bytes := unfold str1; repeat (apply (f_equal2 String); [apply chr_eq; divs|]); reflexivity.

Lemma encode_first w s : first_rune w s → w ≠ 1%nat →
  128 ≤ rune_at w s < 1114112 ∧ encode_rune (rune_at w s) = take_str w s.
Proof.
  intros H Hw. destruct H as [|a b s Ha Hb|a b c s Ha Hb Hab Hc|a b c d s Ha Hb Hab Hab' Hc Hd]; [done|..];
    unfold rune_at, at_; cbn [String.get default from_option id take_str]; unfold encode_rune.
  - set (r := _ + _). assert (Hr : 128 ≤ r < 2048) by (subst r; divs).
    split; [lia|]. rewrite (proj2 (Z.ltb_ge r 128)), (proj2 (Z.ltb_lt r 2048)) by lia.
    subst r; same_bytes.
  - set (r := _ + _). assert (Hr : 2048 ≤ r < 65536) by (subst r; divs).
    split; [lia|]. rewrite (proj2 (Z.ltb_ge r 128)), (proj2 (Z.ltb_ge r 2048)), (proj2 (Z.ltb_lt r 65536)) by lia.
    subst r; same_bytes.
  - set (r := _ + _). assert (Hr : 65536 ≤ r < 1114112) by (subst r; divs).
    split; [lia|]. rewrite (proj2 (Z.ltb_ge r 128)), (proj2 (Z.ltb_ge r 2048)), (proj2 (Z.ltb_ge r 65536)) by lia.
    subst r; same_bytes.
Qed.

Lemma chr_unquoted z : 0 ≤ z < 256 → z ≠ 34 → z ≠ 92 → unquoted (chr z) = true.
Proof.
  intros Hz H1 H2. unfold unquoted. rewrite !bool_decide_false; [done|..]; intros E; apply (f_equal (λ a, byte_val a)) in E;
    rewrite byte_chr in E by done; by vm_compute in E.
Qed.

Lemma encode_unquoted r : 0 ≤ r < 1114112 → r ≠ 34 → r ≠ 92 → str_all unquoted (encode_rune r) = true.
Proof.
  intros Hr H1 H2. unfold encode_rune. destruct (Z.ltb_spec r 128), (Z.ltb_spec r 2048), (Z.ltb_spec r 65536); try lia;
    cbn [str_all str1]; rewrite !chr_unquoted by divs; done.
Qed.

Lemma encode_ascii r : r < 128 → encode_rune r = str1 (chr r).
Proof. intros H. unfold encode_rune. by rewrite (proj2 (Z.ltb_lt _ _)). Qed.

Lemma short_reads r c t : short_escape r = Some c → r < 128 ∧ read_escape (String c t) = Some (str1 (chr r), 1%nat).
Proof.
  unfold short_escape, escapes. cbn [List.find fst snd].
  repeat match goal with |- context [?z =? r] => destruct (Z.eqb_spec z r) as [<-|_]; [cbn; intros [= <-]; split; [lia|reflexivity]|] end. done.
Qed.

(** The three numeric escapes. *)
Lemma numeric_reads c n v r t : (c, n, v) ∈ [("x"%char, 2%nat, str1 (chr r)); ("u"%char, 4%nat, encode_rune r); ("U"%char, 8%nat, encode_rune r)] →
  0 ≤ r < 16 ^ Z.of_nat n → unquote_go 0 (String backslash (String c (hex n r)) +:+ t) = prepend v (unquote_go 0 t).
Proof.
  intros Hin Hr. apply (unquote_escape (String c (hex n r)) v t). cbn [String.length String.append]. rewrite length_hex.
  pose proof (unhex_hex n r 0 t (proj1 Hr)) as Hx. rewrite Z.mod_small in Hx by done. cbn [Z.mul] in Hx. rewrite Z.add_0_l in Hx.
  revert Hx. rewrite !elem_of_cons in Hin. destruct Hin as [[= -> -> ->]|[[= -> -> ->]|[[= -> -> ->]|Hin]]]; [..|by apply not_elem_of_nil in Hin];
    intros Hx; unfold read_escape; cbn [bool_decide decide]; rewrite Hx; reflexivity.
Qed.

Lemma escaped_reads isPrint r t : 0 ≤ r < 1114112 →
  unquote_go 0 (escaped_rune isPrint r +:+ t) = prepend (encode_rune r) (unquote_go 0 t).
Proof.
  intros Hr. unfold escaped_rune. destruct ((r =? 34) || (r =? 92)) eqn:E.
  { rewrite encode_ascii by lia. change (String backslash (str1 (chr r)) +:+ t) with (String backslash (str1 (chr r) +:+ t)).
    apply unquote_escape. assert (Hq : r = 34 ∨ r = 92) by lia. by destruct Hq as [-> | ->]. }
  destruct (IsPrint isPrint r); [apply unquote_plain, encode_unquoted; lia|].
  destruct (short_escape r) as [c|] eqn:Es.
  { destruct (short_reads r c t Es) as [H Hc]. rewrite encode_ascii by done.
    change (String backslash (str1 c) +:+ t) with (String backslash (str1 c +:+ t)). by apply unquote_escape. }
  destruct ((r <? 32) || (r =? 127)) eqn:Ex; [|destruct (Z.ltb_spec r 65536)].
  - rewrite encode_ascii by lia. apply (numeric_reads "x" 2); [set_solver|cbn; lia].
  - apply (numeric_reads "u" 4); [set_solver|cbn; lia].
  - apply (numeric_reads "U" 8); [set_solver|cbn; lia].
Qed.

Lemma piece_reads isPrint a s t : let v := String a s in
  unquote_go 0 (piece isPrint v +:+ t) = prepend (take_str (rune_len v) v) (unquote_go 0 t).
Proof.
  intros v. pose proof (rune_first a s) as Hf. fold v in Hf. unfold piece. change (at_ v 0) with a.
  destruct (Nat.eqb_spec (rune_len v) 1) as [E|E].
  - rewrite E. change (take_str 1 v) with (str1 a). pose proof (byte_range a). destruct (Z.leb_spec 128 (byte_val a)); cbn [andb].
    + rewrite <- (chr_byte a) at 2. apply (numeric_reads "x" 2); [set_solver|cbn; lia].
    + change (rune_at 1 v) with (byte_val a). rewrite escaped_reads by lia. rewrite encode_ascii by done. by rewrite chr_byte.
  - rewrite andb_false_r. destruct (encode_first _ _ Hf E) as [Hr He]. rewrite escaped_reads by lia. by rewrite He.
Qed.

Lemma quote_skip isPrint n : ∀ s, quote_go isPrint n s = quote_go isPrint 0 (drop_str n s).
Proof. induction n as [|n IH]; intros [|a s]; [done..|]. cbn [drop_str]. rewrite <- IH. done. Qed.

Lemma take_drop_str n : ∀ s, take_str n s +:+ drop_str n s = s.
Proof. induction n as [|n IH]; intros [|a s]; [done..|]. cbn. by rewrite IH. Qed.

Lemma length_drop_str n : ∀ s, (String.length (drop_str n s) ≤ String.length s)%nat.
Proof. induction n as [|n IH]; intros [|a s]; [done..|]. cbn. specialize (IH s). lia. Qed.

Lemma rune_len_S a s : rune_len (String a s) = S (pred (rune_len (String a s))).
Proof. pose proof (rune_first a s) as H. destruct (rune_len (String a s)); [inversion H|done]. Qed.

Lemma quote_reads isPrint v t : unquote_go 0 (quote_go isPrint 0 v +:+ String quote_char t) = Some (v, t).
Proof.
  induction v as [v IH] using (induction_ltof1 _ String.length). unfold ltof in IH. destruct v as [|a v]; [reflexivity|].
  cbn [quote_go]. rewrite app_assoc_str, piece_reads, quote_skip, IH by (pose proof (length_drop_str (pred (rune_len (String a v))) v); cbn [String.length]; lia).
  cbn [prepend mbind option_bind]. rewrite rune_len_S at 1. cbn [take_str String.append]. by rewrite take_drop_str.
Qed.

(** Whatever is printable, a quoted string is read back exactly, whatever follows it. *)
Lemma read_Quote isPrint v t : read_quoted (Quote isPrint v +:+ t) = Some (v, t).
Proof. unfold read_quoted, Quote. cbn [String.append]. rewrite bool_decide_true, app_assoc_str by done. apply quote_reads. Qed.

(** Quoted text holds no control byte. *)
Definition visible (a : ascii) : bool := 32 <=? byte_val a.

Lemma hex_visible n r : str_all visible (hex n r) = true.
Proof.
  induction n as [|n IH]; [done|]. cbn [hex str_all]. rewrite IH, andb_true_r. change 15 with (Z.ones 4). rewrite Z.land_ones by lia.
  assert (Hd : Z.shiftr r (4 * Z.of_nat n) `mod` 2 ^ 4 ∈ seqZ 0 16).
  { apply elem_of_seqZ. pose proof (Z.mod_pos_bound (Z.shiftr r (4 * Z.of_nat n)) (2 ^ 4)). lia. }
  revert Hd. generalize (Z.shiftr r (4 * Z.of_nat n) `mod` 2 ^ 4). apply Forall_forall. vm_compute. repeat constructor.
Qed.

Lemma chr_visible z : 32 ≤ z < 256 → visible (chr z) = true.
Proof. intros. unfold visible. rewrite byte_chr by lia. lia. Qed.

Lemma encode_visible r : 32 ≤ r < 1114112 → str_all visible (encode_rune r) = true.
Proof.
  intros Hr. unfold encode_rune. destruct (Z.ltb_spec r 128), (Z.ltb_spec r 2048), (Z.ltb_spec r 65536); try lia;
    cbn [str_all str1]; rewrite !chr_visible by divs; done.
Qed.

Lemma escaped_visible isPrint r : 0 ≤ r < 1114112 → str_all visible (escaped_rune isPrint r) = true.
Proof.
  intros Hr. unfold escaped_rune. destruct ((r =? 34) || (r =? 92)) eqn:E; [cbn [str_all str1]; by rewrite chr_visible by lia|].
  destruct (IsPrint isPrint r) eqn:Ep.
  { apply encode_visible. unfold IsPrint in Ep. destruct (Z.ltb_spec r 128); lia. }
  destruct (short_escape r) as [c|] eqn:Es.
  { revert Es. unfold short_escape, escapes. cbn [List.find fst snd].
    repeat match goal with |- context [?z =? r] => destruct (z =? r); [cbn; intros [= <-]; reflexivity|] end. done. }
  destruct ((r <? 32) || (r =? 127)); [|destruct (r <? 65536)]; rewrite str_all_app, hex_visible; done.
Qed.

Lemma quote_visible isPrint : ∀ s n, str_all visible (quote_go isPrint n s) = true.
Proof.
  induction s as [|a s IH]; intros n; [done|]. cbn [quote_go]. destruct n; [|apply IH]. rewrite str_all_app, IH, andb_true_r.
  unfold piece. destruct (_ && _) eqn:E; [rewrite str_all_app, hex_visible; done|]. apply escaped_visible.
  destruct (decide (rune_len (String a s) = 1%nat)) as [E1|E1].
  - rewrite E1. change (rune_at 1 (String a s)) with (byte_val a). pose proof (byte_range a). lia.
  - destruct (encode_first _ _ (rune_first a s) E1) as [H _]. lia.
Qed.

Lemma Quote_visible isPrint s : str_all visible (Quote isPrint s) = true.
Proof. unfold Quote. cbn [str_all]. rewrite str_all_app, quote_visible. done. Qed.

End GoQuote.
