(* ===== verification/GoTime.v ===== *)
(** * float64 arithmetic and durations of the Go standard library

    [float64] values are the IEEE 754 data of [SpecFloat] with 53-bit mantissa
    and round-to-nearest-even operations, as the Go specification fixes them.
    [ParseDuration] is [time.ParseDuration] on byte strings. *)

From S2P Require Import Prelude GoStrings.
From Stdlib Require Export Floats.SpecFloat.

Open Scope string_scope.
Open Scope list_scope.
Open Scope nat_scope.

(** ** float64 *)
Abbreviation float64 := spec_float.

Definition f64_of_Z (z : Z) : float64 := binary_normalize 53 1024 z 0 false.
Definition f64_mul (x y : float64) : float64 := SFmul 53 1024 x y.
Definition f64_div (x y : float64) : float64 := SFdiv 53 1024 x y.
Definition f64_add (x y : float64) : float64 := SFadd 53 1024 x y.
Definition f64_sub (x y : float64) : float64 := SFsub 53 1024 x y.
Definition f64_ltb (x y : float64) : bool := SFltb x y.
Definition f64_leb (x y : float64) : bool := SFleb x y.
Definition f64_is_nan (x : float64) : bool := match x with S754_nan => true | _ => false end.
Definition f64_is_inf (x : float64) : bool := match x with S754_infinity _ => true | _ => false end.

(** The integer part of a finite value (Go's conversion to an integer type,
    where the result fits); [None] for NaN and the infinities. *)
Definition f64_trunc (x : float64) : option Z :=
  match x with
  | S754_zero _ => Some 0%Z
  | S754_finite s m e =>
      let a := if (0 <=? e)%Z then (Z.pos m * 2 ^ e)%Z else (Z.pos m / 2 ^ (- e))%Z in
      Some (if s then - a else a)%Z
  | _ => None
  end.

(** ** time.ParseDuration *)

(** [leadingInt]: a digit prefix, refused above 2^63. *)
Fixpoint leadingInt (x : Z) (s : string) : option (Z * string) :=
  match s with
  | "" => Some (x, "")
  | String c s' =>
      if is_digit c then
        if (two63 / 10 <? x)%Z then None
        else let x := (x * 10 + (byte_val c - 48))%Z in
             if (two63 <? x)%Z then None else leadingInt x s'
      else Some (x, s)
  end.

(** [leadingFraction]: digits beyond the 63-bit range are consumed and ignored. *)
Fixpoint leadingFraction (overflow : bool) (x : Z) (scale : float64) (s : string)
    : Z * float64 * string :=
  match s with
  | "" => (x, scale, "")
  | String c s' =>
      if is_digit c then
        if overflow || (MaxInt64 / 10 <? x)%Z then leadingFraction true x scale s'
        else let y := (x * 10 + (byte_val c - 48))%Z in
             if (two63 <? y)%Z then leadingFraction true x scale s'
             else leadingFraction false y (f64_mul scale (f64_of_Z 10)) s'
      else (x, scale, s)
  end.

(** The bytes up to the next digit or dot. *)
Fixpoint span_unit (s : string) : string * string :=
  match s with
  | "" => ("", "")
  | String c s' =>
      if bool_decide (c = "."%char) || is_digit c then ("", s)
      else let p := span_unit s' in (String c p.1, p.2)
  end.

Definition micro : string := String "194" (String "181" "s").
Definition mu : string := String "206" (String "188" "s").

Definition unit_ns (u : string) : option Z :=
  if bool_decide (u = "ns") then Some 1%Z
  else if bool_decide (u = "us") then Some 1000%Z
  else if bool_decide (u = micro) then Some 1000%Z
  else if bool_decide (u = mu) then Some 1000%Z
  else if bool_decide (u = "ms") then Some 1000000%Z
  else if bool_decide (u = "s") then Some 1000000000%Z
  else if bool_decide (u = "m") then Some 60000000000%Z
  else if bool_decide (u = "h") then Some 3600000000000%Z
  else None.

(** One number and its unit: the nanoseconds it adds, and the rest. *)
Definition duration_term (s : string) : option (Z * string) :=
  match s with
  | "" => None
  | String c _ =>
      if negb (bool_decide (c = "."%char) || is_digit c) then None else
      '(v, s1) ← leadingInt 0 s;
      let pre := negb (String.length s =? String.length s1) in
      let '(f, scale, s2, post) :=
        match s1 with
        | String "." s1' =>
            let '(f, scale, r) := leadingFraction false 0 (f64_of_Z 1) s1' in
            (f, scale, r, negb (String.length s1' =? String.length r))
        | _ => (0%Z, f64_of_Z 1, s1, false)
        end in
      if negb pre && negb post then None else
      let '(u, rest) := span_unit s2 in
      unit ← unit_ns u;
      if (two63 / unit <? v)%Z then None else
      let v := (v * unit)%Z in
      add ← (if (0 <? f)%Z then f64_trunc (f64_mul (f64_of_Z f) (f64_div (f64_of_Z unit) scale))
             else Some 0%Z);
      let v := (v + add)%Z in
      if (two63 <? v)%Z then None else Some (v, rest)
  end.

(** The term loop; every term consumes at least one byte, so the length of the
    string is enough fuel. *)
Fixpoint duration_terms (fuel : nat) (d : Z) (s : string) : option Z :=
  match s with
  | "" => Some d
  | _ =>
      match fuel with
      | O => None
      | S fuel =>
          '(v, rest) ← duration_term s;
          let d := ((d + v) mod two64)%Z in
          if (two63 <? d)%Z then None else duration_terms fuel d rest
      end
  end.

Definition ParseDuration (s : string) : option Z :=
  let '(neg, r) := match s with
    | String "-" r => (true, r)
    | String "+" r => (false, r)
    | _ => (false, s)
    end in
  if bool_decide (r = "0") then Some 0%Z
  else if bool_decide (r = "") then None
  else d ← duration_terms (String.length r) 0 r;
       if neg : bool then Some (- d)%Z
       else if (MaxInt64 <? d)%Z then None else Some d.

Example ParseDuration_ex :
  ParseDuration "1h30m" = Some (90 * 60 * Second)%Z ∧ ParseDuration "1.5s" = Some 1500000000%Z
  ∧ ParseDuration "" = None ∧ ParseDuration "5" = None ∧ ParseDuration "-2ms" = Some (-2000000)%Z.
Proof. vm_compute. done. Qed.
