(* ===== verification/GoCalendar.v ===== *)
(** * The civil calendar and time zones of Go's package time

    An instant is a number of nanoseconds since the Unix epoch.  A [Location]
    is a table of offset transitions; [lookup] and [Date] are the functions of
    package time on it, with the rule [Date] uses near a transition.  The
    calendar is the proleptic Gregorian one, by months: [month_start k] is the
    first day of month [k], counting months from January of year 0. *)

From S2P Require Import Prelude GoStrings.

Open Scope Z_scope.

(** ** The calendar *)

Definition leap (y : Z) : bool :=
  (y mod 4 =? 0) && (negb (y mod 100 =? 0) || (y mod 400 =? 0)).

(** Days from 1 January of year 0 to 1 January of year [y]. *)
Definition days_before_year (y : Z) : Z :=
  365 * y + (y + 3) / 4 - (y + 99) / 100 + (y + 399) / 400.

Definition days_before_month (m : Z) : Z :=
  match m with
  | 0 => 0 | 1 => 31 | 2 => 59 | 3 => 90 | 4 => 120 | 5 => 151
  | 6 => 181 | 7 => 212 | 8 => 243 | 9 => 273 | 10 => 304 | _ => 334
  end.

(** The epoch, 1 January 1970, is day 719528. *)
Definition epoch_day : Z := 719528.

Definition month_start (k : Z) : Z :=
  let y := k / 12 in
  let m := k mod 12 in
  days_before_year y + days_before_month m + (if leap y && (2 <=? m) then 1 else 0) - epoch_day.

(** The month a day (since the epoch) falls in: an estimate from the mean month
    length of the 400-year cycle, corrected by at most one. *)
Definition month_est (n : Z) : Z := ((n + epoch_day) * 4800) / 146097.

Definition month_of (n : Z) : Z :=
  let k := month_est n in
  if n <? month_start k then k - 1
  else if month_start (k + 1) <=? n then k + 1
  else k.

(** ** Locations *)

(** [trans]: the instants (Unix seconds) of the changes, with the new offset. *)
Record Location := mkLocation {
  offset0 : Z;
  trans : list (Z * Z);
}.

Definition fixed (off : Z) : Location := mkLocation off [].
Definition alpha : Z := MinInt64.
Definition omega : Z := MaxInt64.

(** Offset in force at [sec], with the bounds of its period. *)
Fixpoint lookup_from (off start : Z) (tr : list (Z * Z)) (sec : Z) : Z * Z * Z :=
  match tr with
  | [] => (off, start, omega)
  | (at_, off') :: tr' => if sec <? at_ then (off, start, at_) else lookup_from off' at_ tr' sec
  end.

Definition lookup (loc : Location) (sec : Z) : Z * Z * Z :=
  lookup_from (offset0 loc) alpha (trans loc) sec.

Definition zone_offset (loc : Location) (sec : Z) : Z := (lookup loc sec).1.1.

(** ** Time *)
Definition ns : Z := 1000000000.

Definition unix (t : Z) : Z := t / ns.

(** Local seconds since the epoch, as the clock on the wall counts them. *)
Definition local (loc : Location) (t : Z) : Z := unix t + zone_offset loc (unix t).

Definition Month_index (loc : Location) (t : Z) : Z := month_of (local loc t / 86400).
Definition Year (loc : Location) (t : Z) : Z := Month_index loc t / 12.
Definition Month (loc : Location) (t : Z) : Z := Month_index loc t mod 12 + 1.
Definition Day (loc : Location) (t : Z) : Z :=
  local loc t / 86400 - month_start (Month_index loc t) + 1.
Definition Weekday (loc : Location) (t : Z) : Z := (local loc t / 86400 + 4) mod 7.
Definition Hour (loc : Location) (t : Z) : Z := (local loc t mod 86400) / 3600.
Definition Minute (loc : Location) (t : Z) : Z := (local loc t mod 3600) / 60.
Definition Sec (loc : Location) (t : Z) : Z := local loc t mod 60.
Definition Nanosecond (t : Z) : Z := t mod ns.

(** [time.Date]: fields out of range carry over; the offset is guessed from the
    wall-clock seconds and looked up again when the guess is out of its period. *)
Definition Date (y mo d h mi s nsec : Z) (loc : Location) : Z :=
  let wall := (month_start (12 * y + (mo - 1)) + (d - 1)) * 86400 + h * 3600 + mi * 60 + s + nsec / ns in
  let '(off, start, stop) := lookup loc wall in
  let sec :=
    if off =? 0 then wall
    else let utc := wall - off in
         if (utc <? start) || (stop <=? utc) then wall - zone_offset loc utc else wall - off in
  sec * ns + nsec mod ns.

Definition AddDate (loc : Location) (t years months days : Z) : Z :=
  Date (Year loc t + years) (Month loc t + months) (Day loc t + days)
    (Hour loc t) (Minute loc t) (Sec loc t) (Nanosecond t) loc.

(** ** The calendar is right *)

Definition month_ok (k : Z) : bool :=
  (month_start k <? month_start (k + 1)) && (k - 1 <=? month_est (month_start k))
  && (month_est (month_start (k + 1) - 1) <=? k + 1)
  && (28 <=? month_start (k + 1) - month_start k) && (month_start (k + 1) - month_start k <=? 31).

Lemma month_start_cycle k c : month_start (k + 4800 * c) = month_start k + 146097 * c.
Proof.
  unfold month_start, days_before_year, leap.
  replace ((k + 4800 * c) / 12) with (k / 12 + c * 400)
    by (replace (k + 4800 * c) with (k + c * 400 * 12) by lia; rewrite Z.div_add by lia; lia).
  replace ((k + 4800 * c) mod 12) with (k mod 12)
    by (replace (k + 4800 * c) with (k + c * 400 * 12) by lia; rewrite Z.mod_add by lia; lia).
  set (y := k / 12).
  replace (y + c * 400 + 3) with (y + 3 + c * 100 * 4) by lia.
  replace (y + c * 400 + 99) with (y + 99 + c * 4 * 100) by lia.
  replace (y + c * 400 + 399) with (y + 399 + c * 400) by lia.
  rewrite !Z.div_add by lia.
  replace ((y + c * 400) mod 4) with (y mod 4)
    by (replace (y + c * 400) with (y + c * 100 * 4) by lia; by rewrite Z.mod_add by lia).
  replace ((y + c * 400) mod 100) with (y mod 100)
    by (replace (y + c * 400) with (y + c * 4 * 100) by lia; by rewrite Z.mod_add by lia).
  replace ((y + c * 400) mod 400) with (y mod 400) by (by rewrite Z.mod_add by lia).
  lia.
Qed.

Lemma month_est_cycle n c : month_est (n + 146097 * c) = month_est n + 4800 * c.
Proof.
  unfold month_est.
  replace ((n + 146097 * c + epoch_day) * 4800) with ((n + epoch_day) * 4800 + c * 4800 * 146097) by lia.
  rewrite Z.div_add by lia. lia.
Qed.

Lemma month_ok_cycle k c : month_ok (k + 4800 * c) = month_ok k.
Proof.
  unfold month_ok. replace (k + 4800 * c + 1) with (k + 1 + 4800 * c) by lia.
  rewrite !month_start_cycle.
  replace (month_start (k + 1) + 146097 * c - 1) with (month_start (k + 1) - 1 + 146097 * c) by lia.
  rewrite !month_est_cycle. 
  repeat match goal with |- context [?a <? ?b] => destruct (Z.ltb_spec a b) end;
  repeat match goal with |- context [?a <=? ?b] => destruct (Z.leb_spec a b) end; simpl; try done; lia.
Qed.

Lemma month_ok_all k : month_ok k = true.
Proof.
  replace k with (k mod 4800 + 4800 * (k / 4800)) by (pose proof (Z.div_mod k 4800); lia).
  rewrite month_ok_cycle.
  assert (Hall : forallb (λ n, month_ok (Z.of_nat n)) (seq 0 (Z.to_nat 4800)) = true) by (vm_compute; done).
  rewrite forallb_forall in Hall.
  pose proof (Z.mod_pos_bound k 4800 ltac:(lia)).
  specialize (Hall (Z.to_nat (k mod 4800))). rewrite Z2Nat.id in Hall by lia.
  apply Hall. apply in_seq. lia.
Qed.

Lemma month_length k : 28 ≤ month_start (k + 1) - month_start k ≤ 31.
Proof.
  pose proof (month_ok_all k) as H. unfold month_ok in H.
  repeat rewrite andb_true_iff in H. lia.
Qed.

Lemma month_start_mono j k : j ≤ k → month_start j ≤ month_start k.
Proof.
  intros H. replace k with (j + (k - j)) by lia. assert (Hd : 0 ≤ k - j) by lia. revert Hd.
  generalize (k - j). intros d Hd. pattern d. apply natlike_ind; [|intros x Hx IH|done].
  - replace (j + 0) with j by lia. lia.
  - pose proof (month_length (j + x)). replace (j + Z.succ x) with (j + x + 1) by lia. lia.
Qed.

Lemma month_est_mono a b : a ≤ b → month_est a ≤ month_est b.
Proof. intros. unfold month_est. apply Z.div_le_mono; lia. Qed.

(** [month_of n] is the month whose days contain [n]. *)
Lemma month_of_bounds n : month_start (month_of n) ≤ n < month_start (month_of n + 1).
Proof.
  assert (Hex : ∃ k, month_start k ≤ n < month_start (k + 1)).
  { assert (Hcov : ∀ d, 0 ≤ d → ∀ k, month_start k ≤ n → n < month_start (k + d) →
              ∃ j, month_start j ≤ n < month_start (j + 1)).
    { intros d Hd. pattern d. apply natlike_ind; [|intros x Hx IH|done].
      - intros k H1 H2. replace (k + 0) with k in H2 by lia. lia.
      - intros k H1 H2. destruct (Z.lt_ge_cases n (month_start (k + 1))) as [|Hge]; [by exists k|].
        apply (IH (k + 1) Hge). by replace (k + 1 + x) with (k + Z.succ x) by lia. }
    assert (Hz : month_start 0 = - epoch_day) by reflexivity.
    set (c := (n + epoch_day) / 146097).
    pose proof (Z.div_mod (n + epoch_day) 146097 ltac:(lia)).
    pose proof (Z.mod_pos_bound (n + epoch_day) 146097 ltac:(lia)).
    apply (Hcov 4800 ltac:(lia) (0 + 4800 * c)).
    - rewrite month_start_cycle. unfold c in *. lia.
    - replace (0 + 4800 * c + 4800) with (0 + 4800 * (c + 1)) by lia. rewrite month_start_cycle.
      unfold c in *. lia. }
  destruct Hex as (k & Hk1 & Hk2).
  pose proof (month_ok_all k) as H. unfold month_ok in H. repeat rewrite andb_true_iff in H.
  assert (k - 1 ≤ month_est n ≤ k + 1) as Hest.
  { pose proof (month_est_mono (month_start k) n Hk1).
    pose proof (month_est_mono n (month_start (k + 1) - 1) ltac:(lia)). lia. }
  unfold month_of. set (e := month_est n) in *.
  assert (e = k - 1 ∨ e = k ∨ e = k + 1) as [->|[->| ->]] by lia.
  - pose proof (month_start_mono (k - 1) k ltac:(lia)).
    destruct (Z.ltb_spec n (month_start (k - 1))); [lia|].
    replace (k - 1 + 1) with k by lia. destruct (Z.leb_spec (month_start k) n); [|lia]. lia.
  - destruct (Z.ltb_spec n (month_start k)); [lia|].
    destruct (Z.leb_spec (month_start (k + 1)) n); lia.
  - destruct (Z.ltb_spec n (month_start (k + 1))); [|lia]. by replace (k + 1 - 1) with k by lia.
Qed.

Lemma month_of_unique n k : month_start k ≤ n < month_start (k + 1) → month_of n = k.
Proof.
  intros [H1 H2]. pose proof (month_of_bounds n).
  destruct (Z.lt_trichotomy (month_of n) k) as [Hl|[->|Hl]]; [|done|].
  - pose proof (month_start_mono (month_of n + 1) k ltac:(lia)). lia.
  - pose proof (month_start_mono (k + 1) (month_of n) ltac:(lia)). lia.
Qed.

Example calendar_ex :
  let t := Date 2024 2 29 23 59 58 7 (fixed 3600) in
  (Year (fixed 3600) t, Month (fixed 3600) t, Day (fixed 3600) t, Weekday (fixed 3600) t,
   Hour (fixed 3600) t, Minute (fixed 3600) t, Sec (fixed 3600) t) = (2024, 2, 29, 4, 23, 59, 58)
  ∧ unix t = 1709247598.
Proof. vm_compute. done. Qed.
