(* ===== verification/Order.v ===== *)
(** * Dependency ordering of services: src/internal/order/order.go

    [TopoSort] (Kahn's algorithm over a queue) and [TopoLayers] (Kahn's
    algorithm by whole layers) are translated with the maps the code keeps:
    [names], [edges], [inDegree] and [seenEdge].  The specification is the
    relation [edge] the after/before/requires lists stand for. *)

From S2P Require Import Prelude.

Module Order.

(** ** Data *)

Record Service := mkService {
  Name : string;
  After : list string;
  Before : list string;
  Requires : list string;
}.

(** The errors of both functions, one per [fmt.Errorf]. *)
Inductive order_err :=
  | DuplicateName (name : string)
  | AfterUnknown (svc dep : string)
  | BeforeUnknown (svc dep : string)
  | RequiresUnknown (svc dep : string)
  | CycleDetected (cycled : list string).

Record graph := mkGraph {
  edges : gmap string (list string);
  inDegree : gmap string Z;
  seenEdge : gset (string * string);
}.

Definition empty_graph : graph := mkGraph ∅ ∅ ∅.

(** ** Operations *)

(** [names]: every service name, refusing a repeated one. *)
Definition collect_names (services : list Service) : result order_err (gset string) :=
  foldM (λ names s,
    if decide (Name s ∈ names) then Err (DuplicateName (Name s))
    else Ok ({[Name s]} ∪ names)) ∅ services.

(** The [addEdge] closure. *)
Definition addEdge (g : graph) (from to : string) : graph :=
  if decide ((from, to) ∈ seenEdge g) then g
  else {|
    edges := <[from := lget (edges g) from ++ [to]]> (edges g);
    inDegree := <[to := (zget (inDegree g) to + 1)%Z]> (inDegree g);
    seenEdge := {[(from, to)]} ∪ seenEdge g |}.

Definition add_after (names : gset string) (s : Service) (g : graph) (dep : string) :=
  if decide (dep ∈ names) then Ok (addEdge g dep (Name s))
  else Err (AfterUnknown (Name s) dep).

Definition add_before (names : gset string) (s : Service) (g : graph) (dep : string) :=
  if decide (dep ∈ names) then Ok (addEdge g (Name s) dep)
  else Err (BeforeUnknown (Name s) dep).

Definition add_requires (names : gset string) (s : Service) (g : graph) (dep : string) :=
  if decide (dep ∈ names) then Ok (addEdge g dep (Name s))
  else Err (RequiresUnknown (Name s) dep).

(** [if _, ok := inDegree[s.Name]; !ok { inDegree[s.Name] = 0 }] *)
Definition seed_degree (g : graph) (n : string) : graph :=
  match inDegree g !! n with
  | Some _ => g
  | None => mkGraph (edges g) (<[n := 0%Z]> (inDegree g)) (seenEdge g)
  end.

Definition add_service (names : gset string) (g : graph) (s : Service) : result order_err graph :=
  g1 ← foldM (add_after names s) (seed_degree g (Name s)) (After s);
  g2 ← foldM (add_before names s) g1 (Before s);
  foldM (add_requires names s) g2 (Requires s).

Definition build_graph (names : gset string) (services : list Service) : result order_err graph :=
  foldM (add_service names) empty_graph services.

(** One neighbour of a dequeued node: decrement, enqueue at zero. *)
Definition relax (st : gmap string Z * list string) (neighbor : string) :=
  let d := (zget st.1 neighbor - 1)%Z in
  (<[neighbor := d]> st.1, if decide (d = 0%Z) then st.2 ++ [neighbor] else st.2).

(** The queue loop; [queue] is the part from [head] on. *)
Fixpoint kahn (fuel : nat) (ed : gmap string (list string)) (queue : list string)
    (deg : gmap string Z) (res : list string) : fuelled (list string * gmap string Z) :=
  match queue with
  | [] => Done (res, deg)
  | node :: rest =>
      match fuel with
      | O => OutOfFuel
      | S fuel =>
          let st := foldl relax (deg, rest) (lget ed node) in
          kahn fuel ed st.2 st.1 (res ++ [node])
      end
  end.

(** The names left with a positive in-degree, sorted for the message. *)
Definition cycled (names : gset string) (deg : gmap string Z) : list string :=
  sort_strings (filter (λ n, (0 < zget deg n)%Z) (elements names)).

Definition TopoSort (services : list Service) : fuelled (result order_err (list string)) :=
  match collect_names services with
  | Err e => Done (Err e)
  | Ok names =>
  match build_graph names services with
  | Err e => Done (Err e)
  | Ok g =>
      let queue := filter (λ n, zget (inDegree g) n = 0%Z) (Name <$> services) in
      match kahn (length services) (edges g) queue (inDegree g) [] with
      | OutOfFuel => OutOfFuel
      | Done (res, deg) =>
          if decide (length res = size names) then Done (Ok res)
          else Done (Err (CycleDetected (cycled names deg)))
      end
  end end.

(** Emitting one layer member: mark drained, release its neighbours. *)
Definition drain (ed : gmap string (list string)) (deg : gmap string Z) (n : string) :=
  foldl (λ d nb, <[nb := (zget d nb - 1)%Z]> d) (<[n := (-1)%Z]> deg) (lget ed n).

Fixpoint layer_loop (fuel : nat) (names : gset string) (ed : gmap string (list string))
    (deg : gmap string Z) (emitted : nat) (layers : list (list string)) :
    fuelled (result order_err (list (list string))) :=
  if decide (emitted < size names) then
    match fuel with
    | O => OutOfFuel
    | S fuel =>
        let layer := filter (λ n, zget deg n = 0%Z) (elements names) in
        match layer with
        | [] => Done (Err (CycleDetected (cycled names deg)))
        | _ =>
            let layer := sort_strings layer in
            layer_loop fuel names ed (foldl (drain ed) deg layer)
              (emitted + length layer) (layers ++ [layer])
        end
    end
  else Done (Ok layers).

Definition TopoLayers (services : list Service) : fuelled (result order_err (list (list string))) :=
  match collect_names services with
  | Err e => Done (Err e)
  | Ok names =>
  match build_graph names services with
  | Err e => Done (Err e)
  | Ok g => layer_loop (length services) names (edges g) (inDegree g) 0 []
  end end.

(** ** Specification *)

(** [edge services a b]: some constraint makes [a] start before [b]. *)
Definition edge (services : list Service) (a b : string) : Prop :=
  ∃ s, s ∈ services ∧
    ((b = Name s ∧ (a ∈ After s ∨ a ∈ Requires s)) ∨ (a = Name s ∧ b ∈ Before s)).

Definition acyclic (services : list Service) : Prop := ∀ n, ¬ tc (edge services) n n.

Definition refs_known (services : list Service) : Prop :=
  ∀ s d, s ∈ services → d ∈ After s ++ Before s ++ Requires s → d ∈ Name <$> services.

(** A start order: every service once, each after everything it depends on. *)
Definition start_order (services : list Service) (l : list string) : Prop :=
  l ≡ₚ (Name <$> services) ∧
  ∀ l1 n l2, l = l1 ++ n :: l2 → ∀ a, edge services a n → a ∈ l1.

Definition svc (n : string) (after : list string) : Service := mkService n after [] [].

(** ** The graph the constraints build *)

(** Predecessors of [b] within [X]. *)
Definition npred (ed : gmap string (list string)) (X : gset string) (b : string) : nat :=
  size (filter (λ a, b ∈ lget ed a) X).

Record graph_ok (names : gset string) (R : string → string → Prop) (g : graph) : Prop := {
  go_edges a b : b ∈ lget (edges g) a ↔ R a b;
  go_nodup a : NoDup (lget (edges g) a);
  go_seen a b : (a, b) ∈ seenEdge g ↔ R a b;
  go_names a b : R a b → a ∈ names ∧ b ∈ names;
  go_deg b : zget (inDegree g) b = Z.of_nat (npred (edges g) names b);
}.

Lemma graph_ok_ext names R R' g :
  (∀ a b, R a b ↔ R' a b) → graph_ok names R g → graph_ok names R' g.
Proof.
  intros HR [H1 H2 H3 H4 H5]. split; [|done| | |done]; intros a b; rewrite <- HR; auto.
Qed.

Lemma empty_graph_ok names : graph_ok names (λ _ _, False) empty_graph.
Proof.
  split; simpl.
  - intros a b. unfold lget. rewrite lookup_empty. set_solver.
  - intros a. unfold lget. rewrite lookup_empty. constructor.
  - set_solver.
  - done.
  - intros b. unfold zget, npred. rewrite lookup_empty. simpl.
    enough (size (filter (λ a, b ∈ lget ∅ a) names) = 0) by lia.
    apply (size_empty_iff (C:=gset string)). intros a. rewrite elem_of_filter. unfold lget. rewrite lookup_empty. set_solver.
Qed.

Lemma seed_degree_ok names R g n : graph_ok names R g → graph_ok names R (seed_degree g n).
Proof.
  intros H. unfold seed_degree. destruct (inDegree g !! n) eqn:Hn; [done|].
  destruct H as [H1 H2 H3 H4 H5]. split; simpl; auto. intros b.
  destruct (decide (n = b)) as [<-|].
  - rewrite zget_insert_eq, <- H5. unfold zget. by rewrite Hn.
  - by rewrite zget_insert_ne.
Qed.

Lemma npred_insert_eq ed X from to :
  from ∈ X → to ∉ lget ed from →
  npred (<[from := lget ed from ++ [to]]> ed) X to = S (npred ed X to).
Proof.
  intros Hf Ht. unfold npred.
  rewrite <- Nat.add_1_l, <- (size_singleton (C:=gset string) from), <- size_union.
  - f_equal. apply leibniz_equiv. intros a. rewrite elem_of_union, !elem_of_filter, elem_of_singleton.
    destruct (decide (from = a)) as [<-|].
    + rewrite lget_insert_eq. set_solver.
    + rewrite lget_insert_ne by done. set_solver.
  - intros a. rewrite elem_of_singleton, elem_of_filter. naive_solver.
Qed.

Lemma npred_insert_ne ed X from to b :
  b ≠ to → npred (<[from := lget ed from ++ [to]]> ed) X b = npred ed X b.
Proof.
  intros Hb. unfold npred. f_equal. apply leibniz_equiv. intros a. rewrite !elem_of_filter.
  destruct (decide (from = a)) as [<-|].
  - rewrite lget_insert_eq. set_solver.
  - by rewrite lget_insert_ne.
Qed.

Lemma addEdge_ok names R g from to :
  graph_ok names R g → from ∈ names → to ∈ names →
  graph_ok names (λ a b, R a b ∨ (a = from ∧ b = to)) (addEdge g from to).
Proof.
  intros H Hf Ht. unfold addEdge. case_decide as Hs.
  { apply (graph_ok_ext names R); [|done]. intros a b. apply (go_seen _ _ _ H) in Hs. naive_solver. }
  destruct H as [H1 H2 H3 H4 H5].
  assert (Hnew : to ∉ lget (edges g) from) by (rewrite H1, <- H3; done).
  split; simpl.
  - intros a b. destruct (decide (from = a)) as [<-|].
    + rewrite lget_insert_eq, elem_of_app, H1, list_elem_of_singleton. naive_solver.
    + rewrite lget_insert_ne, H1 by done. naive_solver.
  - intros a. destruct (decide (from = a)) as [<-|].
    + rewrite lget_insert_eq. apply NoDup_app. split_and!; [done|set_solver|apply NoDup_singleton].
    + by rewrite lget_insert_ne.
  - intros a b. rewrite elem_of_union, elem_of_singleton, H3. naive_solver.
  - naive_solver.
  - intros b. destruct (decide (to = b)) as [<-|].
    + rewrite zget_insert_eq, npred_insert_eq, H5 by done. lia.
    + rewrite zget_insert_ne, npred_insert_ne, H5 by done. done.
Qed.

(** The three constraint loops share one shape: known dependency, add an edge. *)
Lemma foldM_edges names R g g' (f : graph → string → result order_err graph)
    (ends : string → string * string) deps :
  (∀ g1 d g2, f g1 d = Ok g2 →
    d ∈ names ∧ g2 = addEdge g1 (ends d).1 (ends d).2) →
  (∀ d, d ∈ names → (ends d).1 ∈ names ∧ (ends d).2 ∈ names) →
  graph_ok names R g → foldM f g deps = Ok g' →
  graph_ok names (λ a b, R a b ∨ ∃ d, d ∈ deps ∧ (a, b) = ends d) g'.
Proof.
  intros Hf Hends Hg. apply (foldM_ind f (λ ds g1,
    graph_ok names (λ a b, R a b ∨ ∃ d, d ∈ ds ∧ (a, b) = ends d) g1)).
  { eapply graph_ok_ext; [|exact Hg]. set_solver. }
  intros ds d g1 g2 _ IH [Hd ->]%Hf. destruct (Hends d Hd).
  eapply graph_ok_ext; [|by apply addEdge_ok].
  intros a b. destruct (ends d) as [e1 e2] eqn:He. simpl. split.
  - intros [[?|(d' & ? & ?)]|[-> ->]]; [by left|right; exists d'; set_solver|].
    right. exists d. rewrite He. set_solver.
  - intros [?|(d' & [?|Hd']%elem_of_app & ?)]; [tauto| |].
    + left. right. by exists d'.
    + apply list_elem_of_singleton in Hd' as ->. right. rewrite He in *. by simplify_eq.
Qed.

Definition svc_edge (s : Service) (a b : string) : Prop :=
  (b = Name s ∧ (a ∈ After s ∨ a ∈ Requires s)) ∨ (a = Name s ∧ b ∈ Before s).

Lemma add_service_ok names R g s g' :
  graph_ok names R g → Name s ∈ names → add_service names g s = Ok g' →
  graph_ok names (λ a b, R a b ∨ svc_edge s a b) g'.
Proof.
  intros Hg Hs. unfold add_service.
  destruct (foldM (add_after names s) _ (After s)) as [g1|] eqn:H1; [|done].
  simpl. destruct (foldM (add_before names s) g1 (Before s)) as [g2|] eqn:H2; [|done].
  simpl. intros H3.
  apply (foldM_edges names R _ _ _ (λ d, (d, Name s))) in H1;
    [|intros ???; unfold add_after; case_decide; naive_solver|done|by apply seed_degree_ok].
  eapply (foldM_edges names _ _ _ _ (λ d, (Name s, d))) in H2;
    [|intros ???; unfold add_before; case_decide; naive_solver|done|exact H1].
  eapply (foldM_edges names _ _ _ _ (λ d, (d, Name s))) in H3;
    [|intros ???; unfold add_requires; case_decide; naive_solver|done|exact H2].
  eapply graph_ok_ext; [|exact H3]. unfold svc_edge. naive_solver.
Qed.

Lemma build_graph_ok names services g :
  (∀ s, s ∈ services → Name s ∈ names) → build_graph names services = Ok g →
  graph_ok names (edge services) g.
Proof.
  intros Hn. apply (foldM_ind (add_service names) (λ ss g1, graph_ok names (edge ss) g1)).
  { eapply graph_ok_ext; [|apply empty_graph_ok]. intros a b. split; [done|].
    by intros (? & ?%not_elem_of_nil & _). }
  intros ss s g1 g2 Hs IH H. eapply graph_ok_ext; [|eapply add_service_ok; eauto].
  intros a b. unfold edge. setoid_rewrite elem_of_app. setoid_rewrite list_elem_of_singleton.
  fold (svc_edge s a b). split.
  - intros [(s' & ? & ?)|?]; [exists s'; tauto|exists s; tauto].
  - intros (s' & [?| ->] & ?); [left; by exists s'|by right].
Qed.

Lemma add_service_refs names g s g' :
  add_service names g s = Ok g' → ∀ d, d ∈ After s ++ Before s ++ Requires s → d ∈ names.
Proof.
  unfold add_service.
  destruct (foldM (add_after names s) _ (After s)) as [g1|] eqn:H1; [|done].
  simpl. destruct (foldM (add_before names s) g1 (Before s)) as [g2|] eqn:H2; [|done].
  simpl. intros H3 d. rewrite !elem_of_app.
  intros [Hd|[Hd|Hd]]; [eapply (foldM_ok_all (add_after names s) (.∈ names))
    |eapply (foldM_ok_all (add_before names s) (.∈ names))
    |eapply (foldM_ok_all (add_requires names s) (.∈ names))]; try done;
    intros ???; unfold add_after, add_before, add_requires; by case_decide.
Qed.

Lemma build_graph_total names services :
  (∃ g, build_graph names services = Ok g) ↔
  ∀ s d, s ∈ services → d ∈ After s ++ Before s ++ Requires s → d ∈ names.
Proof.
  split.
  - intros [g Hg] s d Hs Hd. revert d Hd.
    eapply (foldM_ok_all (add_service names)
      (λ s, ∀ d, d ∈ After s ++ Before s ++ Requires s → d ∈ names)); eauto.
    intros ???. apply add_service_refs.
  - intros H. apply foldM_total. intros g s Hs. unfold add_service.
    destruct (foldM_total (add_after names s) (seed_degree g (Name s)) (After s)) as [g1 ->].
    { intros. unfold add_after. rewrite decide_True; [eauto|]. eapply H; eauto. set_solver. }
    simpl. destruct (foldM_total (add_before names s) g1 (Before s)) as [g2 ->].
    { intros. unfold add_before. rewrite decide_True; [eauto|]. eapply H; eauto. set_solver. }
    simpl. apply foldM_total.
    intros. unfold add_requires. rewrite decide_True; [eauto|]. eapply H; eauto. set_solver.
Qed.

Lemma collect_names_spec services names :
  collect_names services = Ok names ↔
  NoDup (Name <$> services) ∧ names = list_to_set (Name <$> services).
Proof.
  unfold collect_names. revert names.
  induction services as [|s ss IH] using rev_ind; intros names; simpl.
  { split; [intros [= <-]; split; [constructor|done]|by intros [_ ->]]. }
  rewrite foldM_app, fmap_app, NoDup_app, list_to_set_app_L. simpl.
  destruct (foldM _ ∅ ss) as [X|e].
  - destruct (IH X) as [[HN ->] _]; [done|].
    case_decide as Hd; rewrite elem_of_list_to_set in Hd; split.
    + done.
    + intros [(_ & Hdis & _) _]. destruct (Hdis _ Hd). set_solver.
    + intros [= <-]. split_and!; [done|set_solver|apply NoDup_singleton|set_solver].
    + intros [_ ->]. f_equal. set_solver.
  - split; [done|]. intros [(HN & _) _]. destruct (IH (list_to_set (Name <$> ss))) as [_ H]. by discriminate H.
Qed.

(** ** The queue loop *)

Lemma npred_delete ed X x b :
  x ∈ X →
  npred ed X b = npred ed (X ∖ {[x]}) b + (if decide (b ∈ lget ed x) then 1 else 0).
Proof.
  intros Hx. unfold npred. case_decide as Hb.
  - rewrite Nat.add_comm, <- (size_singleton (C:=gset string) x), <- size_union.
    + f_equal. apply leibniz_equiv. intros a.
      rewrite elem_of_union, !elem_of_filter, elem_of_difference, elem_of_singleton.
      destruct (decide (a = x)); naive_solver.
    + intros a. rewrite elem_of_singleton, elem_of_filter, elem_of_difference, elem_of_singleton.
      naive_solver.
  - rewrite Nat.add_0_r. f_equal. apply leibniz_equiv. intros a.
    rewrite !elem_of_filter, elem_of_difference, elem_of_singleton.
    destruct (decide (a = x)); naive_solver.
Qed.

Lemma npred_zero ed X b : npred ed X b = 0 ↔ ∀ a, a ∈ X → b ∉ lget ed a.
Proof.
  unfold npred. rewrite size_empty_iff. split.
  - intros H a Ha Hb. specialize (H a). rewrite elem_of_filter in H. set_solver.
  - intros H a. rewrite elem_of_filter. set_solver.
Qed.

Lemma relax_deg ns deg q n :
  NoDup ns →
  zget (foldl relax (deg, q) ns).1 n = (zget deg n - (if decide (n ∈ ns) then 1 else 0))%Z.
Proof.
  revert deg q. induction ns as [|m ns IH]; intros deg q; simpl.
  { intros _. lia. }
  intros [Hm HN]%NoDup_cons. unfold relax at 2. simpl. rewrite IH by done.
  destruct (decide (m = n)) as [<-|].
  - rewrite zget_insert_eq, (decide_False (P:=m ∈ ns)), decide_True by set_solver. lia.
  - rewrite zget_insert_ne by done.
    destruct (decide (n ∈ ns)); [rewrite decide_True by set_solver|rewrite decide_False by set_solver]; lia.
Qed.

Lemma relax_queue ns deg q :
  NoDup ns →
  (foldl relax (deg, q) ns).2 = q ++ filter (λ n, zget deg n = 1%Z) ns.
Proof.
  revert deg q. induction ns as [|m ns IH]; intros deg q; simpl.
  { intros _. by rewrite app_nil_r. }
  intros [Hm HN]%NoDup_cons. unfold relax at 2. simpl. rewrite IH by done.
  assert (Hext : filter (λ n, zget (<[m:=(zget deg m - 1)%Z]> deg) n = 1%Z) ns =
                 filter (λ n, zget deg n = 1%Z) ns).
  { apply filter_ext_elem. intros n Hn. rewrite zget_insert_ne by set_solver. done. }
  rewrite Hext, filter_cons. do 2 case_decide; try lia; [|done].
  by rewrite <- app_assoc.
Qed.

Record kahn_inv (names : gset string) (ed : gmap string (list string))
    (res queue : list string) (deg : gmap string Z) : Prop := {
  ki_nodup : NoDup (res ++ queue);
  ki_names n : n ∈ res ++ queue → n ∈ names;
  ki_deg n : zget deg n = Z.of_nat (npred ed (names ∖ list_to_set res) n);
  ki_zero n : n ∈ names → (n ∈ res ++ queue ↔ zget deg n = 0%Z);
  ki_order l1 n l2 : res = l1 ++ n :: l2 → ∀ a, n ∈ lget ed a → a ∈ l1;
}.

Section kahn.
  Context (names : gset string) (ed : gmap string (list string)).
  Hypothesis ed_nodup : ∀ a, NoDup (lget ed a).
  Hypothesis ed_names : ∀ a b, b ∈ lget ed a → a ∈ names ∧ b ∈ names.

Lemma kahn_inv_step res node rest deg :
    kahn_inv names ed res (node :: rest) deg →
    let st := foldl relax (deg, rest) (lget ed node) in
    kahn_inv names ed (res ++ [node]) st.2 st.1.
  Proof.
    intros [HN Hnm Hdeg Hz Hord]; simpl.
    rewrite relax_queue by done.
    apply NoDup_app in HN as (HN1 & Hdis & [Hnr HNr]%NoDup_cons).
    assert (Hnode : node ∈ names) by set_solver.
    assert (Hnres : node ∉ res) by set_solver.
    assert (Hd : ∀ n, zget deg n = (Z.of_nat (npred ed (names ∖ list_to_set (res ++ [node])) n)
        + (if decide (n ∈ lget ed node) then 1 else 0))%Z).
    { intros n. rewrite Hdeg, (npred_delete _ _ node) by set_solver.
      replace (names ∖ list_to_set res ∖ {[node]}) with (names ∖ list_to_set (res ++ [node]))
        by set_solver.
      case_decide; lia. }
    assert (Hnew : ∀ n, n ∈ lget ed node → n ∉ res ++ node :: rest).
    { intros n Hn Hin. apply Hz in Hin; [|by eapply ed_names].
      rewrite Hd, decide_True in Hin by done. lia. }
    split.
    - rewrite <- app_assoc. simpl. apply NoDup_app. split_and!; [done| |].
      + intros n Hn. specialize (Hdis n Hn). rewrite elem_of_cons, elem_of_app, list_elem_of_filter.
        specialize (Hnew n). set_solver.
      + apply NoDup_cons. split.
        * rewrite elem_of_app, list_elem_of_filter. specialize (Hnew node). set_solver.
        * apply NoDup_app. split_and!; [done| |by apply NoDup_filter].
          intros n Hn. rewrite list_elem_of_filter. specialize (Hnew n). set_solver.
    - intros n. rewrite !elem_of_app, list_elem_of_filter, list_elem_of_singleton.
      intros [[?| ->]|[?|[_ ?]]]; [set_solver|done|set_solver|by eapply ed_names].
    - intros n. rewrite relax_deg, Hd by done. lia.
    - intros n Hn. rewrite relax_deg by done. specialize (Hz n Hn).
      rewrite !elem_of_app, list_elem_of_filter, list_elem_of_singleton.
      rewrite elem_of_app, elem_of_cons in Hz. case_decide as He.
      + specialize (Hnew n He). split; [|intros; right; right; split; [lia|done]].
        rewrite elem_of_app, elem_of_cons in Hnew. intros [?|[?|[? _]]]; [tauto|tauto|lia].
      + rewrite Z.sub_0_r. tauto.
    - intros l1 n l2 Heq a Ha. destruct l2 as [|x l2 _] using rev_ind.
      + apply app_inj_tail in Heq as [<- <-].
        assert (Hzero : zget deg node = 0%Z) by (apply Hz; set_solver).
        rewrite Hdeg in Hzero. assert (H0 : npred ed (names ∖ list_to_set res) node = 0) by lia.
        rewrite npred_zero in H0. destruct (decide (a ∈ res)) as [?|Har]; [done|].
        destruct (H0 a); [|done]. apply ed_names in Ha. set_solver.
      + rewrite app_comm_cons, app_assoc in Heq. apply app_inj_tail in Heq as [Heq _].
        by eapply Hord.
  Qed.

Lemma kahn_inv_len res queue deg :
    kahn_inv names ed res queue deg → length res + length queue ≤ size names.
  Proof.
    intros [HN Hnm _ _ _]. rewrite <- length_app.
    rewrite <- (size_list_to_set (C:=gset string)) by done.
    apply subseteq_size. intros n. rewrite elem_of_list_to_set. auto.
  Qed.

Lemma kahn_done fuel res queue deg :
    kahn_inv names ed res queue deg → size names ≤ fuel + length res →
    ∃ res' deg', kahn fuel ed queue deg res = Done (res', deg') ∧ kahn_inv names ed res' [] deg'.
  Proof.
    revert res queue deg. induction fuel as [|fuel IH]; intros res [|node rest] deg Hinv Hf; simpl;
      try (by exists res, deg).
    - apply kahn_inv_len in Hinv. simpl in *. lia.
    - apply IH; [by apply kahn_inv_step|]. rewrite length_app. simpl. lia.
  Qed.
End kahn.

(** ** What is left over lies downstream of a cycle *)

(** The names a cycle blocks: on a cycle or reachable from one. *)
Definition blocked (R : string → string → Prop) (n : string) : Prop :=
  ∃ m, tc R m m ∧ rtc R m n.

Section blocked.
  Context (R : string → string → Prop) (X : gset string).
  Hypothesis every_has_pred : ∀ y, y ∈ X → ∃ z, z ∈ X ∧ R z y.

  (** Walking predecessors inside a finite set revisits a node. *)
Lemma blocked_walk k visited y n :
    size X ≤ k + length visited → y ∈ X → NoDup (y :: visited) →
    (∀ v, v ∈ visited → v ∈ X ∧ tc R y v) → rtc R y n → blocked R n.
  Proof.
    revert visited y. induction k as [|k IH]; intros visited y Hk Hy HN Hv Hr.
    { assert (Hsub : list_to_set (y :: visited) ⊆ X) by set_solver.
      apply subseteq_size in Hsub. rewrite size_list_to_set in Hsub by done. simpl in *. lia. }
    destruct (every_has_pred y Hy) as (z & Hz & Hzy).
    destruct (decide (z = y)) as [->|Hne]; [exists y; split; [by apply tc_once|done]|].
    destruct (decide (z ∈ visited)) as [Hzv|Hzv].
    - exists y. split; [|done]. destruct (Hv z Hzv). by eapply tc_r.
    - apply (IH (y :: visited) z); [simpl; lia|done| | |by eapply rtc_l].
      + apply NoDup_cons. set_solver.
      + intros v [->|Hvv]%elem_of_cons; [split; [done|by apply tc_once]|].
        destruct (Hv v Hvv). split; [done|]. by eapply tc_l.
  Qed.

Lemma all_blocked n : n ∈ X → blocked R n.
  Proof.
    intros Hn. apply (blocked_walk (size X) [] n n); [simpl; lia|done| |set_solver|done].
    apply NoDup_singleton.
  Qed.
End blocked.

(** A duplicate-free list in which every predecessor comes first. *)
Definition ordered (R : string → string → Prop) (l : list string) : Prop :=
  NoDup l ∧ ∀ l1 n l2, l = l1 ++ n :: l2 → ∀ a, R a n → a ∈ l1.

Lemma ordered_tc R l a b :
  ordered R l → tc R a b → ∀ l1 l2, l = l1 ++ b :: l2 → a ∈ l1.
Proof.
  intros [HN Hord] Htc. induction Htc as [a b Hab|a c b Hac Hcb IH]; intros l1 l2 Heq.
  - by eapply Hord.
  - specialize (IH l1 l2 Heq) as Hc. apply list_elem_of_split in Hc as (k1 & k2 & ->).
    enough (a ∈ k1) by set_solver. eapply (Hord k1 c (k2 ++ b :: l2)); [|done].
    by rewrite Heq, <- app_assoc.
Qed.

Lemma ordered_not_blocked R l n : ordered R l → n ∈ l → ¬ blocked R n.
Proof.
  intros Ho Hn (m & Htc & Hrtc).
  assert (Hm : m ∈ l).
  { apply list_elem_of_split in Hn as (l1 & l2 & Heq). apply rtc_tc in Hrtc as [->|Ht].
    - rewrite Heq. set_solver.
    - rewrite Heq. pose proof (ordered_tc _ _ _ _ Ho Ht _ _ Heq). set_solver. }
  apply list_elem_of_split in Hm as (l1 & l2 & Heq).
  pose proof (ordered_tc _ _ _ _ Ho Htc _ _ Heq) as Hin. destruct Ho as [HN _].
  rewrite Heq in HN. apply NoDup_app in HN as (_ & Hd & _). specialize (Hd m Hin). set_solver.
Qed.

(** ** Correctness of [TopoSort] *)

Lemma kahn_init names services g :
  NoDup (Name <$> services) → names = list_to_set (Name <$> services) →
  graph_ok names (edge services) g →
  kahn_inv names (edges g) []
    (filter (λ n, zget (inDegree g) n = 0%Z) (Name <$> services)) (inDegree g).
Proof.
  intros HN -> Hg. split; simpl.
  - by apply NoDup_filter.
  - intros n. rewrite list_elem_of_filter, elem_of_list_to_set. tauto.
  - intros n. rewrite difference_empty_L. apply (go_deg _ _ _ Hg).
  - intros n. rewrite list_elem_of_filter, elem_of_list_to_set. tauto.
  - by intros [|] ??.
Qed.

Lemma kahn_rest_blocked names services g res deg :
  graph_ok names (edge services) g → kahn_inv names (edges g) res [] deg →
  ∀ n, n ∈ names → n ∉ res → (0 < zget deg n)%Z ∧ blocked (edge services) n.
Proof.
  intros Hg Hk.
  assert (Hpos : ∀ n, n ∈ names → n ∉ res → (0 < zget deg n)%Z).
  { intros n Hn Hr. pose proof (ki_deg _ _ _ _ _ Hk n). pose proof (ki_zero _ _ _ _ _ Hk n Hn) as Hz.
    rewrite app_nil_r in Hz. destruct (decide (zget deg n = 0%Z)); [tauto|lia]. }
  intros n Hn Hr. split; [auto|].
  apply (all_blocked _ (names ∖ list_to_set res)); [|set_solver].
  intros y [Hy Hyr]%elem_of_difference. rewrite elem_of_list_to_set in Hyr.
  specialize (Hpos y Hy Hyr). rewrite (ki_deg _ _ _ _ _ Hk) in Hpos. unfold npred in Hpos.
  destruct (set_choose_or_empty (filter (λ a, y ∈ lget (edges g) a) (names ∖ list_to_set res)))
    as [[z Hz]|Hz].
  - exists z. rewrite elem_of_filter, (go_edges _ _ _ Hg) in Hz. tauto.
  - apply size_empty_iff in Hz. lia.
Qed.

Lemma kahn_inv_ordered names services g res deg :
  graph_ok names (edge services) g → kahn_inv names (edges g) res [] deg →
  ordered (edge services) res.
Proof.
  intros Hg Hk. split.
  - pose proof (ki_nodup _ _ _ _ _ Hk) as H. by rewrite app_nil_r in H.
  - intros l1 n l2 Heq a. rewrite <- (go_edges _ _ _ Hg). by apply (ki_order _ _ _ _ _ Hk l1 n l2).
Qed.

(** The result of the graph phase, shared by both functions. *)
Lemma build_cases services names :
  collect_names services = Ok names →
  (∃ g, build_graph names services = Ok g ∧ refs_known services ∧
        graph_ok names (edge services) g) ∨
  (∃ e, build_graph names services = Err e ∧ ¬ refs_known services ∧
        match e with AfterUnknown _ _ | BeforeUnknown _ _ | RequiresUnknown _ _ => True
        | _ => False end).
Proof.
  intros Hc. apply collect_names_spec in Hc as [HN ->].
  destruct (build_graph _ services) as [g|e] eqn:Hb; [left|right].
  - exists g. split_and!; [done| |].
    + intros s d Hs Hd. rewrite <- (elem_of_list_to_set (C:=gset string)).
      eapply (proj1 (build_graph_total _ services)); eauto.
    + eapply build_graph_ok; [|done]. set_solver.
  - exists e. split_and!; [done| |].
    + intros Hr. destruct (proj2 (build_graph_total (list_to_set (Name <$> services)) services)) as [g Hg].
      * intros s d Hs Hd. rewrite elem_of_list_to_set. by eapply Hr.
      * by rewrite Hb in Hg.
    + unfold build_graph in Hb. apply foldM_err in Hb as (? & s & ? & g1 & _ & _ & He).
      unfold add_service in He.
      destruct (foldM (add_after _ s) _ (After s)) as [g2|] eqn:H1; simpl in He.
      * destruct (foldM (add_before _ s) g2 (Before s)) as [g3|] eqn:H2; simpl in He.
        -- apply foldM_err in He as (? & ? & ? & ? & _ & _ & He).
           unfold add_requires in He. case_decide; by simplify_eq.
        -- apply foldM_err in H2 as (? & ? & ? & ? & _ & _ & H2).
           unfold add_before in H2. case_decide; by simplify_eq.
      * apply foldM_err in H1 as (? & ? & ? & ? & _ & _ & H1).
        unfold add_after in H1. case_decide; by simplify_eq.
Qed.

Lemma collect_names_err services e :
  collect_names services = Err e → ¬ NoDup (Name <$> services) ∧ ∃ n, e = DuplicateName n.
Proof.
  intros H. split.
  - intros HN. rewrite (proj2 (collect_names_spec services (list_to_set (Name <$> services)))) in H; done.
  - apply foldM_err in H as (? & s & ? & ? & _ & _ & H). case_decide; naive_solver.
Qed.

Definition is_ref_err (e : order_err) : Prop :=
  match e with
  | AfterUnknown _ _ | BeforeUnknown _ _ | RequiresUnknown _ _ => True
  | _ => False
  end.

(** The list the cycle error names: the blocked services, sorted. *)
Definition blocked_names (services : list Service) (c : list string) : Prop :=
  StronglySorted String.le c ∧ NoDup c ∧
  ∀ n, n ∈ c ↔ n ∈ Name <$> services ∧ blocked (edge services) n.

Lemma cycled_spec services deg :
  NoDup (Name <$> services) →
  (∀ n, n ∈ Name <$> services → (0 < zget deg n)%Z ↔ blocked (edge services) n) →
  blocked_names services (cycled (list_to_set (Name <$> services)) deg).
Proof.
  intros HN Hd. unfold cycled. split_and!; [apply sort_strings_sorted| |].
  - rewrite sort_strings_perm. apply NoDup_filter, NoDup_elements.
  - intros n. rewrite sort_strings_perm, list_elem_of_filter, elem_of_elements, elem_of_list_to_set.
    specialize (Hd n). tauto.
Qed.

(** What the queue loop leaves, once the graph is built. *)
Lemma kahn_outcome services g :
  NoDup (Name <$> services) →
  graph_ok (list_to_set (Name <$> services)) (edge services) g →
  ∃ res deg,
    kahn (length services) (edges g)
      (filter (λ n, zget (inDegree g) n = 0%Z) (Name <$> services)) (inDegree g) []
      = Done (res, deg) ∧
    if decide (length res = size (list_to_set (C:=gset string) (Name <$> services)))
    then acyclic services ∧ start_order services res
    else ¬ acyclic services ∧
      blocked_names services (cycled (list_to_set (Name <$> services)) deg).
Proof.
  intros HN Hg. set (names := list_to_set (Name <$> services)) in *.
  destruct (kahn_done names (edges g) (go_nodup _ _ _ Hg)
    (λ a b Hab, go_names _ _ _ Hg a b (proj1 (go_edges _ _ _ Hg a b) Hab))
    (length services) _ _ _ (kahn_init _ _ _ HN eq_refl Hg)) as (res & deg & Hk & Hinv).
  { unfold names. rewrite size_list_to_set, length_fmap by done. simpl. lia. }
  exists res, deg. split; [done|].
  pose proof (kahn_inv_ordered _ _ _ _ _ Hg Hinv) as Ho.
  pose proof (kahn_rest_blocked _ _ _ _ _ Hg Hinv) as Hrest.
  assert (Hsub : ∀ n, n ∈ res → n ∈ Name <$> services).
  { intros n Hn. rewrite <- (elem_of_list_to_set (C:=gset string)).
    apply (ki_names _ _ _ _ _ Hinv). set_solver. }
  case_decide as Hlen; split.
  - intros n Htc. assert (∃ y, edge services n y) as [y Hy] by (inversion Htc; eauto).
    apply (ordered_not_blocked _ res n Ho); [|by exists n].
    rewrite (full_Permutation res (Name <$> services)); [|apply Ho|done|].
    + rewrite <- (elem_of_list_to_set (C:=gset string)). by destruct (go_names _ _ _ Hg n y Hy).
    + unfold names in Hlen. rewrite Hlen, size_list_to_set by done. lia.
  - split; [|apply Ho]. apply full_Permutation; [apply Ho|done|].
    unfold names in Hlen. rewrite Hlen, size_list_to_set by done. lia.
  - intros Hac. destruct Hlen. apply Nat.le_antisymm.
    + pose proof (kahn_inv_len _ _ _ _ _ Hinv). simpl in *. lia.
    + rewrite <- (size_list_to_set (C:=gset string) res) by apply Ho.
      apply subseteq_size. intros n Hn. rewrite elem_of_list_to_set.
      destruct (decide (n ∈ res)) as [?|Hnr]; [done|].
      destruct (Hrest n Hn Hnr) as [_ (m & Hm & _)]. by destruct (Hac m).
  - apply cycled_spec; [done|]. intros n Hn. destruct (decide (n ∈ res)) as [Hin|Hnin].
    + split; [|intros ?; by destruct (ordered_not_blocked _ _ n Ho)].
      rewrite <- (elem_of_list_to_set (C:=gset string)) in Hn.
      pose proof (proj1 (ki_zero _ _ _ _ _ Hinv n Hn)) as Hz. rewrite app_nil_r in Hz.
      specialize (Hz Hin). lia.
    + split; intros _; apply Hrest; try done; by apply elem_of_list_to_set.
Qed.

(** A successful sort is a start order. *)
Lemma toposort_order services l :
  TopoSort services = Done (Ok l) →
  NoDup (Name <$> services) ∧ refs_known services ∧ start_order services l.
Proof.
  unfold TopoSort. destruct (collect_names services) as [names|e] eqn:Hc; [|done].
  destruct (build_cases _ _ Hc) as [(g & -> & Hr & Hg)|(e & -> & Hr & He)]; [|done].
  apply collect_names_spec in Hc as [HN ->].
  destruct (kahn_outcome services g HN Hg) as (res & deg & -> & Hout).
  case_decide; [|done]. intros [= <-]. naive_solver.
Qed.

Lemma toposort_returns services : ∃ r, TopoSort services = Done r.
Proof.
  unfold TopoSort. destruct (collect_names services) as [names|e] eqn:Hc; [|eauto].
  destruct (build_cases _ _ Hc) as [(g & -> & Hr & Hg)|(e & -> & Hr & He)]; [|eauto].
  apply collect_names_spec in Hc as [HN ->].
  destruct (kahn_outcome services g HN Hg) as (res & deg & -> & Hout). case_decide; eauto.
Qed.

(** Distinct names, known references and no cycle are what TopoSort asks for. *)
Lemma toposort_ok_iff services :
  (∃ l, TopoSort services = Done (Ok l)) ↔ NoDup (Name <$> services) ∧ refs_known services ∧ acyclic services.
Proof.
  unfold TopoSort. destruct (collect_names services) as [names|e] eqn:Hc; cycle 1.
  { apply collect_names_err in Hc as [? [? ->]]. naive_solver. }
  destruct (build_cases _ _ Hc) as [(g & -> & Hr & Hg)|(e & -> & Hr & He)];
    apply collect_names_spec in Hc as [HN ->]; [|naive_solver].
  destruct (kahn_outcome services g HN Hg) as (res & deg & -> & Hout).
  case_decide; naive_solver.
Qed.

(** C7: TopoSort always returns, and its four outcomes are exactly the four
    situations: with distinct names and known references it returns a start
    order (each service once, after everything it depends on) precisely when
    the constraints are acyclic, and otherwise the cycle error naming exactly
    the services on or downstream of a cycle, sorted; a repeated name and an
    unknown reference give their own errors. *)
Theorem toposort_correct (services : list Service) :
  match TopoSort services with
  | Done (Ok l) =>
      NoDup (Name <$> services) ∧ refs_known services ∧ acyclic services ∧ start_order services l
  | Done (Err (CycleDetected c)) =>
      NoDup (Name <$> services) ∧ refs_known services ∧ ¬ acyclic services ∧
      blocked_names services c
  | Done (Err (DuplicateName n)) => ¬ NoDup (Name <$> services)
  | Done (Err e) => NoDup (Name <$> services) ∧ ¬ refs_known services ∧ is_ref_err e
  | OutOfFuel => False
  end.
Proof.
  unfold TopoSort. destruct (collect_names services) as [names|e] eqn:Hc; cycle 1.
  { by apply collect_names_err in Hc as [? [? ->]]. }
  destruct (build_cases _ _ Hc) as [(g & -> & Hr & Hg)|(e & -> & Hr & He)];
    apply collect_names_spec in Hc as [HN ->]; [|by destruct e].
  destruct (kahn_outcome services g HN Hg) as (res & deg & -> & Hout).
  case_decide; naive_solver.
Qed.

(** ** The layer loop *)

(** [D]: the names drained so far.  Drained names sit at [-1]; the others count
    their undrained predecessors. *)
Record layer_inv (names : gset string) (ed : gmap string (list string))
    (D : list string) (deg : gmap string Z) : Prop := {
  li_nodup : NoDup D;
  li_names n : n ∈ D → n ∈ names;
  li_deg n : zget deg n =
    if decide (n ∈ D) then (-1)%Z else Z.of_nat (npred ed (names ∖ list_to_set D) n);
  li_closed n a : n ∈ D → n ∈ lget ed a → a ∈ D;
}.

Lemma dec_all_deg (ns : list string) (deg : gmap string Z) (n : string) :
  NoDup ns →
  zget (foldl (λ d nb, <[nb := (zget d nb - 1)%Z]> d) deg ns) n =
  (zget deg n - (if decide (n ∈ ns) then 1 else 0))%Z.
Proof.
  revert deg. induction ns as [|m ns IH]; intros deg; simpl; [intros _; lia|].
  intros [Hm HN]%NoDup_cons. rewrite IH by done.
  destruct (decide (m = n)) as [<-|].
  - rewrite zget_insert_eq, (decide_False (P:=m ∈ ns)), decide_True by set_solver. lia.
  - rewrite zget_insert_ne by done.
    destruct (decide (n ∈ ns)); [rewrite decide_True by set_solver|rewrite decide_False by set_solver]; lia.
Qed.

Section layers.
  Context (names : gset string) (ed : gmap string (list string)).
  Hypothesis ed_nodup : ∀ a, NoDup (lget ed a).
  Hypothesis ed_names : ∀ a b, b ∈ lget ed a → a ∈ names ∧ b ∈ names.

  (** Draining one more name all of whose predecessors are drained. *)
Lemma drain_inv D deg x :
    layer_inv names ed D deg → x ∈ names → x ∉ D →
    (∀ a, x ∈ lget ed a → a ∈ D) →
    layer_inv names ed (D ++ [x]) (drain ed deg x).
  Proof.
    intros [HN Hnm Hdeg Hcl] Hx HxD Hpx.
    assert (Hout : ∀ n, n ∈ lget ed x → n ∉ D ++ [x]).
    { intros n Hn. rewrite elem_of_app, list_elem_of_singleton. intros [HD|Hnx].
      - apply HxD. by eapply Hcl.
      - subst n. apply HxD. by apply Hpx. }
    split.
    - apply NoDup_app. split_and!; [done|set_solver|apply NoDup_singleton].
    - set_solver.
    - intros n. unfold drain. rewrite dec_all_deg by done.
      destruct (decide (x = n)) as [<-|Hne].
      + rewrite zget_insert_eq, (decide_True (P:=x ∈ D ++ [x])) by set_solver.
        rewrite decide_False; [lia|]. intros Hin. apply (Hout x Hin). set_solver.
      + rewrite zget_insert_ne, Hdeg by done. destruct (decide (n ∈ D ++ [x])) as [Hin|Hnin].
        * assert (n ∈ D) by set_solver. rewrite (decide_True (P:=n ∈ D)) by done.
          rewrite decide_False; [lia|]. intros He. by apply (Hout n He).
        * rewrite (decide_False (P:=n ∈ D)) by set_solver.
          rewrite (npred_delete _ _ x) by set_solver.
          replace (names ∖ list_to_set D ∖ {[x]}) with (names ∖ list_to_set (D ++ [x]))
            by set_solver.
          case_decide; lia.
    - intros n a. rewrite !elem_of_app, list_elem_of_singleton.
      intros [?| ->] Ha; left; [by eapply Hcl|by apply Hpx].
  Qed.

Lemma drain_layer_inv D deg layer :
    layer_inv names ed D deg → NoDup layer →
    (∀ n, n ∈ layer → n ∈ names ∧ (n ∉ D) ∧ (∀ a, n ∈ lget ed a → a ∈ D)) →
    layer_inv names ed (D ++ layer) (foldl (drain ed) deg layer).
  Proof.
    revert D deg. induction layer as [|x layer IH]; intros D deg Hinv HN Hl; simpl.
    { by rewrite app_nil_r. }
    apply NoDup_cons in HN as [Hx HN].
    rewrite (cons_middle x D layer), app_assoc. apply IH; [|done|].
    - apply drain_inv; [done|apply Hl; set_solver..].
    - intros n Hn. destruct (Hl n) as (? & ? & Hp); [set_solver|].
      split_and!; [done|set_solver|]. intros a Ha. rewrite elem_of_app. left. by apply Hp.
  Qed.

  (** The members of the next layer: undrained, every predecessor drained. *)
Lemma next_layer D deg n :
    layer_inv names ed D deg → n ∈ names →
    zget deg n = 0%Z ↔ (n ∉ D) ∧ (∀ a, n ∈ lget ed a → a ∈ D).
  Proof.
    intros [HN Hnm Hdeg Hcl] Hn. rewrite Hdeg. case_decide as HD; [naive_solver lia|].
    rewrite <- (Nat2Z.inj_0), Nat2Z.inj_iff, npred_zero. split.
    - intros H. split; [done|]. intros a Ha. destruct (decide (a ∈ D)) as [?|HaD]; [done|].
      destruct (H a); [|done]. apply ed_names in Ha. set_solver.
    - intros [_ H] a [_ HaD]%elem_of_difference Ha. apply HaD. rewrite elem_of_list_to_set. auto.
  Qed.
End layers.

(** Each layer is exactly the set of services, not started by an earlier layer,
    whose dependencies all belong to earlier layers; and it is sorted. *)
Definition layered (names : gset string) (R : string → string → Prop)
    (layers : list (list string)) : Prop :=
  ∀ pre layer post, layers = pre ++ layer :: post →
    layer ≠ [] ∧ StronglySorted String.le layer ∧
    ∀ n, n ∈ layer ↔ n ∈ names ∧ (n ∉ concat pre) ∧ (∀ a, R a n → a ∈ concat pre).

Lemma layered_snoc names R layers layer :
  layered names R layers →
  layer ≠ [] → StronglySorted String.le layer →
  (∀ n, n ∈ layer ↔ n ∈ names ∧ (n ∉ concat layers) ∧ (∀ a, R a n → a ∈ concat layers)) →
  layered names R (layers ++ [layer]).
Proof.
  intros HL Hne Hs Hl pre k post Heq. destruct post as [|x post _] using rev_ind.
  - by apply app_inj_tail in Heq as [<- <-].
  - rewrite app_comm_cons, app_assoc in Heq. apply app_inj_tail in Heq as [-> _].
    by eapply HL.
Qed.

Lemma concat_split {A} (ls : list (list A)) l1 x l2 :
  concat ls = l1 ++ x :: l2 →
  ∃ pre layer post k1 k2,
    ls = pre ++ layer :: post ∧ layer = k1 ++ x :: k2 ∧ l1 = concat pre ++ k1.
Proof.
  revert l1. induction ls as [|l ls IH]; intros l1; simpl; [by destruct l1|].
  intros [(k & Hk1 & Hk2)|(k & Hk1 & Hk2)]%app_eq_inv.
  - destruct k as [|y k]; simplify_eq/=.
    + destruct (IH [] ltac:(done)) as (pre & layer & post & k1 & k2 & -> & -> & Hnil).
      exists ((l1 ++ []) :: pre), (k1 ++ x :: k2), post, k1, k2. split_and!; [done|done|].
      symmetry in Hnil. apply app_eq_nil in Hnil as [Hpre ->]. simpl.
      by rewrite Hpre, !app_nil_r.
    + by exists [], (l1 ++ y :: k), ls, l1, k.
  - destruct (IH k ltac:(done)) as (pre & layer & post & k1 & k2 & -> & -> & ->).
    exists (l :: pre), (k1 ++ x :: k2), post, k1, k2. split_and!; [done|done|].
    simpl. by rewrite Hk1, app_assoc.
Qed.

Lemma layered_ordered names R layers :
  layered names R layers → NoDup (concat layers) → ordered R (concat layers).
Proof.
  intros HL HN. split; [done|].
  intros l1 n l2 (pre & layer & post & k1 & k2 & -> & -> & ->)%concat_split a Ha.
  rewrite elem_of_app. left. destruct (HL pre _ post eq_refl) as (_ & _ & Hl).
  destruct (proj1 (Hl n)) as (_ & _ & Hp); [set_solver|auto].
Qed.

Lemma blocked_names_unique services c1 c2 :
  blocked_names services c1 → blocked_names services c2 → c1 = c2.
Proof.
  intros (Hs1 & HN1 & H1) (Hs2 & HN2 & H2).
  apply (StronglySorted_unique String.le); try done.
  apply NoDup_Permutation; [done..|]. intros n. by rewrite H1, H2.
Qed.

Section layer_loop.
  Context (names : gset string) (ed : gmap string (list string)).
  Hypothesis ed_nodup : ∀ a, NoDup (lget ed a).
  Hypothesis ed_names : ∀ a b, b ∈ lget ed a → a ∈ names ∧ b ∈ names.

Definition loop_post (r : fuelled (result order_err (list (list string)))) : Prop :=
    match r with
    | Done (Ok ls) =>
        layered names (λ a b, b ∈ lget ed a) ls ∧ NoDup (concat ls) ∧
        (∀ n, n ∈ concat ls ↔ n ∈ names)
    | Done (Err e) =>
        ∃ D deg, e = CycleDetected (cycled names deg) ∧ layer_inv names ed D deg ∧
          ordered (λ a b, b ∈ lget ed a) D ∧ (∀ n, n ∈ names → zget deg n ≠ 0%Z) ∧
          length D < size names
    | OutOfFuel => False
    end.

Lemma layer_loop_spec fuel deg layers :
    layer_inv names ed (concat layers) deg →
    layered names (λ a b, b ∈ lget ed a) layers →
    size names ≤ fuel + length (concat layers) →
    loop_post (layer_loop fuel names ed deg (length (concat layers)) layers).
  Proof.
    revert deg layers. induction fuel as [|fuel IH]; intros deg layers Hinv HL Hf; simpl;
      case_decide as Hlt; try lia.
    1, 3: split_and!; [done|by apply (li_nodup _ _ _ _ Hinv)|]; intros n;
      (split; [apply (li_names _ _ _ _ Hinv)|]); intros Hn;
      rewrite <- (elem_of_list_to_set (C:=gset string));
      rewrite (set_subseteq_size_eq (list_to_set (concat layers)) names); [done| |];
      [intros m; rewrite elem_of_list_to_set; apply (li_names _ _ _ _ Hinv)
      |rewrite size_list_to_set by apply (li_nodup _ _ _ _ Hinv); lia].
    set (layer := filter (λ n, zget deg n = 0%Z) (elements names)).
    assert (Hlayer : ∀ n, n ∈ layer ↔ n ∈ names ∧ (n ∉ concat layers) ∧
        (∀ a, n ∈ lget ed a → a ∈ concat layers)).
    { intros n. unfold layer. rewrite list_elem_of_filter, elem_of_elements.
      split.
      - intros [H1 H2]. split; [done|]. by apply (next_layer names ed ed_nodup ed_names _ deg).
      - intros (H1 & H2). split; [|done]. by apply (next_layer names ed ed_nodup ed_names (concat layers)). }
    assert (HNl : NoDup (sort_strings layer)).
    { rewrite sort_strings_perm. apply NoDup_filter, NoDup_elements. }
    destruct layer as [|x rest] eqn:Hl.
    - exists (concat layers), deg. split_and!; [done|done| | |done].
      + by eapply layered_ordered, li_nodup.
      + intros n Hn H0. assert (Hin : n ∈ layer); [|rewrite Hl in Hin; set_solver].
        unfold layer. by rewrite list_elem_of_filter, elem_of_elements.
    - rewrite <- Hl in *. clearbody layer.
      assert (Hsorted : ∀ n, n ∈ sort_strings layer ↔ n ∈ layer)
        by (intros n; by rewrite sort_strings_perm).
      assert (Hcat : concat (layers ++ [sort_strings layer]) = concat layers ++ sort_strings layer)
        by (by rewrite concat_app; simpl; rewrite app_nil_r).
      rewrite <- length_app, <- Hcat. apply IH.
      + rewrite Hcat. apply drain_layer_inv; [done..|].
        intros n Hn. by apply Hlayer, Hsorted.
      + apply layered_snoc; [done| |apply sort_strings_sorted|].
        * intros Hnil. assert (Hx : x ∈ sort_strings layer); [|rewrite Hnil in Hx; set_solver].
          rewrite Hsorted, Hl. set_solver.
        * intros n. rewrite Hsorted. apply Hlayer.
      + rewrite Hcat, length_app, sort_strings_perm, Hl. simpl. lia.
  Qed.
End layer_loop.

Lemma layer_init names services g :
  graph_ok names (edge services) g → layer_inv names (edges g) [] (inDegree g).
Proof.
  intros Hg. split; [constructor|set_solver| |set_solver].
  intros n. simpl. rewrite difference_empty_L. apply (go_deg _ _ _ Hg).
Qed.

(** When no undrained name has in-degree zero, exactly the blocked names have a
    positive one. *)
Lemma layer_stuck_blocked names services g D deg n :
  graph_ok names (edge services) g → layer_inv names (edges g) D deg →
  ordered (λ a b, b ∈ lget (edges g) a) D → (∀ m, m ∈ names → zget deg m ≠ 0%Z) →
  n ∈ names → (0 < zget deg n)%Z ↔ blocked (edge services) n.
Proof.
  intros Hg Hinv Ho Hz Hn.
  assert (Ho' : ordered (edge services) D).
  { destruct Ho as [HN Ho]. split; [done|]. intros l1 m l2 Heq a Ha.
    eapply Ho; [done|]. by apply (go_edges _ _ _ Hg). }
  destruct (decide (n ∈ D)) as [HD|HD].
  - rewrite (li_deg _ _ _ _ Hinv), decide_True by done.
    split; [lia|]. intros Hb. by destruct (ordered_not_blocked _ _ n Ho').
  - assert (Hpos : ∀ m, m ∈ names → m ∉ D → (0 < zget deg m)%Z).
    { intros m Hm HmD. specialize (Hz m Hm). rewrite (li_deg _ _ _ _ Hinv) in *.
      rewrite decide_False in * by done. lia. }
    split; [intros _|by auto]. apply (all_blocked _ (names ∖ list_to_set D)); [|set_solver].
    intros y [Hy Hyr]%elem_of_difference. rewrite elem_of_list_to_set in Hyr.
    specialize (Hpos y Hy Hyr). rewrite (li_deg _ _ _ _ Hinv), decide_False in Hpos by done.
    unfold npred in Hpos.
    destruct (set_choose_or_empty (filter (λ a, y ∈ lget (edges g) a) (names ∖ list_to_set D)))
      as [[z Hzz]|He].
    + exists z. rewrite elem_of_filter, (go_edges _ _ _ Hg) in Hzz. tauto.
    + apply size_empty_iff in He. lia.
Qed.

(** What the layer loop returns, once the graph is built. *)
Lemma layer_outcome services g :
  NoDup (Name <$> services) →
  graph_ok (list_to_set (Name <$> services)) (edge services) g →
  match layer_loop (length services) (list_to_set (Name <$> services))
          (edges g) (inDegree g) 0 [] with
  | Done (Ok ls) =>
      acyclic services ∧ concat ls ≡ₚ (Name <$> services) ∧
      layered (list_to_set (Name <$> services)) (edge services) ls
  | Done (Err e) =>
      ¬ acyclic services ∧ ∃ c, e = CycleDetected c ∧ blocked_names services c
  | OutOfFuel => False
  end.
Proof.
  intros HN Hg. set (names := list_to_set (Name <$> services)) in *.
  pose proof (layer_loop_spec names (edges g) (go_nodup _ _ _ Hg)
    (λ a b Hab, go_names _ _ _ Hg a b (proj1 (go_edges _ _ _ Hg a b) Hab))
    (length services) (inDegree g) [] (layer_init _ _ _ Hg)) as Hloop.
  simpl in Hloop. specialize (Hloop ltac:(by intros [|] ??)).
  rewrite Nat.add_0_r in Hloop. unfold names in Hloop at 1.
  rewrite size_list_to_set, length_fmap in Hloop by done. specialize (Hloop ltac:(done)).
  destruct (layer_loop _ _ _ _ _ _) as [[ls|e]|]; [| |done].
  - destruct Hloop as (HL & HNd & Hin).
    assert (HL' : layered names (edge services) ls).
    { intros pre layer post Heq. destruct (HL pre layer post Heq) as (? & ? & Hl).
      split_and!; [done..|]. intros n. rewrite Hl. by setoid_rewrite (go_edges _ _ _ Hg). }
    split_and!; [| |done].
    + intros n Htc. assert (∃ y, edge services n y) as [y Hy] by (inversion Htc; eauto).
      apply (ordered_not_blocked _ (concat ls) n (layered_ordered _ _ _ HL' HNd)).
      * apply Hin. by destruct (go_names _ _ _ Hg n y Hy).
      * by exists n.
    + apply NoDup_Permutation; [done..|]. intros n. rewrite Hin. apply elem_of_list_to_set.
  - destruct Hloop as (D & deg & -> & Hinv & Ho & Hz & Hlt).
    assert (Hb : ∀ n, n ∈ names → (0 < zget deg n)%Z ↔ blocked (edge services) n)
      by (intros n; by eapply layer_stuck_blocked).
    split.
    + intros Hac. assert (Hsub : names ⊆ list_to_set D).
      { intros n Hn. rewrite elem_of_list_to_set. destruct (decide (n ∈ D)) as [?|HD]; [done|].
        assert (Hpos : (0 < zget deg n)%Z).
        { specialize (Hz n Hn). rewrite (li_deg _ _ _ _ Hinv), decide_False in * by done. lia. }
        apply (Hb n Hn) in Hpos as (m & Hm & _). by destruct (Hac m). }
      apply subseteq_size in Hsub. rewrite size_list_to_set in Hsub by apply Ho. lia.
    + eexists. split; [done|]. apply cycled_spec; [done|]. intros n Hn. apply Hb.
      by apply elem_of_list_to_set.
Qed.

Lemma topolayers_layered services ls :
  TopoLayers services = Done (Ok ls) →
  concat ls ≡ₚ (Name <$> services) ∧ layered (list_to_set (Name <$> services)) (edge services) ls.
Proof.
  unfold TopoLayers. destruct (collect_names services) as [names|e] eqn:Hc; [|done].
  destruct (build_cases _ _ Hc) as [(g & -> & Hr & Hg)|(e & -> & Hr & He)]; [|done].
  apply collect_names_spec in Hc as [HN ->]. pose proof (layer_outcome services g HN Hg) as Hout.
  destruct (layer_loop _ _ _ _ _ _) as [[ls'|e]|]; naive_solver.
Qed.

(** TopoLayers always returns; with distinct names, known references and
    acyclic constraints it returns the layering in which every service appears
    once and each layer is exactly the sorted set of services not yet started
    whose dependencies all lie in earlier layers (so no two members of a layer
    depend on each other); its error cases are those of TopoSort. *)
Theorem topolayers_correct (services : list Service) :
  match TopoLayers services with
  | Done (Ok ls) =>
      NoDup (Name <$> services) ∧ refs_known services ∧ acyclic services ∧
      concat ls ≡ₚ (Name <$> services) ∧
      layered (list_to_set (Name <$> services)) (edge services) ls
  | Done (Err (CycleDetected c)) =>
      NoDup (Name <$> services) ∧ refs_known services ∧ ¬ acyclic services ∧
      blocked_names services c
  | Done (Err (DuplicateName n)) => ¬ NoDup (Name <$> services)
  | Done (Err e) => NoDup (Name <$> services) ∧ ¬ refs_known services ∧ is_ref_err e
  | OutOfFuel => False
  end.
Proof.
  unfold TopoLayers. destruct (collect_names services) as [names|e] eqn:Hc; cycle 1.
  { by apply collect_names_err in Hc as [? [? ->]]. }
  destruct (build_cases _ _ Hc) as [(g & -> & Hr & Hg)|(e & -> & Hr & He)];
    apply collect_names_spec in Hc as [HN ->]; [|by destruct e].
  pose proof (layer_outcome services g HN Hg) as Hout.
  destruct (layer_loop _ _ _ _ _ _) as [[ls|e]|]; naive_solver.
Qed.

(** TopoSort and TopoLayers fail together and with the same error value, so
    the second call in run() cannot surface an error the first did not. *)
Theorem topo_errors_agree (services : list Service) (e : order_err) :
  TopoSort services = Done (Err e) ↔ TopoLayers services = Done (Err e).
Proof.
  unfold TopoSort, TopoLayers. destruct (collect_names services) as [names|e'] eqn:Hc; [|naive_solver].
  destruct (build_cases _ _ Hc) as [(g & -> & Hr & Hg)|(e' & -> & Hr & He)]; [|naive_solver].
  apply collect_names_spec in Hc as [HN ->].
  destruct (kahn_outcome services g HN Hg) as (res & deg & -> & Hout).
  pose proof (layer_outcome services g HN Hg) as Hlay.
  destruct (layer_loop _ _ _ _ _ _) as [[ls|e']|]; [| |done].
  - case_decide; naive_solver.
  - destruct Hlay as (Hac & c & -> & Hb). case_decide; [naive_solver|].
    destruct Hout as [_ Hb']. rewrite (blocked_names_unique _ _ _ Hb Hb'). naive_solver.
Qed.

(** A service that merely depends on a cycle is reported "among" it: [c] is on
    no cycle, yet the error names it. *)
Lemma cycle_report_names_downstream :
  let services := [svc "a" ["b"]; svc "b" ["a"]; svc "c" ["b"]] in
  TopoSort services = Done (Err (CycleDetected ["a"; "b"; "c"])) ∧
  ¬ tc (edge services) "c" "c".
Proof.
  split; [by vm_compute|]. intros Htc.
  assert (∃ y, edge [svc "a" ["b"]; svc "b" ["a"]; svc "c" ["b"]] "c" y)
    as (y & s & Hs & H) by (inversion Htc; eauto).
  repeat (apply elem_of_cons in Hs as [->|Hs]; [set_solver|]). set_solver.
Qed.

Example toposort_chain :
  TopoSort [svc "c" ["b"]; svc "b" ["a"]; svc "a" []] = Done (Ok ["a"; "b"; "c"]).
Proof. vm_compute. reflexivity. Qed.

Example topolayers_diamond :
  TopoLayers [svc "d" ["b"; "c"]; svc "b" ["a"]; svc "c" ["a"]; svc "a" []]
  = Done (Ok [["a"]; ["b"; "c"]; ["d"]]).
Proof. vm_compute. reflexivity. Qed.

End Order.
