(* ===== verification/Metrics.v ===== *)
(** * In-memory statistics: src/internal/metrics/metrics.go

    [Metrics] is the pair of maps behind the mutex; each exported method is
    one atomic operation on it, as the lock makes it.  The specification reads
    an entry off the history of operations: which events happened since the
    entry was created. *)

From S2P Require Import Prelude GoStrings.

Open Scope string_scope.
Open Scope list_scope.
Open Scope nat_scope.

Module Metrics.

(** ** Data *)

(** [StartedAt] is nanoseconds, [None] the zero [time.Time]. *)
Record serviceStats := mkServiceStats {
  StartedAt : option Z;
  Skipped : string;
  Pid : Z;
  Restarts : Z;
  Exits : Z;
  Failures : Z;
  Successes : Z;
  Up : bool;
  Enabled : bool;
  Pending : bool;
}.

Record checkStats := mkCheckStats {
  CFailures : Z;
  CHealthy : bool;
}.

Record Metrics := mkMetrics {
  services : gmap string serviceStats;
  checks : gmap string checkStats;
}.

Record ServiceSnapshot := mkServiceSnapshot {
  SName : string;
  SState : string;
  SReason : string;
  SPid : Z;
  SUptime : Z;
  SEnabled : bool;
  SExits : Z;
  SRestarts : Z;
  SSuccesses : Z;
  SFailures : Z;
}.

Record CheckSnapshot := mkCheckSnapshot {
  KName : string;
  KHealthy : bool;
  KFailures : Z;
}.

Record Snapshot := mkSnapshot {
  Services : list ServiceSnapshot;
  Checks : list CheckSnapshot;
}.

(** ** Operations *)

Definition New : Metrics := mkMetrics ∅ ∅.

Definition fresh_service : serviceStats :=
  mkServiceStats None "" 0 0 0 0 0 false true false.

(** [svcRegister]: the entry, created if absent. *)
Definition svcRegister (m : Metrics) (name : string) : serviceStats :=
  match services m !! name with
  | Some s => s
  | None => fresh_service
  end.

Definition chkRegister (m : Metrics) (name : string) : checkStats :=
  match checks m !! name with
  | Some c => c
  | None => mkCheckStats 0 true
  end.

Definition set_service (m : Metrics) (name : string) (s : serviceStats) : Metrics :=
  mkMetrics (<[name := s]> (services m)) (checks m).

Definition RegisterService (m : Metrics) (name : string) (enabled : bool) : Metrics :=
  let s := svcRegister m name in
  set_service m name
    (mkServiceStats (StartedAt s) (Skipped s) (Pid s) (Restarts s) (Exits s) (Failures s)
       (Successes s) (Up s) enabled
       (if enabled && bool_decide (StartedAt s = None) && (Exits s =? 0)%Z then true
        else Pending s)).

Definition IsPending (m : Metrics) (name : string) : bool :=
  match services m !! name with Some s => Pending s | None => false end.

Definition UnregisterService (m : Metrics) (name : string) : Metrics :=
  mkMetrics (delete name (services m)) (checks m).

Definition ServiceStarted (m : Metrics) (name : string) (pid now : Z) : Metrics :=
  match services m !! name with
  | None => m
  | Some s =>
      set_service m name
        (mkServiceStats (Some now) "" pid (Restarts s) (Exits s) (Failures s)
           (Successes s) true (Enabled s) false)
  end.

Definition ServiceSkipped (m : Metrics) (name reason : string) : Metrics :=
  match services m !! name with
  | None => m
  | Some s =>
      set_service m name
        (mkServiceStats (StartedAt s) reason (Pid s) (Restarts s) (Exits s) (Failures s)
           (Successes s) (Up s) (Enabled s) (Pending s))
  end.

Definition ServiceExited (m : Metrics) (name : string) (exitCode : Z) : Metrics :=
  match services m !! name with
  | None => m
  | Some s =>
      set_service m name
        (mkServiceStats (StartedAt s) (Skipped s) 0 (Restarts s) (wrap64 (Exits s + 1))
           (if (exitCode =? 0)%Z then Failures s else wrap64 (Failures s + 1))
           (if (exitCode =? 0)%Z then wrap64 (Successes s + 1) else Successes s)
           false (Enabled s) false)
  end.

Definition ServiceRestarted (m : Metrics) (name : string) : Metrics :=
  match services m !! name with
  | None => m
  | Some s =>
      set_service m name
        (mkServiceStats (StartedAt s) (Skipped s) (Pid s) (wrap64 (Restarts s + 1)) (Exits s)
           (Failures s) (Successes s) (Up s) (Enabled s) (Pending s))
  end.

Definition RegisterCheck (m : Metrics) (name : string) : Metrics :=
  mkMetrics (services m) (<[name := chkRegister m name]> (checks m)).

Definition UnregisterCheck (m : Metrics) (name : string) : Metrics :=
  mkMetrics (services m) (delete name (checks m)).

Definition CheckResult (m : Metrics) (name : string) (healthy : bool) : Metrics :=
  match checks m !! name with
  | None => m
  | Some c =>
      mkMetrics (services m)
        (<[name := mkCheckStats (if healthy then CFailures c else wrap64 (CFailures c + 1)) healthy]>
           (checks m))
  end.

(** *** Reading *)

(** [time.Since(s.StartedAt)] in whole seconds; the zero time is so far back
    that the difference saturates. *)
Definition uptime_seconds (now : Z) (s : serviceStats) : Z :=
  trunc_seconds (match StartedAt s with Some t => time_since now t | None => MaxInt64 end).

Definition serviceSnapshotLocked (now : Z) (name : string) (s : serviceStats) : ServiceSnapshot :=
  let snap state reason pid uptime :=
    mkServiceSnapshot name state reason pid uptime (Enabled s) (Exits s) (Restarts s)
      (Successes s) (Failures s) in
  if Up s then snap "up" "" (Pid s) (uptime_seconds now s)
  else if negb (Enabled s) then snap "disabled" "" 0%Z 0%Z
  else if negb (bool_decide (Skipped s = "")) then snap "skipped" (Skipped s) 0%Z 0%Z
  else if Pending s then snap "pending" "" 0%Z 0%Z
  else snap "stopped" "" 0%Z 0%Z.

Definition sorted_names {A} (m : gmap string A) : list string :=
  sort_strings (elements (dom m)).

Definition take_snapshot (now : Z) (m : Metrics) : Snapshot :=
  mkSnapshot
    (omap (λ name, serviceSnapshotLocked now name <$> services m !! name)
       (sorted_names (services m)))
    (omap (λ name, (λ c, mkCheckSnapshot name (CHealthy c) (CFailures c)) <$> checks m !! name)
       (sorted_names (checks m))).

Definition service_snapshot (now : Z) (m : Metrics) (name : string) : option ServiceSnapshot :=
  serviceSnapshotLocked now name <$> services m !! name.

(** *** Format *)

Definition format_state (now : Z) (s : serviceStats) : string :=
  if Up s then duration_string (uptime_seconds now s)
  else if negb (Enabled s) then "disabled"
  else if negb (bool_decide (Skipped s = "")) then "skipped"
  else if Pending s then "pending"
  else "stopped".

Definition service_line (maxState : nat) (name state : string) (s : serviceStats) : string :=
  "  " +:+ pad_right 20 name +:+ " " +:+ pad_right maxState state
    +:+ " exits=" +:+ fmt_d (Exits s) +:+ " restarts=" +:+ fmt_d (Restarts s)
    +:+ " ok=" +:+ fmt_d (Successes s) +:+ " fail=" +:+ fmt_d (Failures s)
    +:+ (if Up s then " pid=" +:+ fmt_d (Pid s) else "")
    +:+ str1 "010".

Definition check_line (name : string) (c : checkStats) : string :=
  "  " +:+ pad_right 20 name +:+ " " +:+ (if CHealthy c then "healthy" else "unhealthy")
    +:+ "  failures=" +:+ fmt_d (CFailures c) +:+ str1 "010".

Definition str_concat (l : list string) : string := Join l "".

Definition Format (now : Z) (m : Metrics) : string :=
  let rows := omap (λ n, pair n <$> services m !! n) (sorted_names (services m)) in
  let states := (λ r, format_state now (snd r)) <$> rows in
  let maxState := foldr Nat.max 0 (String.length <$> states) in
  let svc := if bool_decide (rows = []) then ""
    else "services:" +:+ str1 "010" +:+
         str_concat (zip_with (λ r st, service_line maxState (fst r) st (snd r)) rows states) in
  let crows := omap (λ n, pair n <$> checks m !! n) (sorted_names (checks m)) in
  let chk := if bool_decide (crows = []) then ""
    else "checks:" +:+ str1 "010" +:+ str_concat ((λ r, check_line (fst r) (snd r)) <$> crows) in
  let b := svc +:+ chk in
  if bool_decide (b = "") then "no stats" else TrimRight b (str1 "010").

(** ** Histories *)

Inductive op :=
  | ORegisterService (name : string) (enabled : bool)
  | OUnregisterService (name : string)
  | OServiceStarted (name : string) (pid now : Z)
  | OServiceSkipped (name reason : string)
  | OServiceExited (name : string) (exitCode : Z)
  | OServiceRestarted (name : string)
  | ORegisterCheck (name : string)
  | OUnregisterCheck (name : string)
  | OCheckResult (name : string) (healthy : bool).

Definition apply_op (m : Metrics) (o : op) : Metrics :=
  match o with
  | ORegisterService n e => RegisterService m n e
  | OUnregisterService n => UnregisterService m n
  | OServiceStarted n p t => ServiceStarted m n p t
  | OServiceSkipped n r => ServiceSkipped m n r
  | OServiceExited n c => ServiceExited m n c
  | OServiceRestarted n => ServiceRestarted m n
  | ORegisterCheck n => RegisterCheck m n
  | OUnregisterCheck n => UnregisterCheck m n
  | OCheckResult n h => CheckResult m n h
  end.

Definition run (h : list op) : Metrics := foldl apply_op New h.

(** ** Specification: an entry as a summary of its events

    What a service entry is told: the events of one name, in order. *)
Inductive event :=
  | ERegister (enabled : bool)
  | EStarted (pid now : Z)
  | ESkipped (reason : string)
  | EExited (exitCode : Z)
  | ERestarted.

Definition event_of (n : string) (o : op) : option event :=
  match o with
  | ORegisterService n' e => if decide (n = n') then Some (ERegister e) else None
  | OServiceStarted n' p t => if decide (n = n') then Some (EStarted p t) else None
  | OServiceSkipped n' r => if decide (n = n') then Some (ESkipped r) else None
  | OServiceExited n' c => if decide (n = n') then Some (EExited c) else None
  | OServiceRestarted n' => if decide (n = n') then Some ERestarted else None
  | _ => None
  end.

(** The suffix of the history after the last [UnregisterService n]. *)
Definition is_unregister (n : string) (o : op) : bool :=
  match o with OUnregisterService n' => bool_decide (n = n') | _ => false end.

Fixpoint since_unregister (n : string) (h : list op) : list op :=
  match h with
  | [] => []
  | o :: h' => if existsb (is_unregister n) h then since_unregister n h' else h
  end.

(** The events of [n] from the one that created its entry on: the first
    registration after the last unregistration. *)
Fixpoint from_register (l : list event) : list event :=
  match l with
  | [] => []
  | ERegister e :: l' => l
  | _ :: l' => from_register l'
  end.

Definition life (n : string) (h : list op) : list event :=
  from_register (omap (event_of n) (since_unregister n h)).

Definition count (P : event → bool) (l : list event) : Z := Z.of_nat (length (List.filter P l)).

Definition is_exit (e : event) : bool := match e with EExited _ => true | _ => false end.
Definition is_success (e : event) : bool := match e with EExited c => (c =? 0)%Z | _ => false end.
Definition is_failure (e : event) : bool := match e with EExited c => negb (c =? 0)%Z | _ => false end.
Definition is_restart (e : event) : bool := match e with ERestarted => true | _ => false end.
Definition is_run (e : event) : bool := match e with EStarted _ _ | EExited _ => true | _ => false end.

(** The latest value an event list defines, [d] when none does. *)
Definition latest {A} (f : event → option A) (d : A) (l : list event) : A :=
  default d (last (omap f l)).

Definition summary (l : list event) : serviceStats :=
  mkServiceStats
    (latest (λ e, match e with EStarted _ t => Some (Some t) | _ => None end) None l)
    (latest (λ e, match e with EStarted _ _ => Some "" | ESkipped r => Some r | _ => None end) "" l)
    (latest (λ e, match e with EStarted p _ => Some p | EExited _ => Some 0%Z | _ => None end) 0%Z l)
    (count is_restart l) (count is_exit l) (count is_failure l) (count is_success l)
    (latest (λ e, match e with EStarted _ _ => Some true | EExited _ => Some false | _ => None end) false l)
    (latest (λ e, match e with ERegister b => Some b | _ => None end) true l)
    (existsb (λ e, match e with ERegister b => b | _ => false end) l && negb (existsb is_run l)).

(** The entry of [n] after history [h], by specification. *)
Definition spec_entry (n : string) (h : list op) : option serviceStats :=
  match life n h with [] => None | l => Some (summary l) end.

(** ** Lemmas *)

(** What an operation does to the entry of a name. *)
Definition step_stats (s : serviceStats) (e : event) : serviceStats :=
  default s (services (apply_op (mkMetrics {["x" := s]} ∅)
    match e with
    | ERegister b => ORegisterService "x" b
    | EStarted p t => OServiceStarted "x" p t
    | ESkipped r => OServiceSkipped "x" r
    | EExited c => OServiceExited "x" c
    | ERestarted => OServiceRestarted "x"
    end) !! "x").

Lemma apply_op_entry m o n :
  services (apply_op m o) !! n =
  if is_unregister n o then None
  else match event_of n o with
       | None => services m !! n
       | Some (ERegister b) => Some (step_stats (default fresh_service (services m !! n)) (ERegister b))
       | Some e => (λ s, step_stats s e) <$> services m !! n
       end.
Proof.
  destruct o as [n' b|n'|n' p t|n' r|n' c|n'|n'|n'|n' b]; simpl; try case_decide as Hn; subst;
    unfold RegisterService, UnregisterService, ServiceStarted, ServiceSkipped, ServiceExited,
      ServiceRestarted, CheckResult, svcRegister; simpl;
    try (by rewrite lookup_insert_eq; destruct (services m !! n'));
    try (by rewrite lookup_insert_ne by done);
    try (destruct (services m !! n') eqn:E; simpl; rewrite ?lookup_insert_eq, ?E; simpl; try done;
         by rewrite lookup_insert_ne by done);
    try (by destruct (checks m !! n')).
  all: by rewrite ?lookup_delete_eq, ?lookup_delete_ne by done.
Qed.

Lemma since_unregister_snoc n h o :
  since_unregister n (h ++ [o]) =
  if is_unregister n o then [] else since_unregister n h ++ [o].
Proof.
  induction h as [|a h IH]; simpl.
  - by destruct (is_unregister n o).
  - rewrite existsb_app, IH. simpl.
    destruct (is_unregister n a), (existsb (is_unregister n) h), (is_unregister n o); done.
Qed.

Lemma from_register_snoc l e :
  from_register (l ++ [e]) =
  match from_register l with
  | [] => match e with ERegister _ => [e] | _ => [] end
  | r => r ++ [e]
  end.
Proof. induction l as [|[] l IH]; simpl; try done. Qed.

Lemma life_snoc n h o :
  life n (h ++ [o]) =
  if is_unregister n o then []
  else match event_of n o with
       | None => life n h
       | Some e => match life n h with
                   | [] => match e with ERegister _ => [e] | _ => [] end
                   | r => r ++ [e]
                   end
       end.
Proof.
  unfold life. rewrite since_unregister_snoc. destruct (is_unregister n o); [done|].
  rewrite omap_app. simpl. destruct (event_of n o) as [e|]; simpl.
  - by rewrite from_register_snoc.
  - by rewrite app_nil_r.
Qed.

Lemma from_register_length l : length (from_register l) ≤ length l.
Proof. induction l as [|[] l IH]; simpl; lia. Qed.

Lemma omap_length {A B} (f : A → option B) l : length (omap f l) ≤ length l.
Proof. induction l as [|a l IH]; [done|]. csimpl. destruct (f a); simpl; lia. Qed.

Lemma life_length n h : length (life n h) ≤ length h.
Proof.
  unfold life. etrans; [apply from_register_length|]. etrans; [apply omap_length|].
  induction h as [|a h IH]; [done|].
  cbn [since_unregister]. destruct (existsb _ _); simpl; lia.
Qed.

Lemma count_snoc P l e : count P (l ++ [e]) = (count P l + (if P e then 1 else 0))%Z.
Proof.
  unfold count. rewrite List.filter_app, length_app. simpl. destruct (P e); simpl; lia.
Qed.

Lemma count_bound P l : (0 ≤ count P l ≤ Z.of_nat (length l))%Z.
Proof. unfold count. pose proof (List.filter_length_le P l). lia. Qed.

Lemma count_succ P l : (Z.of_nat (length l) < MaxInt64)%Z → wrap64 (count P l + 1) = (count P l + 1)%Z.
Proof.
  intros. pose proof (count_bound P l). apply wrap64_id.
  unfold in_int64, MinInt64, MaxInt64 in *. lia.
Qed.

Lemma latest_snoc {A} (f : event → option A) d l e :
  latest f d (l ++ [e]) = match f e with Some a => a | None => latest f d l end.
Proof.
  unfold latest. rewrite omap_app. simpl. destruct (f e); simpl.
  - by rewrite last_snoc.
  - by rewrite app_nil_r.
Qed.

Lemma never_run l :
  (bool_decide (StartedAt (summary l) = None) && (count is_exit l =? 0)%Z) = negb (existsb is_run l).
Proof.
  induction l as [|e l IH] using rev_ind; [done|].
  rewrite existsb_app, count_snoc. simpl in *. rewrite latest_snoc. pose proof (count_bound is_exit l).
  destruct e; simpl in *; rewrite ?Z.add_0_r, ?orb_false_r, ?orb_true_r; try done.
  rewrite andb_comm. simpl. destruct (Z.eqb_spec (count is_exit l + 1) 0); [lia|done].
Qed.

Lemma summary_snoc l e :
  (Z.of_nat (length l) < MaxInt64)%Z → summary (l ++ [e]) = step_stats (summary l) e.
Proof.
  intros Hl. unfold summary at 1. rewrite !latest_snoc, !count_snoc, !existsb_app.
  pose proof (never_run l) as Hnr.
  destruct e as [b|p t|r|c|]; unfold step_stats; simpl; 
    unfold RegisterService, ServiceStarted, ServiceSkipped, ServiceExited, ServiceRestarted, svcRegister;
    simpl; rewrite ?lookup_singleton_eq; simpl; rewrite ?lookup_insert_eq; simpl;
    rewrite ?Z.add_0_r, ?orb_false_r, ?orb_true_r, ?andb_false_r, ?count_succ by done; try done.
  - f_equal. simpl in Hnr. rewrite <- andb_assoc, Hnr.
    destruct b, (existsb is_run l); simpl; rewrite ?orb_true_r, ?orb_false_r, ?andb_false_r; done.
  - by destruct (Z.eqb_spec c 0); simpl; rewrite ?Z.add_0_r.
Qed.

Lemma metrics_run_snoc h o : run (h ++ [o]) = apply_op (run h) o.
Proof. unfold run. by rewrite foldl_app. Qed.

Lemma entry_history (h : list op) (n : string) :
  (Z.of_nat (length h) ≤ MaxInt64)%Z → services (run h) !! n = spec_entry n h.
Proof.
  induction h as [|o h IH] using rev_ind; intros Hlen; [done|].
  rewrite length_app in Hlen. simpl in Hlen.
  rewrite metrics_run_snoc, apply_op_entry, IH by lia. unfold spec_entry. rewrite life_snoc.
  pose proof (life_length n h).
  destruct (is_unregister n o); [done|]. destruct (event_of n o) as [e|]; [|done].
  destruct (life n h) as [|e0 l] eqn:El.
  - destruct e; try done. simpl. f_equal.
    rewrite <- (summary_snoc []) by done. done.
  - destruct e; simpl fmap; simpl default; f_equal; rewrite <- summary_snoc by lia; done.
Qed.

(** C18: The statistics are a faithful summary of the history: after any
    history of fewer than 2^63 operations the entry of a service is the one
    the specification reads off the events since it was registered (exits,
    successes, failures and restarts are the numbers of such events, the state
    fields are the latest ones told), and a service with no registration since
    its last unregistration has no entry. *)
Theorem metrics_history (h : list op) (n : string) :
  (Z.of_nat (length h) ≤ MaxInt64)%Z → services (run h) !! n = spec_entry n h.
Proof. apply entry_history. Qed.

Lemma metrics_history_witness :
  services (run [ORegisterService "web" true; OServiceStarted "web" 7 1; OServiceExited "web" 3]) !! "web"
  = Some (mkServiceStats (Some 1%Z) "" 0 0 1 1 0 false true false).
Proof.
  rewrite (metrics_history _ "web"); [|vm_compute; discriminate].
  vm_compute. reflexivity.
Defined.

(** *** Snapshots *)

Lemma sorted_names_elem {A} (m : gmap string A) n : n ∈ sorted_names m ↔ is_Some (m !! n).
Proof.
  unfold sorted_names. rewrite sort_strings_perm, elem_of_elements. apply elem_of_dom.
Qed.

Lemma sorted_names_NoDup {A} (m : gmap string A) : NoDup (sorted_names m).
Proof. unfold sorted_names. rewrite sort_strings_perm. apply NoDup_elements. Qed.

(** A row per registered name, in name order. *)
Lemma omap_rows {A B} (m : gmap string A) (f : string → A → B) (nm : B → string) (l : list string) :
  (∀ n a, nm (f n a) = n) → (∀ n, n ∈ l → is_Some (m !! n)) →
  nm <$> omap (λ n, f n <$> m !! n) l = l.
Proof.
  intros Hnm. induction l as [|n l IH]; intros Hl; [done|]. csimpl.
  destruct (Hl n) as [a ->]; [set_solver|]. csimpl.
  rewrite Hnm, IH; [done|]. intros n' ?. apply Hl. set_solver.
Qed.

Lemma snapshot_name now n s : SName (serviceSnapshotLocked now n s) = n.
Proof. unfold serviceSnapshotLocked. by repeat case_match. Qed.

(** A snapshot lists every registered service and every registered check
    exactly once, in increasing name order, and its rows are the ones
    [ServiceSnapshot] returns for their names. *)
Theorem snapshot_listing (now : Z) (m : Metrics) :
  let snap := take_snapshot now m in
  SName <$> Services snap = sorted_names (services m) ∧
  KName <$> Checks snap = sorted_names (checks m) ∧
  StronglySorted String.le (SName <$> Services snap) ∧ NoDup (SName <$> Services snap) ∧
  StronglySorted String.le (KName <$> Checks snap) ∧ NoDup (KName <$> Checks snap) ∧
  (∀ row, row ∈ Services snap ↔ service_snapshot now m (SName row) = Some row).
Proof.
  simpl.
  assert (H1 : SName <$> Services (take_snapshot now m) = sorted_names (services m)).
  { apply omap_rows; [apply snapshot_name|]. intros n. by rewrite sorted_names_elem. }
  assert (H2 : KName <$> Checks (take_snapshot now m) = sorted_names (checks m)).
  { apply (omap_rows (checks m) (λ n c, mkCheckSnapshot n (CHealthy c) (CFailures c))); [done|].
    intros n. by rewrite sorted_names_elem. }
  simpl in H1, H2. rewrite H1, H2. split_and!; try done;
    try apply sort_strings_sorted; try apply sorted_names_NoDup.
  intros row. rewrite list_elem_of_omap. unfold service_snapshot. split.
  - intros (n & _ & Hrow). destruct (services m !! n) as [s|] eqn:E; [|done].
    simpl in Hrow. injection Hrow as <-. by rewrite snapshot_name, E.
  - intros Hrow. exists (SName row). split; [|done]. apply sorted_names_elem.
    destruct (services m !! SName row); [eauto|done].
Qed.

(** The last start or exit decides [Up] and [Pid]. *)
Lemma summary_run l :
  Up (summary l) = match last (List.filter is_run l) with Some (EStarted _ _) => true | _ => false end ∧
  Pid (summary l) = match last (List.filter is_run l) with Some (EStarted p _) => p | _ => 0%Z end.
Proof.
  induction l as [|e l [IH1 IH2]] using rev_ind; [done|]. simpl in *.
  rewrite !latest_snoc, List.filter_app. destruct e; simpl; rewrite ?app_nil_r, ?last_snoc; done.
Qed.

Lemma count_exits l : count is_exit l = (count is_success l + count is_failure l)%Z.
Proof.
  induction l as [|e l IH] using rev_ind; [done|]. rewrite !count_snoc, IH.
  destruct e as [| | |c|]; simpl; try lia. destruct (c =? 0)%Z; simpl; lia.
Qed.

Lemma existsb_filter_nil {A} (P : A → bool) l : existsb P l = false → List.filter P l = [].
Proof. induction l as [|a l IH]; simpl; [done|]. by destruct (P a). Qed.

(** The state a snapshot reports follows the history: "up" exactly when
    the service's latest start or exit is a start, and then its pid is that
    start's; "pending" only before any start or exit; a pid is reported in
    no other state; and the exits are the successes plus the failures. *)
Theorem snapshot_states (h : list op) (n : string) (now : Z) (row : ServiceSnapshot) :
  (Z.of_nat (length h) ≤ MaxInt64)%Z →
  service_snapshot now (run h) n = Some row →
  let runs := List.filter is_run (life n h) in
  (SState row = "up" ↔ ∃ pid t, last runs = Some (EStarted pid t) ∧ SPid row = pid) ∧
  (SState row = "pending" → runs = []) ∧
  (SPid row ≠ 0%Z → SState row = "up") ∧
  SExits row = (SSuccesses row + SFailures row)%Z.
Proof.
  intros Hlen Hrow runs. unfold service_snapshot in Hrow.
  rewrite (entry_history h n Hlen) in Hrow. unfold spec_entry in Hrow.
  assert (∃ s, s = summary (life n h) ∧ row = serviceSnapshotLocked now n s) as (s & Hs & ->).
  { destruct (life n h); [done|]. by injection Hrow as <-; eauto. }
  destruct (summary_run (life n h)) as [Hup Hpid]. fold runs in Hup, Hpid. rewrite <- Hs in *.
  assert (Hex : Exits s = (Successes s + Failures s)%Z) by (subst s; apply count_exits).
  unfold serviceSnapshotLocked. destruct (Up s) eqn:Eup; simpl.
  - split_and!; try done. split; [intros _|done].
    destruct (last runs) as [[]|]; try done. rewrite Hpid. eauto.
  - assert (Hno : ¬ ∃ pid t, last runs = Some (EStarted pid t)).
    { intros (pid & t & Hl). by rewrite Hl in Hup. }
    assert (Hpend : Pending s = true → runs = []).
    { subst s. simpl. intros [_ Hn]%andb_prop. apply existsb_filter_nil. by destruct (existsb _ _). }
    clear Hup Hpid Hrow. repeat case_match; simpl; split_and!; try done;
      solve [split; [done|]; naive_solver|intros _; by apply Hpend].
Qed.

Lemma snapshot_states_witness :
  let row := mkServiceSnapshot "web" "up" "" 7 4 true 0 0 0 0 in
  service_snapshot (4 * Second + 1) (run [ORegisterService "web" true; OServiceStarted "web" 7 1]) "web"
    = Some row ∧ SExits row = (SSuccesses row + SFailures row)%Z.
Proof.
  simpl. split; [vm_compute; reflexivity|].
  apply (snapshot_states [ORegisterService "web" true; OServiceStarted "web" 7 1] "web" (4 * Second + 1)
    (mkServiceSnapshot "web" "up" "" 7 4 true 0 0 0 0));
    [vm_compute; discriminate|vm_compute; reflexivity].
Defined.

Example format_ex :
  Format (4 * Second + 1) (run [ORegisterService "web" true; OServiceStarted "web" 7 1; ORegisterCheck "c"])
  = "services:" +:+ str1 "010" +:+ "  web                  4s exits=0 restarts=0 ok=0 fail=0 pid=7"
    +:+ str1 "010" +:+ "checks:" +:+ str1 "010" +:+ "  c                    healthy  failures=0".
Proof. vm_compute. reflexivity. Qed.

End Metrics.
