(* ===== verification/Reaper.v ===== *)
(** * The reap registry: src/internal/reaper/reaper.go

    Every method is one atomic operation under the registry's mutex.  Status
    channels are buffered Go channels of capacity one, kept in a store of
    channels so that the waiter and the registry share them; a send on a full
    channel blocks while the lock is held, which [Deliver] shows as [None]. *)

From S2P Require Import Prelude.

Module Reaper.

(** A buffered channel: everything ever sent on it, and how many of these
    values were received. *)
Record chan := mkChan {
  sent : list Z;
  recvd : nat;
}.

Definition chan_cap : nat := 1.

Definition chan_send (c : chan) (v : Z) : option chan :=
  if decide (length (sent c) - recvd c < chan_cap) then Some (mkChan (sent c ++ [v]) (recvd c))
  else None.

Definition chan_recv (c : chan) : option (Z * chan) :=
  v ← sent c !! recvd c; Some (v, mkChan (sent c) (S (recvd c))).

(** The registry with the channels it handed out; [wakes] counts the calls of
    the [wake] callback, [None] when there is none. *)
Record Registry := mkRegistry {
  waiters : gmap Z nat;
  active : bool;
  wakes : option nat;
  chans : gmap nat chan;
  next : nat;
}.

Definition New (wake : bool) : Registry :=
  mkRegistry ∅ false (if wake then Some 0 else None) ∅ 0.

Definition Activate (r : Registry) : Registry :=
  mkRegistry (waiters r) true (wakes r) (chans r) (next r).

Definition Active (r : Registry) : bool := active r.

(** [fork] is the result of the callback: a pid, or [None] for its error. *)
Definition Start (r : Registry) (fork : option Z) : option (Z * nat) * Registry :=
  match fork with
  | None => (None, r)
  | Some pid =>
      (Some (pid, next r),
       mkRegistry (<[pid := next r]> (waiters r)) (active r) (S <$> wakes r)
         (<[next r := mkChan [] 0]> (chans r)) (S (next r)))
  end.

(** [None]: the send would block with the lock held. *)
Definition Deliver (r : Registry) (pid code : Z) : option (bool * Registry) :=
  match waiters r !! pid with
  | None => Some (false, r)
  | Some ch =>
      c ← chans r !! ch;
      c' ← chan_send c code;
      Some (true, mkRegistry (delete pid (waiters r)) (active r) (wakes r)
                    (<[ch := c']> (chans r)) (next r))
  end.

Definition Forget (r : Registry) (pid : Z) : Registry :=
  mkRegistry (delete pid (waiters r)) (active r) (wakes r) (chans r) (next r).

(** A waiter receiving from its channel (non-blocking view: [None] when empty). *)
Definition Recv (r : Registry) (ch : nat) : option (Z * Registry) :=
  c ← chans r !! ch;
  '(v, c') ← chan_recv c;
  Some (v, mkRegistry (waiters r) (active r) (wakes r) (<[ch := c']> (chans r)) (next r)).

(** ** Interleavings: any sequence of operations by the checkers and the reap loop *)
Inductive op :=
  | OActivate
  | OStart (fork : option Z)
  | ODeliver (pid code : Z)
  | OForget (pid : Z)
  | ORecv (ch : nat).

Definition apply_op (r : Registry) (o : op) : option Registry :=
  match o with
  | OActivate => Some (Activate r)
  | OStart f => Some (Start r f).2
  | ODeliver p c => snd <$> Deliver r p c
  | OForget p => Some (Forget r p)
  | ORecv ch => Some (match Recv r ch with Some (_, r') => r' | None => r end)
  end.

Fixpoint run (r : Registry) (h : list op) : option Registry :=
  match h with
  | [] => Some r
  | o :: h => r' ← apply_op r o; run r' h
  end.

(** ** Specification: what a waiter's channel gets

    [outcome pid h]: the code of the first [Deliver] of [pid] in [h], if it
    comes before the pid is forgotten or forked again. *)
Fixpoint outcome (pid : Z) (h : list op) : list Z :=
  match h with
  | [] => []
  | ODeliver p c :: h => if decide (p = pid) then [c] else outcome pid h
  | OForget p :: h => if decide (p = pid) then [] else outcome pid h
  | OStart (Some p) :: h => if decide (p = pid) then [] else outcome pid h
  | _ :: h => outcome pid h
  end.

(** The [i]-th successful [Start] of a history: its pid and what followed. *)
Fixpoint nth_start (i : nat) (h : list op) : option (Z * list op) :=
  match h with
  | [] => None
  | OStart (Some p) :: h => match i with O => Some (p, h) | S i => nth_start i h end
  | _ :: h => nth_start i h
  end.

(** [pid] is not delivered, forgotten or forked again in [h]. *)
Definition touches (pid : Z) (o : op) : bool :=
  match o with
  | ODeliver p _ | OForget p | OStart (Some p) => bool_decide (p = pid)
  | _ => false
  end.

Definition pending (pid : Z) (h : list op) : bool := negb (existsb (touches pid) h).

Definition starts (h : list op) : nat :=
  length (List.filter (λ o, match o with OStart (Some _) => true | _ => false end) h).

(** ** Lemmas *)

Lemma reaper_run_snoc r h o : run r (h ++ [o]) = r' ← run r h; apply_op r' o.
Proof.
  revert r. induction h as [|a h IH]; intros r; simpl.
  - by destruct (apply_op r o).
  - destruct (apply_op r a); simpl; auto.
Qed.

Lemma pending_snoc pid h o : pending pid (h ++ [o]) = pending pid h && negb (touches pid o).
Proof. unfold pending. rewrite existsb_app. simpl. rewrite orb_false_r. apply negb_orb. Qed.

Lemma outcome_snoc pid h o :
  outcome pid (h ++ [o]) =
  if pending pid h then
    match o with ODeliver p c => if decide (p = pid) then [c] else [] | _ => [] end
  else outcome pid h.
Proof.
  induction h as [|a h IH]; simpl.
  - destruct o as [|[p|]| | |]; simpl; try case_decide; done.
  - unfold pending in *. simpl. rewrite negb_orb.
    destruct a as [|[p|]|p c|p|]; simpl; try case_decide; subst;
      rewrite ?bool_decide_true, ?bool_decide_false by done; simpl; done.
Qed.

Lemma pending_outcome pid h : pending pid h = true → outcome pid h = [].
Proof.
  induction h as [|a h IH]; [done|]. unfold pending in *. simpl. rewrite negb_orb.
  intros [H1 H2]%andb_prop. specialize (IH H2).
  destruct a as [|[p|]|p c|p|]; simpl in *; try done; case_decide; subst;
    rewrite ?bool_decide_true in H1 by done; done.
Qed.

Lemma starts_snoc h o :
  starts (h ++ [o]) = starts h + match o with OStart (Some _) => 1 | _ => 0 end.
Proof.
  unfold starts. rewrite List.filter_app, length_app. by destruct o as [|[p|]| | |].
Qed.

Lemma nth_start_snoc i h o :
  nth_start i (h ++ [o]) =
  match nth_start i h with
  | Some (p, h') => Some (p, h' ++ [o])
  | None => match o with
            | OStart (Some p) => if decide (i = starts h) then Some (p, []) else None
            | _ => None
            end
  end.
Proof.
  revert i. induction h as [|a h IH]; intros i; simpl.
  - destruct o as [|[p|]| | |]; try done. by destruct i.
  - destruct a as [|[p|]|p c|p|]; try apply IH. destruct i as [|i]; [done|].
    rewrite IH. destruct (nth_start i h) as [[? ?]|]; [done|].
    destruct o as [|[q|]| | |]; try done. change (starts (OStart (Some p) :: h)) with (S (starts h)).
    repeat case_decide; try done; lia.
Qed.

(** The registry after a history: a channel per start holding its outcome, and
    a waiter per start still pending. *)
Record inv (h : list op) (r : Registry) : Prop := {
  inv_next : next r = starts h;
  inv_chan i : match nth_start i h with
    | Some (p, h') => ∃ n, chans r !! i = Some (mkChan (outcome p h') n)
    | None => chans r !! i = None
    end;
  inv_dom i : is_Some (nth_start i h) → i < starts h;
  inv_wait p i : waiters r !! p = Some i ↔ ∃ h', nth_start i h = Some (p, h') ∧ pending p h' = true;
}.

Lemma inv_init wake : inv [] (New wake).
Proof.
  split; simpl; try done.
  intros p i. rewrite lookup_empty. split; [done|]. by intros (? & ? & _).
Qed.

(** A step that neither starts a child nor sends keeps the channels' contents. *)
Lemma outcome_keep o h p h' i :
  nth_start i h = Some (p, h') → (∀ q c, o ≠ ODeliver q c) → outcome p (h' ++ [o]) = outcome p h'.
Proof.
  intros _ Ho. rewrite outcome_snoc. destruct (pending p h') eqn:E; [|done].
  rewrite pending_outcome by done. destruct o; try done. naive_solver.
Qed.

Lemma inv_snoc_dom o h i :
  (∀ i, is_Some (nth_start i h) → i < starts h) →
  is_Some (nth_start i (h ++ [o])) → i < starts (h ++ [o]).
Proof.
  intros Hd. rewrite nth_start_snoc, starts_snoc. destruct (nth_start i h) as [[p h']|] eqn:E.
  - intros _. specialize (Hd i). rewrite E in Hd. specialize (Hd (mk_is_Some _ _ eq_refl)). lia.
  - destruct o as [|[q|]| | |]; try by intros []. case_decide; [lia|by intros []].
Qed.

(** The pending starts after one more operation that starts no child. *)
Lemma wait_snoc o h p i :
  (∀ q, o ≠ OStart (Some q)) →
  (∃ h', nth_start i (h ++ [o]) = Some (p, h') ∧ pending p h' = true) ↔
  touches p o = false ∧ ∃ h', nth_start i h = Some (p, h') ∧ pending p h' = true.
Proof.
  intros Ho. rewrite nth_start_snoc. split.
  - intros (h' & Hn & Hp). destruct (nth_start i h) as [[q h1]|].
    + injection Hn as <- <-. rewrite pending_snoc in Hp. apply andb_prop in Hp as [? ?%negb_true_iff].
      eauto.
    + destruct o as [|[q|]| | |]; naive_solver.
  - intros (Ht & h' & -> & Hp). exists (h' ++ [o]). by rewrite pending_snoc, Hp, Ht.
Qed.

Lemma inv_quiet h r r' o :
  inv h r → (∀ q, o ≠ OStart (Some q)) → (∀ q c, o ≠ ODeliver q c) →
  next r' = next r →
  (∀ i, match chans r !! i with
        | Some c => ∃ n, chans r' !! i = Some (mkChan (sent c) n)
        | None => chans r' !! i = None end) →
  (∀ p i, waiters r' !! p = Some i ↔ touches p o = false ∧ waiters r !! p = Some i) →
  inv (h ++ [o]) r'.
Proof.
  intros [H1 H2 H3 H4] Hs Hd Hn Hc Hw. split.
  - rewrite Hn, H1, starts_snoc. destruct o as [|[q|]| | |]; try lia. naive_solver.
  - intros i. rewrite nth_start_snoc. specialize (H2 i). specialize (Hc i).
    destruct (nth_start i h) as [[p h']|] eqn:E.
    + destruct H2 as [n H2]. rewrite H2 in Hc. by rewrite (outcome_keep o h p h' i).
    + rewrite H2 in Hc. destruct o as [|[q|]| | |]; naive_solver.
  - intros i. by apply inv_snoc_dom.
  - intros p i. by rewrite Hw, wait_snoc, H4.
Qed.

Lemma inv_start h r p : inv h r → inv (h ++ [OStart (Some p)]) (Start r (Some p)).2.
Proof.
  intros [H1 H2 H3 H4].
  assert (Hfresh : nth_start (next r) h = None).
  { destruct (nth_start (next r) h) eqn:E; [|done]. specialize (H3 (next r)). rewrite E in H3.
    specialize (H3 (mk_is_Some _ _ eq_refl)). lia. }
  split; simpl.
  - rewrite H1, starts_snoc. lia.
  - intros i. rewrite nth_start_snoc. specialize (H2 i). destruct (decide (i = next r)) as [->|Hi].
    + rewrite Hfresh, decide_True by done. exists 0. by rewrite lookup_insert_eq.
    + rewrite lookup_insert_ne by done. destruct (nth_start i h) as [[q h']|] eqn:E.
      * by rewrite (outcome_keep (OStart (Some p)) h q h' i).
      * rewrite decide_False by congruence. done.
  - intros i. by apply inv_snoc_dom.
  - intros q i. rewrite nth_start_snoc. destruct (decide (p = q)) as [<-|Hpq].
    + rewrite lookup_insert_eq. split.
      * intros [= <-]. exists []. rewrite Hfresh. by rewrite decide_True.
      * intros (h' & Hn & Hp). destruct (nth_start i h) as [[q1 h1]|].
        { injection Hn as -> <-. rewrite pending_snoc in Hp. simpl in Hp.
          rewrite bool_decide_true, andb_false_r in Hp; done. }
        case_decide; [congruence|done].
    + rewrite lookup_insert_ne, H4 by done. split.
      * intros (h' & -> & Hp). exists (h' ++ [OStart (Some p)]). rewrite pending_snoc, Hp. simpl.
        by rewrite bool_decide_false.
      * intros (h' & Hn & Hp). destruct (nth_start i h) as [[q1 h1]|]; [|case_decide; congruence].
        injection Hn as <- <-. rewrite pending_snoc in Hp. apply andb_prop in Hp as [? _]. eauto.
Qed.

(** A delivery finds its channel empty, so it never blocks. *)
Lemma inv_deliver h r p c :
  inv h r → ∃ b r', Deliver r p c = Some (b, r') ∧ inv (h ++ [ODeliver p c]) r' ∧
    (b = true ↔ is_Some (waiters r !! p)).
Proof.
  intros Hinv. pose proof Hinv as [H1 H2 H3 H4]. unfold Deliver.
  destruct (waiters r !! p) as [ch|] eqn:Hw.
  - pose proof (proj1 (H4 p ch) Hw) as (h1 & Hn & Hp). pose proof (H2 ch) as Hc. rewrite Hn in Hc.
    destruct Hc as [n Hc]. rewrite Hc. simpl. unfold chan_send. simpl.
    rewrite pending_outcome by done. rewrite decide_True by (simpl; unfold chan_cap; lia). simpl.
    eexists true, _. split_and!; [done| |split; [eauto|done]]. split; simpl.
    + rewrite H1, starts_snoc. lia.
    + intros i. rewrite nth_start_snoc. destruct (decide (ch = i)) as [<-|Hi].
      * rewrite Hn, lookup_insert_eq, outcome_snoc, Hp, decide_True by done. eauto.
      * rewrite lookup_insert_ne by done. specialize (H2 i).
        destruct (nth_start i h) as [[q h']|] eqn:E; [|done]. rewrite outcome_snoc.
        destruct (pending q h') eqn:Eq; [|done]. rewrite pending_outcome in H2 by done.
        rewrite decide_False; [done|]. intros <-. assert (waiters r !! p = Some i) by (apply H4; eauto).
        congruence.
    + intros i. by apply inv_snoc_dom.
    + intros q i. rewrite wait_snoc by done. rewrite <- H4. simpl. destruct (decide (p = q)) as [<-|].
      * rewrite lookup_delete_eq, bool_decide_true by done. naive_solver.
      * rewrite lookup_delete_ne, bool_decide_false by done. naive_solver.
  - exists false, r. split_and!; [done| |split; [done|by intros []]]. split.
    + rewrite H1, starts_snoc. lia.
    + intros i. rewrite nth_start_snoc. specialize (H2 i).
      destruct (nth_start i h) as [[q h']|] eqn:E; [|done]. rewrite outcome_snoc.
      destruct (pending q h') eqn:Eq; [|done]. rewrite pending_outcome in H2 by done.
      rewrite decide_False; [done|]. intros <-. assert (waiters r !! p = Some i) by (apply H4; eauto).
      congruence.
    + intros i. by apply inv_snoc_dom.
    + intros q i. rewrite wait_snoc by done. rewrite <- H4. simpl.
      case_bool_decide; subst; naive_solver congruence.
Qed.

Lemma run_inv wake h : ∃ r, run (New wake) h = Some r ∧ inv h r.
Proof.
  induction h as [|o h (r & Hr & Hinv)] using rev_ind.
  { exists (New wake). split; [done|apply inv_init]. }
  rewrite reaper_run_snoc, Hr. simpl. destruct o as [|[p|]|p c|p|ch]; simpl.
  - eexists. split; [done|]. apply (inv_quiet h r); try done; simpl; [|naive_solver].
    intros i. destruct (chans r !! i) as [[s n]|]; eauto.
  - eexists. split; [done|]. by apply inv_start.
  - eexists. split; [done|]. apply (inv_quiet h r); try done; simpl; [|naive_solver].
    intros i. destruct (chans r !! i) as [[s n]|]; eauto.
  - destruct (inv_deliver h r p c Hinv) as (b & r' & -> & Hi & _). simpl. eauto.
  - eexists. split; [done|]. apply (inv_quiet h r); try done; simpl.
    { intros i. destruct (chans r !! i) as [[s n]|]; eauto. }
    intros q i. case_bool_decide; subst.
    + rewrite lookup_delete_eq. naive_solver.
    + rewrite lookup_delete_ne by done. naive_solver.
  - eexists. split; [done|]. unfold Recv. destruct (chans r !! ch) as [[s n]|] eqn:Ec; simpl.
    2: { apply (inv_quiet h r); try done; simpl; [|naive_solver].
         intros i. destruct (chans r !! i) as [[s n]|]; eauto. }
    unfold chan_recv. simpl. destruct (s !! n) eqn:Es; simpl;
      (apply (inv_quiet h r); try done; simpl; [|naive_solver]); intros i.
    + destruct (decide (ch = i)) as [<-|]; [rewrite lookup_insert_eq, Ec|rewrite lookup_insert_ne by done];
        eauto. destruct (chans r !! i) as [[s' n']|]; eauto.
    + destruct (chans r !! i) as [[s' n']|]; eauto.
Qed.

Lemma outcome_length p h : length (outcome p h) ≤ 1.
Proof. induction h as [|[|[q|]|q c|q|] h IH]; simpl; try case_decide; simpl; lia. Qed.

(** C8: Under every interleaving of starts, deliveries, forgets and receives,
    no delivery ever blocks the reap loop, and the channel of the [i]-th
    started child holds exactly its outcome: one status, that of the first
    delivery of its pid unless the pid was forgotten or forked again before. *)
Theorem reaper_exactly_once (wake : bool) (h : list op) :
  ∃ r, run (New wake) h = Some r ∧
    ∀ i, match nth_start i h with
         | Some (pid, after) =>
             ∃ n, chans r !! i = Some (mkChan (outcome pid after) n) ∧ length (outcome pid after) ≤ 1
         | None => chans r !! i = None
         end.
Proof.
  destruct (run_inv wake h) as (r & Hr & [_ H2 _ _]). exists r. split; [done|].
  intros i. specialize (H2 i). destruct (nth_start i h) as [[p h']|]; [|done].
  destruct H2 as [n ?]. exists n. split; [done|apply outcome_length].
Qed.

(** [Deliver] claims a reaped pid exactly when some start of it is still
    waiting (not delivered, forgotten or forked again since), so the reap loop
    handles every other pid itself. *)
Theorem deliver_claims (wake : bool) (h : list op) (pid code : Z) :
  ∃ r b r', run (New wake) h = Some r ∧ Deliver r pid code = Some (b, r') ∧
    (b = true ↔ ∃ i after, nth_start i h = Some (pid, after) ∧ pending pid after = true).
Proof.
  destruct (run_inv wake h) as (r & Hr & Hinv).
  destruct (inv_deliver h r pid code Hinv) as (b & r' & HD & _ & Hb).
  exists r, b, r'. split_and!; [done..|]. rewrite Hb. split.
  - intros [i Hi]. apply (inv_wait _ _ Hinv) in Hi as (h' & ? & ?). eauto.
  - intros (i & h' & ? & ?). exists i. apply (inv_wait _ _ Hinv). eauto.
Qed.

End Reaper.
