(* ===== verification/Check.v ===== *)
(** * Health checks: src/check/check.go

    [Checker] with its constructor, one probe of each kind, the health state
    machine [observe], the periodic loop and [WaitReady].  What the network and
    the operating system answer (an HTTP response, a connection, a forked
    child's status) is an argument of the probe; the exec probe that goes
    through the reap loop runs against the registry of [Reaper] and an
    arbitrary schedule of what the other goroutines do meanwhile. *)

From S2P Require Import Prelude GoStrings GoTime Reaper.

Open Scope string_scope.
Open Scope list_scope.
Open Scope nat_scope.

Module Check.

(** ** Data *)

Record HTTP := mkHTTP { URL : string; Socket : string }.
Record TCP := mkTCP { Host : string; Port : Z }.
Record Exec := mkExec { Command : string; Args : list string }.

Record Config := mkConfig {
  cHTTP : option HTTP;
  cTCP : option TCP;
  cExec : option Exec;
  cPeriod : string;
  cTimeout : string;
  cInitialDelay : string;
  cThreshold : Z;
}.

Record Checker := mkChecker {
  name : string;
  cfg : Config;
  period : Z;
  timeout : Z;
  initialDelay : Z;
  threshold : Z;
  tcpAddr : string;
  failures : Z;
  healthy : bool;
  stopped : bool;
  stopClosed : bool;
}.

Inductive new_err :=
  | InvalidPeriod (name period : string)
  | InvalidTimeout (name timeout : string)
  | NotExactlyOne (name : string)
  | InvalidInitialDelay (name delay : string)
  | InvalidURL (name url : string)
  | InvalidPort (name : string) (port : Z).

(** ** The constructor *)

(** A duration field: the default when the text is empty, an error when it is
    not a positive duration. *)
Definition positive_duration (text : string) (dflt : Z) : option Z :=
  match ParseDuration text with
  | Some d => if (0 <? d)%Z then Some d else if bool_decide (text = "") then Some dflt else None
  | None => if bool_decide (text = "") then Some dflt else None
  end.

Definition default_threshold (t : Z) : Z := if (t <=? 0)%Z then 3%Z else t.

Definition kinds (cfg : Config) : nat :=
  (if cHTTP cfg is Some _ then 1 else 0) + (if cTCP cfg is Some _ then 1 else 0)
  + (if cExec cfg is Some _ then 1 else 0).

Section New.
(** Whether [http.NewRequest] accepts the URL (net/http's parser). *)
Context (url_ok : string → bool).

Definition New (name : string) (cfg : Config) : result new_err Checker :=
  match positive_duration (cPeriod cfg) (10 * Second) with
  | None => Err (InvalidPeriod name (cPeriod cfg))
  | Some period =>
  match positive_duration (cTimeout cfg) (3 * Second) with
  | None => Err (InvalidTimeout name (cTimeout cfg))
  | Some timeout =>
  let threshold := default_threshold (cThreshold cfg) in
  if negb (kinds cfg =? 1) then Err (NotExactlyOne name) else
  match (if bool_decide (cInitialDelay cfg = "") then Some period
         else d ← ParseDuration (cInitialDelay cfg); if (d <? 0)%Z then None else Some d) with
  | None => Err (InvalidInitialDelay name (cInitialDelay cfg))
  | Some initialDelay =>
  let c addr :=
    mkChecker name cfg period timeout initialDelay threshold addr 0 true false false in
  match cHTTP cfg with
  | Some h => if url_ok (URL h) then Ok (c "") else Err (InvalidURL name (URL h))
  | None =>
  match cTCP cfg with
  | Some t =>
      if ((Port t <=? 0) || (65535 <? Port t))%Z then Err (InvalidPort name (Port t))
      else let host := if bool_decide (Host t = "") then "localhost" else Host t in
           Ok (c (host +:+ ":" +:+ fmt_d (Port t)))
  | None => Ok (c "")
  end end end end end.
End New.

(** ** One probe *)

(** The errors of [Execute]; [EInconclusive] are those that wrap
    [ErrInconclusive]. *)
Inductive check_err :=
  | ENoCheckType
  | EHTTP
  | EHTTPStatus (code : Z)
  | ETCP
  | EExec
  | EExecStatus (code : Z)
  | EExecDeadline
  | EInconclusive.

Definition is_inconclusive (e : check_err) : bool :=
  match e with EInconclusive => true | _ => false end.

(** [checkHTTP] on the client's answer: a transport error or a status code. *)
Definition checkHTTP (resp : option Z) : option check_err :=
  match resp with
  | None => Some EHTTP
  | Some code => if ((code <? 200) || (300 <=? code))%Z then Some (EHTTPStatus code) else None
  end.

Definition checkTCP (dial_ok : bool) : option check_err :=
  if dial_ok then None else Some ETCP.

(** [cmd.Run] when no reap loop competes: success, ECHILD or another error. *)
Inductive run_result := RunOk | RunEchild | RunFailed.

Definition checkExecDirect (r : run_result) : option check_err :=
  match r with
  | RunOk => None
  | RunEchild => Some EInconclusive
  | RunFailed => Some EExec
  end.

(** *** The probe that goes through the reap loop

    What happens while the probe waits: a registry operation of another
    goroutine, the select looking at the status channel, the deadline of the
    context, the timer armed at the kill. *)
Inductive tick :=
  | TOther (o : Reaper.op)
  | TPoll
  | TDeadline
  | TTimer.

Definition poll_result (killed : bool) (code : Z) : option check_err :=
  if killed then (if (code =? 0)%Z then None else Some EExecDeadline)
  else if (code =? 0)%Z then None else Some (EExecStatus code).

(** [None]: still waiting at the end of the schedule. *)
Fixpoint reaped_wait (killed : bool) (r : Reaper.Registry) (pid : Z) (ch : nat) (sched : list tick)
    : option (Reaper.Registry * option check_err) :=
  match sched with
  | [] => None
  | TOther o :: s =>
      r' ← Reaper.apply_op r o; reaped_wait killed r' pid ch s
  | TPoll :: s =>
      match Reaper.Recv r ch with
      | Some (code, r') => Some (Reaper.Forget r' pid, poll_result killed code)
      | None => reaped_wait killed r pid ch s
      end
  | TDeadline :: s => reaped_wait true r pid ch s
  | TTimer :: s =>
      if killed then Some (Reaper.Forget r pid, Some EInconclusive)
      else reaped_wait killed r pid ch s
  end.

Definition checkExecReaped (r : Reaper.Registry) (fork : option Z) (sched : list tick)
    : option (Reaper.Registry * option check_err) :=
  match Reaper.Start r fork with
  | (None, r') => Some (r', Some EExec)
  | (Some (pid, ch), r') => reaped_wait false r' pid ch sched
  end.

(** [Execute] on the answers of the three kinds of probe. *)
Definition Execute (c : Checker) (resp : option Z) (dial_ok : bool) (exec : option check_err)
    : option check_err :=
  match cHTTP (cfg c), cTCP (cfg c), cExec (cfg c) with
  | Some _, _, _ => checkHTTP resp
  | None, Some _, _ => checkTCP dial_ok
  | None, None, Some _ => exec
  | None, None, None => Some ENoCheckType
  end.

(** ** The health state machine *)

Definition set_health (c : Checker) (f : Z) (h : bool) : Checker :=
  mkChecker (name c) (cfg c) (period c) (timeout c) (initialDelay c) (threshold c) (tcpAddr c)
    f h (stopped c) (stopClosed c).

(** [observe]: the new state, the metrics calls, and whether the threshold was
    just crossed. *)
Definition observe (c : Checker) (err : option check_err) : Checker * list (string * bool) * bool :=
  match err with
  | Some e =>
      if is_inconclusive e then (c, [], false)
      else
        let f := wrap64 (failures c + 1) in
        if ((threshold c <=? f)%Z && healthy c) then
          (set_health c f false, [(name c, false)], true)
        else (set_health c f (healthy c), [(name c, false)], false)
  | None => (set_health c 0 true, [(name c, true)], false)
  end.

(** [Stop], idempotent: the channel is closed only once. *)
Definition Stop (c : Checker) : Checker :=
  mkChecker (name c) (cfg c) (period c) (timeout c) (initialDelay c) (threshold c) (tcpAddr c)
    (failures c) (healthy c) true true.

(** One round of the [Run] loop: the probe's result is applied, then the
    failure callback runs unless [Stop] came first ([stop] says whether it did
    before the load).  The callbacks made, in order. *)
Definition run_round (st : Checker * list string) (round : option check_err * bool)
    : Checker * list string :=
  let '(c, _, call) := observe st.1 round.1 in
  let c := if round.2 then Stop c else c in
  (c, if call && negb (stopped c) then st.2 ++ [name c] else st.2).

(** The loop over the rounds it gets through (after [Stop] the select may still
    pick a ready ticker before it sees the closed channel). *)
Definition run_loop (c : Checker) (rounds : list (option check_err * bool)) : Checker * list string :=
  foldl run_round (c, []) rounds.

(** [WaitReady]: probes until one passes; [None] in the list is the context
    being cancelled while the loop waits for its ticker. *)
Fixpoint wait_ready_loop (probes : list (option (option check_err))) : option bool :=
  match probes with
  | [] => None
  | None :: _ => Some false
  | Some None :: _ => Some true
  | Some (Some _) :: ps => wait_ready_loop ps
  end.

Definition WaitReady (initial : option check_err) (probes : list (option (option check_err)))
    : option bool :=
  match initial with
  | None => Some true
  | Some _ => wait_ready_loop probes
  end.

Definition WaitReady_interval (c : Checker) : Z := Z.min (period c) Second.

(** ** Specification *)

(** The results that say something about health. *)
Definition conclusive (h : list (option check_err)) : list (option check_err) :=
  List.filter (λ r, match r with Some e => negb (is_inconclusive e) | None => true end) h.

(** The length of the failing run a history of conclusive results ends with. *)
Fixpoint prefix_fails (l : list (option check_err)) : Z :=
  match l with
  | Some _ :: l => (1 + prefix_fails l)%Z
  | _ => 0%Z
  end.

Definition streak (h : list (option check_err)) : Z := prefix_fails (reverse (conclusive h)).

Definition observe_all (c : Checker) (h : list (option check_err)) : Checker :=
  foldl (λ c r, (observe c r).1.1) c h.

(** What [New] guarantees of a checker. *)
Record checker_ok (c : Checker) : Prop := {
  ok_period : (0 < period c)%Z;
  ok_timeout : (0 < timeout c)%Z;
  ok_delay : (0 ≤ initialDelay c)%Z;
  ok_threshold : (0 < threshold c)%Z;
  ok_kind : kinds (cfg c) = 1;
}.

(** ** Lemmas *)

Lemma observe_all_snoc c h r : observe_all c (h ++ [r]) = (observe (observe_all c h) r).1.1.
Proof. unfold observe_all. by rewrite foldl_app. Qed.

Definition counts_as (r : option check_err) : bool :=
  match r with Some e => negb (is_inconclusive e) | None => true end.

Lemma streak_snoc h r :
  streak (h ++ [r]) =
  if counts_as r then (match r with Some _ => 1 + streak h | None => 0 end)%Z else streak h.
Proof.
  unfold streak, conclusive. rewrite List.filter_app. simpl. fold (counts_as r).
  destruct (counts_as r); [|by rewrite app_nil_r].
  rewrite reverse_app. simpl. by destruct r.
Qed.

Lemma prefix_fails_bound l : (0 ≤ prefix_fails l ≤ Z.of_nat (length l))%Z.
Proof. induction l as [|[] l IH]; simpl; lia. Qed.

Lemma streak_bound h : (0 ≤ streak h ≤ Z.of_nat (length h))%Z.
Proof.
  unfold streak. pose proof (prefix_fails_bound (reverse (conclusive h))).
  rewrite length_reverse in H. unfold conclusive in *.
  pose proof (List.filter_length_le (λ r : option check_err, match r with Some e => negb (is_inconclusive e) | None => true end) h). lia.
Qed.

(** The state after a history, and the threshold kept. *)
Lemma observe_state c h :
  failures c = 0%Z → healthy c = true → (0 < threshold c)%Z → (Z.of_nat (length h) ≤ MaxInt64)%Z →
  failures (observe_all c h) = streak h ∧
  healthy (observe_all c h) = (streak h <? threshold c)%Z ∧
  threshold (observe_all c h) = threshold c ∧ name (observe_all c h) = name c.
Proof.
  intros Hf Hh Ht. induction h as [|r h IH] using rev_ind; intros Hlen.
  { simpl. rewrite Hf, Hh. split_and!; try done. symmetry. by apply Z.ltb_lt. }
  rewrite length_app in Hlen. simpl in Hlen. destruct IH as (IH1 & IH2 & IH3 & IH4); [lia|].
  rewrite observe_all_snoc, streak_snoc. pose proof (streak_bound h).
  destruct r as [e|]; simpl.
  - destruct (is_inconclusive e) eqn:Ei; simpl; [done|].
    rewrite IH1, IH2, IH3, wrap64_id by (unfold in_int64, MinInt64, MaxInt64 in *; lia).
    destruct (Z.leb_spec (threshold c) (streak h + 1)), (Z.ltb_spec (streak h) (threshold c));
      simpl; rewrite ?IH3, ?IH4; (split_and!; [lia| |done|done]);
      symmetry; (apply Z.ltb_lt || apply Z.ltb_ge); lia.
  - rewrite IH3, IH4. split_and!; try done. symmetry. by apply Z.ltb_lt.
Qed.

(** Whether a probe crosses the threshold. *)
Lemma observe_crossing c h r :
  failures c = 0%Z → healthy c = true → (0 < threshold c)%Z → (Z.of_nat (length h) < MaxInt64)%Z →
  (observe (observe_all c h) r).2 =
  match r with Some e => negb (is_inconclusive e) && (streak (h ++ [r]) =? threshold c)%Z | None => false end.
Proof.
  intros Hf Hh Ht Hlen. destruct (observe_state c h Hf Hh Ht) as (G1 & G2 & G3 & G4); [lia|].
  pose proof (streak_bound h). destruct r as [e|]; [|done]. rewrite streak_snoc. simpl.
  destruct (is_inconclusive e) eqn:Ei; simpl; [done|].
  rewrite G1, G2, G3, wrap64_id by (unfold in_int64, MinInt64, MaxInt64 in *; lia).
  destruct (Z.leb_spec (threshold c) (streak h + 1)), (Z.ltb_spec (streak h) (threshold c));
    simpl; symmetry; (apply Z.eqb_eq || apply Z.eqb_neq); lia.
Qed.

(** C19: The failure callback fires exactly when a conclusive failed probe
    brings the run of consecutive failures to the threshold: once per
    unhealthy episode, never on an inconclusive probe; the counter is the
    length of that run, the check is healthy exactly below the threshold, and
    metrics get one call per conclusive probe. *)
Theorem observe_fires_at_threshold (c : Checker) (h : list (option check_err)) (r : option check_err) :
  failures c = 0%Z → healthy c = true → (0 < threshold c)%Z → (Z.of_nat (length h) < MaxInt64)%Z →
  let st := observe_all c h in
  let '(st', calls, fired) := observe st r in
  failures st' = streak (h ++ [r]) ∧
  healthy st' = (streak (h ++ [r]) <? threshold c)%Z ∧
  calls = (if counts_as r then [(name c, bool_decide (r = None))] else []) ∧
  (fired = true ↔ r ≠ None ∧ counts_as r = true ∧ streak (h ++ [r]) = threshold c).
Proof.
  intros Hf Hh Ht Hlen st. pose proof (observe_state c (h ++ [r]) Hf Hh Ht) as Hst.
  rewrite length_app in Hst. simpl in Hst. destruct Hst as (H1 & H2 & _); [lia|].
  destruct (observe_state c h Hf Hh Ht) as (_ & _ & _ & G4); [lia|].
  rewrite observe_all_snoc in H1, H2. pose proof (observe_crossing c h r Hf Hh Ht Hlen) as H3.
  fold st in G4, H1, H2, H3. destruct (observe st r) as [[st' calls] fired] eqn:Eo. simpl in *.
  split_and!; [done|done| |].
  - unfold observe in Eo. destruct r as [e|]; simpl; [destruct (is_inconclusive e)|];
      repeat case_match; simplify_eq; simpl; by rewrite ?G4.
  - rewrite H3. destruct r as [e|]; simpl; [|naive_solver].
    rewrite andb_true_iff, Z.eqb_eq. naive_solver.
Qed.

Definition sample_checker : Checker :=
  mkChecker "web" (mkConfig None None (Some (mkExec "true" [])) "" "" "" 2) 1 1 1 2 "" 0 true false false.

Lemma observe_fires_at_threshold_witness :
  let h := [Some EExec; Some EInconclusive] in
  failures (observe (observe_all sample_checker h) (Some EExec)).1.1 = streak (h ++ [Some EExec])
  ∧ (observe (observe_all sample_checker h) (Some EExec)).2 = true.
Proof.
  pose proof (observe_fires_at_threshold sample_checker [Some EExec; Some EInconclusive] (Some EExec)
    eq_refl eq_refl ltac:(reflexivity) ltac:(reflexivity)) as H.
  cbn zeta. split; [exact (proj1 H)|vm_compute; reflexivity].
Defined.

(** *** The loop *)

(** Round [i] of a history brings the run of failures to the threshold. *)
Definition crossing_at (t : Z) (h : list (option check_err)) (i : nat) : bool :=
  match h !! i with
  | Some (Some e) => negb (is_inconclusive e) && (streak (take (S i) h) =? t)%Z
  | _ => false
  end.

Definition crossings (t : Z) (h : list (option check_err)) : nat :=
  length (List.filter (crossing_at t h) (seq 0 (length h))).

(** The rounds whose callback check comes before [Stop]. *)
Fixpoint before_stop (rounds : list (option check_err * bool)) : list (option check_err * bool) :=
  match rounds with
  | (r, false) :: rs => (r, false) :: before_stop rs
  | _ => []
  end.

Lemma crossings_snoc t h r :
  crossings t (h ++ [r]) = crossings t h +
    (if match r with Some e => negb (is_inconclusive e) && (streak (h ++ [r]) =? t)%Z | None => false end
     then 1 else 0).
Proof.
  unfold crossings. rewrite length_app, seq_app, List.filter_app, length_app. f_equal.
  - f_equal. apply List.filter_ext_in. intros i Hi%in_seq. unfold crossing_at.
    rewrite lookup_app_l by lia. by rewrite take_app_le by lia.
  - simpl. unfold crossing_at. rewrite list_lookup_middle by done.
    rewrite take_ge by (rewrite length_app; simpl; lia).
    destruct r as [e|]; [|done]. by destruct (negb _ && _).
Qed.

Lemma before_stop_snoc rounds r b :
  before_stop (rounds ++ [(r, b)]) =
  if existsb snd rounds || b then before_stop rounds else before_stop rounds ++ [(r, b)].
Proof.
  induction rounds as [|[r' []] rs IH]; simpl; [by destruct b|done|].
  rewrite IH. by destruct (existsb snd rs || b).
Qed.

Lemma before_stop_all rounds : existsb snd rounds = false → before_stop rounds = rounds.
Proof.
  induction rounds as [|[r []] rs IH]; simpl; [done|done|]. intros H. by rewrite IH.
Qed.

(** Without a stop the loop's checker is [observe_all]; after one it is stopped. *)
Lemma run_loop_state c rounds :
  stopped c = false →
  stopped (run_loop c rounds).1 = existsb snd rounds ∧
  (existsb snd rounds = false → (run_loop c rounds).1 = observe_all c (rounds.*1)).
Proof.
  intros Hs. unfold run_loop. induction rounds as [|[r b] rs [IH1 IH2]] using rev_ind; [done|].
  rewrite foldl_app, existsb_app, fmap_app. simpl. unfold run_round at 1 3. simpl.
  rewrite observe_all_snoc, orb_false_r.
  set (st := foldl run_round (c, []) rs) in *.
  destruct (observe st.1 r) as [[c' calls] call] eqn:Eo. simpl.
  assert (Hst : stopped c' = stopped st.1).
  { unfold observe in Eo. destruct r as [e|]; repeat case_match; simplify_eq; done. }
  split.
  - destruct b; simpl; [by rewrite orb_true_r|]. by rewrite Hst, IH1, orb_false_r.
  - intros [H1 ->]%orb_false_iff. rewrite <- IH2, Eo by done. done.
Qed.

(** The periodic loop calls the failure callback once per round, before
    [Stop], that brings the run of conclusive failures to the threshold, and
    never after [Stop]. *)
Theorem run_loop_callbacks (c : Checker) (rounds : list (option check_err * bool)) :
  failures c = 0%Z → healthy c = true → stopped c = false → (0 < threshold c)%Z →
  (Z.of_nat (length rounds) ≤ MaxInt64)%Z →
  (run_loop c rounds).2 =
    replicate (crossings (threshold c) ((before_stop rounds).*1)) (name c).
Proof.
  intros Hf Hh Hs Ht. induction rounds as [|[r b] rs IH] using rev_ind; intros Hlen; [done|].
  rewrite length_app in Hlen. simpl in Hlen. destruct (run_loop_state c rs Hs) as [Hst1 Hst2].
  rewrite before_stop_snoc. unfold run_loop in *. rewrite foldl_app. simpl.
  set (st := foldl run_round (c, []) rs) in *. unfold run_round.
  destruct (observe st.1 (r, b).1) as [[c' calls] call] eqn:Eo. simpl in *.
  assert (Hstop : stopped c' = stopped st.1 ∧ name c' = name st.1).
  { unfold observe in Eo. destruct r as [e|]; repeat case_match; simplify_eq; done. }
  destruct Hstop as [Hstop Hname].
  destruct (existsb snd rs || b) eqn:Eb.
  - rewrite <- IH by lia. destruct b; simpl; [by rewrite andb_false_r|].
    rewrite orb_false_r in Eb. by rewrite Hstop, Hst1, Eb, andb_false_r.
  - apply orb_false_iff in Eb as [Eb ->]. rewrite Hstop, Hst1, Eb, andb_true_r, IH by lia.
    rewrite fmap_app, before_stop_all by done. simpl. rewrite crossings_snoc.
    rewrite Hst2 in Eo, Hname by done.
    pose proof (observe_crossing c (rs.*1) r Hf Hh Ht) as Hc. rewrite length_fmap, Eo in Hc. simpl in Hc.
    destruct (observe_state c (rs.*1) Hf Hh Ht) as (_ & _ & _ & Hn2); [rewrite length_fmap; lia|].
    rewrite <- Hc by lia. rewrite Hname, Hn2.
    destruct call; [|by rewrite Nat.add_0_r]. by rewrite replicate_add.
Qed.

Lemma run_loop_callbacks_witness :
  (run_loop sample_checker
     [(Some EExec, false); (Some EExec, false); (Some EExec, false); (None, false);
      (Some EExec, false); (Some EExec, false); (Some EExec, true)]).2 = ["web"; "web"].
Proof.
  rewrite (run_loop_callbacks sample_checker); try reflexivity. vm_compute. discriminate.
Defined.

(** *** The constructor *)

Definition duration_ok (text : string) : Prop :=
  text = "" ∨ ∃ d, ParseDuration text = Some d ∧ (0 < d)%Z.

Definition delay_ok (text : string) : Prop :=
  text = "" ∨ ∃ d, ParseDuration text = Some d ∧ (0 ≤ d)%Z.

(** What a configuration must satisfy. *)
Definition config_ok (url_ok : string → bool) (cfg : Config) : Prop :=
  duration_ok (cPeriod cfg) ∧ duration_ok (cTimeout cfg) ∧ delay_ok (cInitialDelay cfg) ∧
  kinds cfg = 1 ∧
  (∀ h, cHTTP cfg = Some h → url_ok (URL h) = true) ∧
  (∀ t, cTCP cfg = Some t → (1 ≤ Port t ≤ 65535)%Z).

Lemma positive_duration_spec text dflt :
  (0 < dflt)%Z →
  match positive_duration text dflt with
  | Some d => duration_ok text ∧ (0 < d)%Z
  | None => ¬ duration_ok text
  end.
Proof.
  intros Hd. unfold positive_duration, duration_ok.
  destruct (ParseDuration text) as [d|] eqn:E; [destruct (Z.ltb_spec 0 d)|];
    try case_bool_decide; try (split; [|done]); eauto; intros [?|(d' & ? & ?)]; simplify_eq; try done; lia.
Qed.

Lemma initial_delay_spec text period :
  (0 < period)%Z →
  match (if bool_decide (text = "") then Some period
         else d ← ParseDuration text; if (d <? 0)%Z then None else Some d) with
  | Some d => delay_ok text ∧ (0 ≤ d)%Z
  | None => ¬ delay_ok text
  end.
Proof.
  intros Hp. unfold delay_ok. case_bool_decide; [split; [by left|lia]|].
  destruct (ParseDuration text) as [d|] eqn:E; simpl; [destruct (Z.ltb_spec d 0)|].
  - intros [?|(d' & ? & ?)]; simplify_eq; lia.
  - split; [|lia]. right. eauto.
  - intros [?|(d' & ? & ?)]; simplify_eq.
Qed.

(** [New] accepts exactly the configurations with one probe kind, valid
    durations, an acceptable URL and a port in range, and the checker it
    builds has a positive period, timeout and threshold, starts healthy with
    no failures, and is not stopped. *)
Theorem checker_new (url_ok : string → bool) (nm : string) (cf : Config) :
  match New url_ok nm cf with
  | Ok c => config_ok url_ok cf ∧ checker_ok c ∧ cfg c = cf ∧ name c = nm ∧
            failures c = 0%Z ∧ healthy c = true ∧ stopped c = false
  | Err _ => ¬ config_ok url_ok cf
  end.
Proof.
  unfold New, config_ok.
  pose proof (positive_duration_spec (cPeriod cf) (10 * Second) ltac:(done)) as HP.
  destruct (positive_duration (cPeriod cf) _) as [pd|]; [destruct HP as [HP1 HP2]|naive_solver].
  pose proof (positive_duration_spec (cTimeout cf) (3 * Second) ltac:(done)) as HT.
  destruct (positive_duration (cTimeout cf) _) as [tm|]; [destruct HT as [HT1 HT2]|naive_solver].
  destruct (Nat.eqb_spec (kinds cf) 1) as [Hk|Hk]; simpl; [|naive_solver].
  pose proof (initial_delay_spec (cInitialDelay cf) pd HP2) as HD.
  destruct (if bool_decide (cInitialDelay cf = "") then _ else _) as [dl|];
    [destruct HD as [HD1 HD2]|naive_solver].
  assert (Hth : (0 < default_threshold (cThreshold cf))%Z).
  { unfold default_threshold. destruct (Z.leb_spec (cThreshold cf) 0); lia. }
  unfold kinds in Hk.
  destruct (cHTTP cf) as [h|] eqn:EH, (cTCP cf) as [t|] eqn:ET; simpl in Hk; try lia.
  - destruct (url_ok (URL h)) eqn:EU; [|naive_solver congruence].
    split; [|split_and!; try done; split; simpl; unfold kinds; rewrite ?EH, ?ET; done].
    split_and!; try done; [by unfold kinds; rewrite EH, ET|naive_solver].
  - destruct (((Port t <=? 0) || (65535 <? Port t))%Z) eqn:EP.
    + intros (_ & _ & _ & _ & _ & Hport). specialize (Hport t eq_refl). lia.
    + split; [|split_and!; try done; split; simpl; unfold kinds; rewrite ?EH, ?ET; done].
      split_and!; try done; [by unfold kinds; rewrite EH, ET|]. intros ? [= <-]. lia.
  - split; [|split_and!; try done; split; simpl; unfold kinds; rewrite ?EH, ?ET; done].
    split_and!; try done. by unfold kinds; rewrite EH, ET.
Qed.

(** *** The exec probe against the reap loop *)

(** The registry operations of the other goroutines in a schedule. *)
Definition others (sched : list tick) : list Reaper.op :=
  omap (λ k, match k with TOther o => Some o | _ => None end) sched.

Section reaped.
Context (wake : bool) (h : list Reaper.op) (pid : Z).

(** The registry once the probe's child is started and [s] has been run. *)
Definition after_start (s : list Reaper.op) : option Reaper.Registry :=
  Reaper.run (Reaper.New wake) (h ++ Reaper.OStart (Some pid) :: s).

Lemma nth_start_here s :
  Reaper.nth_start (Reaper.starts h) (h ++ Reaper.OStart (Some pid) :: s) = Some (pid, s).
Proof.
  induction s as [|o s IH] using rev_ind.
  - rewrite Reaper.nth_start_snoc, decide_True by done.
    destruct (Reaper.nth_start (Reaper.starts h) h) as [[p h']|] eqn:E; [|done].
    destruct (Reaper.run_inv wake h) as (r & _ & Hinv).
    pose proof (Reaper.inv_dom _ _ Hinv (Reaper.starts h)) as Hd. rewrite E in Hd.
    specialize (Hd (mk_is_Some _ _ eq_refl)). lia.
  - change (Reaper.OStart (Some pid) :: s ++ [o]) with ((Reaper.OStart (Some pid) :: s) ++ [o]).
    rewrite app_assoc, Reaper.nth_start_snoc, IH. done.
Qed.

(** What the probe's channel holds then. *)
Lemma probe_channel s r :
  after_start s = Some r →
  ∃ n, Reaper.chans r !! Reaper.starts h = Some (Reaper.mkChan (Reaper.outcome pid s) n).
Proof.
  intros Hr. destruct (Reaper.run_inv wake (h ++ Reaper.OStart (Some pid) :: s)) as (r' & Hr' & Hinv).
  unfold after_start in Hr. rewrite Hr' in Hr. injection Hr as <-.
  pose proof (Reaper.inv_chan _ _ Hinv (Reaper.starts h)) as Hc. by rewrite nth_start_here in Hc.
Qed.

Lemma after_start_snoc s r o :
  after_start s = Some r → ∃ r', Reaper.apply_op r o = Some r' ∧ after_start (s ++ [o]) = Some r'.
Proof.
  intros Hr. destruct (Reaper.run_inv wake (h ++ Reaper.OStart (Some pid) :: s ++ [o])) as (r' & Hr' & _).
  exists r'. split; [|done]. unfold after_start in Hr.
  change (Reaper.OStart (Some pid) :: s ++ [o]) with ((Reaper.OStart (Some pid) :: s) ++ [o]) in Hr'.
  by rewrite app_assoc, Reaper.reaper_run_snoc, Hr in Hr'.
Qed.

Lemma probe_recv s r v r' :
  after_start s = Some r → Reaper.Recv r (Reaper.starts h) = Some (v, r') → Reaper.outcome pid s = [v].
Proof.
  intros Hr. destruct (probe_channel s r Hr) as [n Hc]. unfold Reaper.Recv. rewrite Hc. simpl.
  unfold Reaper.chan_recv. simpl. destruct (Reaper.outcome pid s !! n) as [w|] eqn:E; [|done].
  intros [= <- _]. pose proof (Reaper.outcome_length pid s).
  destruct (Reaper.outcome pid s) as [|x [|y l]]; simpl in *; [done| |lia].
  by destruct n; simpl in E; simplify_eq.
Qed.

(** What a returning probe says. *)
Definition probe_verdict (s : list Reaper.op) (deadline : bool) (res : option check_err) : Prop :=
  match res with
  | None => Reaper.outcome pid s = [0%Z]
  | Some (EExecStatus c) => Reaper.outcome pid s = [c] ∧ c ≠ 0%Z ∧ deadline = false
  | Some EExecDeadline => ∃ c, Reaper.outcome pid s = [c] ∧ c ≠ 0%Z ∧ deadline = true
  | Some EInconclusive => deadline = true
  | _ => False
  end.

Definition is_deadline (k : tick) : bool := match k with TDeadline => true | _ => false end.

Lemma poll_verdict s killed v :
  Reaper.outcome pid s = [v] → probe_verdict s killed (poll_result killed v).
Proof.
  intros Ho. unfold poll_result, probe_verdict. destruct killed, (Z.eqb_spec v 0); subst; eauto.
Qed.

Lemma reaped_wait_spec sched : ∀ s0 killed r r' res,
  after_start s0 = Some r →
  reaped_wait killed r pid (Reaper.starts h) sched = Some (r', res) →
  ∃ s1 s2, sched = s1 ++ s2 ∧ Reaper.waiters r' !! pid = None ∧
    probe_verdict (s0 ++ others s1) (killed || existsb is_deadline s1) res.
Proof.
  induction sched as [|[o| | |] sched IH]; intros s0 killed r r' res Hr; simpl; [done| | | |].
  - destruct (after_start_snoc s0 r o Hr) as (r1 & -> & Hr1). simpl. intros H.
    destruct (IH _ _ _ _ _ Hr1 H) as (s1 & s2 & -> & Hw & Hv).
    exists (TOther o :: s1), s2. split_and!; [done..|]. by rewrite <- app_assoc in Hv.
  - destruct (Reaper.Recv r (Reaper.starts h)) as [[v r1]|] eqn:Er.
    + intros [= <- <-]. exists [TPoll], sched. simpl.
      rewrite lookup_delete_eq, app_nil_r, orb_false_r. split_and!; [done..|].
      eapply poll_verdict, probe_recv; eauto.
    + intros H. destruct (IH _ _ _ _ _ Hr H) as (s1 & s2 & -> & Hw & Hv).
      by exists (TPoll :: s1), s2.
  - intros H. destruct (IH _ _ _ _ _ Hr H) as (s1 & s2 & -> & Hw & Hv).
    exists (TDeadline :: s1), s2. split_and!; [done..|]. simpl in *. by rewrite orb_true_r.
  - destruct killed.
    + intros [= <- <-]. exists [TTimer], sched. simpl. by rewrite lookup_delete_eq.
    + intros H. destruct (IH _ _ _ _ _ Hr H) as (s1 & s2 & -> & Hw & Hv).
      by exists (TTimer :: s1), s2.
Qed.

Lemma reaped_wait_returns sched : ∀ s0 killed r,
  after_start s0 = Some r →
  (∃ s1 s2, sched = s1 ++ TTimer :: s2 ∧ (killed = true ∨ TDeadline ∈ s1)) →
  is_Some (reaped_wait killed r pid (Reaper.starts h) sched).
Proof.
  induction sched as [|k sched IH]; intros s0 killed r Hr (s1 & s2 & Heq & Hk).
  { by destruct s1. }
  destruct s1 as [|k1 s1]; simpl in Heq; injection Heq as -> ->.
  { destruct Hk as [->|?%not_elem_of_nil]; [simpl; eauto|done]. }
  assert (Hnext : ∀ b, killed = true ∨ TDeadline ∈ s1 ∨ b = true →
    ∃ s3 s4, s1 ++ TTimer :: s2 = s3 ++ TTimer :: s4 ∧ (killed || b = true ∨ TDeadline ∈ s3)).
  { intros b Hb. exists s1, s2. split; [done|]. destruct killed, b; naive_solver. }
  destruct k1 as [o| | |]; simpl.
  - destruct (after_start_snoc s0 r o Hr) as (r1 & -> & Hr1). simpl. eapply IH; [done|].
    rewrite <- (orb_false_r killed). apply Hnext. set_solver.
  - destruct (Reaper.Recv _ _) as [[v r1]|]; [eauto|]. eapply IH; [done|].
    rewrite <- (orb_false_r killed). apply Hnext. set_solver.
  - eapply IH; [done|]. specialize (Hnext true). rewrite orb_true_r in Hnext. apply Hnext. auto.
  - destruct killed eqn:Ek; [eauto|]. eapply IH; [done|]. apply (Hnext false). set_solver.
Qed.
End reaped.

(** C20: An exec probe run through the reap loop reports what the reap loop
    delivered, under every interleaving: it passes only if its child's status
    0 was delivered, reports exit status c only if c ≠ 0 was delivered before
    the deadline, and is inconclusive only after the deadline; it leaves no
    waiter behind; and it always returns once the deadline and then the kill
    timer fire. *)
Theorem exec_probe_verdict (wake : bool) (h : list Reaper.op) (r : Reaper.Registry) (pid : Z)
    (sched : list tick) :
  Reaper.run (Reaper.New wake) h = Some r →
  (∀ r' res, checkExecReaped r (Some pid) sched = Some (r', res) →
    Reaper.waiters r' !! pid = None ∧
    ∃ s1 s2, sched = s1 ++ s2 ∧ probe_verdict pid (others s1) (existsb is_deadline s1) res) ∧
  (∀ s1 s2 s3, sched = s1 ++ TDeadline :: s2 ++ TTimer :: s3 →
    is_Some (checkExecReaped r (Some pid) sched)).
Proof.
  intros Hr. unfold checkExecReaped. simpl.
  destruct (Reaper.run_inv wake h) as (r0 & Hr0 & Hinv). rewrite Hr in Hr0. injection Hr0 as <-.
  assert (Hs : after_start wake h pid [] = Some (Reaper.Start r (Some pid)).2).
  { unfold after_start. by rewrite Reaper.reaper_run_snoc, Hr. }
  rewrite (Reaper.inv_next _ _ Hinv). simpl in Hs. rewrite (Reaper.inv_next _ _ Hinv) in Hs. split.
  - intros r' res H. destruct (reaped_wait_spec _ _ _ _ _ _ _ _ _ Hs H) as (s1 & s2 & -> & Hw & Hv).
    simpl in Hv. eauto.
  - intros s1 s2 s3 ->. eapply reaped_wait_returns; [done|].
    exists (s1 ++ TDeadline :: s2), s3. rewrite <- app_assoc. split; [done|set_solver].
Qed.

Lemma exec_probe_verdict_witness :
  is_Some (checkExecReaped (Reaper.New true) (Some 42%Z) [TPoll; TDeadline; TPoll; TTimer]).
Proof.
  refine (proj2 (exec_probe_verdict true [] (Reaper.New true) 42 [TPoll; TDeadline; TPoll; TTimer] eq_refl)
    [TPoll] [TPoll] [] eq_refl).
Defined.

End Check.
