(* ===== verification/Cron.v ===== *)
(** * Cron schedules: src/internal/cron/cron.go

    [Parse] turns an expression into five 64-bit masks, [Next] searches the
    next matching minute in a location.  Masks are [Z]s read by [Z.testbit];
    the step loop of [parseField] runs on 64-bit integers that wrap. *)

From S2P Require Import Prelude GoStrings GoCalendar.

Open Scope string_scope.
Open Scope list_scope.
Open Scope Z_scope.

Module Cron.

(** ** Data *)

Record fieldDef := mkFieldDef {
  fname : string;
  fmin : Z;
  fmax : Z;
  fnames : list (string * Z);
}.

Definition month_names : list (string * Z) :=
  [("jan", 1); ("feb", 2); ("mar", 3); ("apr", 4); ("may", 5); ("jun", 6);
   ("jul", 7); ("aug", 8); ("sep", 9); ("oct", 10); ("nov", 11); ("dec", 12)].

Definition dow_names : list (string * Z) :=
  [("sun", 0); ("mon", 1); ("tue", 2); ("wed", 3); ("thu", 4); ("fri", 5); ("sat", 6)].

Definition d_minute := mkFieldDef "minute" 0 59 [].
Definition d_hour := mkFieldDef "hour" 0 23 [].
Definition d_dom := mkFieldDef "day of month" 1 31 [].
Definition d_month := mkFieldDef "month" 1 12 month_names.
Definition d_dow := mkFieldDef "day of week" 0 7 dow_names.

Definition fieldDefs : list fieldDef := [d_minute; d_hour; d_dom; d_month; d_dow].

Record Schedule := mkSchedule {
  minute : Z;
  hour : Z;
  dom : Z;
  month : Z;
  dow : Z;
  domStar : bool;
  dowStar : bool;
}.

(** One constructor per error of the source; [Diverges] would be the step loop
    running out of fuel ([parse_never_diverges]: it does not). *)
Inductive cron_err :=
  | FieldCount (n : nat)
  | EmptyItem (fld text : string)
  | InvalidStep (fld text : string)
  | StepNotPositive (fld : string) (n : Z)
  | ReversedRange (fld text : string)
  | InvalidValue (fld text : string)
  | OutOfRange (fld : string) (v lo hi : Z)
  | Diverges.

(** ** Parsing *)

Definition assoc (k : string) (l : list (string * Z)) : option Z :=
  snd <$> find (λ p, bool_decide (fst p = k)) l.

Definition parseValue (def : fieldDef) (s : string) : result cron_err Z :=
  match assoc (ToLower s) (fnames def) with
  | Some v => Ok v
  | None =>
      match Atoi s with
      | None => Err (InvalidValue (fname def) s)
      | Some v =>
          if (v <? fmin def) || (fmax def <? v) then Err (OutOfRange (fname def) v (fmin def) (fmax def))
          else Ok v
      end
  end.

(** [1 << uint(v)] in 64 bits: a shift by 64 or more (a negative [v] is one) is 0. *)
Definition bit (v : Z) : Z := if (0 <=? v) && (v <? 64) then Z.shiftl 1 v else 0.

(** [for v := lo; v <= hi; v += step { mask |= 1 << uint(v) }] *)
Fixpoint step_loop (fuel : nat) (v hi step mask : Z) : fuelled Z :=
  if v <=? hi then
    match fuel with
    | O => OutOfFuel
    | S fuel => step_loop fuel (wrap64 (v + step)) hi step (Z.lor mask (bit v))
    end
  else Done mask.

Definition step_fuel : nat := 200.
#[global] Arguments step_fuel : simpl never.

(** The step of one list item: 1 without a slash. *)
Definition parse_step (def : fieldDef) (stepPart : string) (hasStep : bool) : result cron_err Z :=
  if hasStep then
    match Atoi stepPart with
    | None => Err (InvalidStep (fname def) stepPart)
    | Some n => if n <? 1 then Err (StepNotPositive (fname def) n) else Ok n
    end
  else Ok 1.

(** The bounds of one list item, and whether it is the lone star. *)
Definition parse_range (def : fieldDef) (field rangePart : string) (hasStep : bool)
    : result cron_err (Z * Z * bool) :=
  if bool_decide (rangePart = "*") then
    Ok (fmin def, fmax def, negb hasStep && bool_decide (field = "*"))
  else if Contains rangePart "-" then
    let '(loStr, hiStr, _) := Cut rangePart "-" in
    lo ← parseValue def loStr;
    hi ← parseValue def hiStr;
    if hi <? lo then Err (ReversedRange (fname def) rangePart) else Ok (lo, hi, false)
  else
    v ← parseValue def rangePart;
    Ok (v, if hasStep then fmax def else v, false).

(** One list item: [(lo, hi, step, star)]. *)
Definition parse_part (def : fieldDef) (field part : string) : result cron_err (Z * Z * Z * bool) :=
  if bool_decide (part = "") then Err (EmptyItem (fname def) field)
  else
    let '(rangePart, stepPart, hasStep) := Cut part "/" in
    step ← parse_step def stepPart hasStep;
    '(lo, hi, star) ← parse_range def field rangePart hasStep;
    Ok (lo, hi, step, star).

Definition add_part (def : fieldDef) (field : string) (acc : Z * bool) (part : string)
    : result cron_err (Z * bool) :=
  '(lo, hi, step, star) ← parse_part def field part;
  match step_loop step_fuel lo hi step acc.1 with
  | Done mask => Ok (mask, acc.2 || star)
  | OutOfFuel => Err Diverges
  end.

Definition parseField (def : fieldDef) (field : string) : result cron_err (Z * bool) :=
  foldM (add_part def field) (0, false) (Split "," field).

(** [s.dow |= 1; s.dow &^= 1 << 7] when bit 7 is set. *)
Definition sunday_alias (m : Z) : Z :=
  if Z.testbit m 7 then Z.ldiff (Z.lor m 1) (Z.shiftl 1 7) else m.

Definition Parse (expr : string) : result cron_err Schedule :=
  match Fields expr with
  | [f0; f1; f2; f3; f4] =>
      m0 ← parseField d_minute f0;
      m1 ← parseField d_hour f1;
      m2 ← parseField d_dom f2;
      m3 ← parseField d_month f3;
      m4 ← parseField d_dow f4;
      Ok (mkSchedule m0.1 m1.1 m2.1 m3.1 (sunday_alias m4.1) m2.2 m4.2)
  | fields => Err (FieldCount (length fields))
  end.

(** ** Searching *)

Definition dayMatches (s : Schedule) (loc : Location) (t : Z) : bool :=
  let domOK := Z.testbit (dom s) (Day loc t) in
  let dowOK := Z.testbit (dow s) (Weekday loc t) in
  if negb (domStar s) && negb (dowStar s) then domOK || dowOK else domOK && dowOK.

Definition nextLimitYears : Z := 9.

Definition minute_ns : Z := 60 * ns.

(** One round of the search loop: the zero time is [None]. *)
Definition next_step (s : Schedule) (loc : Location) (limit : Z) (t : Z) : step_res Z (option Z) :=
  if limit <? t then Stop None
  else if negb (Z.testbit (month s) (Month loc t)) then
    Cont (Date (Year loc t) (Month loc t + 1) 1 0 0 0 0 loc)
  else if negb (dayMatches s loc t) then
    Cont (Date (Year loc t) (Month loc t) (Day loc t + 1) 0 0 0 0 loc)
  else if negb (Z.testbit (hour s) (Hour loc t)) then
    Cont (Date (Year loc t) (Month loc t) (Day loc t) (Hour loc t + 1) 0 0 0 loc)
  else if negb (Z.testbit (minute s) (Minute loc t)) then
    Cont (t + minute_ns)
  else Stop (Some t).

Definition next_start (loc : Location) (after : Z) : Z :=
  Date (Year loc after) (Month loc after) (Day loc after) (Hour loc after) (Minute loc after) 0 0 loc
  + minute_ns.

(** [2 ^ 23] rounds: nine years have fewer minutes. *)
Definition next_depth : nat := 23.

Definition Next_depth (n : nat) (s : Schedule) (loc : Location) (after : Z) : fuelled (option Z) :=
  match loop2 n (next_step s loc (AddDate loc after nextLimitYears 0 0)) (next_start loc after) with
  | Stop r => Done r
  | Cont _ => OutOfFuel
  end.

Definition Next (s : Schedule) (loc : Location) (after : Z) : fuelled (option Z) :=
  Next_depth next_depth s loc after.

(** ** Specification *)

(** The minute containing [t] matches the schedule. *)
Definition matches (s : Schedule) (loc : Location) (t : Z) : bool :=
  Z.testbit (month s) (Month loc t) && dayMatches s loc t
  && Z.testbit (hour s) (Hour loc t) && Z.testbit (minute s) (Minute loc t).

Example parse_ex : Parse "*/15 9-17 * jan,jul mon-fri" =
  Ok (mkSchedule 35185445863425 261632 4294967294 130 62 true false).
Proof. vm_compute. done. Qed.

(** A step near the top of the integer range wraps around and sets bits below
    the start. *)
Example step_wraps : parseField d_minute "2/9223372036854775807" = Ok (5, false).
Proof. vm_compute. done. Qed.

Example next_ex :
  match Parse "30 4 29 2 *" with
  | Ok s => Next s (fixed 0) (Date 2097 1 1 0 0 0 0 (fixed 0))
            = Done (Some (Date 2104 2 29 4 30 0 0 (fixed 0)))
  | Err _ => False
  end.
Proof. vm_compute. done. Qed.

(** ** The search in a zone without transitions *)
Section fixed_zone.
Context (s : Schedule) (off : Z).
Let loc := fixed off.

Lemma local_fixed t : local loc t = unix t + off.
Proof. done. Qed.

Lemma Date_fixed y mo d h mi sec nsec :
  Date y mo d h mi sec nsec loc =
  ((month_start (12 * y + (mo - 1)) + (d - 1)) * 86400 + h * 3600 + mi * 60 + sec + nsec / ns - off) * ns
  + nsec mod ns.
Proof.
  unfold Date. cbn [lookup lookup_from fixed offset0 trans loc].
  destruct (Z.eqb_spec off 0) as [->|]; [f_equal; lia|].
  by destruct (_ || _).
Qed.

(** [inst w]: the instant whose wall clock shows [w] local seconds. *)
Definition inst (w : Z) : Z := (w - off) * ns.

Lemma local_inst w : local loc (inst w) = w.
Proof. rewrite local_fixed. unfold unix, inst. rewrite Z.div_mul by done. lia. Qed.

Lemma month_index_shift t j :
  12 * Year loc t + (Month loc t + j - 1) = Month_index loc t + j.
Proof. unfold Year, Month. pose proof (Z.div_mod (Month_index loc t) 12). lia. Qed.

(** The three jumps, by wall clock. *)
Lemma jump_month w :
  Date (Year loc (inst w)) (Month loc (inst w) + 1) 1 0 0 0 0 loc
  = inst (month_start (month_of (w / 86400) + 1) * 86400).
Proof.
  rewrite Date_fixed, month_index_shift. unfold Month_index. rewrite local_inst.
  unfold inst. rewrite Z.mod_0_l, Z.div_0_l by done. lia.
Qed.

Lemma jump_day w :
  Date (Year loc (inst w)) (Month loc (inst w)) (Day loc (inst w) + 1) 0 0 0 0 loc
  = inst ((w / 86400 + 1) * 86400).
Proof.
  rewrite Date_fixed. pose proof (month_index_shift (inst w) 0) as H.
  replace (Month loc (inst w) + 0 - 1) with (Month loc (inst w) - 1) in H by lia. rewrite H.
  unfold Day, Month_index. rewrite local_inst. unfold inst. rewrite Z.mod_0_l, Z.div_0_l by done.
  replace (month_of (w / 86400) + 0) with (month_of (w / 86400)) by lia. lia.
Qed.

Lemma jump_hour w :
  Date (Year loc (inst w)) (Month loc (inst w)) (Day loc (inst w)) (Hour loc (inst w) + 1) 0 0 0 loc
  = inst ((w / 86400) * 86400 + (w mod 86400 / 3600 + 1) * 3600).
Proof.
  rewrite Date_fixed. pose proof (month_index_shift (inst w) 0) as H.
  replace (Month loc (inst w) + 0 - 1) with (Month loc (inst w) - 1) in H by lia. rewrite H.
  unfold Day, Month_index, Hour. rewrite local_inst. unfold inst. rewrite Z.mod_0_l, Z.div_0_l by done.
  replace (month_of (w / 86400) + 0) with (month_of (w / 86400)) by lia. lia.
Qed.

(** Whether the wall-clock second [x] matches: every field depends on it alone. *)
Definition wall_matches (x : Z) : bool := matches s loc (inst x).

Lemma matches_wall t : matches s loc t = wall_matches (local loc t).
Proof.
  unfold wall_matches, matches, dayMatches, Month, Day, Weekday, Hour, Minute, Month_index.
  by rewrite !local_inst.
Qed.

(** A jump from [w] to [w']: forward by whole minutes, past no match. *)
Definition skips (w w' : Z) : Prop :=
  w < w' ∧ w' mod 60 = 0 ∧ ∀ x, w ≤ x < w' → wall_matches x = false.

Lemma day_of_range x d : d * 86400 ≤ x < (d + 1) * 86400 → x / 86400 = d.
Proof. intros. symmetry. apply Z.div_unique with (x - d * 86400); lia. Qed.

Lemma skip_month w :
  Z.testbit (month s) (Month loc (inst w)) = false →
  skips w (month_start (month_of (w / 86400) + 1) * 86400).
Proof.
  intros Hm. pose proof (month_of_bounds (w / 86400)) as Hb.
  pose proof (Z.div_mod w 86400 ltac:(lia)). pose proof (Z.mod_pos_bound w 86400 ltac:(lia)).
  set (k := month_of (w / 86400)) in *. split_and!; [nia| |].
  { replace (month_start (k + 1) * 86400) with (month_start (k + 1) * 1440 * 60) by lia. by apply Z.mod_mul. }
  intros x Hx. unfold wall_matches, matches.
  replace (Month loc (inst x)) with (Month loc (inst w)); [by rewrite Hm|].
  unfold Month, Month_index. rewrite !local_inst. fold k.
  rewrite (month_of_unique (x / 86400) k); [done|].
  pose proof (Z.div_mod x 86400 ltac:(lia)). pose proof (Z.mod_pos_bound x 86400 ltac:(lia)).
  split; [|nia]. pose proof (Z.div_le_mono w x 86400 ltac:(lia) ltac:(lia)). lia.
Qed.

Lemma same_day_range w x : w ≤ x < (w / 86400 + 1) * 86400 → x / 86400 = w / 86400.
Proof.
  intros. pose proof (Z.div_mod w 86400 ltac:(lia)). pose proof (Z.mod_pos_bound w 86400 ltac:(lia)).
  apply day_of_range. lia.
Qed.

Lemma skip_day w : dayMatches s loc (inst w) = false → skips w ((w / 86400 + 1) * 86400).
Proof.
  intros Hd. pose proof (Z.div_mod w 86400 ltac:(lia)). pose proof (Z.mod_pos_bound w 86400 ltac:(lia)).
  split_and!; [lia| |].
  { replace ((w / 86400 + 1) * 86400) with ((w / 86400 + 1) * 1440 * 60) by lia. by apply Z.mod_mul. }
  intros x Hx. unfold wall_matches, matches.
  replace (dayMatches s loc (inst x)) with (dayMatches s loc (inst w)).
  { rewrite Hd. by rewrite andb_false_r. }
  unfold dayMatches, Day, Weekday, Month_index. rewrite !local_inst. by rewrite (same_day_range w x).
Qed.

Lemma skip_hour w :
  Z.testbit (hour s) (Hour loc (inst w)) = false →
  skips w ((w / 86400) * 86400 + (w mod 86400 / 3600 + 1) * 3600).
Proof.
  intros Hh. pose proof (Z.div_mod w 86400 ltac:(lia)). pose proof (Z.mod_pos_bound w 86400 ltac:(lia)).
  pose proof (Z.div_mod (w mod 86400) 3600 ltac:(lia)).
  pose proof (Z.mod_pos_bound (w mod 86400) 3600 ltac:(lia)).
  split_and!; [lia| |].
  { replace (w / 86400 * 86400 + (w mod 86400 / 3600 + 1) * 3600)
      with ((w / 86400 * 1440 + (w mod 86400 / 3600 + 1) * 60) * 60) by lia. by apply Z.mod_mul. }
  intros x Hx. unfold wall_matches, matches.
  replace (Hour loc (inst x)) with (Hour loc (inst w)); [by rewrite Hh, andb_false_r|].
  unfold Hour. rewrite !local_inst.
  assert (Hh' : w mod 86400 / 3600 < 24) by (apply Z.div_lt_upper_bound; lia).
  assert (x / 86400 = w / 86400) as Hxd by (apply same_day_range; lia).
  pose proof (Z.div_mod x 86400 ltac:(lia)). rewrite Hxd in *.
  apply Z.div_unique with (x mod 86400 - w mod 86400 / 3600 * 3600); lia.
Qed.

Lemma skip_minute w :
  w mod 60 = 0 → Z.testbit (minute s) (Minute loc (inst w)) = false → skips w (w + 60).
Proof.
  intros Hw Hm. split_and!; [lia| |].
  { replace (w + 60) with (w + 1 * 60) by lia. by rewrite Z.mod_add. }
  intros x Hx. unfold wall_matches, matches.
  replace (Minute loc (inst x)) with (Minute loc (inst w)); [by rewrite Hm, andb_false_r|].
  unfold Minute. rewrite !local_inst.
  assert (Hd : w / 60 = x / 60) by (apply Z.div_unique with (x - w); pose proof (Z.div_mod w 60); lia).
  assert (Hmm : ∀ z, z mod 3600 / 60 = (z / 60) mod 60).
  { intros z. change 3600 with (60 * 60). rewrite Z.rem_mul_r by lia.
    rewrite Z.mul_comm, Z.div_add by lia. rewrite Z.div_small by (apply Z.mod_pos_bound; lia). lia. }
  by rewrite !Hmm, Hd.
Qed.

(** Every round of the loop jumps past no match, or stops at one. *)
Lemma next_step_spec limit w :
  w mod 60 = 0 →
  match next_step s loc limit (inst w) with
  | Cont t' => ∃ w', t' = inst w' ∧ skips w w' ∧ inst w ≤ limit
  | Stop (Some t) => t = inst w ∧ wall_matches w = true ∧ inst w ≤ limit
  | Stop None => limit < inst w
  end.
Proof.
  intros Hw. unfold next_step. destruct (Z.ltb_spec limit (inst w)); [done|].
  destruct (Z.testbit (month s) (Month loc (inst w))) eqn:Em; simpl.
  2: { rewrite jump_month. eexists. split_and!; [done|by apply skip_month|done]. }
  destruct (dayMatches s loc (inst w)) eqn:Ed; simpl.
  2: { rewrite jump_day. eexists. split_and!; [done|by apply skip_day|done]. }
  destruct (Z.testbit (hour s) (Hour loc (inst w))) eqn:Eh; simpl.
  2: { rewrite jump_hour. eexists. split_and!; [done|by apply skip_hour|done]. }
  destruct (Z.testbit (minute s) (Minute loc (inst w))) eqn:Emi; simpl.
  - split_and!; [done| |done]. unfold wall_matches, matches. by rewrite Em, Ed, Eh, Emi.
  - exists (w + 60). split_and!; [|by apply skip_minute|done]. unfold inst, minute_ns. lia.
Qed.

(** Where the search starts and ends. *)
Definition first_wall (after : Z) : Z := local loc after / 60 * 60 + 60.

Lemma start_fixed after : next_start loc after = inst (first_wall after).
Proof.
  unfold next_start. rewrite Date_fixed. pose proof (month_index_shift after 0) as H.
  replace (Month loc after + 0 - 1) with (Month loc after - 1) in H by lia. rewrite H.
  unfold Day, Hour, Minute, inst, first_wall, minute_ns.
  rewrite Z.mod_0_l, Z.div_0_l by done. set (l := local loc after).
  pose proof (Z.div_mod l 86400 ltac:(lia)). pose proof (Z.div_mod l 3600 ltac:(lia)).
  pose proof (Z.div_mod l 60 ltac:(lia)).
  assert (l mod 86400 / 3600 * 3600 + l mod 3600 = l mod 86400).
  { pose proof (Z.div_mod (l mod 86400) 3600 ltac:(lia)).
    replace (l mod 86400 mod 3600) with (l mod 3600) in *; [lia|].
    change 86400 with (3600 * 24). rewrite Z.rem_mul_r by lia.
    rewrite Z.mul_comm, Z.mod_add by lia. by rewrite Z.mod_mod by lia. }
  assert (l mod 3600 / 60 * 60 + l mod 60 = l mod 3600).
  { pose proof (Z.div_mod (l mod 3600) 60 ltac:(lia)).
    replace (l mod 3600 mod 60) with (l mod 60) in *; [lia|].
    change 3600 with (60 * 60). rewrite Z.rem_mul_r by lia.
    rewrite Z.mul_comm, Z.mod_add by lia. by rewrite Z.mod_mod by lia. }
  replace (Month_index loc after + 0) with (Month_index loc after) by lia. unfold ns. lia.
Qed.

Lemma month_span k : 0 ≤ month_start (k + 108) - month_start k ≤ 108 * 31.
Proof.
  assert (H : ∀ d, 0 ≤ d → 0 ≤ month_start (k + d) - month_start k ≤ d * 31).
  { intros d Hd. pattern d. apply natlike_ind; [|intros x Hx IH|done].
    - replace (k + 0) with k by lia. lia.
    - pose proof (month_length (k + x)). replace (k + Z.succ x) with (k + x + 1) by lia. lia. }
  apply H. lia.
Qed.

Lemma limit_fixed after :
  after ≤ AddDate loc after nextLimitYears 0 0 ≤ after + 108 * 31 * 86400 * ns.
Proof.
  unfold AddDate. rewrite Date_fixed.
  replace (12 * (Year loc after + nextLimitYears) + (Month loc after + 0 - 1))
    with (12 * Year loc after + (Month loc after + 108 - 1)) by (unfold nextLimitYears; lia).
  rewrite month_index_shift. pose proof (month_span (Month_index loc after)).
  unfold Day, Hour, Minute, Sec. set (k := Month_index loc after) in *.
  set (l := local loc after).
  assert (Hl : l / 86400 * 86400 + l mod 86400 / 3600 * 3600 + l mod 3600 / 60 * 60 + l mod 60 = l).
  { pose proof (Z.div_mod l 86400 ltac:(lia)).
    pose proof (Z.div_mod (l mod 86400) 3600 ltac:(lia)).
    pose proof (Z.div_mod (l mod 3600) 60 ltac:(lia)).
    replace (l mod 86400 mod 3600) with (l mod 3600) in *
      by (change 86400 with (3600 * 24); rewrite Z.rem_mul_r by lia;
          rewrite Z.mul_comm, Z.mod_add by lia; by rewrite Z.mod_mod by lia).
    replace (l mod 3600 mod 60) with (l mod 60) in *
      by (change 3600 with (60 * 60); rewrite Z.rem_mul_r by lia;
          rewrite Z.mul_comm, Z.mod_add by lia; by rewrite Z.mod_mod by lia).
    lia. }
  assert (Hn : Nanosecond after / ns = 0 ∧ Nanosecond after mod ns = Nanosecond after).
  { unfold Nanosecond. rewrite Z.mod_mod by done.
    rewrite Z.div_small by (by apply Z.mod_pos_bound). done. }
  destruct Hn as [-> ->].
  assert (Ha : (l - off) * ns + Nanosecond after = after).
  { unfold l, Nanosecond. rewrite local_fixed. unfold unix.
    pose proof (Z.div_mod after ns ltac:(done)). lia. }
  unfold ns in *. lia.
Qed.

(** A whole minute on the wall clock. *)
Definition minute_start (t : Z) : Prop := Sec loc t = 0 ∧ Nanosecond t = 0.

Lemma minute_start_wall t : minute_start t → t = inst (local loc t) ∧ local loc t mod 60 = 0.
Proof.
  intros [Hs Hn]. split; [|done]. rewrite local_fixed. unfold inst, unix, Nanosecond in *.
  pose proof (Z.div_mod t ns ltac:(done)). lia.
Qed.

Lemma inst_minute w : w mod 60 = 0 → minute_start (inst w).
Proof.
  intros. unfold minute_start, Sec, Nanosecond. rewrite local_inst. split; [done|].
  unfold inst. by apply Z.mod_mul.
Qed.

Lemma first_wall_after after t :
  minute_start t → (after < t ↔ first_wall after ≤ local loc t).
Proof.
  intros [Ht H60]%minute_start_wall.
  pose proof (Z.div_mod (local loc after) 60 ltac:(lia)).
  pose proof (Z.mod_pos_bound (local loc after) 60 ltac:(lia)).
  pose proof (Z.div_mod (local loc t) 60 ltac:(lia)).
  assert (Ha : unix after * ns ≤ after < (unix after + 1) * ns).
  { unfold unix. pose proof (Z.div_mod after ns ltac:(done)). pose proof (Z.mod_pos_bound after ns ltac:(done)). lia. }
  assert (Hta : after < t ↔ local loc after < local loc t).
  { rewrite Ht at 1. unfold inst. rewrite (local_fixed after). unfold ns in *. split; intros; lia. }
  rewrite Hta. unfold first_wall. lia.
Qed.

Lemma inst_mono w w' : inst w < inst w' ↔ w < w'.
Proof. unfold inst, ns. lia. Qed.

(** What the search has established when it is at wall-clock minute [w]. *)
Definition search_inv (after : Z) (t : Z) : Prop :=
  ∃ w, t = inst w ∧ w mod 60 = 0 ∧ first_wall after ≤ w ∧
    ∀ x, first_wall after ≤ x < w → wall_matches x = false.

(** What a result means. *)
Definition search_post (after limit : Z) (r : option Z) : Prop :=
  match r with
  | Some t => after < t ≤ limit ∧ minute_start t ∧ matches s loc t = true ∧
      ∀ t', minute_start t' → after < t' < t → matches s loc t' = false
  | None => ∀ t', minute_start t' → after < t' ≤ limit → matches s loc t' = false
  end.

Lemma first_wall_60 after : first_wall after mod 60 = 0.
Proof. unfold first_wall. rewrite <- Z.mul_succ_l. by apply Z.mod_mul. Qed.

Lemma search_inv_init after : search_inv after (next_start loc after).
Proof.
  exists (first_wall after). rewrite start_fixed. split_and!; [done|apply first_wall_60|lia|lia].
Qed.

Lemma search_inv_step after limit t t' :
  search_inv after t → next_step s loc limit t = Cont t' → search_inv after t'.
Proof.
  intros (w & -> & H60 & Hle & Hno) Hs. pose proof (next_step_spec limit w H60) as H.
  rewrite Hs in H. destruct H as (w' & -> & (Hlt & H60' & Hskip) & _).
  exists w'. split_and!; [done|done|lia|]. intros x Hx.
  destruct (Z.lt_ge_cases x w); [apply Hno|apply Hskip]; lia.
Qed.

Lemma search_inv_stop after limit t r :
  search_inv after t → next_step s loc limit t = Stop r → search_post after limit r.
Proof.
  intros (w & -> & H60 & Hle & Hno) Hs. pose proof (next_step_spec limit w H60) as H.
  rewrite Hs in H. unfold search_post. destruct r as [t|].
  - destruct H as (-> & Hm & Hl). split_and!.
    + apply first_wall_after; [by apply inst_minute|]. by rewrite local_inst.
    + done.
    + by apply inst_minute.
    + by rewrite matches_wall, local_inst.
    + intros t' Ht' [Ha Hlt]. rewrite matches_wall. apply Hno.
      apply first_wall_after in Ha; [|done]. split; [done|].
      destruct (minute_start_wall t' Ht') as [Heq _]. rewrite Heq in Hlt. by apply inst_mono.
  - intros t' Ht' [Ha Hlt]. rewrite matches_wall. apply Hno.
    apply first_wall_after in Ha; [|done]. split; [done|].
    destruct (minute_start_wall t' Ht') as [Heq _]. rewrite Heq in Hlt. apply inst_mono. lia.
Qed.

(** The rounds left: whole minutes to the limit. *)
Definition rounds_left (limit t : Z) : Z := Z.max 0 ((limit - t) / minute_ns + 1).

Lemma search_measure after limit t t' :
  search_inv after t → next_step s loc limit t = Cont t' →
  0 ≤ rounds_left limit t' < rounds_left limit t.
Proof.
  intros (w & -> & H60 & _ & _) Hs. pose proof (next_step_spec limit w H60) as H.
  rewrite Hs in H. destruct H as (w' & -> & (Hlt & H60' & _) & Hl).
  assert (Hw : w + 60 ≤ w').
  { pose proof (Z.div_mod w 60 ltac:(lia)). pose proof (Z.div_mod w' 60 ltac:(lia)). lia. }
  unfold rounds_left.
  assert (0 ≤ (limit - inst w) / minute_ns) by (apply Z.div_pos; unfold minute_ns, ns; lia).
  assert ((limit - inst w') / minute_ns ≤ (limit - inst w) / minute_ns - 1); [|lia].
  replace ((limit - inst w) / minute_ns - 1) with ((limit - inst w - minute_ns) / minute_ns).
  - apply Z.div_le_mono; [unfold minute_ns, ns; lia|]. unfold inst, minute_ns, ns. lia.
  - replace (limit - inst w - minute_ns) with (limit - inst w + (-1) * minute_ns) by lia.
    rewrite Z.div_add by (unfold minute_ns, ns; lia). lia.
Qed.

Lemma next_search after :
  ∃ r, Next s loc after = Done r ∧ search_post after (AddDate loc after nextLimitYears 0 0) r.
Proof.
  unfold Next, Next_depth. set (limit := AddDate _ _ _ _ _).
  pose proof (loop2_inv (next_step s loc limit) (search_inv after) (search_post after limit)
    next_depth _ (search_inv_step after limit) (search_inv_stop after limit) (search_inv_init after)) as Hinv.
  pose proof (loop2_measure (next_step s loc limit) (search_inv after) (rounds_left limit)
    next_depth _ (search_inv_step after limit) (search_measure after limit) (search_inv_init after)) as Hm.
  destruct (loop2 _ _ _) as [t|r]; [|eauto]. exfalso. destruct Hm as [_ Hm].
  pose proof (limit_fixed after) as Hlim. fold limit in Hlim.
  assert (Hstart : after < next_start loc after).
  { rewrite start_fixed. apply first_wall_after; [apply inst_minute, first_wall_60|].
    rewrite local_inst. lia. }
  assert (rounds_left limit (next_start loc after) < 2 ^ 23); [|change (Z.of_nat next_depth) with 23 in Hm; lia].
  unfold rounds_left. assert ((limit - next_start loc after) / minute_ns ≤ 108 * 31 * 1440).
  { apply Z.div_le_upper_bound; unfold minute_ns, ns in *; lia. }
  lia.
Qed.
End fixed_zone.

(** C21: In a zone of constant offset the search always returns, and returns
    the first matching whole minute strictly after the given instant, at most
    nine years ahead; it returns the zero time exactly when there is none. *)
Theorem next_is_first_match (s : Schedule) (off after : Z) :
  let loc := fixed off in
  let limit := AddDate loc after nextLimitYears 0 0 in
  ∃ r, Next s loc after = Done r ∧
    match r with
    | Some t => after < t ≤ limit ∧ minute_start off t ∧ matches s loc t = true ∧
        ∀ t', minute_start off t' → after < t' < t → matches s loc t' = false
    | None => ∀ t', minute_start off t' → after < t' ≤ limit → matches s loc t' = false
    end.
Proof. apply next_search. Qed.

(** New York around the spring change of 2024: UTC-5 until 07:00 UTC on
    10 March, UTC-4 from then on. *)
Definition new_york_2024 : Location := mkLocation (-18000) [(1710054000, -14400)].

(** C22: Where the clocks go forward in a zone west of Greenwich, the search
    never returns: [time.Date] maps the missing hour 02:00 back to 01:00, so
    the jump to the next hour stays where it is.  For the daily schedule
    "30 4 * * *" asked just before 01:00 on the day of the change, no number
    of rounds is enough. *)
Theorem next_diverges_in_gap (n : nat) :
  match Parse "30 4 * * *" with
  | Ok s => Next_depth n s new_york_2024 (Date 2024 3 10 0 59 30 0 new_york_2024) = OutOfFuel
  | Err _ => False
  end.
Proof.
  destruct (Parse "30 4 * * *") as [s|e] eqn:Hs; vm_compute in Hs; [|done]. injection Hs as <-.
  unfold Next_depth. set (f := next_step _ _ _).
  by rewrite (loop2_stuck f n) by (vm_compute; reflexivity).
Qed.

(** ** The step loop *)

Lemma bit_testbit v n : 0 ≤ n < 64 → Z.testbit (bit v) n = (v =? n).
Proof.
  intros Hn. unfold bit. destruct ((0 <=? v) && (v <? 64)) eqn:E.
  - rewrite Z.shiftl_spec by lia. destruct (Z.eqb_spec v n) as [->|].
    + by rewrite Z.sub_diag.
    + destruct (Z.lt_ge_cases n v); [by apply Z.testbit_neg_r; lia|].
      rewrite Z.bits_above_log2; [done|done|]. change (Z.log2 1) with 0. lia.
  - rewrite Z.bits_0. symmetry. apply Z.eqb_neq. lia.
Qed.

Definition max_value : Z := 59.

(** Values of an arithmetic progression, as the loop is meant to set them. *)
Definition in_steps (lo hi step n : Z) : bool := (lo <=? n) && (n <=? hi) && ((n - lo) mod step =? 0).

Lemma in_steps_cons v hi step n :
  0 < step → v ≤ hi → in_steps v hi step n = (v =? n) || in_steps (v + step) hi step n.
Proof.
  intros Hs Hv. unfold in_steps. destruct (Z.eqb_spec v n) as [<-|Hn]; simpl.
  - rewrite Z.sub_diag, Z.mod_0_l by lia. lia.
  - replace (n - v) with (n - (v + step) + 1 * step) by lia. rewrite Z.mod_add by lia.
    destruct (Z.leb_spec (v + step) n).
    + by rewrite (proj2 (Z.leb_le v n)) by lia.
    + simpl. destruct (Z.leb_spec v n); simpl; [|done].
      rewrite <- (Z.mod_add _ 1), Z.mod_small by lia. destruct (n <=? hi); simpl; [|done]. lia.
Qed.

Lemma step_loop_exact fuel : ∀ v hi step mask,
  0 ≤ v → hi ≤ max_value → 1 ≤ step ≤ MaxInt64 - max_value → hi - v + 1 < Z.of_nat fuel →
  ∃ m, step_loop fuel v hi step mask = Done m ∧
    ∀ n, 0 ≤ n < 64 → Z.testbit m n = Z.testbit mask n || in_steps v hi step n.
Proof.
  induction fuel as [|fuel IH]; intros v hi step mask Hv Hhi Hstep Hf; simpl.
  { rewrite (proj2 (Z.leb_gt v hi)) by lia. exists mask. split; [done|]. intros n Hn.
    unfold in_steps. destruct (Z.leb_spec v n), (Z.leb_spec n hi); simpl; by rewrite ?orb_false_r || lia. }
  destruct (Z.leb_spec v hi) as [Hle|Hgt].
  - rewrite wrap64_id by (unfold in_int64, max_value, MinInt64, MaxInt64, two63 in *; lia).
    destruct (IH (v + step) hi step (Z.lor mask (bit v))) as (m & Hm & Hbits); try lia.
    exists m. split; [done|]. intros n Hn.
    rewrite Hbits by lia. rewrite Z.lor_spec. rewrite bit_testbit by lia.
    rewrite (in_steps_cons v) by lia. by rewrite orb_assoc.
  - exists mask. split; [done|]. intros n Hn. unfold in_steps.
    destruct (Z.leb_spec v n), (Z.leb_spec n hi); simpl; by rewrite ?orb_false_r || lia.
Qed.

(** The wrap-around case: every second value is far below zero, the others
    come down by [2 * (2^63 - step)]. *)
Lemma step_loop_wraps fuel : ∀ v hi step mask,
  0 ≤ v → hi ≤ max_value → MaxInt64 - max_value < step ≤ MaxInt64 → 2 * v + 4 ≤ Z.of_nat fuel →
  ∃ m, step_loop fuel v hi step mask = Done m.
Proof.
  induction fuel as [fuel IH] using lt_wf_ind. intros v hi step mask Hv Hhi Hstep Hf.
  unfold max_value, MaxInt64, two63 in *.
  destruct fuel as [|[|[|fuel]]]; try lia. cbn [step_loop].
  destruct (Z.leb_spec v hi); [|eauto].
  destruct (Z.lt_ge_cases (v + step) 9223372036854775808).
  { rewrite (wrap64_id (v + step)) by (unfold in_int64, MinInt64, MaxInt64, two63; lia).
    rewrite (proj2 (Z.leb_gt (v + step) hi)) by lia. eauto. }
  assert (H1 : wrap64 (v + step) = v + step - 18446744073709551616).
  { unfold wrap64, two63, two64. rewrite <- (Z.mod_unique _ 18446744073709551616 1 (v + step + 9223372036854775808 - 18446744073709551616)); lia. }
  rewrite H1. rewrite (proj2 (Z.leb_le (v + step - 18446744073709551616) hi)) by lia.
  rewrite (wrap64_id (v + step - 18446744073709551616 + step)) by (unfold in_int64, MinInt64, MaxInt64, two63; lia).
  set (v' := v + step - 18446744073709551616 + step).
  destruct (Z.lt_ge_cases v' 0) as [Hneg|Hpos].
  - destruct (Z.leb_spec v' hi); [|eauto].
    rewrite (wrap64_id (v' + step)) by (unfold in_int64, MinInt64, MaxInt64, two63; lia).
    destruct fuel as [|fuel]; cbn [step_loop]; rewrite (proj2 (Z.leb_gt (v' + step) hi)) by lia; eauto.
  - apply (IH (S fuel)); try lia. 
Qed.

Lemma step_loop_done lo hi step mask :
  0 ≤ lo ≤ max_value → hi ≤ max_value → 1 ≤ step ≤ MaxInt64 →
  ∃ m, step_loop step_fuel lo hi step mask = Done m.
Proof.
  intros Hlo Hhi Hstep. assert (Hf : Z.of_nat step_fuel = 200) by done. revert Hf.
  generalize step_fuel. intros fuel Hf. unfold max_value in *.
  destruct (Z.le_gt_cases step (MaxInt64 - 59)).
  - destruct (step_loop_exact fuel lo hi step mask) as (m & Hm & _); unfold max_value; [lia..|].
    by exists m.
  - apply step_loop_wraps; unfold max_value; lia.
Qed.

(** ** Field definitions *)

(** What the table guarantees of a field: bounds that fit the masks, names with
    values in bounds, and no name that looks like a number. *)
Definition values (def : fieldDef) : list Z := seqZ (fmin def) (fmax def - fmin def + 1).

Record def_ok (def : fieldDef) : Prop := {
  do_min : 0 ≤ fmin def;
  do_max : fmin def ≤ fmax def ≤ max_value;
  do_names s v : assoc s (fnames def) = Some v → fmin def ≤ v ≤ fmax def;
  do_digits v : v ∈ values def → assoc (ToLower (fmt_d v)) (fnames def) = None;
}.

Lemma assoc_elem s l v : assoc s l = Some v → (s, v) ∈ l.
Proof.
  unfold assoc. destruct (find _ l) as [[k w]|] eqn:E; [|done]. simpl. intros [= <-].
  apply find_some in E as [Hin Hk]. simpl in Hk. apply bool_decide_eq_true in Hk as <-.
  by apply list_elem_of_In.
Qed.

Lemma def_ok_check def :
  (0 <=? fmin def) && (fmin def <=? fmax def) && (fmax def <=? max_value)
  && forallb (λ p, (fmin def <=? snd p) && (snd p <=? fmax def)) (fnames def)
  && forallb (λ v, if assoc (ToLower (fmt_d v)) (fnames def) is Some _ then false else true) (values def) = true →
  def_ok def.
Proof.
  intros [[[[H1 H2]%andb_prop H3]%andb_prop H4]%andb_prop H5]%andb_prop.
  rewrite forallb_forall in H4, H5. split; [lia|lia| |].
  - intros s v Hv%assoc_elem%list_elem_of_In. specialize (H4 _ Hv). simpl in H4. lia.
  - intros v Hv%list_elem_of_In. specialize (H5 _ Hv). by destruct (assoc _ _).
Qed.

Lemma fieldDefs_ok def : def ∈ fieldDefs → def_ok def.
Proof.
  intros H. apply def_ok_check. unfold fieldDefs in H. rewrite !elem_of_cons in H.
  repeat (destruct H as [->|H]; [by vm_compute|]). by apply not_elem_of_nil in H.
Qed.

(** ** What an accepted item is *)

Lemma Atoi_range s v : Atoi s = Some v → in_int64 v.
Proof.
  assert (Hp : ∀ s v, parse_nat 10 s = Some v → 0 ≤ v).
  { intros s' v'. unfold parse_nat. destruct s'; [done|]. by apply (digits_val_nonneg 10). }
  unfold in_int64, MinInt64, MaxInt64, Atoi, ParseInt. intros H.
  assert (Hpos : ∀ s, (v0 ← parse_nat 10 s; if (v0 <? two63) then Some v0 else None) = Some v →
    - two63 ≤ v ≤ two63 - 1).
  { intros s' H'. destruct (parse_nat 10 s') as [v'|] eqn:E; [|done]. simpl in H'.
    apply Hp in E. destruct (Z.ltb_spec v' two63); [|done]. simplify_eq. unfold two63 in *. lia. }
  repeat case_match; try by eapply Hpos.
  destruct (parse_nat 10 _) as [v'|] eqn:E; [|done]. simpl in H. apply Hp in E.
  destruct (Z.leb_spec v' two63); [|done]. simplify_eq. unfold two63 in *. lia.
Qed.

Lemma parseValue_range def s v : def_ok def → parseValue def s = Ok v → fmin def ≤ v ≤ fmax def.
Proof.
  intros Hd. unfold parseValue. destruct (assoc _ _) as [w|] eqn:E.
  { intros [= <-]. by eapply do_names. }
  destruct (Atoi s) as [w|]; [|done]. destruct ((w <? fmin def) || (fmax def <? w)) eqn:E2; [done|].
  intros [= <-]. lia.
Qed.

Lemma parse_part_range def field part lo hi step star :
  def_ok def → parse_part def field part = Ok (lo, hi, step, star) →
  fmin def ≤ lo ≤ hi ∧ hi ≤ fmax def ∧ 1 ≤ step ≤ MaxInt64.
Proof.
  intros Hd. pose proof (do_max _ Hd). unfold parse_part. case_bool_decide; [done|].
  destruct (Cut part "/") as [[rp sp] hs].
  destruct (parse_step def sp hs) as [st|] eqn:Es; [|done]. simpl.
  destruct (parse_range def field rp hs) as [[[l h] b]|] eqn:Er; [|done]. simpl.
  intros [= -> -> -> ->].
  assert (1 ≤ step ≤ MaxInt64).
  { unfold parse_step in Es. destruct hs; [|injection Es as <-; by vm_compute].
    destruct (Atoi sp) as [n|] eqn:Ea; [|done]. destruct (Z.ltb_spec n 1); [done|].
    injection Es as <-. apply Atoi_range in Ea. unfold in_int64 in Ea. lia. }
  unfold parse_range in Er. case_bool_decide; [injection Er as <- <- _; lia|].
  destruct (Contains rp "-").
  - destruct (Cut rp "-") as [[ls hstr] b]. destruct (parseValue def ls) as [l'|] eqn:E1; [|done].
    simpl in Er. destruct (parseValue def hstr) as [h'|] eqn:E2; [|done]. simpl in Er.
    destruct (Z.ltb_spec h' l'); [done|]. injection Er as <- <- _.
    apply parseValue_range in E1, E2; [lia|done..].
  - destruct (parseValue def rp) as [v|] eqn:E1; [|done]. simpl in Er. injection Er as <- <- _.
    apply parseValue_range in E1; [|done]. destruct hs; lia.
Qed.

(** The bits the loop sets: the first value, none above [hi]. *)
Lemma bit_spec v n : 0 ≤ n → Z.testbit (bit v) n = (v =? n) && (n <? 64).
Proof.
  intros Hn. destruct (Z.lt_ge_cases n 64).
  - rewrite bit_testbit by lia. rewrite (proj2 (Z.ltb_lt n 64)) by lia. by rewrite andb_true_r.
  - rewrite (proj2 (Z.ltb_ge n 64)), andb_false_r by lia. unfold bit.
    destruct ((0 <=? v) && (v <? 64)) eqn:E; [|apply Z.bits_0].
    rewrite Z.shiftl_spec by lia. rewrite Z.bits_above_log2; [done|done|]. change (Z.log2 1) with 0. lia.
Qed.

Lemma step_loop_bits fuel : ∀ v hi step mask m,
  step_loop fuel v hi step mask = Done m →
  (∀ n, 0 ≤ n → Z.testbit mask n = true → Z.testbit m n = true) ∧
  (0 ≤ v < 64 → v ≤ hi → Z.testbit m v = true) ∧
  (∀ n, 0 ≤ n → Z.testbit m n = true → Z.testbit mask n = true ∨ n ≤ hi).
Proof.
  induction fuel as [|fuel IH]; intros v hi step mask m; cbn [step_loop]; destruct (Z.leb_spec v hi).
  - discriminate.
  - intros [= <-]. split_and!; [done|lia|auto].
  - intros (H1 & H2 & H3)%IH. split_and!.
    + intros n Hn Hm. apply H1; [done|]. by rewrite Z.lor_spec, Hm.
    + intros Hv _. apply H1; [lia|]. rewrite Z.lor_spec, bit_spec, Z.eqb_refl by lia.
      rewrite (proj2 (Z.ltb_lt v 64)) by lia. by rewrite orb_true_r.
    + intros n Hn Hm. apply H3 in Hm as [Hm|?]; [|by right|done].
      rewrite Z.lor_spec, bit_spec in Hm by done. apply orb_prop in Hm as [?|Hm]; [by left|].
      apply andb_prop in Hm as [->%Z.eqb_eq _]. by right.
  - intros [= <-]. split_and!; [done|lia|auto].
Qed.

(** A mask of a field: some value of the field, nothing above it. *)
Definition mask_ok (lo hi m : Z) : Prop :=
  (∃ n, lo ≤ n ≤ hi ∧ Z.testbit m n = true) ∧ ∀ n, 0 ≤ n → Z.testbit m n = true → n ≤ hi.

Lemma add_part_result def field acc part :
  def_ok def →
  match add_part def field acc part with
  | Ok acc' =>
      (∃ n, fmin def ≤ n ≤ fmax def ∧ Z.testbit acc'.1 n = true) ∧
      (∀ n, 0 ≤ n → Z.testbit acc'.1 n = true → Z.testbit acc.1 n = true ∨ n ≤ fmax def)
  | Err e => e ≠ Diverges
  end.
Proof.
  intros Hd. pose proof (do_min _ Hd). pose proof (do_max _ Hd). unfold add_part.
  destruct (parse_part def field part) as [[[[lo hi] step] star]|e] eqn:Ep;
    cbn [mbind result_bind fst snd].
  - apply parse_part_range in Ep as (H1 & H2 & H3); [|done]. unfold max_value in *.
    destruct (step_loop_done lo hi step acc.1) as [m Hm]; unfold max_value; try lia.
    rewrite Hm. cbn [fst snd]. apply step_loop_bits in Hm as (_ & G2 & G3). split.
    + exists lo. split; [lia|]. apply G2; lia.
    + intros n Hn [?|?]%G3; [by left|right; lia|done].
  - unfold parse_part, parse_step, parse_range, parseValue in Ep.
    intros ->. repeat (case_match; simplify_eq/=).
Qed.

Lemma parseField_ok def field :
  def_ok def →
  match parseField def field with
  | Ok (m, _) => mask_ok (fmin def) (fmax def) m
  | Err e => e ≠ Diverges
  end.
Proof.
  intros Hd. unfold parseField.
  destruct (foldM _ _ _) as [[m st]|e] eqn:E.
  - assert (Hne : Split "," field ≠ []).
    { destruct field as [|a f]; simpl; [done|]. case_bool_decide; [done|]. by destruct (Split "," f). }
    apply (foldM_ind (add_part def field)
      (λ l a, (l ≠ [] → ∃ n, fmin def ≤ n ≤ fmax def ∧ Z.testbit a.1 n = true) ∧
        ∀ n, 0 ≤ n → Z.testbit a.1 n = true → n ≤ fmax def) (0, false)) in E as [E1 E2].
    + split; auto.
    + split; [done|]. intros n Hn. by rewrite Z.bits_0.
    + intros l part a1 a2 _ [_ IH] Ha. pose proof (add_part_result def field a1 part Hd) as H.
      rewrite Ha in H. destruct H as [H1 H2]. split; [done|]. intros n Hn [?|?]%H2; auto.
  - apply foldM_err in E as (l1 & a & l2 & s1 & _ & _ & Ha).
    pose proof (add_part_result def field s1 a Hd) as H. by rewrite Ha in H.
Qed.

Record schedule_ok (s : Schedule) : Prop := {
  so_minute : mask_ok 0 59 (minute s);
  so_hour : mask_ok 0 23 (hour s);
  so_dom : mask_ok 1 31 (dom s);
  so_month : mask_ok 1 12 (month s);
  so_dow : mask_ok 0 6 (dow s);
}.

Lemma sunday_alias_bits m n :
  0 ≤ n → Z.testbit (sunday_alias m) n =
    negb (n =? 7) && (Z.testbit m n || ((n =? 0) && Z.testbit m 7)).
Proof.
  intros Hn. unfold sunday_alias. destruct (Z.testbit m 7) eqn:E7.
  - rewrite Z.ldiff_spec, Z.lor_spec. change (Z.shiftl 1 7) with (bit 7). change 1 with (bit 0) at 1.
    rewrite !bit_spec, andb_true_r by done.
    destruct (Z.eqb_spec n 7) as [->|]; [by rewrite andb_comm|].
    rewrite (proj2 (Z.eqb_neq 7 n)) by lia. simpl. rewrite andb_true_r. f_equal.
    destruct n; [done|done|lia].
  - rewrite andb_false_r, orb_false_r. destruct (Z.eqb_spec n 7) as [->|]; by rewrite ?E7.
Qed.

Lemma sunday_alias_ok m : mask_ok 0 7 m → mask_ok 0 6 (sunday_alias m).
Proof.
  intros [(n & Hn & Hb) Hmax]. split.
  - destruct (Z.eq_dec n 7) as [->|].
    + exists 0. split; [lia|]. rewrite sunday_alias_bits, Hb by lia. simpl. by rewrite orb_true_r.
    + exists n. split; [lia|]. rewrite sunday_alias_bits, Hb by lia.
      by rewrite (proj2 (Z.eqb_neq n 7)) by lia.
  - intros k Hk. rewrite sunday_alias_bits by done. intros [H7 H]%andb_prop.
    assert (k ≤ 7); [|lia]. apply orb_prop in H as [H|H]; [by apply Hmax|lia].
Qed.

(** A parsed schedule can fire: each of its five masks allows at least one
    value of its field and none above the field's range, with day of week 7
    folded into Sunday 0; and parsing always terminates, whatever the step. *)
Theorem parse_gives_live_masks (expr : string) :
  match Parse expr with
  | Ok s => schedule_ok s
  | Err e => e ≠ Diverges
  end.
Proof.
  unfold Parse. destruct (Fields expr) as [|f0 [|f1 [|f2 [|f3 [|f4 [|? ?]]]]]]; try done.
  assert (H : ∀ def f, def ∈ fieldDefs → match parseField def f with
    | Ok (m, _) => mask_ok (fmin def) (fmax def) m | Err e => e ≠ Diverges end).
  { intros def f Hd. apply parseField_ok. by apply fieldDefs_ok. }
  pose proof (H d_minute f0 ltac:(set_solver)) as H0.
  pose proof (H d_hour f1 ltac:(set_solver)) as H1.
  pose proof (H d_dom f2 ltac:(set_solver)) as H2.
  pose proof (H d_month f3 ltac:(set_solver)) as H3.
  pose proof (H d_dow f4 ltac:(set_solver)) as H4.
  destruct (parseField d_minute f0) as [[m0 s0]|]; [|done].
  destruct (parseField d_hour f1) as [[m1 s1]|]; [|done].
  destruct (parseField d_dom f2) as [[m2 s2]|]; [|done].
  destruct (parseField d_month f3) as [[m3 s3]|]; [|done].
  destruct (parseField d_dow f4) as [[m4 s4]|]; [|done].
  split; try done. by apply sunday_alias_ok.
Qed.

(** ** The meaning of a written field *)

Inductive base :=
  | BStar
  | BVal (v : Z)
  | BRange (lo hi : Z).

Record item := mkItem { ibase : base; istep : option Z }.

Definition render_base (b : base) : string :=
  match b with
  | BStar => "*"
  | BVal v => fmt_d v
  | BRange lo hi => fmt_d lo +:+ "-" +:+ fmt_d hi
  end.

Definition render_item (i : item) : string :=
  render_base (ibase i) +:+ match istep i with Some n => "/" +:+ fmt_d n | None => "" end.

Definition render_field (l : list item) : string := Join (render_item <$> l) ",".

Definition base_ok (def : fieldDef) (b : base) : Prop :=
  match b with
  | BStar => True
  | BVal v => fmin def ≤ v ≤ fmax def
  | BRange lo hi => fmin def ≤ lo ≤ hi ∧ hi ≤ fmax def
  end.

(** Steps up to [MaxInt64 - 59]: beyond that the loop variable wraps. *)
Definition item_ok (def : fieldDef) (i : item) : Prop :=
  base_ok def (ibase i) ∧ ∀ n, istep i = Some n → 1 ≤ n ≤ MaxInt64 - max_value.

(** The values an item stands for: its range from the low end by its step. *)
Definition item_mem (def : fieldDef) (i : item) (n : Z) : bool :=
  let step := default 1 (istep i) in
  match ibase i with
  | BStar => in_steps (fmin def) (fmax def) step n
  | BVal v => in_steps v (if istep i is Some _ then fmax def else v) step n
  | BRange lo hi => in_steps lo hi step n
  end.

Definition is_lone_star (l : list item) : bool :=
  match l with [mkItem BStar None] => true | _ => false end.

Section render.
Context (def : fieldDef) (Hdef : def_ok def).

Lemma parseValue_fmt v : fmin def ≤ v ≤ fmax def → parseValue def (fmt_d v) = Ok v.
Proof.
  intros Hv. pose proof (do_min _ Hdef). pose proof (do_max _ Hdef). unfold parseValue.
  rewrite (do_digits _ Hdef) by (unfold values; rewrite elem_of_seqZ; lia).
  rewrite Atoi_fmt_d by (unfold in_int64, MinInt64, MaxInt64, two63, max_value in *; lia).
  rewrite (proj2 (Z.ltb_ge v (fmin def))), (proj2 (Z.ltb_ge (fmax def) v)) by lia. done.
Qed.

Lemma fmt_no_char (c : ascii) v : 0 ≤ v → is_digit c = false → str_in c (fmt_d v) = false.
Proof. intros. eapply str_all_in; [by apply fmt_d_digits|done]. Qed.

Lemma base_no_char (c : ascii) b :
  base_ok def b → is_digit c = false → c ≠ "*"%char → c ≠ "-"%char → str_in c (render_base b) = false.
Proof.
  pose proof (do_min _ Hdef). intros Hb Hc H1 H2. destruct b as [|v|lo hi]; simpl in *.
  - by rewrite bool_decide_false.
  - apply fmt_no_char; [lia|done].
  - rewrite str_in_app, (fmt_no_char c lo) by (lia || done). simpl.
    rewrite bool_decide_false by done. apply fmt_no_char; [lia|done].
Qed.

Lemma item_no_comma i : item_ok def i → str_in "," (render_item i) = false.
Proof.
  intros [Hb Hs]. unfold render_item. rewrite str_in_app, base_no_char by done. simpl.
  destruct (istep i) as [n|]; [|done]. simpl. apply fmt_no_char; [|done].
  specialize (Hs n eq_refl). lia.
Qed.

Lemma fmt_not_star v : 0 ≤ v → fmt_d v ≠ "*".
Proof. intros Hv H. pose proof (fmt_d_digits v Hv) as Hd. by rewrite H in Hd. Qed.

Lemma parse_range_render field b hasStep :
  base_ok def b →
  parse_range def field (render_base b) hasStep =
  Ok match b with
     | BStar => (fmin def, fmax def, negb hasStep && bool_decide (field = "*"))
     | BVal v => (v, if hasStep then fmax def else v, false)
     | BRange lo hi => (lo, hi, false)
     end.
Proof.
  pose proof (do_min _ Hdef). intros Hb. unfold parse_range. destruct b as [|v|lo hi]; simpl in Hb |- *.
  - done.
  - rewrite bool_decide_false by (apply fmt_not_star; lia).
    change "-" with (str1 "-"). rewrite Contains_char, fmt_no_char by (lia || done).
    rewrite parseValue_fmt by lia. done.
  - rewrite bool_decide_false.
    2: { intros Heq. assert (Hin : str_in "-" (fmt_d lo +:+ String "-" (fmt_d hi)) = true).
         { rewrite str_in_app. simpl. by rewrite orb_true_r. } by rewrite Heq in Hin. }
    change "-" with (str1 "-"). rewrite Contains_char, str_in_app. simpl. rewrite orb_true_r.
    rewrite Cut_app by (apply fmt_no_char; [lia|done]).
    rewrite !parseValue_fmt by lia. simpl. by rewrite (proj2 (Z.ltb_ge hi lo)) by lia.
Qed.

Lemma parse_part_render field i :
  item_ok def i →
  parse_part def field (render_item i) =
  Ok (match ibase i with
      | BStar => (fmin def, fmax def)
      | BVal v => (v, if istep i is Some _ then fmax def else v)
      | BRange lo hi => (lo, hi)
      end, default 1 (istep i),
      match i with mkItem BStar None => bool_decide (field = "*") | _ => false end).
Proof.
  intros [Hb Hs]. destruct i as [b st]. simpl in *. pose proof (do_min _ Hdef).
  assert (Hslash : str_in "/" (render_base b) = false) by (by apply base_no_char).
  assert (Hne : render_base b ≠ "").
  { destruct b as [|v|lo hi]; simpl; [done|apply fmt_d_not_nil|].
    destruct (fmt_d lo) eqn:E; [by apply fmt_d_not_nil in E|done]. }
  unfold parse_part, render_item. simpl. rewrite bool_decide_false.
  2: { destruct (render_base b); done. }
  destruct st as [n|]; simpl.
  - change "/" with (str1 "/"). rewrite Cut_app by done. specialize (Hs n eq_refl).
    unfold parse_step. rewrite Atoi_fmt_d
      by (unfold in_int64, MinInt64, MaxInt64, two63, max_value in *; lia).
    rewrite (proj2 (Z.ltb_ge n 1)) by lia. simpl. rewrite parse_range_render by done.
    by destruct b.
  - rewrite app_nil_r_str. change "/" with (str1 "/"). rewrite Cut_none by done. simpl.
    rewrite parse_range_render by done. by destruct b.
Qed.

Lemma field_star l :
  l ≠ [] → Forall (item_ok def) l → bool_decide (render_field l = "*") = is_lone_star l.
Proof.
  intros Hne Hl. destruct (is_lone_star l) eqn:E.
  { destruct l as [|[[] []] []]; done. }
  apply bool_decide_false. intros Heq. pose proof (do_min _ Hdef).
  assert (Hsp : Split "," (render_field l) = render_item <$> l).
  { apply Split_Join; [by destruct l|]. rewrite Forall_fmap. eapply Forall_impl; [done|].
    intros i. apply item_no_comma. }
  rewrite Heq in Hsp. simpl in Hsp. destruct l as [|i [|]]; try done. simpl in Hsp.
  injection Hsp as Hr. apply Forall_inv in Hl as [Hb Hs]. destruct i as [b [n|]]; simpl in *.
  - assert (Hin : str_in "/" (render_item (mkItem b (Some n))) = true).
    { unfold render_item. simpl. rewrite str_in_app. simpl. by rewrite orb_true_r. }
    by rewrite <- Hr in Hin.
  - unfold render_item in Hr. simpl in Hr. rewrite app_nil_r_str in Hr.
    destruct b as [|v|lo hi]; [done| |]; simpl in *.
    + by eapply fmt_not_star; [|symmetry; exact Hr]; lia.
    + assert (Hin : str_in "-" (fmt_d lo +:+ String "-" (fmt_d hi)) = true).
      { rewrite str_in_app. simpl. by rewrite orb_true_r. } by rewrite <- Hr in Hin.
Qed.

Definition star_item (i : item) : bool := match i with mkItem BStar None => true | _ => false end.

Lemma fold_render field l : ∀ acc,
  Forall (item_ok def) l →
  ∃ m, foldM (add_part def field) acc (render_item <$> l)
       = Ok (m, acc.2 || (bool_decide (field = "*") && existsb star_item l)) ∧
    ∀ n, 0 ≤ n < 64 → Z.testbit m n = Z.testbit acc.1 n || existsb (λ i, item_mem def i n) l.
Proof.
  pose proof (do_min _ Hdef). pose proof (do_max _ Hdef).
  induction l as [|i l IH]; intros [m0 s0] Hl; cbn [fmap list_fmap foldM existsb fst snd].
  { exists m0. rewrite andb_false_r, orb_false_r. split; [done|]. intros. by rewrite orb_false_r. }
  apply Forall_cons in Hl as [[Hb Hs] Hl]. unfold add_part at 1.
  rewrite parse_part_render by done. cbn [mbind result_bind fst snd].
  set (lh := match ibase i with BStar => _ | BVal v => _ | BRange lo hi => _ end).
  assert (Hlh : fmin def ≤ lh.1 ∧ lh.2 ≤ fmax def).
  { unfold lh. destruct (ibase i); simpl in *; try lia. case_match; lia. }
  assert (Hstep : 1 ≤ default 1 (istep i) ≤ MaxInt64 - max_value).
  { destruct (istep i) as [n|] eqn:E; [by apply Hs|]. by vm_compute. }
  destruct (step_loop_exact step_fuel lh.1 lh.2 (default 1 (istep i)) m0) as (m1 & Hm1 & Hbits).
  { lia. } { lia. } { done. }
  { change (Z.of_nat step_fuel) with 200. unfold max_value in *. lia. }
  destruct lh as [lo hi] eqn:Elh. cbn [fst snd] in *. rewrite Hm1.
  destruct (IH (m1, s0 || match i with mkItem BStar None => bool_decide (field = "*") | _ => false end) Hl)
    as (m & Hm & Hmb). cbn [fst snd] in *. exists m. split.
  - rewrite Hm. do 2 f_equal. rewrite <- orb_assoc. f_equal.
    destruct i as [[] []]; simpl; by destruct (bool_decide _), (existsb star_item l).
  - intros n Hn. rewrite Hmb, Hbits, <- orb_assoc by done. do 2 f_equal.
    clear Hm1 Hm Hmb Hbits IH. unfold item_mem. unfold lh in Elh.
    destruct i as [[] [st|]]; cbn in Elh |- *; by injection Elh as <- <-.
Qed.

Lemma parse_render l :
  l ≠ [] → Forall (item_ok def) l →
  ∃ m, parseField def (render_field l) = Ok (m, is_lone_star l) ∧
    ∀ n, 0 ≤ n < 64 → Z.testbit m n = existsb (λ i, item_mem def i n) l.
Proof.
  intros Hne Hl. unfold parseField.
  assert (Hsp : Split "," (render_field l) = render_item <$> l).
  { apply Split_Join; [by destruct l|]. rewrite Forall_fmap. eapply Forall_impl; [done|].
    intros i. apply item_no_comma. }
  rewrite Hsp. destruct (fold_render (render_field l) l (0, false) Hl) as (m & -> & Hb).
  exists m. split.
  - do 2 f_equal. cbn [snd orb]. rewrite field_star by done.
    destruct l as [|[[] []] []]; simpl; by rewrite ?andb_false_r.
  - intros n Hn. rewrite Hb by done. by rewrite Z.bits_0.
Qed.
End render.

(** A field written as a list of items (star, value or range, each with an
    optional step) parses to the mask of exactly the values the items stand
    for: low end, low end plus step, and so on up to the high end, where
    "N/step" runs to the field's maximum; and it counts as unrestricted exactly
    when it is the single item "*" (steps up to MaxInt64 - 59). *)
Theorem field_roundtrip (def : fieldDef) (l : list item) :
  def ∈ fieldDefs → l ≠ [] → Forall (item_ok def) l →
  ∃ m, parseField def (render_field l) = Ok (m, is_lone_star l) ∧
    ∀ n, 0 ≤ n < 64 → Z.testbit m n = existsb (λ i, item_mem def i n) l.
Proof. intros Hd. apply parse_render. by apply fieldDefs_ok. Qed.

Lemma field_roundtrip_witness :
  ∃ m, parseField d_dow (render_field [mkItem (BRange 1 5) (Some 2); mkItem (BVal 7) None]) = Ok (m, false) ∧
    Z.testbit m 3 = true.
Proof.
  destruct (field_roundtrip d_dow [mkItem (BRange 1 5) (Some 2); mkItem (BVal 7) None])
    as (m & Hm & Hb).
  - repeat constructor.
  - discriminate.
  - apply Forall_cons; split; [split; [simpl; lia|]|apply Forall_cons; split; [split; [simpl; lia|]|]].
    + intros n Hn. injection Hn as <-. vm_compute. split; discriminate.
    + discriminate.
    + apply Forall_nil. exact I.
  - exists m. split; [exact Hm|]. rewrite Hb by lia. reflexivity.
Defined.

End Cron.
