(* ===== verification/Sanitize.v ===== *)
(** * Stripping terminal escapes: sanitizeSeq and ansiSeqLen of src/internal/logger/target.go

    Bytes are [Z]s between 0 and 255 (no lemma needs the bound).  The index
    loops of the source are recursions on the rest of the input with the
    position as an accumulator. *)

From S2P Require Import Prelude.

Open Scope Z_scope.

Module Sanitize.

Abbreviation bytes := (list Z).

Definition ESC : Z := 27.
Definition BEL : Z := 7.
Definition NL : Z := 10.
Definition TAB : Z := 9.

(** ** Escape sequences *)

(** The CSI scan from position [i]: parameter bytes, then a final byte. *)
Fixpoint csi_scan (sgr : bool) (i : nat) (p : bytes) : nat * bool :=
  match p with
  | [] => (i, false)
  | b :: p =>
      if (0x40 <=? b) && (b <=? 0x7e) then (S i, sgr && (b =? 0x6d))
      else if (0x30 <=? b) && (b <=? 0x39) || (b =? 0x3b) || (b =? 0x3a) then csi_scan sgr (S i) p
      else if b <? 0x20 then (i, false)
      else csi_scan false (S i) p
  end.

(** The OSC scan: to BEL, to ESC \, or to another control byte but tab. *)
Fixpoint osc_scan (i : nat) (p : bytes) : nat :=
  match p with
  | [] => i
  | b :: p =>
      if b =? BEL then S i
      else if b =? ESC then
        match p with
        | c :: _ => if c =? 0x5c then S (S i) else i
        | [] => i
        end
      else if (b <? 0x20) && negb (b =? TAB) then i
      else osc_scan (S i) p
  end.

(** A two-character escape with 0x20-0x2f intermediates. *)
Fixpoint esc_scan (i : nat) (p : bytes) : nat :=
  match p with
  | [] => i
  | b :: p =>
      if (0x20 <=? b) && (b <=? 0x2f) then esc_scan (S i) p
      else if (0x30 <=? b) && (b <=? 0x7e) then S i
      else i
  end.

(** [ansiSeqLen p]: the length of the sequence at [p], whose first byte is ESC,
    and whether it is a pure SGR colour sequence. *)
Definition ansiSeqLen (p : bytes) : nat * bool :=
  match p with
  | [] => (0%nat, false)
  | [_] => (1%nat, false)
  | _ :: b :: rest =>
      if b =? 0x5b then csi_scan true 2 rest
      else if b =? 0x5d then (osc_scan 2 rest, false)
      else (esc_scan 1 (b :: rest), false)
  end.

(** ** sanitizeSeq *)

Definition kept_byte (b : Z) : bool := (0x20 <=? b) || (b =? NL) || (b =? TAB).

(** The copy loop; each round consumes at least one byte of [p]. *)
Fixpoint sanitize_loop (fuel : nat) (keepSGR : bool) (p : bytes) : fuelled bytes :=
  match p with
  | [] => Done []
  | b :: rest =>
      match fuel with
      | O => OutOfFuel
      | S fuel =>
          let continue out p' :=
            match sanitize_loop fuel keepSGR p' with
            | Done r => Done (out ++ r)
            | OutOfFuel => OutOfFuel
            end in
          if kept_byte b then continue [b] rest
          else if b =? ESC then
            let '(n, sgr) := ansiSeqLen p in
            continue (if keepSGR && sgr then take n p else []) (drop n p)
          else continue [] rest
      end
  end.

(** The index of the first byte that is not copied as it is. *)
Fixpoint first_bad (i : nat) (p : bytes) : option nat :=
  match p with
  | [] => None
  | b :: p => if (b <? 0x20) && negb (b =? NL) && negb (b =? TAB) then Some i else first_bad (S i) p
  end.

Definition sanitizeSeq (p : bytes) (keepSGR : bool) : fuelled bytes :=
  match first_bad 0 p with
  | None => Done p
  | Some i =>
      match sanitize_loop (length p) keepSGR (drop i p) with
      | Done r => Done (take i p ++ r)
      | OutOfFuel => OutOfFuel
      end
  end.

(** ** Specification *)

(** Bytes that are no control byte below 0x20 but tab and newline. *)
Definition shown (b : Z) : Prop := b = 9 ∨ b = 10 ∨ 32 ≤ b.

#[global] Instance shown_dec b : Decision (shown b).
Proof. unfold shown. apply _. Defined.

(** Digits, colons and semicolons. *)
Definition sgr_param (b : Z) : bool := (48 <=? b) && (b <=? 59).

(** A sanitised text: bytes that are shown and, when colours are kept, whole SGR
    sequences ESC [ params m. *)
Inductive safe (keepSGR : bool) : bytes → Prop :=
  | safe_nil : safe keepSGR []
  | safe_byte b p : shown b → safe keepSGR p → safe keepSGR (b :: p)
  | safe_sgr params p :
      keepSGR = true → forallb sgr_param params = true → safe keepSGR p →
      safe keepSGR (27 :: 91 :: params ++ 109 :: p).

Definition newlines (p : bytes) : bytes := List.filter (λ b, b =? 10) p.

Lemma kept_shown b : kept_byte b = true ↔ shown b.
Proof. unfold kept_byte, shown, NL, TAB. rewrite !orb_true_iff, Z.leb_le, !Z.eqb_eq. lia. Qed.

(** ** The scans *)

Lemma csi_scan_spec p : ∀ sgr i n r,
  csi_scan sgr i p = (n, r) →
  (i ≤ n ≤ i + length p)%nat ∧ newlines (take (n - i) p) = [] ∧
  (r = true → ∃ params, sgr = true ∧ forallb sgr_param params = true ∧ take (n - i) p = params ++ [0x6d]).
Proof.
  induction p as [|b p IH]; intros sgr i n r; simpl.
  { intros [= <- <-]. rewrite Nat.sub_diag. split_and!; [lia|lia|done|done]. }
  destruct ((0x40 <=? b) && (b <=? 0x7e)) eqn:E1.
  { intros [= <- <-]. replace (S i - i)%nat with 1%nat by lia. simpl.
    destruct (Z.eqb_spec b 10); [lia|]. split_and!; [lia|lia|done|].
    intros [-> ->%Z.eqb_eq]%andb_prop. by exists []. }
  destruct ((0x30 <=? b) && (b <=? 0x39) || (b =? 0x3b) || (b =? 0x3a)) eqn:E2.
  { intros (H1 & H2 & H3)%IH. replace (n - i)%nat with (S (n - S i)) by lia. simpl.
    destruct (Z.eqb_spec b 10); [lia|].
    split_and!; [lia|lia|done|]. intros Hr. destruct (H3 Hr) as (params & -> & Hp & ->).
    exists (b :: params). simpl. rewrite Hp. split_and!; [done| |done]. unfold sgr_param. lia. }
  destruct (Z.ltb_spec b 0x20).
  { intros [= <- <-]. rewrite Nat.sub_diag. split_and!; [lia|lia|done|done]. }
  intros (H1 & H2 & H3)%IH. replace (n - i)%nat with (S (n - S i)) by lia. simpl.
  destruct (Z.eqb_spec b 10); [lia|].
  split_and!; [lia|lia|done|]. intros Hr. by destruct (H3 Hr) as (params & ? & _).
Qed.

Lemma osc_scan_spec p : ∀ i,
  (i ≤ osc_scan i p ≤ i + length p)%nat ∧ newlines (take (osc_scan i p - i) p) = [].
Proof.
  induction p as [|b p IH]; intros i; simpl; [rewrite Nat.sub_diag; done || (split; [lia|done])|].
  destruct (Z.eqb_spec b BEL) as [->|].
  { replace (S i - i)%nat with 1%nat by lia. split; [lia|done]. }
  destruct (Z.eqb_spec b ESC) as [->|].
  { destruct p as [|c p]; [rewrite Nat.sub_diag; split; [simpl; lia|done]|].
    destruct (Z.eqb_spec c 0x5c) as [->|].
    - replace (S (S i) - i)%nat with 2%nat by lia. split; [simpl; lia|done].
    - rewrite Nat.sub_diag. split; [simpl; lia|done]. }
  destruct ((b <? 0x20) && negb (b =? TAB)) eqn:E.
  { rewrite Nat.sub_diag. split; [lia|done]. }
  destruct (IH (S i)) as [H1 H2]. replace (osc_scan (S i) p - i)%nat with (S (osc_scan (S i) p - S i)) by lia.
  simpl. destruct (Z.eqb_spec b 10); [unfold TAB in *; lia|]. split; [lia|done].
Qed.

Lemma esc_scan_spec p : ∀ i,
  (i ≤ esc_scan i p ≤ i + length p)%nat ∧ newlines (take (esc_scan i p - i) p) = [].
Proof.
  induction p as [|b p IH]; intros i; simpl; [rewrite Nat.sub_diag; split; [lia|done]|].
  destruct ((0x20 <=? b) && (b <=? 0x2f)) eqn:E.
  { destruct (IH (S i)) as [H1 H2]. replace (esc_scan (S i) p - i)%nat with (S (esc_scan (S i) p - S i)) by lia.
    simpl. destruct (Z.eqb_spec b 10); [lia|]. split; [lia|done]. }
  destruct ((0x30 <=? b) && (b <=? 0x7e)) eqn:E2.
  - replace (S i - i)%nat with 1%nat by lia. simpl. destruct (Z.eqb_spec b 10); [lia|].
    split; [lia|done].
  - rewrite Nat.sub_diag. split; [lia|done].
Qed.

(** A sequence starts at ESC, has no newline, lies in the input, and is an SGR
    sequence when it says so. *)
Lemma ansiSeqLen_spec p n sgr :
  ansiSeqLen (ESC :: p) = (n, sgr) →
  (1 ≤ n ≤ S (length p))%nat ∧ newlines (take n (ESC :: p)) = [] ∧
  (sgr = true → ∃ params, forallb sgr_param params = true ∧
    take n (ESC :: p) = ESC :: 0x5b :: params ++ [0x6d]).
Proof.
  destruct p as [|b p]; simpl; [intros [= <- <-]; split_and!; [lia|lia|done|done]|].
  destruct (Z.eqb_spec b 0x5b) as [->|].
  { intros (H1 & H2 & H3)%csi_scan_spec.
    replace n with (S (S (n - 2))) by lia. simpl. split_and!; [lia|lia|done|].
    intros Hr. destruct (H3 Hr) as (params & _ & Hp & ->). eauto. }
  destruct (Z.eqb_spec b 0x5d) as [->|].
  { intros [= <- <-]. destruct (osc_scan_spec p 2) as [H1 H2].
    replace (osc_scan 2 p) with (S (S (osc_scan 2 p - 2))) by lia. simpl. split_and!; [lia|lia|done|done]. }
  intros [= <- <-]. destruct (esc_scan_spec (b :: p) 1) as [H1 H2]. cbn [length] in H1.
  change (if (0x20 <=? b) && (b <=? 0x2f) then esc_scan 2 p
          else if (0x30 <=? b) && (b <=? 0x7e) then 2%nat else 1%nat) with (esc_scan 1 (b :: p)).
  destruct (esc_scan 1 (b :: p)) as [|m]; [lia|]. split_and!; [lia|lia| |done].
  simpl in H2 |- *. by rewrite Nat.sub_0_r in H2.
Qed.

(** ** The loop *)

(** One round, as a relation between the input, what it emits and what is left. *)
Lemma safe_app keep a b : safe keep a → safe keep b → safe keep (a ++ b).
Proof.
  induction 1 as [|c p Hc Hp IH|params p Hk Hpar Hp IH]; intros Hb; simpl; [done|by constructor; auto|].
  rewrite <- app_assoc. simpl. apply safe_sgr; auto.
Qed.

Lemma newlines_app a b : newlines (a ++ b) = newlines a ++ newlines b.
Proof. apply List.filter_app. Qed.

Lemma newlines_split n p : newlines (take n p) = [] → newlines p = newlines (drop n p).
Proof. intros H. rewrite <- (take_drop n p) at 1. by rewrite newlines_app, H. Qed.

(** What the loop guarantees of its result. *)
Definition loop_post (keep : bool) (p r : bytes) : Prop :=
  safe keep r ∧ r `sublist_of` p ∧ newlines r = newlines p.

Lemma sanitize_loop_spec fuel : ∀ keep p,
  (length p ≤ fuel)%nat → ∃ r, sanitize_loop fuel keep p = Done r ∧ loop_post keep p r.
Proof.
  induction fuel as [|fuel IH]; intros keep [|b p] Hlen; simpl in Hlen; try lia;
    try (exists []; split; [done|split_and!; [constructor|constructor|done]]).
  cbn [sanitize_loop]. destruct (kept_byte b) eqn:Eb.
  { destruct (IH keep p) as (r & -> & Hs & Hsub & Hn); [lia|]. exists (b :: r). split; [done|].
    split_and!; [constructor; [by apply kept_shown|done]|by constructor|]. simpl. rewrite Hn. done. }
  destruct (Z.eqb_spec b ESC) as [->|Hb].
  - destruct (ansiSeqLen (ESC :: p)) as [n sgr] eqn:Ea.
    destruct (ansiSeqLen_spec p n sgr Ea) as (Hn & Hnl & Hsgr).
    destruct (IH keep (drop n (ESC :: p))) as (r & -> & Hs & Hsub & Hr).
    { rewrite length_drop. simpl. lia. }
    eexists. split; [done|]. unfold loop_post. rewrite (newlines_split n (ESC :: p)) by done.
    destruct (keep && sgr) eqn:Ek; simpl.
    + apply andb_prop in Ek as [-> ->]. destruct (Hsgr eq_refl) as (params & Hp & Htake).
      split_and!.
      * rewrite Htake. simpl. rewrite <- app_assoc. simpl. by apply safe_sgr.
      * rewrite <- (take_drop n (ESC :: p)) at 2. by apply sublist_app.
      * by rewrite newlines_app, Hnl, Hr.
    + split_and!; [done| |done]. etrans; [done|]. apply sublist_drop.
  - destruct (IH keep p) as (r & -> & Hs & Hsub & Hr); [lia|]. exists r. split; [done|].
    split_and!; [done|by apply sublist_cons|]. simpl.
    destruct (Z.eqb_spec b 10) as [->|]; [done|]. done.
Qed.

Lemma kept_byte_bad b : (b <? 0x20) && negb (b =? NL) && negb (b =? TAB) = negb (kept_byte b).
Proof. unfold kept_byte, NL, TAB. lia. Qed.

Lemma first_bad_none i p : first_bad i p = None ↔ forallb kept_byte p = true.
Proof.
  revert i. induction p as [|b p IH]; intros i; simpl; [done|]. rewrite kept_byte_bad.
  destruct (kept_byte b); simpl; [apply IH|done].
Qed.

Lemma first_bad_prefix p : ∀ i n, first_bad i p = Some n → (i ≤ n)%nat ∧ forallb kept_byte (take (n - i) p) = true.
Proof.
  induction p as [|b p IH]; intros i n; simpl; [done|]. rewrite kept_byte_bad.
  destruct (kept_byte b) eqn:Eb; simpl.
  - intros [H1 H2]%IH. replace (n - i)%nat with (S (n - S i)) by lia. simpl. rewrite Eb. split; [lia|done].
  - intros [= <-]. rewrite Nat.sub_diag. split; [lia|done].
Qed.

Lemma kept_bytes_safe keep p : forallb kept_byte p = true → safe keep p.
Proof. induction p as [|b p IH]; simpl; [constructor|]. intros [?%kept_shown ?]%andb_prop. constructor; auto. Qed.

Lemma sanitizeSeq_post p keep : ∃ r, sanitizeSeq p keep = Done r ∧ loop_post keep p r.
Proof.
  unfold sanitizeSeq. destruct (first_bad 0 p) as [i|] eqn:E.
  - apply first_bad_prefix in E as [_ E]. rewrite Nat.sub_0_r in E.
    destruct (sanitize_loop_spec (length p) keep (drop i p)) as (r & -> & Hs & Hsub & Hn).
    { rewrite length_drop. lia. }
    eexists. split; [done|]. split_and!.
    + apply safe_app; [by apply kept_bytes_safe|done].
    + rewrite <- (take_drop i p) at 2. by apply sublist_app.
    + rewrite newlines_app, Hn, <- newlines_app. by rewrite take_drop.
  - apply first_bad_none in E. exists p. split; [done|].
    split_and!; [by apply kept_bytes_safe|done|done].
Qed.

(** *** Sanitised text is a fixed point *)

Lemma csi_scan_params params p : ∀ i,
  forallb sgr_param params = true →
  csi_scan true i (params ++ 0x6d :: p) = ((i + length params + 1)%nat, true).
Proof.
  induction params as [|b params IH]; intros i; simpl.
  - intros _. f_equal. lia.
  - intros [Hb Hp]%andb_prop. unfold sgr_param in Hb.
    destruct ((0x40 <=? b) && (b <=? 0x7e)) eqn:E; [lia|].
    assert ((0x30 <=? b) && (b <=? 0x39) || (b =? 0x3b) || (b =? 0x3a) = true) as -> by lia. rewrite IH by done. f_equal. lia.
Qed.

Lemma sanitize_loop_safe keep p : safe keep p → ∀ fuel,
  (length p ≤ fuel)%nat → sanitize_loop fuel keep p = Done p.
Proof.
  induction 1 as [|b p Hb Hp IH|params p Hk Hpar Hp IH]; intros fuel Hf.
  - by destruct fuel.
  - destruct fuel as [|fuel]; simpl in Hf; [lia|]. cbn [sanitize_loop]. by rewrite (proj2 (kept_shown b) Hb), IH by lia.
  - subst keep. destruct fuel as [|fuel]; simpl in Hf; [lia|]. cbn [sanitize_loop].
    change (kept_byte ESC) with false. cbn [ESC Z.eqb Pos.eqb ansiSeqLen].
    rewrite csi_scan_params by done. rewrite length_app in Hf. simpl in Hf.
    replace (2 + length params + 1)%nat with (S (S (S (length params)))) by lia. simpl.
    replace (params ++ 0x6d :: p) with ((params ++ [0x6d]) ++ p) by (by rewrite <- app_assoc).
    assert (Hl : length (params ++ [0x6d]) = S (length params)) by (rewrite length_app; simpl; lia).
    rewrite <- Hl, take_app_length, drop_app_length. by rewrite IH by lia.
Qed.

Lemma sanitizeSeq_safe keep p : safe keep p → sanitizeSeq p keep = Done p.
Proof.
  intros H. unfold sanitizeSeq. destruct (first_bad 0 p) as [i|] eqn:E; [|done].
  apply first_bad_prefix in E as [_ E]. rewrite Nat.sub_0_r in E.
  assert (Hd : safe keep (drop i p)).
  { clear -H E. revert i E. induction H as [|b p Hb Hp IH|params p Hk Hpar Hp IH]; intros i E.
    - rewrite drop_nil. constructor.
    - destruct i; simpl in *; [by constructor|]. apply IH. by rewrite (proj2 (kept_shown b) Hb) in E.
    - destruct i; simpl in *; [by apply safe_sgr|done]. }
  rewrite (sanitize_loop_safe keep (drop i p)); [by rewrite take_drop|done|]. rewrite length_drop. lia.
Qed.

(** *** What comes before an escape sequence *)

Lemma loop_more fuel : ∀ fuel' keep p r, sanitize_loop fuel keep p = Done r → (fuel ≤ fuel')%nat → sanitize_loop fuel' keep p = Done r.
Proof.
  induction fuel as [|fuel IH]; intros [|fuel'] keep [|b p] r; cbn [sanitize_loop]; try done; try lia. intros H Hf.
  assert (Hk : ∀ out q, match sanitize_loop fuel keep q with Done r => Done (out ++ r) | OutOfFuel => OutOfFuel end = Done r →
                        match sanitize_loop fuel' keep q with Done r => Done (out ++ r) | OutOfFuel => OutOfFuel end = Done r).
  { intros out q. destruct (sanitize_loop fuel keep q) as [rq|] eqn:Eq; [|done]. by rewrite (IH fuel' keep q rq) by (done || lia). }
  destruct (kept_byte b); [by apply Hk|]. destruct (b =? ESC); [|by apply Hk]. destruct (ansiSeqLen (b :: p)). by apply Hk.
Qed.

Lemma loop_prefix a : ∀ fuel keep q, 27 ∉ a → (length (a ++ q) ≤ fuel)%nat →
  sanitize_loop fuel keep (a ++ q) =
    match sanitize_loop (fuel - length a) keep q with Done r => Done (filter shown a ++ r) | OutOfFuel => OutOfFuel end.
Proof.
  induction a as [|b a IH]; intros fuel keep q Ha Hf; cbn [app length] in *.
  { rewrite Nat.sub_0_r. by destruct (sanitize_loop fuel keep q). }
  destruct fuel as [|fuel]; [lia|]. apply not_elem_of_cons in Ha as [Hb Ha]. cbn [sanitize_loop]. rewrite (IH fuel) by (done || lia).
  change (S fuel - S (length a))%nat with (fuel - length a)%nat. rewrite filter_cons.
  destruct (kept_byte b) eqn:Ek.
  - apply kept_shown in Ek. rewrite decide_True by done. by destruct (sanitize_loop (fuel - length a) keep q).
  - rewrite decide_False by (rewrite <- kept_shown, Ek; done). destruct (Z.eqb_spec b ESC); [done|].
    by destruct (sanitize_loop (fuel - length a) keep q).
Qed.

Lemma kept_filter p : forallb kept_byte p = true → filter shown p = p ∧ 27 ∉ p.
Proof.
  induction p as [|b p IH]; cbn [forallb]; [intros _; split; [done|apply not_elem_of_nil]|].
  intros [Hb%kept_shown [Hf Hn]%IH]%andb_prop. rewrite filter_cons_True by done. rewrite Hf. split; [done|].
  apply not_elem_of_cons. split; [|done]. unfold shown in Hb. lia.
Qed.

(** The fast path changes nothing. *)
Lemma sanitizeSeq_loop p keep : sanitizeSeq p keep = sanitize_loop (length p) keep p.
Proof.
  unfold sanitizeSeq. destruct (first_bad 0 p) as [i|] eqn:E.
  - apply first_bad_prefix in E as [_ E]. rewrite Nat.sub_0_r in E. destruct (kept_filter _ E) as [Hf Hn].
    rewrite <- (take_drop i p) at 4. rewrite loop_prefix by (done || by rewrite take_drop). rewrite Hf.
    destruct (sanitize_loop_spec (length p - length (take i p)) keep (drop i p)) as (r & Hr & _).
    { rewrite length_drop, length_take. lia. }
    rewrite Hr, (loop_more _ (length p) _ _ _ Hr) by lia. done.
  - apply first_bad_none in E. destruct (kept_filter _ E) as [Hf Hn]. rewrite <- (app_nil_r p) at 3.
    rewrite loop_prefix by (done || by rewrite app_nil_r). rewrite Hf. by destruct (length p - length p)%nat; cbn; rewrite app_nil_r.
Qed.

Lemma sanitizeSeq_prefix a q keep rq : 27 ∉ a → sanitizeSeq q keep = Done rq → sanitizeSeq (a ++ q) keep = Done (filter shown a ++ rq).
Proof.
  intros Ha. rewrite !sanitizeSeq_loop. intros Hq. rewrite loop_prefix by done. by rewrite (loop_more _ (length (a ++ q) - length a) _ _ _ Hq) by (rewrite length_app; lia).
Qed.

(** C24: sanitising always returns, and the control bytes below 0x20 are gone
    from what it returns, but for newlines and tabs and, when colours are kept,
    for the escapes that begin whole SGR colour sequences.  It only deletes
    bytes (the result is a subsequence of the input), keeps every newline so no
    line is merged or forged, and deletes nothing but control bytes before the
    first escape byte, of the whole when there is none.  It leaves text that is
    already safe unchanged, so it is idempotent.  (Bytes from 0x7f on pass.) *)
Theorem sanitize_correct (p : bytes) (keepSGR : bool) :
  ∃ r, sanitizeSeq p keepSGR = Done r ∧
    safe keepSGR r ∧ r `sublist_of` p ∧ newlines r = newlines p ∧
    sanitizeSeq r keepSGR = Done r ∧ (safe keepSGR p → r = p) ∧
    ∀ a q, p = a ++ q → 27 ∉ a → ∃ rq, sanitizeSeq q keepSGR = Done rq ∧ r = filter shown a ++ rq.
Proof.
  destruct (sanitizeSeq_post p keepSGR) as (r & Hr & Hs & Hsub & Hn).
  exists r. split_and!; [done..| | |]; [by apply sanitizeSeq_safe| |].
  - intros Hp. apply (sanitizeSeq_safe keepSGR) in Hp. congruence.
  - intros a q -> Ha. destruct (sanitizeSeq_post q keepSGR) as (rq & Hq & _). exists rq. split; [done|].
    rewrite (sanitizeSeq_prefix a q keepSGR rq Ha Hq) in Hr. congruence.
Qed.

Example sanitize_ex :
  (* red "hi", a window title, a lone BEL *)
  sanitizeSeq [27; 91; 51; 49; 109; 104; 105; 27; 93; 48; 59; 120; 7; 7; 10] true
    = Done [27; 91; 51; 49; 109; 104; 105; 10] ∧
  sanitizeSeq [27; 91; 51; 49; 109; 104; 105; 27; 93; 48; 59; 120; 7; 7; 10] false
    = Done [104; 105; 10].
Proof. vm_compute. done. Qed.

End Sanitize.
