(* ===== verification/Writer.v ===== *)
(** * The line-buffered prefix writer: src/internal/logger/writer.go

    [PrefixWriter] with its line buffer, its ring of recent lines, its extra
    targets and its subscribers.  Every method runs under the writer's mutex
    and is one operation on the record.  Capacities of reused backing arrays
    are not part of the state; the sharing of the subscribers' buffer slots is:
    a channel element is the index of a slot, and a slot is overwritten in
    place.  The clock is a stream of formatted timestamps, one per prefix. *)

From S2P Require Import Prelude GoStrings Sanitize.

Open Scope string_scope.
Open Scope list_scope.
Open Scope nat_scope.

Module Writer.
Import Sanitize.

Definition defaultRingSize : nat := 200.
Definition maxBufSize : Z := 1048576.
Definition subChanCap : nat := 256.
Definition subBufRingSize : nat := 520.
#[global] Arguments defaultRingSize : simpl never.
#[global] Arguments maxBufSize : simpl never.
#[global] Arguments subChanCap : simpl never.
#[global] Arguments subBufRingSize : simpl never.

(** ** Prefix components *)

Inductive part := PTimestamp | PService.

Definition parsePrefixParts (prefix : string) : list part :=
  if bool_decide (prefix = "none") || bool_decide (prefix = "") then []
  else omap (λ tok,
    if bool_decide (tok = "timestamp") then Some PTimestamp
    else if bool_decide (tok = "service") then Some PService
    else None) (Fields prefix).

Definition timestampLen : nat := 25.

Definition estimatePrefixLen (parts : list part) (name : bytes) : nat :=
  foldl (λ n p, match p with PTimestamp => n + timestampLen | PService => n + (length name + 3) end) 0 parts.

(** ** The ring of recent lines *)

Record Ring := mkRing {
  slots : list bytes;
  ringPos : nat;
  ringFull : bool;
}.

Definition newRing : Ring := mkRing (replicate defaultRingSize []) 0 false.

Definition ring_push (r : Ring) (line : bytes) : Ring :=
  let slots' := <[ringPos r := line]> (slots r) in
  let pos := S (ringPos r) in
  if defaultRingSize <=? pos then mkRing slots' 0 true else mkRing slots' pos (ringFull r).

Definition ring_recent (r : Ring) : list bytes :=
  if ringFull r then drop (ringPos r) (slots r) ++ take (ringPos r) (slots r)
  else take (ringPos r) (slots r).

(** ** Subscriptions *)

(** [queue]: the channel's elements, as slot indices. *)
Record subscription := mkSub {
  queue : list nat;
  bufs : list bytes;
  bufIdx : nat;
}.

Definition newSub : subscription := mkSub [] (replicate subBufRingSize []) 0.

(** The line is copied into the next slot; the index is sent if the channel has
    room, and only then does the index advance. *)
Definition fan_out (line : bytes) (s : subscription) : subscription :=
  let bufs' := <[bufIdx s := line]> (bufs s) in
  if length (queue s) <? subChanCap then
    mkSub (queue s ++ [bufIdx s]) bufs'
      (if subBufRingSize <=? S (bufIdx s) then 0 else S (bufIdx s))
  else mkSub (queue s) bufs' (bufIdx s).

(** A receive hands out the slot, not a copy. *)
Definition sub_recv (s : subscription) : option (nat * subscription) :=
  match queue s with
  | [] => None
  | i :: q => Some (i, mkSub q (bufs s) (bufIdx s))
  end.

(** ** The writer *)

(** [out]: the lines written to [dest], in order; [extra]: the lines each extra
    target has received; [ticks]: how many timestamps were taken. *)
Record PrefixWriter := mkPW {
  name : bytes;
  parts : list part;
  buf : bytes;
  ring : Ring;
  extra : list (list bytes);
  subs : list (nat * subscription);
  nextSub : nat;
  out : list bytes;
  ticks : nat;
}.

Definition NewPrefixWriter (name : bytes) (prefix : string) : PrefixWriter :=
  mkPW name (parsePrefixParts prefix) [] newRing [] [] 0 [] 0.

Definition AddTarget (pw : PrefixWriter) : PrefixWriter :=
  mkPW (name pw) (parts pw) (buf pw) (ring pw) (extra pw ++ [[]]) (subs pw) (nextSub pw) (out pw) (ticks pw).

Definition ClearTargets (pw : PrefixWriter) : PrefixWriter :=
  mkPW (name pw) (parts pw) (buf pw) (ring pw) [] (subs pw) (nextSub pw) (out pw) (ticks pw).

Definition Subscribe (pw : PrefixWriter) : nat * PrefixWriter :=
  (nextSub pw,
   mkPW (name pw) (parts pw) (buf pw) (ring pw) (extra pw) (subs pw ++ [(nextSub pw, newSub)])
     (S (nextSub pw)) (out pw) (ticks pw)).

(** The first subscription with this identity is removed, if any. *)
Fixpoint remove_sub (id : nat) (l : list (nat * subscription)) : list (nat * subscription) :=
  match l with
  | [] => []
  | (i, s) :: l => if decide (i = id) then l else (i, s) :: remove_sub id l
  end.

Definition Unsubscribe (pw : PrefixWriter) (id : nat) : PrefixWriter :=
  mkPW (name pw) (parts pw) (buf pw) (ring pw) (extra pw) (remove_sub id (subs pw)) (nextSub pw)
    (out pw) (ticks pw).

Definition Recent (pw : PrefixWriter) : list bytes := ring_recent (ring pw).

Definition set_buf (pw : PrefixWriter) (b : bytes) : PrefixWriter :=
  mkPW (name pw) (parts pw) b (ring pw) (extra pw) (subs pw) (nextSub pw) (out pw) (ticks pw).

Definition index_nl (p : bytes) : option nat := fst <$> list_find (λ b, b = NL) p.

Definition sanitizeKeepColors (p : bytes) : bytes :=
  match sanitizeSeq p true with Done r => r | OutOfFuel => [] end.

Definition blen (p : bytes) : Z := Z.of_nat (length p).

Section writer.
(** The n-th timestamp taken by this writer, as formatted. *)
Context (stamp : nat → bytes).

(** One prefix component; a timestamp component reads the clock. *)
Definition prefix_part (nm : bytes) (acc : bytes * nat) (p : part) : bytes * nat :=
  match p with
  | PTimestamp => (acc.1 ++ stamp acc.2 ++ [32%Z], S acc.2)
  | PService => (acc.1 ++ [91%Z] ++ nm ++ [93%Z; 32%Z], acc.2)
  end.

(** [prefix]: the prefixed line, and the clock after it. *)
Definition prefix (pw : PrefixWriter) (line : bytes) : bytes * nat :=
  match parts pw with
  | [] => (line, ticks pw)
  | ps => let '(pre, t) := foldl (prefix_part (name pw)) ([], ticks pw) ps in (pre ++ line, t)
  end.

(** One complete line: to [dest], the targets, the ring and the subscribers. *)
Definition emit (pw : PrefixWriter) (line : bytes) : PrefixWriter :=
  let '(prefixed, t) := prefix pw line in
  let clean := sanitizeKeepColors prefixed in
  mkPW (name pw) (parts pw) (buf pw) (ring_push (ring pw) clean)
    ((λ log, log ++ [prefixed]) <$> extra pw)
    ((λ s, (s.1, fan_out clean s.2)) <$> subs pw)
    (nextSub pw) (out pw ++ [prefixed]) t.

(** The inner loop: every complete line of the buffer. *)
Fixpoint drain (fuel : nat) (pw : PrefixWriter) : fuelled PrefixWriter :=
  match index_nl (buf pw) with
  | None => Done pw
  | Some idx =>
      match fuel with
      | O => OutOfFuel
      | S fuel =>
          drain fuel (emit (set_buf pw (drop (S idx) (buf pw))) (take (S idx) (buf pw)))
      end
  end.

(** One round of the outer loop: what the buffer becomes and what is left of [p]. *)
Definition fill (b p : bytes) : bytes * bytes :=
  let room := (maxBufSize - blen b)%Z in
  if (room <=? 0)%Z then (b ++ [NL], p)
  else
    let n := Z.to_nat (Z.min room (blen p)) in
    let n := match index_nl (take n p) with Some nl => S nl | None => n end in
    let b' := b ++ take n p in
    (if (maxBufSize <=? blen b')%Z && bool_decide (index_nl b' = None) then b' ++ [NL] else b', drop n p).

Fixpoint write_loop (fuel : nat) (pw : PrefixWriter) (p : bytes) : fuelled PrefixWriter :=
  match p with
  | [] => Done pw
  | _ =>
      match fuel with
      | O => OutOfFuel
      | S fuel =>
          let '(b, p') := fill (buf pw) p in
          match drain (length b) (set_buf pw b) with
          | Done pw' => write_loop fuel pw' p'
          | OutOfFuel => OutOfFuel
          end
      end
  end.

(** [Write]: the writer, and the count returned (always [len(p)]). *)
Definition Write (pw : PrefixWriter) (p : bytes) : fuelled (PrefixWriter * nat) :=
  match write_loop (2 * length p) pw p with
  | Done pw' => Done (pw', length p)
  | OutOfFuel => OutOfFuel
  end.

Definition Flush (pw : PrefixWriter) : PrefixWriter :=
  match buf pw with
  | [] => pw
  | b =>
      let '(prefixed, t) := prefix pw b in
      mkPW (name pw) (parts pw) [] (ring pw) ((λ log, log ++ [prefixed]) <$> extra pw) (subs pw)
        (nextSub pw) (out pw ++ [prefixed]) t
  end.

(** ** Reference: the writer one byte at a time *)

Definition feed1 (pw : PrefixWriter) (b : Z) : PrefixWriter :=
  let b' := buf pw ++ [b] in
  if decide (b = NL) then emit (set_buf pw []) b'
  else if (maxBufSize <=? blen b')%Z then emit (set_buf pw []) (b' ++ [NL])
  else set_buf pw b'.

(** The buffer between writes: no newline, below the cap. *)
Definition buf_ok (pw : PrefixWriter) : Prop :=
  ¬ (NL ∈ buf pw) ∧ (blen (buf pw) < maxBufSize)%Z.

(** ** Lemmas *)

Lemma index_nl_none p : index_nl p = None ↔ NL ∉ p.
Proof.
  unfold index_nl. rewrite fmap_None, list_find_None, Forall_forall. split.
  - intros H Hin. by apply (H NL).
  - intros H x Hx ->. done.
Qed.

Lemma index_nl_some p i :
  index_nl p = Some i → ∃ a, p = a ++ NL :: drop (S i) p ∧ length a = i ∧ NL ∉ a.
Proof.
  unfold index_nl. destruct (list_find _ p) as [[j b]|] eqn:E; [|done]. intros [= <-].
  apply list_find_Some in E as (Hj & -> & Hmin). exists (take j p). split_and!.
  - by rewrite (take_drop_middle p j NL Hj).
  - apply lookup_lt_Some in Hj. rewrite length_take. lia.
  - intros Hin. apply list_elem_of_lookup_1 in Hin as [k Hk].
    apply lookup_take_Some in Hk as [Hk Hlt]. by apply (Hmin k NL).
Qed.

Lemma first_nl_unique (a c b d : bytes) :
  NL ∉ a → NL ∉ c → a ++ NL :: b = c ++ NL :: d → length a = length c.
Proof.
  revert c. induction a as [|x a IH]; intros [|y c] Ha Hc Heq; simpl in *; simplify_eq; try done.
  - set_solver.
  - set_solver.
  - f_equal. eapply IH; [set_solver|set_solver|done].
Qed.

Lemma index_nl_app a b : NL ∉ a → index_nl (a ++ NL :: b) = Some (length a).
Proof.
  intros Ha. destruct (index_nl (a ++ NL :: b)) as [i|] eqn:E.
  - apply index_nl_some in E as (c & Heq & <- & Hc). f_equal. symmetry. by eapply first_nl_unique.
  - apply index_nl_none in E. set_solver.
Qed.

Lemma emit_buf pw line : buf (emit pw line) = buf pw.
Proof. unfold emit. by destruct (prefix pw line). Qed.

Lemma blen_app a b : blen (a ++ b) = (blen a + blen b)%Z.
Proof. unfold blen. rewrite length_app. lia. Qed.

(** A drain of a buffer with one line, at its end. *)
Lemma drain_one fuel pw line :
  NL ∉ line → drain (S fuel) (set_buf pw (line ++ [NL])) = Done (emit (set_buf pw []) (line ++ [NL])).
Proof.
  intros Hl. cbn [drain]. change (buf (set_buf pw (line ++ [NL]))) with (line ++ [NL]).
  rewrite index_nl_app by done.
  rewrite take_ge, drop_ge by (rewrite length_app; simpl; lia).
  change (set_buf (set_buf pw (line ++ [NL])) []) with (set_buf pw []).
  destruct fuel; cbn [drain]; by rewrite emit_buf.
Qed.

Lemma drain_none fuel pw : NL ∉ buf pw → drain fuel pw = Done pw.
Proof. intros H%index_nl_none. destruct fuel; simpl; by rewrite H. Qed.

(** Bytes that neither end a line nor reach the cap just collect. *)
Lemma feed_quiet c : ∀ pw,
  NL ∉ c → (blen (buf pw) + blen c < maxBufSize)%Z → foldl feed1 pw c = set_buf pw (buf pw ++ c).
Proof.
  induction c as [|b c IH]; intros pw Hnl Hlen; simpl.
  { rewrite app_nil_r. by destruct pw. }
  assert (Hf : feed1 pw b = set_buf pw (buf pw ++ [b])).
  { unfold feed1. rewrite decide_False by set_solver.
    rewrite (proj2 (Z.leb_gt _ _)); [done|]. rewrite blen_app. unfold blen in *. simpl in *. lia. }
  rewrite Hf, IH; [|set_solver|].
  - simpl. by rewrite <- app_assoc.
  - simpl. rewrite blen_app. unfold blen in *. simpl in *. lia.
Qed.

(** Bytes that end a line within the cap emit it. *)
Lemma feed_line c pw :
  NL ∉ c → (blen (buf pw) + blen c < maxBufSize)%Z →
  foldl feed1 pw (c ++ [NL]) = emit (set_buf pw []) (buf pw ++ c ++ [NL]).
Proof.
  intros Hc Hlen. rewrite foldl_app, (feed_quiet c pw) by done. simpl. unfold feed1 at 1.
  rewrite decide_True by done. simpl. by rewrite <- app_assoc.
Qed.

(** Bytes that reach the cap without a newline get one. *)
Lemma feed_cap c b pw :
  NL ∉ c ++ [b] → (blen (buf pw) + blen (c ++ [b]) = maxBufSize)%Z →
  foldl feed1 pw (c ++ [b]) = emit (set_buf pw []) ((buf pw ++ c ++ [b]) ++ [NL]).
Proof.
  intros Hc Hlen. rewrite blen_app in Hlen. unfold blen at 3 in Hlen. simpl in Hlen.
  rewrite foldl_app, (feed_quiet c pw) by (set_solver || lia). simpl. unfold feed1 at 1.
  rewrite decide_False by set_solver. simpl. rewrite (proj2 (Z.leb_le _ _)).
  - by rewrite <- !app_assoc.
  - rewrite !blen_app. unfold blen at 3. simpl. lia.
Qed.

Lemma emit_ok pw line : buf_ok (emit (set_buf pw []) line).
Proof. unfold buf_ok. rewrite emit_buf. simpl. split; [set_solver|done]. Qed.

(** One round consumes a non-empty chunk and does what the bytes of the chunk
    do one at a time. *)
Lemma round_feed pw p :
  buf_ok pw → p ≠ [] →
  ∃ c, p = c ++ (fill (buf pw) p).2 ∧ c ≠ [] ∧
    drain (length (fill (buf pw) p).1) (set_buf pw (fill (buf pw) p).1) = Done (foldl feed1 pw c) ∧
    buf_ok (foldl feed1 pw c).
Proof.
  intros [Hnl Hlen] Hp. unfold fill. rewrite (proj2 (Z.leb_gt _ _)) by lia.
  set (n0 := Z.to_nat (Z.min (maxBufSize - blen (buf pw)) (blen p))).
  assert (Hn0 : 0 < n0 ∧ n0 ≤ length p ∧ (Z.of_nat n0 ≤ maxBufSize - blen (buf pw))%Z).
  { unfold n0, blen in *. destruct p; [done|]. simpl length. lia. }
  destruct (index_nl (take n0 p)) as [nl|] eqn:Enl; simpl.
  - apply index_nl_some in Enl as (a & Ha & Hla & Hna).
    assert (Hlt : S nl ≤ n0).
    { apply (f_equal length) in Ha. rewrite length_app, length_take in Ha. simpl in Ha. lia. }
    assert (Ht : take (S nl) p = a ++ [NL]).
    { replace (S nl) with (Nat.min (S nl) n0) by lia. rewrite <- take_take, Ha.
      replace (S nl) with (length (a ++ [NL])) by (rewrite length_app; simpl; lia).
      replace (a ++ NL :: drop (length (a ++ [NL])) (take n0 p))
        with ((a ++ [NL]) ++ drop (length (a ++ [NL])) (take n0 p)) by (by rewrite <- app_assoc).
      apply take_app_length. }
    rewrite Ht. rewrite bool_decide_false, andb_false_r.
    2: { rewrite index_nl_none. set_solver. }
    exists (a ++ [NL]). split_and!; [by rewrite <- Ht, take_drop|by destruct a| |].
    + rewrite feed_line by (done || (unfold blen in *; lia)). simpl.
      rewrite app_assoc, length_app, Nat.add_1_r. apply drain_one. set_solver.
    + rewrite feed_line by (done || (unfold blen in *; lia)). apply emit_ok.
  - apply index_nl_none in Enl.
    assert (Hl : blen (take n0 p) = Z.of_nat n0) by (unfold blen; rewrite length_take; lia).
    exists (take n0 p). split; [by rewrite take_drop|]. split.
    { intros H0. rewrite H0 in Hl. unfold blen in Hl. simpl in Hl. lia. }
    rewrite bool_decide_true, andb_true_r by (apply index_nl_none; set_solver).
    rewrite blen_app, Hl. destruct (Z.leb_spec maxBufSize (blen (buf pw) + Z.of_nat n0)).
    + assert (Hsn : ∃ c b, take n0 p = c ++ [b]).
      { destruct (take n0 p) as [|x l] using rev_ind; [unfold blen in Hl; simpl in Hl; lia|eauto]. }
      destruct Hsn as (c & b & Hcb). rewrite Hcb in *.
      rewrite feed_cap by (done || lia). split; [|apply emit_ok].
      rewrite length_app, Nat.add_1_r. apply drain_one. set_solver.
    + rewrite feed_quiet by (done || lia). split.
      * apply drain_none. simpl. set_solver.
      * split; simpl; [set_solver|]. rewrite blen_app. lia.
Qed.

Lemma write_loop_feed fuel : ∀ pw p,
  buf_ok pw → length p ≤ fuel →
  write_loop fuel pw p = Done (foldl feed1 pw p) ∧ buf_ok (foldl feed1 pw p).
Proof.
  induction fuel as [|fuel IH]; intros pw [|x p] Hok Hlen; simpl in Hlen; try lia; [done|done|].
  cbn [write_loop].
  destruct (round_feed pw (x :: p) Hok ltac:(done)) as (c & Hc & Hne & Hdr & Hok').
  destruct (fill (buf pw) (x :: p)) as [b p'] eqn:Ef. simpl in Hc, Hdr. rewrite Hdr.
  destruct (IH (foldl feed1 pw c) p' Hok') as [H1 H2].
  { apply (f_equal length) in Hc. rewrite length_app in Hc. destruct c; simpl in *; [done|lia]. }
  by rewrite Hc, foldl_app.
Qed.

Lemma Write_feed pw p :
  buf_ok pw → Write pw p = Done (foldl feed1 pw p, length p) ∧ buf_ok (foldl feed1 pw p).
Proof.
  intros Hok. unfold Write. destruct (write_loop_feed (2 * length p) pw p Hok) as [-> H]; [lia|done].
Qed.

(** A sequence of writes, as a service's output arrives. *)
Definition write_all (pw : PrefixWriter) (chunks : list bytes) : fuelled PrefixWriter :=
  foldl (λ r p, match r with
                | Done pw => match Write pw p with Done (pw', _) => Done pw' | OutOfFuel => OutOfFuel end
                | OutOfFuel => OutOfFuel
                end) (Done pw) chunks.

Lemma write_all_feed chunks : ∀ pw,
  buf_ok pw → write_all pw chunks = Done (foldl feed1 pw (concat chunks)) ∧
    buf_ok (foldl feed1 pw (concat chunks)).
Proof.
  induction chunks as [|p chunks IH] using rev_ind; intros pw Hok; [done|].
  destruct (IH pw Hok) as [H1 H2]. rewrite concat_app, foldl_app. simpl. rewrite app_nil_r.
  unfold write_all in *. rewrite foldl_app, H1. simpl.
  by destruct (Write_feed (foldl feed1 pw (concat chunks)) p H2) as [-> ?].
Qed.
End writer.

(** C23: [Write] is exactly the byte-at-a-time machine: a line is emitted at
    each newline, and a newline is injected when a line reaches the cap.  It
    always returns, reports every byte as written, and keeps the buffer below
    the cap and free of newlines; so how the output is cut into writes makes no
    difference to what is emitted. *)
Theorem write_chunking (stamp : nat → bytes) (pw : PrefixWriter) (chunks : list bytes) (p : bytes) :
  buf_ok pw →
  Write stamp pw p = Done (foldl (feed1 stamp) pw p, length p) ∧
  write_all stamp pw chunks = Done (foldl (feed1 stamp) pw (concat chunks)) ∧
  buf_ok (foldl (feed1 stamp) pw (concat chunks)).
Proof.
  intros Hok. split; [by apply Write_feed|]. by apply write_all_feed.
Qed.

Definition tiny_stamp (n : nat) : bytes := [84%Z].

Lemma write_chunking_witness :
  Write tiny_stamp (NewPrefixWriter [97%Z] "service") [104; 10; 105]%Z
  = Done (foldl (feed1 tiny_stamp) (NewPrefixWriter [97%Z] "service") [104; 10; 105]%Z, 3).
Proof.
  refine (proj1 (write_chunking tiny_stamp (NewPrefixWriter [97%Z] "service") [] [104; 10; 105]%Z _)).
  split; [apply not_elem_of_nil|vm_compute; reflexivity].
Defined.

(** ** What is emitted, and where *)

(** The lines of a byte stream and the unfinished rest. *)
Definition line_step (st : list bytes * bytes) (b : Z) : list bytes * bytes :=
  let cur := st.2 ++ [b] in
  if decide (b = NL) then (st.1 ++ [cur], [])
  else if (maxBufSize <=? blen cur)%Z then (st.1 ++ [cur ++ [NL]], [])
  else (st.1, cur).

Definition lines_of (s : bytes) : list bytes * bytes := foldl line_step ([], []) s.

Definition text (p : bytes) : bytes := List.filter (λ b, negb (b =? NL)%Z) p.

(** A line: one newline, at the end, after less than the cap. *)
Definition is_line (l : bytes) : Prop :=
  ∃ a, l = a ++ [NL] ∧ ¬ (NL ∈ a) ∧ (blen a ≤ maxBufSize)%Z.

Lemma text_app a b : text (a ++ b) = text a ++ text b.
Proof. apply List.filter_app. Qed.

(** The text is conserved: lines and rest hold the stream's bytes in order, and
    newlines are only added. *)
Lemma lines_of_spec s :
  let '(ls, rest) := lines_of s in
  Forall is_line ls ∧ ¬ (NL ∈ rest) ∧ (blen rest < maxBufSize)%Z ∧
  text (concat ls ++ rest) = text s ∧ s `sublist_of` (concat ls ++ rest).
Proof.
  induction s as [|b s IH] using rev_ind.
  { simpl. split_and!; [constructor|set_solver|done|done|constructor]. }
  unfold lines_of in *. rewrite foldl_app. simpl. destruct (foldl line_step _ s) as [ls rest].
  destruct IH as (H1 & H2 & H3 & H4 & H5). unfold line_step. simpl.
  assert (Hlen : (blen (rest ++ [b]) = blen rest + 1)%Z) by (rewrite blen_app; unfold blen; simpl; lia).
  assert (Htx : ∀ x, text ((concat (ls ++ [rest ++ x])) ++ []) = text (concat ls ++ rest) ++ text x).
  { intros x. rewrite concat_app. simpl. by rewrite !app_nil_r, !text_app, app_assoc. }
  assert (Hsub : ∀ x, [b] `sublist_of` x → (s ++ [b]) `sublist_of` (concat (ls ++ [rest ++ x]) ++ [])).
  { intros x Hx. rewrite concat_app. simpl. rewrite !app_nil_r, app_assoc. by apply sublist_app. }
  case_decide as Hb; [subst b|destruct (Z.leb_spec maxBufSize (blen (rest ++ [b])))].
  - split_and!; [| set_solver|done| |by apply Hsub].
    + apply Forall_app. split; [done|]. apply Forall_singleton. exists rest. split_and!; [done|done|lia].
    + by rewrite Htx, H4, text_app.
  - rewrite <- app_assoc. split_and!; [|set_solver|done| |].
    + apply Forall_app. split; [done|]. apply Forall_singleton. exists (rest ++ [b]).
      rewrite <- app_assoc. split_and!; [done|set_solver|lia].
    + rewrite Htx, H4, !text_app. change (text [NL]) with (@nil Z). by rewrite app_nil_r.
    + apply Hsub. simpl. constructor. constructor. constructor.
  - split_and!; [done|set_solver|lia| |].
    + rewrite app_assoc, text_app, H4. by rewrite text_app.
    + rewrite app_assoc. by apply sublist_app.
Qed.

(** *** The ring *)

Lemma ring_push_spec (ls : list bytes) :
  let r := foldl ring_push newRing ls in
  length (slots r) = defaultRingSize ∧ ringPos r < defaultRingSize ∧
  ring_recent r = drop (length ls - defaultRingSize) ls ∧
  (ringFull r = false → ringPos r = length ls) ∧ (ringFull r = true → defaultRingSize ≤ length ls).
Proof.
  induction ls as [|x ls IH] using rev_ind.
  { split_and!; try done. simpl. unfold defaultRingSize. lia. }
  rewrite foldl_app, length_app. cbn [foldl length]. destruct (foldl ring_push newRing ls) as [sl pos full].
  cbn [slots ringPos ringFull] in IH. destruct IH as (Hl & Hp & Hr & Hnf & Hf).
  unfold ring_push. cbn [slots ringPos ringFull].
  assert (Hsl : sl = take pos sl ++ sl !!! pos :: drop (S pos) sl).
  { rewrite take_drop_middle; [done|]. apply list_lookup_lookup_total_lt. lia. }
  set (A := take pos sl) in *. set (B := drop (S pos) sl) in *. set (o := sl !!! pos) in *.
  assert (HA : length A = pos) by (unfold A; rewrite length_take; lia).
  assert (Hins : <[pos := x]> sl = A ++ x :: B).
  { rewrite Hsl, <- HA at 1. by rewrite insert_app_r_alt, Nat.sub_diag by lia. }
  assert (HAB : length A + S (length B) = defaultRingSize).
  { rewrite <- Hl, Hsl, length_app. done. }
  rewrite Hins. unfold ring_recent in *. cbn [slots ringPos ringFull] in *.
  assert (Hrec : if full then o :: B ++ A = drop (length ls - defaultRingSize) ls else A = ls).
  { destruct full.
    - rewrite <- Hr. rewrite Hsl at 1. rewrite <- HA at 1. rewrite drop_app_length. done.
    - rewrite <- (drop_0 ls). replace 0 with (length ls - defaultRingSize) by lia. by rewrite <- Hr. }
  assert (HlsF : full = true → drop (length ls + 1 - defaultRingSize) (ls ++ [x]) = (B ++ A) ++ [x]).
  { intros ->. specialize (Hf eq_refl). rewrite drop_app_le by lia. f_equal.
    replace (length ls + 1 - defaultRingSize) with (length ls - defaultRingSize + 1) by lia.
    by rewrite <- drop_drop, <- Hrec. }
  assert (HlA : length (A ++ x :: B) = defaultRingSize) by (rewrite length_app; simpl; lia).
  destruct (Nat.leb_spec defaultRingSize (S pos)); cbn [slots ringPos ringFull].
  - assert (B = []) as HB by (destruct B; [done|simpl in *; lia]). rewrite HB in *. simpl in *.
    rewrite ?drop_0, app_nil_r. split_and!; [done|lia| |done|intros _; destruct full; [specialize (Hf eq_refl)|specialize (Hnf eq_refl)]; lia].
    destruct full; [by rewrite HlsF|]. rewrite Hrec. specialize (Hnf eq_refl).
    replace (length ls + 1 - defaultRingSize) with 0 by lia. done.
  - split_and!; [done|lia| |intros Hff; specialize (Hnf Hff); lia|intros Hff; specialize (Hf Hff); lia].
    replace (A ++ x :: B) with ((A ++ [x]) ++ B) by (by rewrite <- app_assoc).
    replace (S pos) with (length (A ++ [x])) by (rewrite length_app; simpl; lia).
    rewrite drop_app_length, take_app_length. destruct full.
    + by rewrite HlsF, <- app_assoc.
    + specialize (Hnf eq_refl). replace (length ls + 1 - defaultRingSize) with 0 by lia. by rewrite Hrec.
Qed.

(** *** From the stream to the destinations *)
Section outputs.
Context (stamp : nat → bytes).

(** Timestamps taken per line. *)
Definition stamps (ps : list part) : nat :=
  length (List.filter (λ p, match p with PTimestamp => true | PService => false end) ps).

(** The line as it is written, when [t] timestamps were taken before it. *)
Definition prefixed (nm : bytes) (ps : list part) (t : nat) (line : bytes) : bytes :=
  match ps with [] => line | _ => (foldl (prefix_part stamp nm) ([], t) ps).1 ++ line end.

Lemma prefix_part_ticks nm ps : ∀ acc,
  (foldl (prefix_part stamp nm) acc ps).2 = acc.2 + stamps ps.
Proof.
  induction ps as [|[] ps IH]; intros acc; unfold stamps in *; simpl; [lia|rewrite IH; simpl; lia|].
  rewrite IH. done.
Qed.

Lemma prefix_prefixed pw line :
  prefix stamp pw line = (prefixed (name pw) (parts pw) (ticks pw) line, ticks pw + stamps (parts pw)).
Proof.
  unfold prefix, prefixed. destruct (parts pw) as [|p ps] eqn:E; [unfold stamps; simpl; f_equal; lia|].
  rewrite <- E. pose proof (prefix_part_ticks (name pw) (parts pw) ([], ticks pw)) as H. simpl in H.
  by destruct (foldl _ _ _) as [pre t]; simpl in *; subst.
Qed.

(** The writer after a stream: everything a destination sees is the prefixed
    lines of the stream. *)
Record written (nm : bytes) (ps : list part) (k : nat) (s : bytes) (pw : PrefixWriter) : Prop := {
  w_name : name pw = nm;
  w_parts : parts pw = ps;
  w_buf : buf pw = (lines_of s).2;
  w_ticks : ticks pw = length (lines_of s).1 * stamps ps;
  w_out : out pw = imap (λ i l, prefixed nm ps (i * stamps ps) l) (lines_of s).1;
  w_extra : extra pw = replicate k (out pw);
  w_ring : ring pw = foldl ring_push newRing (sanitizeKeepColors <$> out pw);
}.

Lemma written_quiet nm ps k s pw b :
  written nm ps k s pw → lines_of (s ++ [b]) = ((lines_of s).1, buf pw ++ [b]) →
  written nm ps k (s ++ [b]) (set_buf pw (buf pw ++ [b])).
Proof. intros [] Hl. split; simpl; rewrite ?Hl; done. Qed.

Lemma written_emit nm ps k s pw b line :
  written nm ps k s pw → lines_of (s ++ [b]) = ((lines_of s).1 ++ [line], []) →
  written nm ps k (s ++ [b]) (emit stamp (set_buf pw []) line).
Proof.
  intros [H1 H2 H3 H4 H5 H6 H7] Hl. unfold emit. rewrite prefix_prefixed.
  simpl in *. rewrite H1, H2, H4 in *. split; simpl; rewrite ?Hl; try done.
  - simpl. rewrite length_app. simpl. lia.
  - simpl. rewrite imap_app, H5. simpl. by rewrite Nat.add_0_r.
  - by rewrite H6, fmap_replicate.
  - by rewrite H7, fmap_app, foldl_app.
Qed.

Lemma feed_written nm ps k s pw b :
  written nm ps k s pw → written nm ps k (s ++ [b]) (feed1 stamp pw b).
Proof.
  intros Hw. unfold feed1.
  assert (Hl : lines_of (s ++ [b]) = line_step (lines_of s) b) by (unfold lines_of; by rewrite foldl_app).
  unfold line_step in Hl. rewrite <- (w_buf _ _ _ _ _ Hw) in Hl.
  case_decide; [by apply written_emit|]. destruct (maxBufSize <=? _)%Z; [by apply written_emit|].
  by apply written_quiet.
Qed.

Lemma feed_all_written nm ps k s pw :
  written nm ps k [] pw → written nm ps k s (foldl (feed1 stamp) pw s).
Proof.
  intros H. induction s as [|b s IH] using rev_ind; [done|].
  rewrite foldl_app. by apply feed_written.
Qed.

(** A new writer with [k] targets added. *)
Definition fresh (nm : bytes) (prefix : string) (k : nat) : PrefixWriter :=
  Nat.iter k AddTarget (NewPrefixWriter nm prefix).

Lemma fresh_written nm prefix k : written nm (parsePrefixParts prefix) k [] (fresh nm prefix k).
Proof.
  unfold fresh. induction k as [|k [H1 H2 H3 H4 H5 H6 H7]]; simpl; [by split|].
  split; simpl; try done. rewrite H6, H5. symmetry. exact (replicate_S_end k (@nil bytes)).
Qed.

Lemma fresh_ok nm prefix k : buf_ok (fresh nm prefix k).
Proof. destruct (fresh_written nm prefix k) as [_ _ H _ _ _ _]. unfold buf_ok. rewrite H. simpl. split; [set_solver|done]. Qed.
End outputs.

(** Whatever the chunks a service's output arrives in, the destination and
    every target receive exactly its lines, each with the configured prefix,
    in order; the unfinished rest stays buffered; the text of the stream is
    conserved (only newlines at the cap are added); and [Recent] returns the
    last 200 of the lines, stripped of escapes. *)
Theorem outputs_are_the_lines (stamp : nat → bytes) (nm : bytes) (prefix : string) (k : nat)
    (chunks : list bytes) :
  let s := concat chunks in
  let ls := (lines_of s).1 in
  ∃ pw, write_all stamp (fresh nm prefix k) chunks = Done pw ∧
    out pw = imap (λ i l, prefixed stamp nm (parsePrefixParts prefix)
                            (i * stamps (parsePrefixParts prefix)) l) ls ∧
    extra pw = replicate k (out pw) ∧
    buf pw = (lines_of s).2 ∧
    text (concat ls ++ buf pw) = text s ∧
    Recent pw = drop (length (out pw) - defaultRingSize) (sanitizeKeepColors <$> out pw).
Proof.
  intros s ls. destruct (write_all_feed stamp chunks (fresh nm prefix k) (fresh_ok stamp nm prefix k)) as [Hw _].
  pose proof (feed_all_written stamp nm (parsePrefixParts prefix) k s (fresh nm prefix k)
    (fresh_written stamp nm prefix k)) as [H1 H2 H3 H4 H5 H6 H7].
  eexists. split; [exact Hw|]. fold s. split_and!; [done|done|done| |].
  - rewrite H3. pose proof (lines_of_spec s) as Hs. unfold ls.
    destruct (lines_of s) as [l r]. by destruct Hs as (_ & _ & _ & ? & _).
  - unfold Recent. rewrite H7.
    destruct (ring_push_spec (sanitizeKeepColors <$> out (foldl (feed1 stamp) (fresh nm prefix k) s)))
      as (_ & _ & -> & _). by rewrite length_fmap.
Qed.

(** ** Shared subscriber buffers *)

Inductive sub_event :=
  | SLine (line : bytes)
  | SReceive.

(** A subscription with the history of what was sent and which slots were
    handed to the receiver. *)
Record sub_run := mkRun {
  sub : subscription;
  sent : list bytes;
  got : list nat;
}.

Definition sub_step (r : sub_run) (e : sub_event) : sub_run :=
  match e with
  | SLine l =>
      mkRun (fan_out l (sub r))
        (if length (queue (sub r)) <? subChanCap then sent r ++ [l] else sent r) (got r)
  | SReceive =>
      match sub_recv (sub r) with
      | Some (i, s) => mkRun s (sent r) (got r ++ [i])
      | None => r
      end
  end.

Definition sub_init : sub_run := mkRun newSub [] [].

(** Buffers a receiver may still hold: the pipe goroutine's one, the merged
    channel's 256 and the handler's one. *)
Definition downstream : nat := 258.

(** Send number [j] uses slot [j mod 520]; the last 519 sends are intact. *)
Record sub_inv (r : sub_run) : Prop := {
  si_bufs : length (bufs (sub r)) = subBufRingSize;
  si_idx : bufIdx (sub r) = length (sent r) `mod` subBufRingSize;
  si_cap : length (queue (sub r)) ≤ subChanCap;
  si_slots : got r ++ queue (sub r) = (λ j, j `mod` subBufRingSize) <$> seq 0 (length (sent r));
  si_data j : length (sent r) - (subBufRingSize - 1) ≤ j → j < length (sent r) →
    bufs (sub r) !! (j `mod` subBufRingSize) = sent r !! j;
}.

Lemma mod_next n k : 0 < k → (if k <=? S (n `mod` k) then 0 else S (n `mod` k)) = S n `mod` k.
Proof.
  intros Hk. pose proof (Nat.mod_upper_bound n k ltac:(lia)). pose proof (Nat.div_mod n k ltac:(lia)).
  destruct (Nat.leb_spec k (S (n `mod` k))).
  - apply (Nat.mod_unique _ _ (S (n `div` k))); nia.
  - apply (Nat.mod_unique _ _ (n `div` k)); nia.
Qed.

Lemma mod_window j n k : 0 < k → j < n → n < j + k → j `mod` k ≠ n `mod` k.
Proof.
  intros Hk H1 H2 Heq. pose proof (Nat.div_mod j k ltac:(lia)). pose proof (Nat.div_mod n k ltac:(lia)).
  rewrite Heq in *. assert (n `div` k = j `div` k ∨ j `div` k + 1 ≤ n `div` k ∨ n `div` k + 1 ≤ j `div` k) by lia.
  nia.
Qed.

Lemma sub_inv_init : sub_inv sub_init.
Proof. split; simpl; try done; try lia. Qed.

Lemma sub_inv_step r e : sub_inv r → sub_inv (sub_step r e).
Proof.
  intros [H1 H2 H3 H4 H5]. assert (Hk : 0 < subBufRingSize) by (unfold subBufRingSize; lia).
  destruct e as [l|]; unfold sub_step.
  - unfold fan_out. destruct (Nat.ltb_spec (length (queue (sub r))) subChanCap).
    + rewrite H2, mod_next by done. split; cbn [sub sent got queue bufs bufIdx].
      * by rewrite length_insert.
      * by rewrite length_app, Nat.add_1_r.
      * rewrite length_app. cbn [length]. lia.
      * rewrite app_assoc, H4, length_app. cbn [length]. by rewrite seq_app, fmap_app.
      * intros j. rewrite length_app. cbn [length]. intros Hj1 Hj2.
        destruct (decide (j = length (sent r))) as [->|].
        { rewrite list_lookup_insert_eq by (rewrite H1; apply Nat.mod_upper_bound; lia).
          by rewrite list_lookup_middle. }
        rewrite list_lookup_insert_ne by (apply not_eq_sym, mod_window; lia).
        rewrite lookup_app_l by lia. apply H5; lia.
    + split; cbn [sub sent got queue bufs bufIdx]; try done; [by rewrite length_insert|].
      intros j Hj1 Hj2. rewrite H2, list_lookup_insert_ne by (apply not_eq_sym, mod_window; lia).
      by apply H5.
  - unfold sub_recv. destruct (queue (sub r)) as [|i q] eqn:Eq; [by split; rewrite ?Eq|].
    split; cbn [sub sent got queue bufs bufIdx]; try done; [cbn [length] in H3; lia|].
    by rewrite <- app_assoc.
Qed.

Lemma sub_inv_run evs : sub_inv (foldl sub_step sub_init evs).
Proof.
  induction evs as [|e evs IH] using rev_ind; [apply sub_inv_init|].
  rewrite foldl_app. by apply sub_inv_step.
Qed.

(** The shared buffer slots are never overwritten while in use: under any
    interleaving of lines and receives, every line still queued and each of the
    last 258 lines handed to the receiver (the most the control server's merge
    keeps alive) is still in its slot as it was sent. *)
Theorem subscriber_slots_intact (evs : list sub_event) (j : nat) :
  let r := foldl sub_step sub_init evs in
  length (got r) - downstream ≤ j → j < length (sent r) →
  ∃ i, (got r ++ queue (sub r)) !! j = Some i ∧ bufs (sub r) !! i = sent r !! j.
Proof.
  intros r Hj1 Hj2. destruct (sub_inv_run evs) as [_ _ H3 H4 H5]. fold r in H3, H4, H5.
  assert (Hlen : length (got r) + length (queue (sub r)) = length (sent r)).
  { apply (f_equal length) in H4. by rewrite length_app, length_fmap, length_seq in H4. }
  exists (j `mod` subBufRingSize). split.
  - rewrite H4, list_lookup_fmap, lookup_seq_lt by done. done.
  - apply H5; [|done]. unfold downstream, subChanCap, subBufRingSize in *. lia.
Qed.

Lemma subscriber_slots_intact_witness :
  ∃ i, [0; 1] !! 1 = Some i ∧
    bufs (sub (foldl sub_step sub_init [SLine [7%Z]; SReceive; SLine [8%Z]])) !! i = Some [8%Z].
Proof.
  exact (subscriber_slots_intact [SLine [7%Z]; SReceive; SLine [8%Z]] 1
    ltac:(vm_compute; lia) ltac:(vm_compute; lia)).
Defined.

End Writer.
