(* ===== verification/Yml.v ===== *)
(** * The YAML subset parser: src/internal/yml/parser.go

    A document goes through [splitLines] (comments stripped, literal blocks
    collected) and the recursive descent [parseBlock]/[parseMapping]/
    [parseSequence] over the lines, with [parseScalar]/[parseInlineMap] for
    inline values.  Positions in the line slice are suffixes of the line list.
    The mutually recursive functions run on fuel, one unit per nested call or
    loop round. *)

From S2P Require Import Prelude GoStrings.

Open Scope string_scope.
Open Scope list_scope.
Open Scope nat_scope.

Module Yml.

Definition maxParseDepth : nat := 64.
#[global] Arguments maxParseDepth : simpl never.

(** ** Data *)

Inductive Node :=
  | Scalar (s : string)
  | Mapping (entries : list (string * Node))
  | Sequence (items : list Node).

Record rawLine := mkLine {
  literal : option string;
  text : string;
  indent : nat;
  num : nat;
}.

Inductive yml_err :=
  | TabIndent (line : nat)
  | FoldedScalar (line : nat) (ind : string)
  | BadIndicator (line : nat) (ind : string)
  | TooDeep (line : nat)
  | ExpectedKey (line : nat) (text : string)
  | DuplicateKey (line : nat) (key : string) (prev : nat)
  | UnexpectedIndent (line : nat) (text : string)
  | ItemIndent (line : nat) (text : string) (item : nat)
  | InlineExpectedKey (line : nat) (text : string)
  | InlineDuplicateKey (line : nat) (key : string)
  | InlineTooDeep (line : nat).

Definition nl : ascii := "010".
Definition cr : ascii := "013".
Definition tab : ascii := "009".
Definition dquote : ascii := "034".
Definition squote : ascii := "039".
Definition bslash : ascii := "092".

(** ** Lines *)

(** Bare \r and \r\n become \n. *)
Fixpoint normalize_cr (s : string) : string :=
  match s with
  | "" => ""
  | String c s' =>
      if decide (c = cr) then
        match s' with
        | String d s'' => if decide (d = nl) then String nl (normalize_cr s'') else String nl (normalize_cr s')
        | "" => String nl ""
        end
      else String c (normalize_cr s')
  end.

(** The index of the first ':' followed by a space or the end. *)
Fixpoint findColon (s : string) : option nat :=
  match s with
  | "" => None
  | String c s' =>
      if bool_decide (c = ":"%char) && match s' with "" => true | String d _ => bool_decide (d = " "%char) end
      then Some 0
      else S <$> findColon s'
  end.

(** [stripInlineComment]: [rev] is the text before the cursor, reversed. *)
Fixpoint strip_go (inSingle inDouble escaped : bool) (rev s : string) : option string :=
  match s with
  | "" => None
  | String c s' =>
      let rev' := String c rev in
      if escaped then strip_go inSingle inDouble false rev' s'
      else if decide (c = bslash) then strip_go inSingle inDouble inDouble rev' s'
      else if decide (c = squote) then strip_go (if inDouble then inSingle else negb inSingle) inDouble false rev' s'
      else if decide (c = dquote) then strip_go inSingle (if inSingle then inDouble else negb inDouble) false rev' s'
      else if decide (c = "#"%char) then
        match rev with
        | String p _ =>
            if negb inSingle && negb inDouble && bool_decide (p = " "%char)
            then Some (TrimRight (str_rev rev) " ")
            else strip_go inSingle inDouble false rev' s'
        | "" => strip_go inSingle inDouble false rev' s'
        end
      else strip_go inSingle inDouble false rev' s'
  end.

Definition stripInlineComment (s : string) : string := default s (strip_go false false false "" s).

(** [for strings.HasPrefix(s, "- ") { s = s[2:] }] *)
Fixpoint strip_markers (s : string) : string :=
  match s with
  | String "-" (String " " s') => strip_markers s'
  | _ => s
  end.

Definition blockIndicator (content : string) : option string :=
  let s := strip_markers content in
  let s := match findColon s with Some idx => TrimSpace (drop_str (S idx) s) | None => s end in
  match s with
  | String "|" _ | String ">" _ => Some s
  | _ => None
  end.

Definition leading_spaces (s : string) : nat := String.length s - String.length (TrimLeft s " ").

(** The body of a literal block: its lines, and the raw lines after it. *)
Fixpoint collect_body (headerIndent : nat) (blockIndent : option nat) (raw : list string)
    : list string * list string :=
  match raw with
  | [] => ([], [])
  | line :: raw' =>
      if decide (TrimSpace line = "") then
        let r := collect_body headerIndent blockIndent raw' in ("" :: r.1, r.2)
      else
        let ind := leading_spaces line in
        match blockIndent with
        | None =>
            if ind <=? headerIndent then ([], raw)
            else let r := collect_body headerIndent (Some ind) raw' in (drop_str ind line :: r.1, r.2)
        | Some bi =>
            if ind <? bi then ([], raw)
            else let r := collect_body headerIndent blockIndent raw' in (drop_str bi line :: r.1, r.2)
        end
  end.

Definition chomp (indicator : string) (body : list string) : string :=
  let text := Join body (str1 nl) in
  if decide (indicator = "|-") then TrimRight text (str1 nl)
  else if decide (indicator = "|+") then match body with [] => text | _ => text +:+ str1 nl end
  else match TrimRight text (str1 nl) with "" => "" | t => t +:+ str1 nl end.

Definition collectLiteralBlock (lnum : nat) (raw : list string) (headerIndent : nat) (indicator : string)
    : result yml_err (string * list string) :=
  if decide (indicator ∈ ["|"; "|-"; "|+"]) then
    let r := collect_body headerIndent None raw in Ok (chomp indicator r.1, r.2)
  else if decide (indicator ∈ [">"; ">-"; ">+"]) then Err (FoldedScalar lnum indicator)
  else Err (BadIndicator lnum indicator).

(** The line loop; a literal block makes it jump, so the recursion is on fuel
    (the number of raw lines is enough). *)
Fixpoint split_loop (fuel : nat) (lnum : nat) (raw : list string) : outcome yml_err (list rawLine) :=
  match raw with
  | [] => Ret []
  | l :: raw' =>
      match fuel with
      | O => NoFuel
      | S fuel =>
          let trimmed := TrimRight l (String " " (String tab (str1 cr))) in
          if decide (TrimSpace trimmed = "") then split_loop fuel (S lnum) raw'
          else if decide (String.get 0 l = Some tab) then Fail (TabIndent lnum)
          else
            let content := TrimSpace trimmed in
            if HasPrefix content "#" then split_loop fuel (S lnum) raw'
            else
              let content := stripInlineComment content in
              let ind := leading_spaces trimmed in
              match blockIndicator content with
              | Some indicator =>
                  '(lit, rest) ← lift_result (collectLiteralBlock lnum raw' ind indicator);
                  ls ← split_loop fuel (S lnum + (length raw' - length rest)) rest;
                  mret (mkLine (Some lit) content ind lnum :: ls)
              | None =>
                  ls ← split_loop fuel (S lnum) raw';
                  mret (mkLine None content ind lnum :: ls)
              end
      end
  end.

(** [Split] leaves a final "" after a trailing newline: an artifact. *)
Definition drop_last_empty (raw : list string) : list string :=
  match last raw with
  | Some "" => take (length raw - 1) raw
  | _ => raw
  end.

Definition splitLines (data : string) : outcome yml_err (list rawLine) :=
  let raw := drop_last_empty (Split nl data) in
  split_loop (length raw) 1 raw.

(** ** Scalars *)

(** [splitCSV]: the state is the open quote if any, the escape flag, the
    bracket depth and the current part. *)
Fixpoint csv_go (quote : option ascii) (escaped : bool) (depth : Z) (cur s : string) : list string :=
  match s with
  | "" => if decide (cur = "") then [] else [cur]
  | String c s' =>
      let cur' := (cur +:+ str1 c) in
      if escaped then csv_go quote false depth cur' s'
      else
        match quote with
        | Some q =>
            if bool_decide (c = bslash) && bool_decide (q = dquote) then csv_go quote true depth cur' s'
            else csv_go (if decide (c = q) then None else quote) false depth cur' s'
        | None =>
            if bool_decide (c = dquote) || bool_decide (c = squote) then csv_go (Some c) false depth cur' s'
            else
              let depth' :=
                if bool_decide (c = "["%char) || bool_decide (c = "{"%char) then (depth + 1)%Z
                else if bool_decide (c = "]"%char) || bool_decide (c = "}"%char) then (depth - 1)%Z
                else depth in
              if bool_decide (c = ","%char) && bool_decide (depth' = 0%Z) then cur :: csv_go None false depth' "" s'
              else csv_go None false depth' cur' s'
        end
  end.

Definition splitCSV (s : string) : list string := csv_go None false 0 "" s.

Fixpoint unescapeDouble (s : string) : string :=
  match s with
  | "" => ""
  | String c s' =>
      if decide (c = bslash) then
        match s' with
        | "" => String c ""
        | String d s'' =>
            let r := unescapeDouble s'' in
            if decide (d = "n"%char) then String nl r
            else if decide (d = "t"%char) then String tab r
            else if decide (d = "r"%char) then String cr r
            else if decide (d = bslash) then String bslash r
            else if decide (d = dquote) then String dquote r
            else if decide (d = squote) then String squote r
            else String bslash (String d r)
        end
      else String c (unescapeDouble s')
  end.

(** The last byte, and the string without its first and last bytes. *)
Definition last_byte (s : string) : ascii := at_ s (String.length s - 1).
Definition inner (s : string) : string := take_str (String.length s - 2) (drop_str 1 s).

Definition unquote (s : string) : string :=
  if String.length s <? 2 then s
  else if bool_decide (at_ s 0 = squote) && bool_decide (last_byte s = squote) then inner s
  else if bool_decide (at_ s 0 = dquote) && bool_decide (last_byte s = dquote) then unescapeDouble (inner s)
  else s.

(** [parseScalar] and [parseInlineMap]; [fuel] bounds the nesting of braces,
    which the depth check does too. *)
Fixpoint parseScalar (fuel : nat) (lnum : nat) (s : string) (depth : nat) : outcome yml_err Node :=
  match fuel with
  | O => NoFuel
  | S fuel =>
      if maxParseDepth <? depth then Fail (InlineTooDeep lnum)
      else if HasPrefix s "[" && HasSuffix s "]" then
        mret (Sequence ((λ item, Scalar (unquote (TrimSpace item))) <$> splitCSV (inner s)))
      else if HasPrefix s "{" && HasSuffix s "}" then
        entries ← (fix parseInlineMap (seen : list string) (l : list string)
                    : outcome yml_err (list (string * Node)) :=
          match l with
          | [] => Ret []
          | e :: l =>
              let entry := TrimSpace e in
              if decide (entry = "") then parseInlineMap seen l
              else match findColon entry with
              | None => Fail (InlineExpectedKey lnum entry)
              | Some idx =>
                  let key := unquote (TrimSpace (take_str idx entry)) in
                  if decide (key ∈ seen) then Fail (InlineDuplicateKey lnum key)
                  else
                    val ← parseScalar fuel lnum (TrimSpace (drop_str (S idx) entry)) (S depth);
                    rest ← parseInlineMap (key :: seen) l;
                    mret ((key, val) :: rest)
              end
          end) [] (splitCSV (inner s));
        mret (Mapping entries)
      else mret (Scalar (unquote (TrimSpace s)))
  end.

Definition scalar_fuel : nat := 66.
#[global] Arguments scalar_fuel : simpl never.

Definition isInlineSeqItem (s : string) : bool :=
  if HasPrefix s "- " then false
  else if HasPrefix s "{" && HasSuffix s "}" then true
  else match findColon s with
  | None => true
  | Some _ =>
      (2 <=? String.length s)
      && (bool_decide (at_ s 0 = squote) || bool_decide (at_ s 0 = dquote))
      && bool_decide (last_byte s = at_ s 0)
  end.

(** ** Blocks *)

(** The lines of an item: those deeper than the sequence. *)
Fixpoint item_lines (seqIndent : nat) (lines : list rawLine) : list rawLine * list rawLine :=
  match lines with
  | [] => ([], [])
  | l :: ls =>
      if indent l <=? seqIndent then ([], lines)
      else let r := item_lines seqIndent ls in (l :: r.1, r.2)
  end.

(** [parseMapping]'s loop carries the entries so far (reversed), the keys seen
    with their lines, the base indent once set, and [minIndent]. *)
Fixpoint parseBlock (fuel : nat) (lines : list rawLine) (minIndent : Z) (depth : nat)
    {struct fuel} : outcome yml_err (Node * list rawLine) :=
  match fuel with
  | O => NoFuel
  | S fuel =>
      if maxParseDepth <? depth then Fail (TooDeep (match lines with l :: _ => num l | [] => 0 end))
      else match lines with
      | [] => mret (Scalar "", [])
      | line :: _ =>
          if HasPrefix (text line) "- " then
            '(items, rest) ← sequence_loop fuel lines (indent line) depth;
            mret (Sequence items, rest)
          else
            '(entries, rest) ← mapping_loop fuel lines minIndent None [] depth;
            mret (Mapping entries, rest)
      end
  end
with mapping_loop (fuel : nat) (lines : list rawLine) (minIndent : Z) (baseIndent : option nat)
    (seenKeys : list (string * nat)) (depth : nat)
    {struct fuel} : outcome yml_err (list (string * Node) * list rawLine) :=
  match fuel with
  | O => NoFuel
  | S fuel =>
      match lines with
      | [] => mret ([], [])
      | line :: lines' =>
          if (0 <=? minIndent)%Z && (Z.of_nat (indent line) <=? minIndent)%Z then mret ([], lines)
          else if match baseIndent with Some b => negb (indent line =? b) | None => false end
          then mret ([], lines)
          else
            let minIndent := match baseIndent with
              | None => (Z.of_nat (indent line) - 1)%Z | Some _ => minIndent end in
            let baseIndent := Some (indent line) in
            match findColon (text line) with
            | None => Fail (ExpectedKey (num line) (text line))
            | Some colonIdx =>
                let key := TrimSpace (take_str colonIdx (text line)) in
                match find (λ p, bool_decide (fst p = key)) seenKeys with
                | Some (_, prev) => Fail (DuplicateKey (num line) key prev)
                | None =>
                    let seenKeys := (key, num line) :: seenKeys in
                    let rest := TrimSpace (drop_str (S colonIdx) (text line)) in
                    '(val, lines2) ←
                      match literal line with
                      | Some lit => mret (Scalar lit, lines')
                      | None =>
                          if decide (rest = "") then
                            match lines' with
                            | [] => mret (Scalar "", lines')
                            | next :: _ =>
                                if indent next <=? indent line then mret (Scalar "", lines')
                                else parseBlock fuel lines' (Z.of_nat (indent line)) (S depth)
                            end
                          else
                            val ← parseScalar scalar_fuel (num line) rest depth;
                            mret (val, lines')
                      end;
                    '(entries, lines3) ← mapping_loop fuel lines2 minIndent baseIndent seenKeys depth;
                    mret ((key, val) :: entries, lines3)
                end
            end
      end
  end
with sequence_loop (fuel : nat) (lines : list rawLine) (seqIndent : nat) (depth : nat)
    {struct fuel} : outcome yml_err (list Node * list rawLine) :=
  match fuel with
  | O => NoFuel
  | S fuel =>
      match lines with
      | [] => mret ([], [])
      | line :: lines' =>
          if negb (indent line =? seqIndent) || negb (HasPrefix (text line) "- ") then mret ([], lines)
          else
            let itemText := drop_str 2 (text line) in
            let itemIndent := seqIndent + 2 in
            '(item, lines2) ←
              match literal line with
              | Some lit =>
                  if negb (HasPrefix itemText "- ") && bool_decide (findColon itemText = None)
                  then mret (Some (Scalar lit), lines')
                  else mret (None, lines')
              | None => mret (None, lines')
              end;
            '(item, lines3) ←
              match item with
              | Some n => mret (n, lines2)
              | None =>
                  let '(more, lines3) := item_lines seqIndent lines2 in
                  let itemLines := mkLine (literal line) itemText itemIndent (num line) :: more in
                  if bool_decide (more = []) && isInlineSeqItem itemText then
                    n ← parseScalar scalar_fuel (num line) itemText depth;
                    mret (n, lines3)
                  else
                    '(n, unused) ← parseBlock fuel itemLines (Z.of_nat itemIndent - 1) (S depth);
                    match unused with
                    | [] => mret (n, lines3)
                    | bad :: _ => Fail (ItemIndent (num bad) (text bad) (num line))
                    end
              end;
            '(items, lines4) ← sequence_loop fuel lines3 seqIndent depth;
            mret (item :: items, lines4)
      end
  end.

(** The functions themselves, at the start of their loops. *)
Definition parseMapping (fuel : nat) (lines : list rawLine) (minIndent : Z) (depth : nat)
    : outcome yml_err (list (string * Node) * list rawLine) :=
  mapping_loop fuel lines minIndent None [] depth.

Definition parseSequence (fuel : nat) (lines : list rawLine) (seqIndent : nat) (depth : nat)
    : outcome yml_err (list Node * list rawLine) :=
  sequence_loop fuel lines seqIndent depth.

(** Enough fuel: the nested calls are at most [maxParseDepth + 2] deep, and
    each level makes at most one round per line. *)
Definition block_fuel (lines : list rawLine) : nat := 67 * (length lines + 3).

Definition bom : string := String "239" (String "187" (str1 "191")).

Definition Parse (data : string) : outcome yml_err Node :=
  let data := TrimPrefix data bom in
  let data := normalize_cr data in
  lines ← splitLines data;
  '(n, rest) ← parseBlock (block_fuel lines) lines (-1) 0;
  match rest with
  | [] => mret n
  | l :: _ => Fail (UnexpectedIndent (num l) (text l))
  end.

(** ** Reading nodes *)

Definition Get (n : Node) (key : string) : option Node :=
  match n with
  | Mapping es => snd <$> find (λ e, bool_decide (fst e = key)) es
  | _ => None
  end.

(** A nil [*Node] is [None]. *)
Definition node_String (n : option Node) : string :=
  match n with Some (Scalar s) => s | _ => "" end.

Definition node_Int (n : option Node) : option Z :=
  match node_String n with "" => None | s => Atoi s end.

Definition node_Bool (n : option Node) : bool :=
  let s := ToLower (node_String n) in bool_decide (s = "true") || bool_decide (s = "yes").

Definition node_BoolPtr (n : option Node) : option bool :=
  match node_String n with "" => None | _ => Some (node_Bool n) end.

Definition node_Strings (n : option Node) : list string :=
  match n with
  | Some (Sequence items) => omap (λ i, match i with Scalar s => Some s | _ => None end) items
  | _ => []
  end.

Definition node_StringMap (n : option Node) : gmap string string :=
  match n with
  | Some (Mapping es) =>
      foldl (λ m e, match e.2 with Scalar s => <[e.1 := s]> m | _ => m end) ∅ es
  | _ => ∅
  end.

Definition node_Entries (n : option Node) : list (string * Node) :=
  match n with Some (Mapping es) => es | _ => [] end.

Definition node_Items (n : option Node) : list Node :=
  match n with Some (Sequence items) => items | _ => [] end.

(** ** Well-formed trees *)

(** No mapping has a key twice, at any level. *)
Fixpoint unique_keys (n : Node) : Prop :=
  match n with
  | Scalar _ => True
  | Mapping es =>
      NoDup (fst <$> es) ∧
      (fix go (l : list (string * Node)) : Prop :=
        match l with [] => True | e :: l => unique_keys (snd e) ∧ go l end) es
  | Sequence items =>
      (fix go (l : list Node) : Prop :=
        match l with [] => True | i :: l => unique_keys i ∧ go l end) items
  end.

(** Nesting of mappings and sequences. *)
Fixpoint height (n : Node) : nat :=
  match n with
  | Scalar _ => 0
  | Mapping es =>
      S ((fix go (l : list (string * Node)) : nat :=
        match l with [] => 0 | e :: l => Nat.max (height (snd e)) (go l) end) es)
  | Sequence items =>
      S ((fix go (l : list Node) : nat :=
        match l with [] => 0 | i :: l => Nat.max (height i) (go l) end) items)
  end.

Definition node_ok (k : nat) (n : Node) : Prop := unique_keys n ∧ height n ≤ k.

Lemma mapping_ok k es :
  NoDup (fst <$> es) → Forall (λ e, node_ok k (snd e)) es → node_ok (S k) (Mapping es).
Proof.
  intros Hnd Hes. split; simpl.
  - split; [done|]. clear Hnd. induction Hes as [|e es [He _] _ IH]; done.
  - clear Hnd. apply le_n_S. induction Hes as [|e es [_ He] _ IH]; [lia|]. simpl. lia.
Qed.

Lemma sequence_ok k items : Forall (node_ok k) items → node_ok (S k) (Sequence items).
Proof.
  intros Hes. split; simpl.
  - induction Hes as [|e es [He _] _ IH]; done.
  - apply le_n_S. induction Hes as [|e es [_ He] _ IH]; [lia|]. simpl. lia.
Qed.

Lemma scalar_ok k s : node_ok k (Scalar s).
Proof. split; simpl; [done|lia]. Qed.

Lemma node_ok_le k k' n : k ≤ k' → node_ok k n → node_ok k' n.
Proof. intros ? []. split; [done|lia]. Qed.

(** ** Termination and well-formedness *)

(** A postcondition for code that must not run out of fuel. *)
Definition returns {E A} (P : A → Prop) (o : outcome E A) : Prop :=
  match o with Ret a => P a | Fail _ => True | NoFuel => False end.

Lemma returns_bind {E A B} (P : A → Prop) (Q : B → Prop) (o : outcome E A) (f : A → outcome E B) :
  returns P o → (∀ a, P a → returns Q (f a)) → returns Q (o ≫= f).
Proof. destruct o; simpl; auto. Qed.

Lemma returns_mono {E A} (P Q : A → Prop) (o : outcome E A) :
  (∀ a, P a → Q a) → returns P o → returns Q o.
Proof. destruct o; simpl; auto. Qed.

Lemma collect_body_length hi bi raw : length (collect_body hi bi raw).2 ≤ length raw.
Proof.
  revert bi. induction raw as [|l raw IH]; intros bi; simpl; [lia|].
  case_decide; simpl; [specialize (IH bi); lia|].
  destruct bi as [b|]; case_match; simpl; [lia| |lia|].
  - specialize (IH (Some b)). lia.
  - specialize (IH (Some (leading_spaces l))). lia.
Qed.

Lemma split_loop_returns fuel : ∀ lnum raw,
  length raw ≤ fuel → returns (λ ls, length ls ≤ length raw) (split_loop fuel lnum raw).
Proof.
  induction fuel as [|fuel IH]; intros lnum [|l raw] Hf; simpl in Hf; try lia; [simpl; lia..|].
  cbn [split_loop].
  assert (Hskip : returns (λ ls, length ls ≤ length (l :: raw)) (split_loop fuel (S lnum) raw)).
  { eapply returns_mono; [|apply IH; lia]. simpl. lia. }
  case_decide; [done|]. case_decide; [done|]. case_match; [done|]. case_match.
  - eapply (returns_bind (λ r, length r.2 ≤ length raw)).
    + unfold collectLiteralBlock. repeat case_decide; simpl; try done. apply collect_body_length.
    + intros [lit rest] Hr. simpl in Hr.
      eapply returns_bind; [apply IH; lia|]. intros ls Hls. simpl in *. lia.
  - eapply returns_bind; [apply IH; lia|]. intros ls Hls. simpl in *. lia.
Qed.

Lemma parseScalar_returns fuel : ∀ lnum s depth,
  1 ≤ fuel → 66 ≤ fuel + depth → returns (node_ok (65 - depth)) (parseScalar fuel lnum s depth).
Proof.
  induction fuel as [|fuel IH]; intros lnum s depth Hf Hd; [lia|]. cbn [parseScalar].
  destruct (Nat.ltb_spec maxParseDepth depth); [done|]. unfold maxParseDepth in *.
  replace (65 - depth) with (S (64 - depth)) by lia.
  case_match; [|case_match].
  - apply sequence_ok, Forall_fmap, Forall_true. intros x. apply scalar_ok.
  - eapply (returns_bind (λ es, NoDup (fst <$> es) ∧ Forall (λ e, node_ok (64 - depth) (snd e)) es)).
    2: { intros es [? ?]. by apply mapping_ok. }
    clear H0 H1. generalize (splitCSV (inner s)). intros l.
    eapply (returns_mono (λ es, (NoDup (fst <$> es) ∧ Forall (λ e, node_ok (64 - depth) (snd e)) es) ∧
      ∀ k, k ∈ @nil string → k ∉ fst <$> es)); [naive_solver|].
    generalize (@nil string). induction l as [|e l IHl]; intros seen.
    { simpl. split_and!; [constructor|constructor|set_solver]. }
    case_decide; [apply IHl|]. destruct (findColon (TrimSpace e)) as [idx|]; [|done].
    case_decide as Hk; [done|]. set (key := unquote _) in *.
    eapply returns_bind; [apply IH; lia|]. intros v Hv.
    eapply returns_bind; [apply (IHl (key :: seen))|]. intros es [[Hnd Hes] Hdis]. simpl.
    split_and!.
    + constructor; [apply Hdis; set_solver|done].
    + constructor; [|done]. simpl. by replace (64 - depth) with (65 - S depth) by lia.
    + intros k Hin. specialize (Hdis k). set_solver.
  - apply scalar_ok.
Qed.

Lemma item_lines_length si ls :
  length (item_lines si ls).1 + length (item_lines si ls).2 = length ls.
Proof. induction ls as [|l ls IH]; simpl; [done|]. case_match; simpl; lia. Qed.

Lemma find_key_none key (seen : list (string * nat)) :
  find (λ p, bool_decide (fst p = key)) seen = None → key ∉ fst <$> seen.
Proof.
  intros H (p & -> & Hp)%list_elem_of_fmap. apply (find_none _ _ H p) in Hp as Hf || 
  (apply list_elem_of_In in Hp; pose proof (find_none _ _ H p Hp) as Hf).
  simpl in Hf. by apply bool_decide_eq_false in Hf.
Qed.

Definition block_post (d : nat) (lines : list rawLine) (r : Node * list rawLine) : Prop :=
  node_ok (66 - d) r.1 ∧ length r.2 ≤ length lines.

Definition mapping_post (d : nat) (seen : list (string * nat)) (lines : list rawLine)
    (r : list (string * Node) * list rawLine) : Prop :=
  NoDup (fst <$> r.1) ∧ (∀ k, k ∈ fst <$> seen → k ∉ fst <$> r.1) ∧
  Forall (λ e, node_ok (65 - d) (snd e)) r.1 ∧ length r.2 ≤ length lines.

Definition sequence_post (d : nat) (lines : list rawLine) (r : list Node * list rawLine) : Prop :=
  Forall (node_ok (65 - d)) r.1 ∧ length r.2 ≤ length lines.

(** Fuel for [n] lines at depth [d]: for a block, and for a loop inside it. *)
Definition bfuel (n d : nat) : nat := (66 - d) * (n + 3).
Definition lfuel (n d : nat) : nat := n + 1 + bfuel n (S d).

Lemma bfuel_mono n m d : n ≤ m → bfuel n d ≤ bfuel m d.
Proof. unfold bfuel. intros. apply Nat.mul_le_mono_l. lia. Qed.

Lemma bfuel_step n d : d ≤ 64 → S (lfuel n d) ≤ bfuel n d.
Proof. unfold lfuel, bfuel. intros. replace (66 - d) with (S (66 - S d)) by lia. nia. Qed.

Section fuel_step.
(** The induction hypotheses of the three functions at one fuel. *)
Context (fuel : nat).
Context (IHB : ∀ lines m d, d ≤ 65 → bfuel (length lines) d ≤ fuel →
  returns (block_post d lines) (parseBlock fuel lines m d)).
Context (IHM : ∀ lines m b seen d, d ≤ 64 → lfuel (length lines) d ≤ fuel →
  returns (mapping_post d seen lines) (mapping_loop fuel lines m b seen d)).
Context (IHS : ∀ lines si d, d ≤ 64 → lfuel (length lines) d ≤ fuel →
  returns (sequence_post d lines) (sequence_loop fuel lines si d)).

Lemma block_step lines m d :
  d ≤ 65 → bfuel (length lines) d ≤ S fuel → returns (block_post d lines) (parseBlock (S fuel) lines m d).
Proof.
  intros Hd Hf. cbn [parseBlock]. destruct (Nat.ltb_spec maxParseDepth d); [done|].
  unfold maxParseDepth in *. pose proof (bfuel_step (length lines) d ltac:(lia)).
  replace (66 - d) with (S (65 - d)) by lia.
  destruct lines as [|line ls]; [split; simpl; [apply scalar_ok|lia]|].
  case_match.
  - eapply returns_bind; [apply IHS; lia|]. intros [items rest] [Hr1 Hr2]. simpl in *.
    split; simpl; [|done]. replace (66 - d) with (S (65 - d)) by lia. by apply sequence_ok.
  - eapply returns_bind; [apply IHM; lia|]. intros [es rest] (Hr1 & _ & Hr2 & Hr3). simpl in *.
    split; simpl; [|done]. replace (66 - d) with (S (65 - d)) by lia. by apply mapping_ok.
Qed.

Lemma mapping_step lines m b seen d :
  d ≤ 64 → lfuel (length lines) d ≤ S fuel →
  returns (mapping_post d seen lines) (mapping_loop (S fuel) lines m b seen d).
Proof.
  intros Hd Hf. cbn [mapping_loop].
  assert (Hstop : ∀ ls, length ls ≤ length lines → mapping_post d seen lines ([], ls)).
  { intros ls Hls. split_and!; simpl; [constructor|set_solver|constructor|done]. }
  destruct lines as [|line ls]; [by apply Hstop|].
  case_match; [by apply Hstop|]. case_match; [by apply Hstop|]. clear Hstop H H0.
  destruct (findColon (text line)) as [idx|]; [|done].
  set (key := TrimSpace _). destruct (find _ seen) as [[? ?]|] eqn:Ef; [done|].
  apply find_key_none in Ef. cbn [length] in *. unfold lfuel in Hf.
  pose proof (bfuel_mono (length ls) (S (length ls)) (S d) ltac:(lia)).
  eapply (returns_bind (λ r, node_ok (65 - d) r.1 ∧ length r.2 ≤ length ls)).
  - destruct (literal line); [split; [apply scalar_ok|simpl; lia]|].
    case_decide.
    + destruct ls as [|next ls']; [split; [apply scalar_ok|simpl; lia]|].
      case_match; [split; [apply scalar_ok|simpl; lia]|].
      eapply returns_mono; [|apply IHB; lia]. intros [n rest] [Hr1 Hr2]. split; [|done].
      eapply node_ok_le; [|done]. lia.
    + eapply returns_bind; [apply parseScalar_returns; unfold scalar_fuel; lia|].
      intros v Hv. split; [done|simpl; lia].
  - intros [v ls2] [Hv Hl]. simpl in Hv, Hl.
    pose proof (bfuel_mono (length ls2) (S (length ls)) (S d) ltac:(lia)).
    eapply returns_bind; [apply IHM; unfold lfuel; lia|].
    intros [es ls3] (Hr1 & Hr2 & Hr3 & Hr4). simpl in *. split_and!; simpl.
    + constructor; [apply Hr2; set_solver|done].
    + intros k Hk. specialize (Hr2 k). set_solver.
    + by constructor.
    + lia.
Qed.

Lemma sequence_step lines si d :
  d ≤ 64 → lfuel (length lines) d ≤ S fuel →
  returns (sequence_post d lines) (sequence_loop (S fuel) lines si d).
Proof.
  intros Hd Hf. cbn [sequence_loop].
  assert (Hstop : ∀ ls, length ls ≤ length lines → sequence_post d lines ([], ls)).
  { intros ls Hls. split; simpl; [constructor|done]. }
  destruct lines as [|line ls]; [by apply Hstop|]. case_match; [by apply Hstop|]. clear Hstop H.
  cbn [length] in *. unfold lfuel in Hf.
  eapply (returns_bind (λ r, r.2 = ls ∧ ∀ n, r.1 = Some n → node_ok (65 - d) n)).
  { destruct (literal line); [case_match|]; simpl; (split; [done|]); try done.
    intros n [= <-]. apply scalar_ok. }
  intros [item ls2] [Heq Hitem]. simpl in Heq, Hitem. subst ls2.
  eapply (returns_bind (λ r, node_ok (65 - d) r.1 ∧ length r.2 ≤ length ls)).
  - destruct item as [n|]; [split; [by apply Hitem|simpl; lia]|].
    pose proof (item_lines_length si ls) as Hil. destruct (item_lines si ls) as [more ls3].
    simpl in Hil. case_match.
    + eapply returns_bind; [apply parseScalar_returns; unfold scalar_fuel; lia|].
      intros v Hv. split; [done|simpl; lia].
    + set (il := _ :: more).
      pose proof (bfuel_mono (length il) (S (length ls)) (S d) ltac:(simpl; lia)).
      eapply returns_bind; [apply IHB; simpl in *; lia|]. intros [n unused] [Hr1 Hr2].
      destruct unused; [|done]. split; simpl in *; [|lia]. eapply node_ok_le; [|done]. lia.
  - intros [n ls3] [Hn Hl]. simpl in Hn, Hl.
    pose proof (bfuel_mono (length ls3) (S (length ls)) (S d) ltac:(lia)).
    eapply returns_bind; [apply IHS; unfold lfuel; lia|]. intros [items ls4] [Hr1 Hr2]. simpl in *.
    split; simpl; [by constructor|lia].
Qed.
End fuel_step.

Lemma parse_returns fuel :
  (∀ lines m d, d ≤ 65 → bfuel (length lines) d ≤ fuel →
     returns (block_post d lines) (parseBlock fuel lines m d)) ∧
  (∀ lines m b seen d, d ≤ 64 → lfuel (length lines) d ≤ fuel →
     returns (mapping_post d seen lines) (mapping_loop fuel lines m b seen d)) ∧
  (∀ lines si d, d ≤ 64 → lfuel (length lines) d ≤ fuel →
     returns (sequence_post d lines) (sequence_loop fuel lines si d)).
Proof.
  induction fuel as [|fuel (IHB & IHM & IHS)].
  - split_and!; intros; [unfold bfuel in *|unfold lfuel in *..]; lia || nia.
  - split_and!; intros; [by apply block_step|by apply mapping_step|by apply sequence_step].
Qed.

Lemma Parse_returns data : returns (node_ok 66) (Parse data).
Proof.
  unfold Parse. eapply returns_bind; [by apply split_loop_returns|]. intros lines _.
  eapply returns_bind.
  - apply parse_returns; [lia|]. unfold bfuel, block_fuel. apply Nat.mul_le_mono; lia.
  - intros [n rest] [Hn _]. by destruct rest.
Qed.

(** C25: Parsing returns on every input, nested however deep; a parsed document
    has no mapping with a repeated key, at any level, and nests at most 66
    levels. *)
Theorem parse_total_unique_keys (data : string) :
  match Parse data with
  | Ret n => unique_keys n ∧ height n ≤ 66
  | Fail _ => True
  | NoFuel => False
  end.
Proof. apply (Parse_returns data). Qed.

End Yml.
