(* ===== verification/YmlRender.v ===== *)
(** * Writing YAML that parses back: the round trip of src/internal/yml/parser.go

    A printer for the parser's trees: block mappings and sequences, scalars in
    double quotes with the escapes [unescapeDouble] knows, empty collections
    inline.  Everything printed parses back to the tree it was printed from. *)

From S2P Require Import Prelude GoStrings Yml.

Open Scope string_scope.
Open Scope list_scope.
Open Scope nat_scope.

Module YmlRender.
Import Yml.

(** ** The printer *)

Fixpoint escape (s : string) : string :=
  match s with
  | "" => ""
  | String c s' =>
      if decide (c = nl) then String bslash (String "n" (escape s'))
      else if decide (c = tab) then String bslash (String "t" (escape s'))
      else if decide (c = cr) then String bslash (String "r" (escape s'))
      else if decide (c = bslash) then String bslash (String bslash (escape s'))
      else if decide (c = dquote) then String bslash (String dquote (escape s'))
      else String c (escape s')
  end.

Definition quote (s : string) : string := String dquote (escape s +:+ str1 dquote).

(** The one-line form of a value that has one. *)
Definition inline (n : Node) : option string :=
  match n with
  | Scalar s => Some (quote s)
  | Mapping [] => Some "{}"
  | Sequence [] => Some "[]"
  | _ => None
  end.

(** The first line of an item carries the marker. *)
Definition mark (ind : nat) (ls : list (nat * string)) : list (nat * string) :=
  match ls with [] => [] | (_, t) :: ls => (ind, "- " +:+ t) :: ls end.

(** The lines of a block, as indentation and text. *)
Fixpoint render (n : Node) (ind : nat) : list (nat * string) :=
  match n with
  | Scalar _ => []
  | Mapping es =>
      (fix go (l : list (string * Node)) : list (nat * string) :=
        match l with
        | [] => []
        | (k, v) :: l =>
            match inline v with
            | Some t => [(ind, k +:+ ": " +:+ t)]
            | None => (ind, k +:+ ":") :: render v (ind + 2)
            end ++ go l
        end) es
  | Sequence items =>
      (fix go (l : list Node) : list (nat * string) :=
        match l with
        | [] => []
        | v :: l =>
            match inline v with
            | Some t => [(ind, "- " +:+ t)]
            | None => mark ind (render v (ind + 2))
            end ++ go l
        end) items
  end.

Definition entry_lines (ind : nat) (e : string * Node) : list (nat * string) :=
  match inline e.2 with
  | Some t => [(ind, e.1 +:+ ": " +:+ t)]
  | None => (ind, e.1 +:+ ":") :: render e.2 (ind + 2)
  end.

Definition seq_item_lines (ind : nat) (v : Node) : list (nat * string) :=
  match inline v with
  | Some t => [(ind, "- " +:+ t)]
  | None => mark ind (render v (ind + 2))
  end.

Lemma render_mapping es ind : render (Mapping es) ind = concat (entry_lines ind <$> es).
Proof. simpl. induction es as [|[k v] es IH]; [done|]. csimpl. by rewrite IH. Qed.

Lemma render_sequence items ind : render (Sequence items) ind = concat (seq_item_lines ind <$> items).
Proof. simpl. induction items as [|v items IH]; [done|]. csimpl. by rewrite IH. Qed.

Definition print_line (l : nat * string) : string := str_repeat " " l.1 +:+ l.2.

Definition print (n : Node) : string := Join (print_line <$> render n 0) (str1 nl).

(** ** What can be printed *)

Definition key_char (a : ascii) : bool :=
  let n := byte_val a in
  ((48 <=? n) && (n <=? 57) || (65 <=? n) && (n <=? 90) || (97 <=? n) && (n <=? 122)
   || (n =? 95) || (n =? 45))%Z.

(** Keys are words of letters, digits, '_' and '-'. *)
Definition key_ok (k : string) : Prop := k ≠ "" ∧ str_all key_char k = true.

(** A scalar as a sequence item: the parser takes a quoted item with ": |" or
    ": >" inside for a block scalar header, so it must not look like one. *)
Definition item_scalar_ok (s : string) : Prop := blockIndicator (quote s) = None.

Fixpoint printable_node (n : Node) : Prop :=
  match n with
  | Scalar _ => True
  | Mapping es =>
      NoDup (fst <$> es) ∧
      (fix go (l : list (string * Node)) : Prop :=
        match l with [] => True | (k, v) :: l => key_ok k ∧ printable_node v ∧ go l end) es
  | Sequence items =>
      (fix go (l : list Node) : Prop :=
        match l with
        | [] => True
        | v :: l => (match v with Scalar s => item_scalar_ok s | _ => True end) ∧ printable_node v ∧ go l
        end) items
  end.

Lemma printable_mapping es :
  printable_node (Mapping es) ↔
  NoDup (fst <$> es) ∧ Forall (λ e, key_ok e.1 ∧ printable_node e.2) es.
Proof.
  simpl. split; intros [Hnd H]; (split; [done|]); clear Hnd.
  - induction es as [|[k v] es IH]; constructor; naive_solver.
  - induction es as [|[k v] es IH]; [done|]. inversion H; subst. naive_solver.
Qed.

Lemma printable_sequence items :
  printable_node (Sequence items) ↔
  Forall (λ v, (match v with Scalar s => item_scalar_ok s | _ => True end) ∧ printable_node v) items.
Proof.
  simpl. split; intros H.
  - induction items as [|v items IH]; constructor; naive_solver.
  - induction items as [|v items IH]; [done|]. inversion H; subst. naive_solver.
Qed.

(** A node that takes block lines. *)
Definition is_block (n : Node) : Prop :=
  match n with Mapping (_ :: _) | Sequence (_ :: _) => True | _ => False end.

Lemma inline_none n : inline n = None ↔ is_block n.
Proof. destruct n as [|[]|[]]; simpl; naive_solver. Qed.

(** ** Quoting *)

Lemma unescape_escape s : unescapeDouble (escape s) = s.
Proof.
  induction s as [|c s IH]; [done|]. cbn [escape].
  repeat (case_decide; [subst; simpl; by rewrite IH|]).
  cbn [unescapeDouble]. rewrite decide_False by done. by rewrite IH.
Qed.

Lemma quote_length s : String.length (quote s) = S (S (String.length (escape s))).
Proof. unfold quote. simpl. rewrite length_app_str. simpl. lia. Qed.

Lemma get_app_last s a : String.get (String.length s) (s +:+ str1 a) = Some a.
Proof. induction s; simpl; auto. Qed.

Lemma last_quote s : last_byte (quote s) = dquote.
Proof.
  unfold last_byte, at_. rewrite quote_length. simpl. rewrite ?Nat.sub_0_r.
  unfold quote. cbn [String.get]. by rewrite get_app_last.
Qed.

Lemma unquote_quote s : unquote (quote s) = s.
Proof.
  unfold unquote. rewrite quote_length. simpl (_ <? 2).
  rewrite last_quote. change (at_ (quote s) 0) with dquote.
  rewrite (bool_decide_false (dquote = squote)) by done. rewrite bool_decide_true by done. simpl.
  assert (Hi : inner (quote s) = escape s).
  { unfold inner. rewrite quote_length. simpl. rewrite ?Nat.sub_0_r. unfold quote.
    cbn [drop_str]. apply take_app_str. }
  by rewrite Hi, unescape_escape.
Qed.

Lemma break_cases c : c ∈ [nl; cr] → c = nl ∨ c = cr.
Proof. set_solver. Qed.

(** No line break in a quoted string. *)
Lemma escape_no_break s c : c ∈ [nl; cr] → str_in c (escape s) = false.
Proof.
  intros Hc. induction s as [|a s IH]; [done|]. cbn [escape].
  repeat case_decide; subst; cbn [str_in]; rewrite IH, ?orb_false_r;
    repeat (rewrite bool_decide_false; [|set_solver]); try done.
Qed.

Lemma quote_no_break s c : c ∈ [nl; cr] → str_in c (quote s) = false.
Proof.
  intros Hc. unfold quote. cbn [str_in]. rewrite str_in_app, escape_no_break by done. simpl.
  rewrite !bool_decide_false; [done|set_solver..].
Qed.

Lemma quote_ends s : solid_ends (quote s).
Proof.
  split.
  - by exists dquote, (escape s +:+ str1 dquote).
  - by exists (String dquote (escape s)), dquote.
Qed.

(** ** One line *)

Lemma key_char_solid a : key_char a = true → solid a = true.
Proof. unfold key_char, solid. cbv zeta. lia. Qed.

(** A key has none of the bytes the scanners look for. *)
Lemma key_char_ne a (c : ascii) : key_char c = false → key_char a = true → a ≠ c.
Proof. intros H1 H2 ->. congruence. Qed.

Lemma key_ends k : key_ok k → solid_ends k.
Proof.
  intros [Hne Hk]. split.
  - destruct k as [|a k]; [done|]. simpl in Hk. apply andb_prop in Hk as [Ha _].
    exists a, k. split; [done|by apply key_char_solid].
  - destruct (snoc_str k) as [->|(r & b & ->)]; [done|]. rewrite str_all_app in Hk.
    apply andb_prop in Hk as [_ Hb]. simpl in Hb. rewrite andb_true_r in Hb.
    exists r, b. split; [done|by apply key_char_solid].
Qed.

Lemma findColon_key k rest :
  key_ok k → match rest with "" => True | String c _ => c = " "%char end →
  findColon (k +:+ String ":" rest) = Some (String.length k).
Proof.
  intros [_ Hk] Hr. induction k as [|a k IH]; simpl.
  - destruct rest; [done|]. subst. done.
  - simpl in Hk. apply andb_prop in Hk as [Ha Hk].
    rewrite bool_decide_false by (by eapply key_char_ne). simpl. by rewrite IH.
Qed.

(** The comment scanner passes over a text without its special bytes. *)
Definition scan_plain (a : ascii) : bool :=
  negb (bool_decide (a ∈ [bslash; squote; dquote; "#"%char])).

Lemma strip_go_plain p : ∀ rev s,
  str_all scan_plain p = true →
  strip_go false false false rev (p +:+ s) = strip_go false false false (str_rev p +:+ rev) s.
Proof.
  induction p as [|a p IH]; intros rev s; simpl; [done|]. intros [Ha Hp]%andb_prop.
  unfold scan_plain in Ha. apply negb_true_iff, bool_decide_eq_false in Ha.
  rewrite !decide_False by set_solver. rewrite IH by done. by rewrite app_assoc_str.
Qed.

(** ... and over a quoted string, whatever is in it. *)
Lemma strip_go_escaped s : ∀ rev,
  strip_go false true false rev (escape s +:+ str1 dquote) = None.
Proof.
  induction s as [|c s IH]; intros rev; [done|]. cbn [escape].
  repeat (case_decide; [subst; cbn [strip_go String.append]; rewrite decide_True by done; by apply IH|]).
  cbn [strip_go String.append]. rewrite (decide_False (P := c = bslash)) by done.
  case_decide; [apply IH|]. rewrite (decide_False (P := c = dquote)) by done.
  case_decide; [destruct rev|]; apply IH.
Qed.

Lemma strip_quoted p s :
  str_all scan_plain p = true → strip_go false false false "" (p +:+ quote s) = None.
Proof.
  intros Hp. rewrite strip_go_plain by done.
  unfold quote. cbn [strip_go]. rewrite (decide_False (P := dquote = bslash)) by done.
  rewrite (decide_False (P := dquote = squote)) by done. rewrite decide_True by done. simpl.
  by rewrite strip_go_escaped.
Qed.

Lemma strip_plain p : str_all scan_plain p = true → strip_go false false false "" p = None.
Proof. intros Hp. rewrite <- (app_nil_r_str p), strip_go_plain by done. done. Qed.

(** The scanner looks at one byte before the cursor only. *)
Lemma strip_go_rev s : ∀ a b e rev1 rev2,
  String.get 0 rev1 = String.get 0 rev2 → strip_go a b e rev1 s = None → strip_go a b e rev2 s = None.
Proof.
  induction s as [|c s IH]; intros a b e rev1 rev2 Hh; [done|]. cbn [strip_go].
  assert (Hn : ∀ a b e, strip_go a b e (String c rev1) s = None → strip_go a b e (String c rev2) s = None).
  { intros a' b' e'. by apply IH. }
  repeat (case_match || case_decide); intros Hx; try (by apply Hn); simpl in *; simplify_eq; try done; congruence.
Qed.

Lemma key_scan_plain k : str_all key_char k = true → str_all scan_plain k = true.
Proof.
  apply str_all_impl. intros a Ha. unfold scan_plain. apply negb_true_iff, bool_decide_eq_false.
  rewrite !elem_of_cons. intros [->|[->|[->|[->|H]]]]; try done. by apply not_elem_of_nil in H.
Qed.

(** What the line scanner needs of a text to keep it as it is. *)
Record line_ok (t : string) : Prop := {
  lo_ends : solid_ends t;
  lo_hash : HasPrefix t "#" = false;
  lo_strip : strip_go false false false "" t = None;
  lo_block : blockIndicator t = None;
  lo_break c : c ∈ [nl; cr] → str_in c t = false;
}.

Lemma key_no_break k c : str_all key_char k = true → c ∈ [nl; cr] → str_in c k = false.
Proof.
  intros Hk Hc. eapply str_all_in; [done|]. by destruct (break_cases c Hc) as [->| ->].
Qed.

(** The markers in front of a key or a quoted text are the ones stripped. *)
Lemma strip_markers_other a s : a ≠ "-"%char → strip_markers (String a s) = String a s.
Proof. intros Ha. destruct a as [[] [] [] [] [] [] [] []]; simpl; try done. Qed.

Lemma strip_markers_key k s :
  key_ok k → strip_markers (k +:+ String ":" s) = k +:+ String ":" s.
Proof.
  intros [Hne Hk]. destruct k as [|a k]; [done|]. simpl in *. apply andb_prop in Hk as [Ha Hk].
  destruct (decide (a = "-"%char)) as [->|]; [|by apply strip_markers_other].
  destruct k as [|b k]; simpl; [done|]. simpl in Hk. apply andb_prop in Hk as [Hb _].
  destruct b as [[] [] [] [] [] [] [] []]; simpl; try done.
Qed.

Lemma blockIndicator_marker t : blockIndicator ("- " +:+ t) = blockIndicator t.
Proof. done. Qed.

Lemma drop_key k rest : drop_str (S (String.length k)) (k +:+ String ":" rest) = rest.
Proof.
  replace (k +:+ String ":" rest) with ((k +:+ ":") +:+ rest) by (by rewrite app_assoc_str).
  replace (S (String.length k)) with (String.length (k +:+ ":")) by (rewrite length_app_str; simpl; lia).
  by rewrite drop_app_str.
Qed.

Lemma TrimSpace_one v : solid_ends v → TrimSpace (String " " v) = v.
Proof. exact (TrimSpace_spaces 1 v). Qed.

(** The value position of a "key: value" line is the value. *)
Lemma blockIndicator_key k v :
  key_ok k → solid_ends v → blockIndicator (k +:+ ": " +:+ v) =
    match v with String "|" _ | String ">" _ => Some v | _ => None end.
Proof.
  intros Hk Hv. unfold blockIndicator. change (": " +:+ v) with (String ":" (String " " v)).
  rewrite strip_markers_key, findColon_key by done. by rewrite drop_key, TrimSpace_one.
Qed.

Lemma blockIndicator_bare_key k : key_ok k → blockIndicator (k +:+ ":") = None.
Proof.
  intros Hk. unfold blockIndicator. change ":" with (String ":" "").
  rewrite strip_markers_key, findColon_key by done. by rewrite drop_key.
Qed.

Lemma key_hash k t : key_ok k → HasPrefix (k +:+ t) "#" = false.
Proof.
  intros [Hne Hk]. destruct k as [|a k]; [done|]. simpl in Hk. apply andb_prop in Hk as [Ha _].
  cbn [String.append]. rewrite HasPrefix_cons, bool_decide_false; [done|]. by eapply key_char_ne.
Qed.

Lemma inline_ends v t : inline v = Some t → solid_ends t.
Proof.
  destruct v as [s|[]|[]]; simpl; try done; intros [= <-]; [apply quote_ends|..].
  - split; [by exists "{"%char, "}"|by exists "{", "}"%char].
  - split; [by exists "["%char, "]"|by exists "[", "]"%char].
Qed.

(** ** All lines *)

Lemma Node_ind' (P : Node → Prop) :
  (∀ s, P (Scalar s)) →
  (∀ es, Forall (λ e, P (snd e)) es → P (Mapping es)) →
  (∀ items, Forall P items → P (Sequence items)) → ∀ n, P n.
Proof.
  intros HS HM HQ. fix IH 1. intros [s|es|items]; [apply HS|apply HM|apply HQ].
  - induction es as [|e es IHes]; constructor; [apply IH|exact IHes].
  - induction items as [|i items IHi]; constructor; [apply IH|exact IHi].
Qed.

Lemma entry_inline_ok k v t :
  key_ok k → inline v = Some t → line_ok (k +:+ ": " +:+ t).
Proof.
  intros Hk Hv. pose proof (inline_ends v t Hv) as Ht.
  assert (Hp : str_all scan_plain (k +:+ ": ") = true).
  { rewrite str_all_app. destruct Hk as [_ Hk]. by rewrite key_scan_plain. }
  split.
  - replace (k +:+ ": " +:+ t) with ((k +:+ ": ") +:+ t) by (by rewrite app_assoc_str).
    apply solid_ends_app; [|apply Ht]. destruct (key_ends k Hk) as [(a & s' & -> & Ha) _].
    by exists a, (s' +:+ ": ").
  - by apply key_hash.
  - rewrite <- app_assoc_str. destruct v as [s|[]|[]]; simpl in Hv; try done; injection Hv as <-.
    + by apply strip_quoted.
    + apply strip_plain. by rewrite str_all_app, Hp.
    + apply strip_plain. by rewrite str_all_app, Hp.
  - rewrite blockIndicator_key by done. destruct v as [s|[]|[]]; simpl in Hv; try done; by injection Hv as <-.
  - intros c Hc. rewrite str_in_app, (key_no_break k) by (done || apply Hk). simpl.
    assert (c ≠ ":"%char ∧ c ≠ " "%char) as [? ?].
    { by destruct (break_cases c Hc) as [->| ->]. }
    rewrite !bool_decide_false by done. simpl.
    destruct v as [s|[]|[]]; simpl in Hv; try done; injection Hv as <-; [by apply quote_no_break|..];
      by destruct (break_cases c Hc) as [->| ->].
Qed.

Lemma entry_key_ok k : key_ok k → line_ok (k +:+ ":").
Proof.
  intros Hk. split.
  - apply solid_ends_app; [apply key_ends; done|by exists "", ":"%char].
  - by apply key_hash.
  - apply strip_plain. rewrite str_all_app. destruct Hk as [_ Hk]. by rewrite key_scan_plain.
  - by apply blockIndicator_bare_key.
  - intros c Hc. rewrite str_in_app, (key_no_break k) by (done || apply Hk). simpl.
    by destruct (break_cases c Hc) as [->| ->].
Qed.

Lemma marked_ok t : line_ok t → line_ok ("- " +:+ t).
Proof.
  intros [H1 H2 H3 H4 H5]. split.
  - apply solid_ends_app; [by exists "-"%char, " "|apply H1].
  - done.
  - destruct H1 as [(a & s' & -> & Ha) _]. rewrite HasPrefix_cons, HasPrefix_empty, andb_true_r in H2.
    apply bool_decide_eq_false in H2. revert H3. simpl.
    repeat (case_decide; try done); apply strip_go_rev; done.
  - by rewrite blockIndicator_marker.
  - intros c Hc. specialize (H5 c Hc). simpl. rewrite H5.
    by destruct (break_cases c Hc) as [->| ->].
Qed.

Lemma item_inline_ok v t :
  match v with Scalar s => item_scalar_ok s | _ => True end → inline v = Some t → line_ok t.
Proof.
  intros Hs Hv. pose proof (inline_ends v t Hv).
  destruct v as [s|[]|[]]; simpl in Hv; try done; injection Hv as <-.
  - split; [done|done|by apply (strip_quoted "")|done|]. intros c. apply quote_no_break.
  - split; try done. intros c Hc. by destruct (break_cases c Hc) as [->| ->].
  - split; try done. intros c Hc. by destruct (break_cases c Hc) as [->| ->].
Qed.

Lemma render_lines_ok n : ∀ ind, printable_node n → Forall (λ l, line_ok l.2) (render n ind).
Proof.
  induction n as [s|es IH|items IH] using Node_ind'; intros ind; [done|..].
  - rewrite printable_mapping, render_mapping. intros [_ Hes].
    apply Forall_concat, Forall_fmap. rewrite Forall_forall in IH, Hes |- *.
    intros [k v] Hin. destruct (Hes _ Hin) as [Hk Hv]. simpl in *. unfold entry_lines. simpl.
    destruct (inline v) as [t|] eqn:Ei.
    + apply Forall_singleton. by apply (entry_inline_ok k v).
    + apply Forall_cons. split; [by apply entry_key_ok|]. by apply (IH _ Hin).
  - rewrite printable_sequence, render_sequence. intros Hit.
    apply Forall_concat, Forall_fmap. rewrite Forall_forall in IH, Hit |- *.
    intros v Hin. destruct (Hit _ Hin) as [Hs Hv]. simpl. unfold seq_item_lines.
    destruct (inline v) as [t|] eqn:Ei.
    + apply Forall_singleton. simpl. apply marked_ok. by apply (item_inline_ok v).
    + specialize (IH _ Hin (ind + 2) Hv). destruct (render v (ind + 2)) as [|[i t] ls]; simpl; [done|].
      apply Forall_cons in IH as [H1 H2]. apply Forall_cons. split; [by apply marked_ok|done].
Qed.

(** ** From text to lines *)

(** Raw lines showing the given indentations and texts, with any numbers. *)
Definition shows (ps : list (nat * string)) (ls : list rawLine) : Prop :=
  Forall2 (λ p l, literal l = None ∧ indent l = p.1 ∧ text l = p.2) ps ls.

Lemma leading_spaces_print i t : solid_ends t → leading_spaces (str_repeat " " i +:+ t) = i.
Proof.
  intros [(a & s' & -> & Ha) _]. unfold leading_spaces. rewrite TrimLeft_repeat by done.
  assert (HT : TrimLeft (String a s') " " = String a s').
  { simpl. rewrite bool_decide_false; [done|]. intros ->. done. }
  rewrite HT, length_app_str. assert (Hl : ∀ n, String.length (str_repeat " " n) = n).
  { induction n; simpl; auto. } rewrite Hl. lia.
Qed.

Lemma split_loop_print ps : ∀ fuel lnum,
  length ps ≤ fuel → Forall (λ l, line_ok l.2) ps →
  ∃ ls, split_loop fuel lnum (print_line <$> ps) = Ret ls ∧ shows ps ls.
Proof.
  induction ps as [|[i t] ps IH]; intros fuel lnum Hf Hok.
  { exists []. split; [by destruct fuel|constructor]. }
  destruct fuel as [|fuel]; simpl in Hf; [lia|]. apply Forall_cons in Hok as [Ht Hps]. simpl in Ht.
  csimpl. cbn [split_loop]. change (print_line (i, t)) with (str_repeat " " i +:+ t). cbv zeta.
  pose proof (lo_ends _ Ht) as Hends.
  assert (Htr : TrimRight (str_repeat " " i +:+ t) (String " " (String tab (str1 cr))) = str_repeat " " i +:+ t).
  { destruct Hends as [_ (r & b & -> & Hb)]. eapply TrimRight_keep.
    - by rewrite <- app_assoc_str.
    - simpl. rewrite !bool_decide_false; [done|intros ->; done..]. }
  rewrite Htr, TrimSpace_spaces by done.
  rewrite decide_False by (destruct Hends as [(a & s' & -> & _) _]; done).
  rewrite decide_False.
  2: { destruct i; simpl; [|done]. destruct Hends as [(a & s' & -> & Ha) _]. simpl. intros [= ->]. done. }
  rewrite (lo_hash _ Ht). unfold stripInlineComment. rewrite (lo_strip _ Ht). simpl default.
  rewrite (lo_block _ Ht), leading_spaces_print by done.
  destruct (IH fuel (S lnum)) as (ls & -> & Hls); [lia|done|].
  exists (mkLine None t i lnum :: ls). split; [done|]. constructor; [done|done].
Qed.

Lemma normalize_cr_id s : str_in cr s = false → normalize_cr s = s.
Proof.
  induction s as [|c s IH]; [done|]. cbn [str_in normalize_cr]. intros [Hc Hs]%orb_false_iff.
  apply bool_decide_eq_false in Hc. rewrite decide_False by done. by rewrite IH.
Qed.

(** ** From lines to trees *)

Lemma parseScalar_inline v t lnum d :
  inline v = Some t → d ≤ 64 → parseScalar scalar_fuel lnum t d = Ret v.
Proof.
  intros Hv Hd. unfold scalar_fuel. cbn [parseScalar].
  destruct (Nat.ltb_spec maxParseDepth d) as [Hlt|_]; [unfold maxParseDepth in Hlt; lia|].
  destruct v as [s|[]|[]]; simpl in Hv; try done; injection Hv as <-; [|done|done].
  unfold quote at 1 2. rewrite !HasPrefix_cons. simpl.
  by rewrite TrimSpace_solid, unquote_quote by apply quote_ends.
Qed.

(** The first line of a block: at its indentation, not an inline item, marked
    exactly for sequences. *)
Lemma isInline_key k rest : 
  key_ok k → match rest with "" => True | String c _ => c = " "%char end →
  isInlineSeqItem (k +:+ String ":" rest) = false ∧ HasPrefix (k +:+ String ":" rest) "- " = false.
Proof.
  intros Hk Hr. assert (Hp : HasPrefix (k +:+ String ":" rest) "- " = false).
  { destruct Hk as [Hne Hk]. destruct k as [|a [|b k]]; [done|..]; cbn [String.append];
      rewrite !HasPrefix_cons; [by rewrite andb_false_r|].
    simpl in Hk. apply andb_prop in Hk as [_ [Hb _]%andb_prop].
    rewrite (bool_decide_false (b = " "%char)) by (by eapply key_char_ne). by rewrite andb_false_r. }
  split; [|done]. unfold isInlineSeqItem. rewrite Hp, findColon_key by done.
  destruct Hk as [Hne Hk]. destruct k as [|a k]; [done|]. cbn [String.append].
  simpl in Hk. apply andb_prop in Hk as [Ha _]. rewrite HasPrefix_cons.
  rewrite (bool_decide_false (a = "{"%char)) by (by eapply key_char_ne). simpl andb.
  change (at_ (String a (k +:+ String ":" rest)) 0) with a.
  rewrite (bool_decide_false (a = squote)) by (by eapply key_char_ne).
  rewrite (bool_decide_false (a = dquote)) by (by eapply key_char_ne).
  by rewrite andb_false_r.
Qed.

Lemma isInline_quote s : isInlineSeqItem (quote s) = true.
Proof.
  unfold isInlineSeqItem.
  assert (H1 : HasPrefix (quote s) "- " = false) by (unfold quote; by rewrite HasPrefix_cons).
  assert (H2 : HasPrefix (quote s) "{" = false) by (unfold quote; by rewrite HasPrefix_cons).
  rewrite H1, H2, last_quote, quote_length. change (at_ (quote s) 0) with dquote.
  rewrite !(bool_decide_true (dquote = dquote)) by done. by destruct (findColon (quote s)).
Qed.

Lemma isInline_marked t : isInlineSeqItem ("- " +:+ t) = false.
Proof. by destruct t. Qed.

Lemma block_first v ind :
  is_block v → printable_node v →
  ∃ t more, render v ind = (ind, t) :: more ∧ isInlineSeqItem t = false ∧
    HasPrefix t "- " = match v with Sequence _ => true | _ => false end.
Proof.
  revert ind. induction v as [s|es IH|items IH] using Node_ind'; intros ind; [done|..].
  - destruct es as [|[k v] es]; [done|]. rewrite printable_mapping, render_mapping. intros _ [_ Hes].
    apply Forall_cons in Hes as [[Hk Hv] _]. simpl in Hk. csimpl. unfold entry_lines. simpl.
    destruct (inline v) as [t|] eqn:Ei; eexists _, _; (split; [done|]); by apply isInline_key.
  - destruct items as [|v items]; [done|]. rewrite printable_sequence, render_sequence. intros _ Hit.
    apply Forall_cons in Hit as [[Hs Hv] _]. apply Forall_cons in IH as [IH _].
    csimpl. unfold seq_item_lines. destruct (inline v) as [t|] eqn:Ei.
    + eexists _, _. split; [done|]. split; [apply isInline_marked|by destruct t].
    + apply inline_none in Ei. destruct (IH (ind + 2) Ei Hv) as (t & more & -> & _ & _).
      eexists _, _. split; [done|]. split; [apply isInline_marked|by destruct t].
Qed.

(** Every line of a block is at its indentation or deeper. *)
Lemma render_indents v : ∀ ind, Forall (λ l, ind ≤ l.1) (render v ind).
Proof.
  induction v as [s|es IH|items IH] using Node_ind'; intros ind; [done|..].
  - rewrite render_mapping. apply Forall_concat, Forall_fmap. rewrite Forall_forall in IH |- *.
    intros [k v] Hin. simpl. unfold entry_lines. simpl. destruct (inline v).
    + apply Forall_singleton. done.
    + apply Forall_cons. split; [done|]. eapply Forall_impl; [apply (IH _ Hin)|]. simpl. lia.
  - rewrite render_sequence. apply Forall_concat, Forall_fmap. rewrite Forall_forall in IH |- *.
    intros v Hin. simpl. unfold seq_item_lines. destruct (inline v); [by apply Forall_singleton|].
    pose proof (IH _ Hin (ind + 2)) as H. destruct (render v (ind + 2)) as [|[i t] ls]; [done|].
    apply Forall_cons in H as [_ H]. apply Forall_cons. split; [done|].
    eapply Forall_impl; [done|]. simpl. lia.
Qed.

(** The lines after a block start to its left. *)
Definition left_of (ind : nat) (rest : list rawLine) : Prop :=
  match rest with [] => True | l :: _ => indent l < ind end.

Definition at_or_left (ind : nat) (rest : list rawLine) : Prop :=
  match rest with [] => True | l :: _ => indent l ≤ ind end.

Lemma shows_app ps1 ps2 ls :
  shows (ps1 ++ ps2) ls → ∃ l1 l2, ls = l1 ++ l2 ∧ shows ps1 l1 ∧ shows ps2 l2.
Proof. intros H. apply Forall2_app_inv_l in H as (l1 & l2 & ? & ? & ->). eauto. Qed.

(** What follows an entry or an item: the next one, or what is left of the block. *)
Lemma next_at_or_left ind A (f : A → list (nat * string)) (l : list A) ls rest :
  (∀ a, a ∈ l → ∃ t more, f a = (ind, t) :: more) →
  shows (concat (f <$> l)) ls → left_of ind rest → at_or_left ind (ls ++ rest).
Proof.
  intros Hf Hs Hr. destruct l as [|a l].
  - apply Forall2_nil_inv_l in Hs as ->. destruct rest; simpl in *; [done|lia].
  - destruct (Hf a) as (t & more & Ha); [set_solver|]. csimpl in Hs. rewrite Ha in Hs.
    apply Forall2_cons_inv_l in Hs as (l0 & ls' & (_ & Hi & _) & _ & ->). simpl in *. lia.
Qed.

Lemma entry_first ind e : ∃ t more, entry_lines ind e = (ind, t) :: more.
Proof. unfold entry_lines. destruct (inline e.2); eauto. Qed.

Lemma item_first ind v : printable_node v → ∃ t more, seq_item_lines ind v = (ind, t) :: more.
Proof.
  intros Hv. unfold seq_item_lines. destruct (inline v) eqn:E; [eauto|].
  apply inline_none in E. destruct (block_first v (ind + 2) E Hv) as (t & more & -> & _). simpl. eauto.
Qed.

Lemma item_lines_shows ind ps ls rest :
  Forall (λ l, ind < l.1) ps → shows ps ls → at_or_left ind rest →
  item_lines ind (ls ++ rest) = (ls, rest).
Proof.
  intros Hps Hs Hr. revert ls Hs. induction Hps as [|[i t] ps Hi Hps IH]; intros ls Hs.
  - apply Forall2_nil_inv_l in Hs as ->. simpl. destruct rest as [|l rest]; simpl in *; [done|].
    by rewrite (proj2 (Nat.leb_le _ _)).
  - apply Forall2_cons_inv_l in Hs as (l & ls' & (_ & Hl & _) & Hs & ->). simpl in *.
    rewrite (proj2 (Nat.leb_gt _ _)) by lia. by rewrite IH.
Qed.

(** Parsing a printed block gives back the node and leaves what follows. *)
Definition parses_back (n : Node) : Prop :=
  ∀ ind d m fuel ls rest,
    is_block n → printable_node n → height n + d ≤ 65 → (m < Z.of_nat ind)%Z →
    shows (render n ind) ls → left_of ind rest → bfuel (length (ls ++ rest)) d ≤ fuel →
    parseBlock fuel (ls ++ rest) m d = Ret (n, rest).

Lemma find_fresh key (seen : list (string * nat)) :
  key ∉ fst <$> seen → find (λ p, bool_decide (fst p = key)) seen = None.
Proof.
  intros H. destruct (find _ seen) as [[k n]|] eqn:E; [|done].
  apply find_some in E as [Hin Hk]. simpl in Hk. apply bool_decide_eq_true in Hk as ->.
  exfalso. apply H. apply list_elem_of_fmap. exists (key, n). split; [done|]. by apply list_elem_of_In.
Qed.

Lemma height_entry k v es : (k, v) ∈ es → S (height v) ≤ height (Mapping es).
Proof.
  simpl. intros Hin. apply le_n_S. induction es as [|e es IH]; [set_solver|].
  apply elem_of_cons in Hin as [<-|Hin]; simpl; [lia|]. specialize (IH Hin). lia.
Qed.

Lemma height_item v items : v ∈ items → S (height v) ≤ height (Sequence items).
Proof.
  simpl. intros Hin. apply le_n_S. induction items as [|i items IH]; [set_solver|].
  apply elem_of_cons in Hin as [<-|Hin]; simpl; [lia|]. specialize (IH Hin). lia.
Qed.

(** One entry: its value, and the lines after it. *)
Lemma parse_entry k v ind d fuel l0 ls' rest :
  parses_back v → key_ok k → printable_node v → height v + d ≤ 64 →
  shows (match inline v with Some _ => [] | None => render v (ind + 2) end) ls' →
  at_or_left ind rest → indent l0 = ind → literal l0 = None →
  text l0 = match inline v with Some t => k +:+ ": " +:+ t | None => k +:+ ":" end →
  bfuel (length (ls' ++ rest)) (S d) ≤ fuel →
  findColon (text l0) = Some (String.length k) ∧
  TrimSpace (take_str (String.length k) (text l0)) = k ∧
  (let value := TrimSpace (drop_str (S (String.length k)) (text l0)) in
   if decide (value = "") then
     match ls' ++ rest with
     | [] => mret (Scalar "", ls' ++ rest)
     | next :: _ =>
         if indent next <=? indent l0 then mret (Scalar "", ls' ++ rest)
         else parseBlock fuel (ls' ++ rest) (Z.of_nat (indent l0)) (S d)
     end
   else val ← parseScalar scalar_fuel (num l0) value d; mret (val, ls' ++ rest)) = Ret (v, rest).
Proof.
  intros IH Hk Hv Hh Hs Hr Hi Hl Ht Hf. rewrite Ht, Hi.
  destruct (inline v) as [t|] eqn:Ei.
  - change (": " +:+ t) with (String ":" (String " " t)). pose proof (inline_ends v t Ei) as He.
    rewrite findColon_key, take_app_str, TrimSpace_solid, drop_key, TrimSpace_one by (done || by apply key_ends).
    split_and!; [done..|]. cbv zeta.
    rewrite decide_False by (destruct He as [(a & s' & -> & _) _]; done).
    rewrite (parseScalar_inline v t) by (done || lia).
    apply Forall2_nil_inv_l in Hs as ->. done.
  - change ":" with (String ":" ""). rewrite findColon_key, take_app_str, TrimSpace_solid, drop_key
      by (done || by apply key_ends).
    split_and!; [done..|]. cbv zeta. rewrite decide_True by done.
    apply inline_none in Ei. destruct (block_first v (ind + 2) Ei Hv) as (t & more & Hren & _).
    pose proof Hs as Hs0. rewrite Hren in Hs0.
    apply Forall2_cons_inv_l in Hs0 as (n0 & ns & (_ & Hi0 & _) & _ & ->).
    cbn [app]. rewrite (proj2 (Nat.leb_gt (indent n0) ind)) by (rewrite Hi0; simpl; lia).
    change (n0 :: ns ++ rest) with ((n0 :: ns) ++ rest).
    apply (IH (ind + 2)); try done; try lia.
    destruct rest; simpl in *; [done|lia].
Qed.

Lemma mapping_printed es : ∀ ind d m b seen fuel ls rest,
  Forall (λ e, parses_back e.2) es →
  Forall (λ e, key_ok e.1 ∧ printable_node e.2) es → NoDup (fst <$> es) →
  (∀ k, k ∈ fst <$> seen → k ∉ fst <$> es) → Forall (λ e, height e.2 + d ≤ 64) es →
  (b = None ∧ es ≠ [] ∧ (m < Z.of_nat ind)%Z ∨ b = Some ind ∧ m = (Z.of_nat ind - 1)%Z) →
  shows (concat (entry_lines ind <$> es)) ls → left_of ind rest →
  lfuel (length (ls ++ rest)) d ≤ fuel →
  mapping_loop fuel (ls ++ rest) m b seen d = Ret (es, rest).
Proof.
  induction es as [|[k v] es IH]; intros ind d m b seen fuel ls rest HP Hok Hnd Hseen Hh Hb Hs Hr Hf.
  { apply Forall2_nil_inv_l in Hs as ->. destruct Hb as [(_ & ? & _)|[-> ->]]; [done|].
    destruct fuel as [|fuel]; [unfold lfuel in Hf; lia|]. cbn [mapping_loop app].
    destruct rest as [|l rest]; [done|]. simpl in Hr.
    rewrite (proj2 (Z.leb_le 0 _)), (proj2 (Z.leb_le (Z.of_nat (indent l)) _)) by lia. done. }
  apply Forall_cons in HP as [HPv HP]. apply Forall_cons in Hok as [[Hk Hv] Hok].
  apply Forall_cons in Hh as [Hhv Hh]. csimpl in Hnd. apply NoDup_cons in Hnd as [Hkn Hnd].
  csimpl in Hs. apply shows_app in Hs as (le & ls2 & -> & Hse & Hs2). simpl in Hk, Hv, Hhv, HPv.
  assert (∃ l0 ls1, le = l0 :: ls1 ∧ literal l0 = None ∧ indent l0 = ind ∧
    text l0 = match inline v with Some t => k +:+ ": " +:+ t | None => k +:+ ":" end ∧
    shows (match inline v with Some _ => [] | None => render v (ind + 2) end) ls1)
    as (l0 & ls1 & -> & Hl0 & Hi0 & Ht0 & Hs1).
  { unfold entry_lines in Hse. simpl in Hse. destruct (inline v);
      apply Forall2_cons_inv_l in Hse as (l0 & ls1 & (? & ? & ?) & ? & ->); eauto 10. }
  assert (Hnext : at_or_left ind (ls2 ++ rest)).
  { eapply (next_at_or_left ind _ (entry_lines ind) es); [|done|done]. intros e _. apply entry_first. }
  destruct fuel as [|fuel]; [unfold lfuel in Hf; lia|]. cbn [mapping_loop app].
  rewrite (proj2 (Z.leb_gt (Z.of_nat (indent l0)) m)), andb_false_r by (rewrite Hi0; destruct Hb as [(_ & _ & ?)|[_ ->]]; lia).
  assert (Hbase : match b with Some b0 => negb (indent l0 =? b0) | None => false end = false).
  { destruct Hb as [(-> & _)|[-> _]]; [done|]. by rewrite Hi0, Nat.eqb_refl. }
  rewrite Hbase. rewrite <- app_assoc in *. unfold lfuel in Hf. cbn [length app] in Hf.
  pose proof (bfuel_mono (length (ls1 ++ ls2 ++ rest)) (S (length (ls1 ++ ls2 ++ rest))) (S d) ltac:(lia)).
  destruct (parse_entry k v ind d fuel l0 ls1 (ls2 ++ rest)) as (Hc & Hkey & Hval); try done; [lia|].
  assert (Hfr : k ∉ fst <$> seen).
  { intros Hin. apply (Hseen k Hin). csimpl. apply elem_of_cons. by left. }
  rewrite Hc, Hkey, (find_fresh k seen Hfr).
  rewrite Hl0. cbv zeta in Hval. rewrite Hval. cbn [mbind outcome_bind].
  pose proof (bfuel_mono (length (ls2 ++ rest)) (S (length (ls1 ++ ls2 ++ rest))) (S d)
    ltac:(rewrite (length_app ls1); lia)).
  rewrite (IH ind d _ (Some (indent l0))); try done.
  - intros k' Hk'. csimpl in Hk'. apply elem_of_cons in Hk' as [->|Hk']; [done|].
    specialize (Hseen k' Hk'). csimpl in Hseen. apply not_elem_of_cons in Hseen as [_ ?]. done.
  - right. rewrite Hi0. split; [done|]. destruct Hb as [(-> & _)|[-> ->]]; done.
  - unfold lfuel. pose proof (length_app ls1 (ls2 ++ rest)). lia.
Qed.

(** The printed lines of one item: its dash line and what is indented below. *)
Lemma item_shape ind v le : printable_node v → shows (seq_item_lines ind v) le →
  ∃ l0 ls1 t0 ps1, le = l0 :: ls1 ∧ literal l0 = None ∧ indent l0 = ind ∧ text l0 = "- " +:+ t0 ∧
    shows ps1 ls1 ∧ Forall (λ l, ind < l.1) ps1 ∧
    match inline v with
    | Some t => t0 = t ∧ ps1 = []
    | None => render v (ind + 2) = (ind + 2, t0) :: ps1 ∧ isInlineSeqItem t0 = false
    end.
Proof.
  intros Hv Hse. unfold seq_item_lines in Hse. destruct (inline v) as [t|] eqn:Ei.
    - apply Forall2_cons_inv_l in Hse as (l0 & ls1 & (? & ? & ?) & ? & ->).
      exists l0, ls1, t, []. split_and!; try done.
    - apply inline_none in Ei. destruct (block_first v (ind + 2) Ei Hv) as (t & more & Hren & Hinl & _).
      pose proof (render_indents v (ind + 2)) as Hind. rewrite Hren in Hse, Hind |- *. simpl in Hse.
      apply Forall2_cons_inv_l in Hse as (l0 & ls1 & (? & ? & ?) & ? & ->).
      apply Forall_cons in Hind as [_ Hind].
      exists l0, ls1, t, more. split_and!; try done. eapply Forall_impl; [done|]. simpl. lia.
Qed.

Lemma sequence_printed items : ∀ ind d fuel ls rest,
  Forall parses_back items →
  Forall (λ v, (match v with Scalar s => item_scalar_ok s | _ => True end) ∧ printable_node v) items →
  Forall (λ v, height v + d ≤ 64) items →
  shows (concat (seq_item_lines ind <$> items)) ls → left_of ind rest →
  lfuel (length (ls ++ rest)) d ≤ fuel →
  sequence_loop fuel (ls ++ rest) ind d = Ret (items, rest).
Proof.
  induction items as [|v items IH]; intros ind d fuel ls rest HP Hok Hh Hs Hr Hf.
  { apply Forall2_nil_inv_l in Hs as ->. destruct fuel as [|fuel]; [unfold lfuel in Hf; lia|].
    cbn [sequence_loop app]. destruct rest as [|l rest]; [done|]. simpl in Hr.
    rewrite (proj2 (Nat.eqb_neq (indent l) ind)) by lia. done. }
  apply Forall_cons in HP as [HPv HP]. apply Forall_cons in Hok as [[Hsc Hv] Hok].
  apply Forall_cons in Hh as [Hhv Hh].
  csimpl in Hs. apply shows_app in Hs as (le & ls2 & -> & Hse & Hs2).
  assert (Hnext : at_or_left ind (ls2 ++ rest)).
  { eapply (next_at_or_left ind _ (seq_item_lines ind) items); [|done|done].
    intros w Hw. apply item_first. rewrite Forall_forall in Hok. by apply Hok. }
  destruct (item_shape ind v le Hv Hse) as (l0 & ls1 & t0 & ps1 & -> & Hl0 & Hi0 & Ht0 & Hs1 & Hin1 & Hcase).
  destruct fuel as [|fuel]; [unfold lfuel in Hf; lia|]. cbn [sequence_loop app].
  rewrite Hi0, Nat.eqb_refl, Ht0, Hl0. simpl (negb true).
  assert (Hpre : HasPrefix ("- " +:+ t0) "- " = true) by (by destruct t0). rewrite Hpre. simpl orb.
  cbn [mret outcome_ret mbind outcome_bind]. rewrite <- app_assoc in *.
  rewrite (item_lines_shows ind ps1 ls1 (ls2 ++ rest)) by done.
  change (drop_str 2 ("- " +:+ t0)) with t0. unfold lfuel in Hf. cbn [length app] in Hf.
  pose proof (bfuel_mono (length (ls2 ++ rest)) (S (length (ls1 ++ ls2 ++ rest))) (S d)
    ltac:(rewrite (length_app ls1); lia)).
  assert (Hrest : sequence_loop fuel (ls2 ++ rest) ind d = Ret (items, rest)).
  { apply IH; try done. unfold lfuel. pose proof (length_app ls1 (ls2 ++ rest)). lia. }
  destruct (inline v) as [t|] eqn:Ei.
  - destruct Hcase as [-> ->]. apply Forall2_nil_inv_l in Hs1 as ->. rewrite bool_decide_true by done.
    assert (Hinl : isInlineSeqItem t = true).
    { destruct v as [s|[]|[]]; simpl in Ei; try done; injection Ei as <-; [|done|done].
      apply isInline_quote. }
    rewrite Hinl. simpl andb. rewrite (parseScalar_inline v t) by (done || lia).
    cbn [mret outcome_ret mbind outcome_bind]. rewrite Hrest. done.
  - destruct Hcase as [Hren Hinl]. rewrite Hinl, andb_false_r. apply inline_none in Ei.
    set (il := mkLine None t0 (ind + 2) (num l0) :: ls1).
    assert (HB : parseBlock fuel (il ++ []) (Z.of_nat (ind + 2) - 1) (S d) = Ret (v, [])).
    { apply (HPv (ind + 2)); try done; try lia.
      - rewrite Hren. constructor; [done|done].
      - rewrite app_nil_r. unfold il. cbn [length]. pose proof (length_app ls1 (ls2 ++ rest)).
        pose proof (bfuel_mono (S (length ls1)) (S (length (ls1 ++ ls2 ++ rest))) (S d) ltac:(lia)). lia. }
    rewrite app_nil_r in HB. rewrite HB. cbn [mret outcome_ret mbind outcome_bind]. by rewrite Hrest.
Qed.

Lemma parse_back n : parses_back n.
Proof.
  induction n as [s|es IH|items IH] using Node_ind'; intros ind d m fuel ls rest Hb Hp Hh Hm Hs Hr Hf; [done|..].
  - destruct (block_first _ ind Hb Hp) as (t & more & Hren & _ & Hpre).
    assert (∃ l0 ls1, ls = l0 :: ls1 ∧ text l0 = t) as (l0 & ls1 & -> & Ht).
    { rewrite Hren in Hs. apply Forall2_cons_inv_l in Hs as (l0 & ls1 & (_ & _ & ?) & _ & ->). eauto. }
    destruct fuel as [|fuel]; [unfold bfuel in Hf; nia|]. cbn [parseBlock app].
    destruct (Nat.ltb_spec maxParseDepth d) as [Hlt|_].
    { unfold maxParseDepth in Hlt. destruct es; [done|]. simpl in Hh. lia. }
    rewrite Ht, Hpre. rewrite printable_mapping in Hp. rewrite render_mapping in Hs.
    destruct Hp as [Hnd Hok]. change (l0 :: ls1 ++ rest) with ((l0 :: ls1) ++ rest).
    pose proof (bfuel_step (length ((l0 :: ls1) ++ rest)) d).
    rewrite (mapping_printed es ind d m None []); try done.
    + set_solver.
    + apply Forall_forall. intros [k v] Hin. pose proof (height_entry k v es Hin). simpl in *. lia.
    + left. split_and!; [done| |done]. by destruct es.
    + destruct es; [done|]. simpl in Hh. lia.
  - destruct (block_first _ ind Hb Hp) as (t & more & Hren & _ & Hpre).
    assert (∃ l0 ls1, ls = l0 :: ls1 ∧ text l0 = t ∧ indent l0 = ind) as (l0 & ls1 & -> & Ht & Hi).
    { rewrite Hren in Hs. apply Forall2_cons_inv_l in Hs as (l0 & ls1 & (_ & ? & ?) & _ & ->). eauto. }
    destruct fuel as [|fuel]; [unfold bfuel in Hf; nia|]. cbn [parseBlock app].
    destruct (Nat.ltb_spec maxParseDepth d) as [Hlt|_].
    { unfold maxParseDepth in Hlt. destruct items; [done|]. simpl in Hh. lia. }
    rewrite Ht, Hpre, Hi. rewrite printable_sequence in Hp. rewrite render_sequence in Hs.
    change (l0 :: ls1 ++ rest) with ((l0 :: ls1) ++ rest).
    pose proof (bfuel_step (length ((l0 :: ls1) ++ rest)) d).
    rewrite (sequence_printed items ind d); try done.
    + apply Forall_forall. intros v Hin. pose proof (height_item v items Hin). simpl in *. lia.
    + destruct items; [done|]. simpl in Hh. lia.
Qed.

(** ** The document *)

Lemma str_in_Join c sep l :
  str_in c sep = false → Forall (λ s, str_in c s = false) l → str_in c (Join l sep) = false.
Proof.
  intros Hsep Hl. induction Hl as [|s l Hs Hl IH]; [done|].
  destruct l as [|s' l]; [done|]. change (Join (s :: s' :: l) sep) with (s +:+ sep +:+ Join (s' :: l) sep).
  by rewrite !str_in_app, Hs, Hsep, IH.
Qed.

Lemma str_in_repeat c a n : c ≠ a → str_in c (str_repeat a n) = false.
Proof. intros H. induction n; simpl; [done|]. by rewrite bool_decide_false. Qed.

Lemma print_line_no_break c l : c ∈ [nl; cr] → line_ok l.2 → str_in c (print_line l) = false.
Proof.
  intros Hc Hl. unfold print_line. rewrite str_in_app, (lo_break _ Hl c Hc), orb_false_r.
  apply str_in_repeat. by destruct (break_cases c Hc) as [->| ->].
Qed.

Lemma drop_last_full (ls : list string) : Forall (λ s, s ≠ "") ls → drop_last_empty ls = ls.
Proof.
  intros H. unfold drop_last_empty. destruct (last ls) as [s|] eqn:E; [|done].
  apply last_Some_elem_of in E. rewrite Forall_forall in H. specialize (H _ E). by destruct s.
Qed.

(** C26: Printing and parsing round trip: every tree with distinct word keys,
    arbitrary strings as scalars (with the one restriction on sequence items
    above) and at most 65 levels is read back exactly from its printed form;
    every string survives the quoting. *)
Theorem parse_print (n : Node) :
  is_block n → printable_node n → height n ≤ 65 → Parse (print n) = Ret n.
Proof.
  intros Hb Hp Hh. pose proof (render_lines_ok n 0 Hp) as Hok.
  destruct (block_first n 0 Hb Hp) as (t & more & Hren & _).
  assert (Hsolid : ∃ a s, print n = String a s ∧ solid a = true).
  { rewrite Hren in Hok. apply Forall_cons in Hok as [Ht _]. destruct (lo_ends _ Ht) as [(a & s' & Ha & Hs) _].
    simpl in Ha. subst t. unfold print. rewrite Hren. csimpl.
    change (print_line (0, String a s')) with (String a s').
    destruct (print_line <$> more); simpl; eauto. }
  unfold Parse, TrimPrefix.
  assert (Hbom : HasPrefix (print n) bom = false).
  { destruct Hsolid as (a & s & -> & Ha). unfold bom. rewrite HasPrefix_cons, bool_decide_false; [done|].
    intros ->. done. }
  rewrite Hbom, normalize_cr_id.
  2: { apply str_in_Join; [by vm_compute|]. apply Forall_fmap. eapply Forall_impl; [exact Hok|].
       intros l Hl. apply print_line_no_break; [set_solver|done]. }
  unfold splitLines, print. rewrite Split_Join.
  2: { by rewrite Hren. }
  2: { apply Forall_fmap. eapply Forall_impl; [exact Hok|]. intros l Hl.
       apply print_line_no_break; [set_solver|done]. }
  rewrite drop_last_full.
  2: { apply Forall_fmap. eapply Forall_impl; [exact Hok|]. intros [i u] Hl. simpl. unfold print_line. simpl.
       destruct (lo_ends _ Hl) as [(a & s' & Ha & _) _]. simpl in Ha. rewrite Ha. by destruct i. }
  rewrite length_fmap.
  destruct (split_loop_print (render n 0) (length (render n 0)) 1) as (ls & -> & Hls); [lia|done|].
  cbn [mbind outcome_bind]. rewrite <- (app_nil_r ls) at 2.
  rewrite (parse_back n 0 0 (-1)%Z); try done; [lia|].
  rewrite app_nil_r. unfold bfuel, block_fuel. apply Nat.mul_le_mono; lia.
Qed.

Definition sample : Node :=
  Mapping [("services", Mapping [("web", Mapping [("command", Scalar (str1 nl)); ("args", Sequence [])])]);
           ("hosts", Sequence [Scalar "a b"; Mapping [("k", Scalar "# x"); ("m", Mapping [])];
                               Sequence [Scalar ""]])].

Lemma parse_print_witness : Parse (print sample) = Ret sample.
Proof.
  apply parse_print.
  - exact I.
  - repeat (split || constructor); try (vm_compute; reflexivity); try discriminate; set_solver.
  - vm_compute. lia.
Defined.

(** A quoted sequence item that looks like a block scalar header is refused,
    although a quoted value cannot start a block scalar. *)
Example quoted_item_refused :
  Parse (print (Mapping [("a", Sequence [Scalar "x: |y"])])) =
  Fail (BadIndicator 2 ("|y" +:+ str1 dquote)).
Proof. vm_compute. reflexivity. Qed.

End YmlRender.
