(* ===== verification/Service.v ===== *)
(** * Services: src/service (signal.go, condition.go, service.go, user-facing parts)

    The signal table, exit actions, file conditions, the [Process]
    configuration and the [Service] built from it by [New], the dotenv parser,
    the environment a child gets, and the runtime operations on a service:
    [FinishStart], [Stop], [Signal], [MarkExited], [Done].  Opening the dotenv
    file, resolving users and expanding templates are not modelled: the content
    of the file is an argument. *)

From S2P Require Import Prelude GoStrings GoTime Cron.

Open Scope string_scope.
Open Scope list_scope.
Open Scope nat_scope.

Module Service.

(** ** Signals (numbers of Linux) *)

Definition signalMap : list (string * Z) := [
  ("SIGABRT", 6%Z); ("SIGALRM", 14%Z); ("SIGBUS", 7%Z); ("SIGCHLD", 17%Z);
  ("SIGCONT", 18%Z); ("SIGFPE", 8%Z); ("SIGHUP", 1%Z); ("SIGILL", 4%Z);
  ("SIGINT", 2%Z); ("SIGIO", 29%Z); ("SIGKILL", 9%Z); ("SIGPIPE", 13%Z);
  ("SIGPROF", 27%Z); ("SIGQUIT", 3%Z); ("SIGSEGV", 11%Z); ("SIGSTOP", 19%Z);
  ("SIGSYS", 31%Z); ("SIGTERM", 15%Z); ("SIGTRAP", 5%Z); ("SIGTSTP", 20%Z);
  ("SIGTTIN", 21%Z); ("SIGTTOU", 22%Z); ("SIGURG", 23%Z); ("SIGUSR1", 10%Z);
  ("SIGUSR2", 12%Z); ("SIGVTALRM", 26%Z); ("SIGWINCH", 28%Z); ("SIGXCPU", 24%Z);
  ("SIGXFSZ", 25%Z)].

Fixpoint assoc {A} (k : string) (l : list (string * A)) : option A :=
  match l with
  | [] => None
  | (k', v) :: l => if bool_decide (k = k') then Some v else assoc k l
  end.

Fixpoint sig_name (sig : Z) (l : list (string * Z)) : option string :=
  match l with
  | [] => None
  | (n, s) :: l => if (s =? sig)%Z then Some n else sig_name sig l
  end.

Definition SIGHUP : Z := 1.
Definition SIGKILL : Z := 9.
Definition SIGTERM : Z := 15.

(** [sigNames] is [signalMap] read backwards. *)
Definition sigNames (sig : Z) : option string := sig_name sig signalMap.

(** The error carries the name as it was looked up. *)
Definition ParseSignal (name : string) : result string Z :=
  let name := TrimSpace (ToUpper name) in
  if bool_decide (name = "") then Ok SIGTERM
  else
    let name := if HasPrefix name "SIG" then name else "SIG" +:+ name in
    match assoc name signalMap with
    | Some sig => Ok sig
    | None => Err name
    end.

Definition SignalName (sig : Z) : string :=
  match sigNames sig with Some n => n | None => fmt_d sig end.

(** ** Exit actions *)

Inductive ExitAction :=
  | ActionRestart
  | ActionShutdown
  | ActionSuccessShutdown
  | ActionFailureShutdown
  | ActionIgnore.

#[global] Instance ExitAction_eq_dec : EqDecision ExitAction.
Proof. solve_decision. Defined.

Definition exit_actions : list (string * ExitAction) := [
  ("restart", ActionRestart); ("shutdown", ActionShutdown);
  ("success-shutdown", ActionSuccessShutdown);
  ("failure-shutdown", ActionFailureShutdown); ("ignore", ActionIgnore)].

(** On an unknown action the source returns the default together with the
    error; every caller but one drops it, and that one ([run]'s reap loop)
    replaces it by [ActionIgnore]. *)
Definition ParseExitAction (s : string) (defaultAction : ExitAction) : result string ExitAction :=
  match assoc s exit_actions with
  | Some a => Ok a
  | None => if bool_decide (s = "") then Ok defaultAction else Err s
  end.

Definition ValidateExitAction (s : string) : bool :=
  match assoc s exit_actions with Some _ => true | None => bool_decide (s = "") end.

(** ** File conditions *)

Record FileConditions := mkFileConditions {
  cExists : string;
  cMissing : string;
}.

(** What [os.Stat] answers on a path; any error but ENOENT and ENOTDIR carries
    its text. *)
Inductive stat_result :=
  | StatOk
  | StatNotExist
  | StatNotDir
  | StatError (e : string).

Definition fileExists (st : stat_result) : result string bool :=
  match st with
  | StatOk => Ok true
  | StatNotExist | StatNotDir => Ok false
  | StatError e => Err e
  end.

Definition exists_unmet (stat : string → stat_result) (path : string) : string :=
  if bool_decide (path = "") then ""
  else match fileExists (stat path) with
       | Err e => "condition-file-exists: " +:+ e
       | Ok false => "condition-file-exists: " +:+ path +:+ " is missing"
       | Ok true => ""
       end.

Definition missing_unmet (stat : string → stat_result) (path : string) : string :=
  if bool_decide (path = "") then ""
  else match fileExists (stat path) with
       | Err e => "condition-file-missing: " +:+ e
       | Ok true => "condition-file-missing: " +:+ path +:+ " exists"
       | Ok false => ""
       end.

Definition Unmet (stat : string → stat_result) (c : FileConditions) : string :=
  let r := exists_unmet stat (cExists c) in
  if bool_decide (r = "") then missing_unmet stat (cMissing c) else r.

(** ** Process configuration *)

Record Process := mkProcess {
  pUserID : option Z;
  pGroupID : option Z;
  pEnvironment : gmap string string;
  pOnCheckFailure : gmap string string;
  pPassEnv : option bool;
  pLogCapture : option bool;
  pExportSocket : option bool;
  pName : string;
  pCommand : string;
  pWorkingDir : string;
  pUser : string;
  pGroup : string;
  pStartup : string;
  pStopSignal : string;
  pKillDelay : string;
  pOnSuccess : string;
  pOnFailure : string;
  pBackoffDelay : string;
  pBackoffLimit : string;
  pReadyCheck : string;
  pReadyTimeout : string;
  pStartupTimeout : string;
  pSchedule : string;
  pConditionFileExists : string;
  pConditionFileMissing : string;
  pUmask : string;
  pDotEnv : string;
  pPrefix : string;
  pSDNotifyTimeout : string;
  pParentDeathSignal : string;
  pExitCodeMap : gmap Z Z;
  pSignalRewrite : gmap string string;
  pArgs : list string;
  pAfter : list string;
  pBefore : list string;
  pRequires : list string;
  pRemoveEnv : list string;
  pBackoffFactor : float64;
  pUseEntrypointArgs : bool;
  pSDNotify : bool;
  pStrictGroups : bool;
  pDotEnvFollow : bool;
  pRestartWithDependents : bool;
}.

Definition process_conditions (p : Process) : FileConditions :=
  mkFileConditions (pConditionFileExists p) (pConditionFileMissing p).

(** The name a process goes by: its own, or its command. *)
Definition process_name (p : Process) : string :=
  if bool_decide (pName p = "") then pCommand p else pName p.

(** ** Backoff parameters (internal/backoff.New) *)

Record Backoff := mkBackoff {
  delay : Z;
  factor : float64;
  Limit : Z;
}.

Definition f64_two : float64 := f64_of_Z 2.

Definition backoff_New (delay : Z) (factor : float64) (limit : Z) : Backoff :=
  mkBackoff (if (delay <=? 0)%Z then (500 * 1000000)%Z else delay)
    (if f64_leb factor (f64_of_Z 0) || f64_is_nan factor || f64_is_inf factor then f64_two else factor)
    (if (limit <=? 0)%Z then (30 * Second)%Z else limit).

(** ** Services

    [done] names the channel of the running instance in a store of channels
    kept by the daemon; [killTimer] is the process group a pending SIGKILL
    will hit. *)
Record Service := mkService {
  Proc : Process;
  Name : string;
  Enabled : bool;
  Oneshot : bool;
  Scheduled : bool;
  sched : option Cron.Schedule;
  stopSignal : Z;
  killDelay : Z;
  OnSuccess : ExitAction;
  OnFailure : ExitAction;
  backoff : Backoff;
  Requires : gset string;
  OnCheckFailure : gmap string ExitAction;
  LogCapture : bool;
  prefix : string;
  ControlSocket : string;
  conds : option FileConditions;
  Pid : Z;
  running : bool;
  stopped : bool;
  done : option nat;
  startedAt : Z;
  killPgid : Z;
  killDeadline : Z;
  killTimer : option Z;
}.

Inductive new_err :=
  | ErrSchedule (name : string) (e : Cron.cron_err)
  | ErrSignal (name : string) (e : string)
  | ErrKillDelay (name text : string)
  | ErrKillDelayNegative (name text : string)
  | ErrBackoffDelay (name text : string)
  | ErrBackoffLimit (name text : string)
  | ErrOnCheckFailure (name check action : string)
  | ErrOnSuccess (name action : string)
  | ErrOnFailure (name action : string).

Definition DefaultKillDelay : Z := 10 * Second.
Definition DefaultPrefix : string := "service timestamp".

(** An optional duration: empty is the default, [None] does not parse. *)
Definition opt_duration (text : string) (dflt : Z) : option Z :=
  if bool_decide (text = "") then Some dflt else ParseDuration text.

(** The on-check-failure map, walked in [order] (Go's map order is arbitrary;
    it only decides which error is reported). *)
Definition parse_check_actions (name : string) (m : gmap string string) (order : list string)
    : result new_err (gmap string ExitAction) :=
  foldM (λ acc check,
    match m !! check with
    | None => Ok acc
    | Some s =>
        match ParseExitAction s ActionRestart with
        | Ok a => Ok (<[check := a]> acc)
        | Err e => Err (ErrOnCheckFailure name check e)
        end
    end) ∅ order.

Definition err_map {E E' A} (f : E → E') (r : result E A) : result E' A :=
  match r with Ok a => Ok a | Err e => Err (f e) end.

Definition from_option_err {E A} (e : E) (o : option A) : result E A :=
  match o with Some a => Ok a | None => Err e end.

Definition New_in (order : list string) (p : Process) (globalPrefix : string) : result new_err Service :=
  let name := process_name p in
  let scheduled := bool_decide (pStartup p = "scheduled") in
  sched ← (if scheduled then
             err_map (ErrSchedule name) (Cron.Parse (pSchedule p)) ≫= λ s, Ok (Some s)
           else Ok None);
  stopSig ← err_map (ErrSignal name) (ParseSignal (pStopSignal p));
  killDelay ← from_option_err (ErrKillDelay name (pKillDelay p)) (opt_duration (pKillDelay p) DefaultKillDelay);
  if (killDelay <? 0)%Z then Err (ErrKillDelayNegative name (pKillDelay p)) else
  backoffDelay ← from_option_err (ErrBackoffDelay name (pBackoffDelay p)) (opt_duration (pBackoffDelay p) 0);
  backoffLimit ← from_option_err (ErrBackoffLimit name (pBackoffLimit p)) (opt_duration (pBackoffLimit p) 0);
  checkFailMap ← parse_check_actions name (pOnCheckFailure p) order;
  onSuccess ← err_map (ErrOnSuccess name) (ParseExitAction (pOnSuccess p) ActionShutdown);
  onFailure ← err_map (ErrOnFailure name) (ParseExitAction (pOnFailure p) ActionShutdown);
  let prefix := if bool_decide (pPrefix p = "") then globalPrefix else pPrefix p in
  let prefix := if bool_decide (prefix = "") then DefaultPrefix else prefix in
  Ok (mkService p name
        (negb (bool_decide (pStartup p = "disabled")))
        (bool_decide (pStartup p = "oneshot")) scheduled sched stopSig killDelay
        onSuccess onFailure
        (backoff_New backoffDelay (pBackoffFactor p) backoffLimit)
        (list_to_set (pRequires p)) checkFailMap
        (default false (pLogCapture p)) prefix "" None
        0 false false None 0 0 0 None).

Definition New (p : Process) (globalPrefix : string) : result new_err Service :=
  New_in (map_to_list (pOnCheckFailure p)).*1 p globalPrefix.

(** ** Field updates *)

Definition set_pArgs (v : list string) (p : Process) : Process :=
  mkProcess (pUserID p) (pGroupID p) (pEnvironment p) (pOnCheckFailure p) (pPassEnv p)
    (pLogCapture p) (pExportSocket p) (pName p) (pCommand p) (pWorkingDir p) (pUser p) (pGroup
    p) (pStartup p) (pStopSignal p) (pKillDelay p) (pOnSuccess p) (pOnFailure p) (pBackoffDelay
    p) (pBackoffLimit p) (pReadyCheck p) (pReadyTimeout p) (pStartupTimeout p) (pSchedule p)
    (pConditionFileExists p) (pConditionFileMissing p) (pUmask p) (pDotEnv p) (pPrefix p)
    (pSDNotifyTimeout p) (pParentDeathSignal p) (pExitCodeMap p) (pSignalRewrite p) v (pAfter p)
    (pBefore p) (pRequires p) (pRemoveEnv p) (pBackoffFactor p) (pUseEntrypointArgs p)
    (pSDNotify p) (pStrictGroups p) (pDotEnvFollow p) (pRestartWithDependents p).
Definition set_pPrefix (v : string) (p : Process) : Process :=
  mkProcess (pUserID p) (pGroupID p) (pEnvironment p) (pOnCheckFailure p) (pPassEnv p)
    (pLogCapture p) (pExportSocket p) (pName p) (pCommand p) (pWorkingDir p) (pUser p) (pGroup
    p) (pStartup p) (pStopSignal p) (pKillDelay p) (pOnSuccess p) (pOnFailure p) (pBackoffDelay
    p) (pBackoffLimit p) (pReadyCheck p) (pReadyTimeout p) (pStartupTimeout p) (pSchedule p)
    (pConditionFileExists p) (pConditionFileMissing p) (pUmask p) (pDotEnv p) v
    (pSDNotifyTimeout p) (pParentDeathSignal p) (pExitCodeMap p) (pSignalRewrite p) (pArgs p)
    (pAfter p) (pBefore p) (pRequires p) (pRemoveEnv p) (pBackoffFactor p) (pUseEntrypointArgs
    p) (pSDNotify p) (pStrictGroups p) (pDotEnvFollow p) (pRestartWithDependents p).
Definition set_policy_proc (codes : gmap Z Z) (rewrite : gmap string string) (deps : bool) (p : Process) : Process :=
  mkProcess (pUserID p) (pGroupID p) (pEnvironment p) (pOnCheckFailure p) (pPassEnv p)
    (pLogCapture p) (pExportSocket p) (pName p) (pCommand p) (pWorkingDir p) (pUser p) (pGroup
    p) (pStartup p) (pStopSignal p) (pKillDelay p) (pOnSuccess p) (pOnFailure p) (pBackoffDelay
    p) (pBackoffLimit p) (pReadyCheck p) (pReadyTimeout p) (pStartupTimeout p) (pSchedule p)
    (pConditionFileExists p) (pConditionFileMissing p) (pUmask p) (pDotEnv p) (pPrefix p)
    (pSDNotifyTimeout p) (pParentDeathSignal p) codes rewrite (pArgs p) (pAfter p) (pBefore p)
    (pRequires p) (pRemoveEnv p) (pBackoffFactor p) (pUseEntrypointArgs p) (pSDNotify p)
    (pStrictGroups p) (pDotEnvFollow p) deps.
Definition set_ControlSocket (v : string) (s : Service) : Service :=
  mkService (Proc s) (Name s) (Enabled s) (Oneshot s) (Scheduled s) (sched s) (stopSignal s)
    (killDelay s) (OnSuccess s) (OnFailure s) (backoff s) (Requires s) (OnCheckFailure s)
    (LogCapture s) (prefix s) v (conds s) (Pid s) (running s) (stopped s) (done s) (startedAt s)
    (killPgid s) (killDeadline s) (killTimer s).
Definition set_exit_actions (ok fail : ExitAction) (s : Service) : Service :=
  mkService (Proc s) (Name s) (Enabled s) (Oneshot s) (Scheduled s) (sched s) (stopSignal s)
    (killDelay s) ok fail (backoff s) (Requires s) (OnCheckFailure s) (LogCapture s) (prefix s)
    (ControlSocket s) (conds s) (Pid s) (running s) (stopped s) (done s) (startedAt s) (killPgid
    s) (killDeadline s) (killTimer s).
Definition set_policy (ok fail : ExitAction) (checks : gmap string ExitAction) (req : gset string) (p : Process)
    (s : Service) : Service :=
  mkService p (Name s) (Enabled s) (Oneshot s) (Scheduled s) (sched s) (stopSignal s) (killDelay
    s) ok fail (backoff s) req checks (LogCapture s) (prefix s) (ControlSocket s) (conds s) (Pid
    s) (running s) (stopped s) (done s) (startedAt s) (killPgid s) (killDeadline s) (killTimer
    s).

(** ** Dotenv files *)

Definition quote : ascii := "034".
Definition backslash : ascii := "\".

(** [strip_scan prev inSingle inDouble s]: the offset in [s] of the first "#"
    that opens a comment; [prev] is the byte before [s]. *)
Fixpoint strip_scan (prev : option ascii) (inSingle inDouble : bool) (s : string) : option nat :=
  match s with
  | "" => None
  | String c s' =>
      if bool_decide (c = backslash) && inDouble && negb (bool_decide (s' = "")) then
        match s' with
        | "" => None
        | String e s'' => (λ n, S (S n)) <$> strip_scan (Some e) inSingle inDouble s''
        end
      else if bool_decide (c = "'"%char) && negb inDouble then
        S <$> strip_scan (Some c) (negb inSingle) inDouble s'
      else if bool_decide (c = quote) && negb inSingle then
        S <$> strip_scan (Some c) inSingle (negb inDouble) s'
      else if bool_decide (c = "#"%char) && negb inSingle && negb inDouble
              && bool_decide (prev = Some " "%char) then Some 0
      else S <$> strip_scan (Some c) inSingle inDouble s'
  end.

Definition stripDotEnvComment (v : string) : string :=
  match strip_scan None false false v with
  | Some i => TrimRight (take_str i v) " "
  | None => v
  end.

Fixpoint dotenvUnescapeDouble (s : string) : string :=
  match s with
  | "" => ""
  | String c s' =>
      if negb (bool_decide (c = backslash)) then String c (dotenvUnescapeDouble s')
      else match s' with
      | "" => String c ""
      | String e s'' =>
          let rest := dotenvUnescapeDouble s'' in
          if bool_decide (e = "n"%char) then String "010" rest
          else if bool_decide (e = "t"%char) then String "009" rest
          else if bool_decide (e = "r"%char) then String "013" rest
          else if bool_decide (e = backslash) then String backslash rest
          else if bool_decide (e = quote) then String quote rest
          else String backslash (String e rest)
      end
  end.

Definition is_alpha_ (a : ascii) : bool :=
  let n := byte_val a in
  (n =? 95)%Z || ((65 <=? n) && (n <=? 90))%Z || ((97 <=? n) && (n <=? 122))%Z.

(** The source ranges over runes; a byte of a multi-byte rune is rejected as
    the rune is. *)
Definition IsValidEnvKey (k : string) : bool :=
  match k with
  | "" => false
  | String a k' => is_alpha_ a && str_all (λ c, is_alpha_ c || is_digit c) k'
  end.

Definition last_byte (s : string) : ascii := at_ s (String.length s - 1).

Definition quoted_by (q : ascii) (v : string) : bool :=
  (2 <=? String.length v) && bool_decide (at_ v 0 = q) && bool_decide (last_byte v = q).

Definition inner (v : string) : string := take_str (String.length v - 2) (drop_str 1 v).

Definition dotenv_value (v : string) : string :=
  let v := stripDotEnvComment (TrimSpace v) in
  if quoted_by quote v then dotenvUnescapeDouble (inner v)
  else if quoted_by "'" v then inner v
  else v.

(** One line; the error carries the key. *)
Definition dotenv_line (env : gmap string string) (line : string) : result string (gmap string string) :=
  let line := TrimSpace line in
  if bool_decide (line = "") || HasPrefix line "#" then Ok env
  else match Cut line "=" with
  | (_, _, false) => Ok env
  | (k, v, true) =>
      let k := TrimSpace k in
      if bool_decide (k = "") then Ok env
      else if negb (IsValidEnvKey k) then Err k
      else Ok (<[k := dotenv_value v]> env)
  end.

Definition bom : string := String "239" (String "187" (String "191" "")).

Definition parseDotEnv (data : string) : result string (gmap string string) :=
  foldM dotenv_line ∅ (Split "010" (TrimPrefix data bom)).

(** ** The environment of a child *)

(** [os.Environ] entries, later ones winning. *)
Definition os_env (environ : list string) : gmap string string :=
  foldl (λ env e,
    match Cut e "=" with
    | (k, v, true) => if bool_decide (k = "") then env else <[k := v]> env
    | _ => env
    end) ∅ environ.

Definition merge_env (lo hi : gmap string string) : gmap string string := hi ∪ lo.

(** [dotenv] is the content of the dotenv file, [None] when none is set. *)
Definition buildEnvMap (environ : list string) (dotenv : option string)
    (procEnv : gmap string string) (passEnv : bool)
    : result string (gmap string string * gset string) :=
  let env := if passEnv then os_env environ else ∅ in
  de ← match dotenv with None => Ok ∅ | Some data => parseDotEnv data end;
  Ok (merge_env (merge_env env de) procEnv, dom de ∪ dom procEnv).

(** The environment after export-socket and remove-env, before templates. *)
Definition child_env (environ : list string) (dotenv : option string) (s : Service)
    : result string (gmap string string * gset string) :=
  '(env, userKeys) ← buildEnvMap environ dotenv (pEnvironment (Proc s)) (default false (pPassEnv (Proc s)));
  let exportSocket := default false (pExportSocket (Proc s)) && negb (bool_decide (ControlSocket s = "")) in
  let env := if exportSocket then
               match env !! "GOPHERD_SOCKET" with
               | Some _ => env
               | None => <["GOPHERD_SOCKET" := ControlSocket s]> env
               end
             else env in
  Ok (foldr delete env (pRemoveEnv (Proc s)), userKeys ∖ list_to_set (pRemoveEnv (Proc s))).

Definition ParseUmask (s : string) : option Z :=
  n ← ParseUint s 8 32; if (511 <? n)%Z then None else Some n.

(** ** Exit codes and signal forwarding *)

Definition RemapExitCode (s : Service) (code : Z) : Z :=
  default code (pExitCodeMap (Proc s) !! code).

Definition RewriteSignal (s : Service) (sig : Z) : option Z :=
  match pSignalRewrite (Proc s) !! SignalName sig with
  | None => None
  | Some to =>
      match ParseSignal to with
      | Ok parsed => Some parsed
      | Err _ => Some sig
      end
  end.

(** ** Runtime operations *)

Definition UnmetCondition (stat : string → stat_result) (s : Service) : string :=
  Unmet stat (default (process_conditions (Proc s)) (conds s)).

Definition SetFileConditions (s : Service) (c : FileConditions) : Service :=
  mkService (Proc s) (Name s) (Enabled s) (Oneshot s) (Scheduled s) (sched s) (stopSignal s)
    (killDelay s) (OnSuccess s) (OnFailure s) (backoff s) (Requires s) (OnCheckFailure s)
    (LogCapture s) (prefix s) (ControlSocket s) (Some c) (Pid s) (running s) (stopped s)
    (done s) (startedAt s) (killPgid s) (killDeadline s) (killTimer s).

(** Replace the runtime fields. *)
Definition set_run (s : Service) (pid : Z) (run stp : bool) (dn : option nat) (at_ : Z) : Service :=
  mkService (Proc s) (Name s) (Enabled s) (Oneshot s) (Scheduled s) (sched s) (stopSignal s)
    (killDelay s) (OnSuccess s) (OnFailure s) (backoff s) (Requires s) (OnCheckFailure s)
    (LogCapture s) (prefix s) (ControlSocket s) (conds s) pid run stp
    dn at_ (killPgid s) (killDeadline s) (killTimer s).

Definition set_kill (s : Service) (pgid deadline : Z) (timer : option Z) : Service :=
  mkService (Proc s) (Name s) (Enabled s) (Oneshot s) (Scheduled s) (sched s) (stopSignal s)
    (killDelay s) (OnSuccess s) (OnFailure s) (backoff s) (Requires s) (OnCheckFailure s)
    (LogCapture s) (prefix s) (ControlSocket s) (conds s) (Pid s) (running s) (stopped s)
    (done s) (startedAt s) pgid deadline timer.

Definition IsRunning (s : Service) : bool := running s.
Definition WasStopped (s : Service) : bool := stopped s.

(** [FinishStart] with the pid the fork returned and the fresh channel [ch];
    a failed fork leaves the service as it was. *)
Definition FinishStart (s : Service) (fork : option Z) (ch : nat) (now : Z) : option (Z * Service) :=
  pid ← fork; Some (pid, set_run s pid true false (Some ch) now).

(** The signals sent, as (target of kill(2), signal). *)
Definition Stop (s : Service) (now : Z) : Service * list (Z * Z) :=
  if negb (running s) then (s, [])
  else
    let s := set_run s (Pid s) (running s) true (done s) (startedAt s) in
    if (Pid s <=? 0)%Z then (s, [])
    else
      let kills := [((- Pid s)%Z, stopSignal s)] in
      if (0 <? killDelay s)%Z then
        (set_kill s (Pid s) (now + killDelay s) (Some (Pid s)), kills)
      else (s, kills).

(** The deferred SIGKILL: [alive] is the answer of the liveness probe. *)
Definition kill_timer_fires (s : Service) (alive : bool) : Service * list (Z * Z) :=
  match killTimer s with
  | None => (s, [])
  | Some kpid =>
      (set_kill s (killPgid s) (killDeadline s) None,
       if (kpid <=? 0)%Z then [] else if alive then [((- kpid)%Z, SIGKILL)] else [])
  end.

Definition Signal (s : Service) (sig : Z) : list (Z * Z) :=
  if negb (running s) || (Pid s <=? 0)%Z then [] else [((- Pid s)%Z, sig)].

(** The service after the exit, the channel that was closed and how long the
    instance ran. *)
Definition MarkExited (s : Service) (now : Z) : Service * option nat * Z :=
  (set_run s 0 false (stopped s) None (startedAt s), done s, time_since now (startedAt s)).

(** [Done]: [None] is a channel that is already closed. *)
Definition Done (s : Service) : option nat := done s.

(** ** Facts about [New] other components rely on *)

Ltac bind_ok H :=
  repeat match type of H with
  | (_ ≫= _) = Ok _ => first
      [ match type of H with
        | ((if ?b then _ else _) ≫= _) = Ok _ => destruct b
        | (err_map _ ?r ≫= _) = Ok _ => destruct r eqn:?; cbn [err_map mbind result_bind] in H
        | (from_option_err _ ?o ≫= _) = Ok _ => destruct o eqn:?; cbn [from_option_err mbind result_bind] in H
        | (Ok _ ≫= _) = Ok _ => cbn [mbind result_bind] in H
        | (?r ≫= _) = Ok _ => destruct r eqn:?; cbn [mbind result_bind] in H
        end; try discriminate H ]
  | (if ?b then _ else _) = Ok _ => destruct b eqn:?; [discriminate H|]
  end.

(** A new service is idle and goes by the name of its process. *)
Lemma New_idle p g s : New p g = Ok s →
  Name s = process_name p ∧ running s = false ∧ Pid s = 0%Z ∧ done s = None ∧ Proc s = p.
Proof.
  unfold New, New_in. cbv zeta. intros H. bind_ok H; by injection H as <-.
Qed.

(** Whether [New] accepts a process depends neither on its arguments nor on
    prefixes. *)
Lemma New_ext p q g g' s :
  process_name q = process_name p → pStartup q = pStartup p → pSchedule q = pSchedule p →
  pStopSignal q = pStopSignal p → pKillDelay q = pKillDelay p → pBackoffDelay q = pBackoffDelay p →
  pBackoffLimit q = pBackoffLimit p → pOnCheckFailure q = pOnCheckFailure p →
  pOnSuccess q = pOnSuccess p → pOnFailure q = pOnFailure p →
  New p g = Ok s → ∃ s', New q g' = Ok s'.
Proof.
  unfold New, New_in. intros -> -> -> -> -> -> -> -> -> ->. cbv zeta. intros H.
  bind_ok H; repeat (cbn; match goal with E : ?x = _ |- context [?x] => rewrite E end); cbn; eauto.
Qed.

(** * Theorems *)

(** ** Dotenv round trip *)

(** A value as a double-quoted dotenv value. *)
Fixpoint env_escape (v : string) : string :=
  match v with
  | "" => ""
  | String c v' =>
      if bool_decide (c = "010"%char) then String backslash (String "n" (env_escape v'))
      else if bool_decide (c = backslash) then String backslash (String backslash (env_escape v'))
      else if bool_decide (c = quote) then String backslash (String quote (env_escape v'))
      else String c (env_escape v')
  end.

Definition env_quote (v : string) : string := String quote (env_escape v +:+ str1 quote).

Definition env_line (kv : string * string) : string := kv.1 +:+ String "=" (env_quote kv.2).

Definition render_env (l : list (string * string)) : string := Join (env_line <$> l) (str1 "010").

Lemma unescape_env v : dotenvUnescapeDouble (env_escape v) = v.
Proof.
  induction v as [|c v IH]; [done|]. cbn [env_escape].
  destruct (bool_decide_reflect (c = "010"%char)) as [->|]; [cbn; by rewrite IH|].
  destruct (bool_decide_reflect (c = backslash)) as [->|Hb]; [cbn; by rewrite IH|].
  destruct (bool_decide_reflect (c = quote)) as [->|]; [cbn; by rewrite IH|].
  cbn [dotenvUnescapeDouble]. rewrite bool_decide_false by done. cbn. by rewrite IH.
Qed.

Lemma env_escape_no_nl v : str_in "010" (env_escape v) = false.
Proof.
  induction v as [|c v IH]; [done|]. cbn [env_escape].
  repeat case_bool_decide; simplify_eq; cbn [str_in]; rewrite ?IH; try done.
  rewrite bool_decide_false by congruence. done.
Qed.

Lemma strip_env_escape v prev : strip_scan prev false true (env_escape v +:+ str1 quote) = None.
Proof.
  revert prev. induction v as [|c v IH]; intros prev; [done|]. cbn [env_escape].
  assert (Hne : env_escape v +:+ str1 quote ≠ "") by (by destruct (env_escape v)).
  repeat case_bool_decide; simplify_eq; cbn [String.append strip_scan];
    rewrite ?(bool_decide_true (backslash = backslash)), ?bool_decide_false by done;
    cbn; rewrite ?IH; try done.
  rewrite andb_false_r, (bool_decide_false (c = quote)) by done. cbn. rewrite !andb_false_r, ?IH. done.
Qed.

Lemma strip_env_quote v : stripDotEnvComment (env_quote v) = env_quote v.
Proof.
  unfold stripDotEnvComment, env_quote. cbn [strip_scan]. cbn -[strip_scan]. by rewrite strip_env_escape.
Qed.

Lemma env_quote_solid v : solid_ends (env_quote v).
Proof.
  split; [by exists quote, (env_escape v +:+ str1 quote)|].
  by exists (String quote (env_escape v)), quote.
Qed.

Lemma at_snoc s a : at_ (s +:+ str1 a) (String.length s) = a.
Proof. induction s as [|b s IH]; [done|]. exact IH. Qed.

Lemma dotenv_value_quote v : dotenv_value (env_quote v) = v.
Proof.
  unfold dotenv_value. rewrite TrimSpace_solid by apply env_quote_solid. rewrite strip_env_quote.
  assert (Hlen : String.length (env_quote v) = S (S (String.length (env_escape v)))).
  { unfold env_quote. cbn [String.length]. rewrite length_app_str. cbn. lia. }
  assert (Hq : quoted_by quote (env_quote v) = true).
  { unfold quoted_by, last_byte. rewrite Hlen. cbn [Nat.leb Nat.sub].
    rewrite (bool_decide_true (at_ (env_quote v) 0 = quote)) by done.
    rewrite bool_decide_true; [done|]. apply (at_snoc (String quote (env_escape v))). }
  rewrite Hq. unfold inner. rewrite Hlen. cbn [Nat.sub]. rewrite Nat.sub_0_r. cbn [env_quote drop_str].
  rewrite take_app_str. apply unescape_env.
Qed.

Definition key_byte (c : ascii) : bool := is_alpha_ c || is_digit c.

Lemma key_byte_solid c : key_byte c = true → solid c = true.
Proof. unfold key_byte, is_alpha_, is_digit, solid. cbv zeta. lia. Qed.

Lemma valid_key_bytes k : IsValidEnvKey k = true → k ≠ "" ∧ str_all key_byte k = true.
Proof.
  destruct k as [|a k]; [done|]. cbn [IsValidEnvKey str_all]. intros [Ha Hk]%andb_true_iff.
  split; [done|]. change (key_byte a && str_all key_byte k = true). unfold key_byte at 1. rewrite Ha. exact Hk.
Qed.

Lemma env_key_ends k : k ≠ "" → str_all key_byte k = true →
  (∃ a s', k = String a s' ∧ solid a = true) ∧ (∃ r b, k = r +:+ str1 b ∧ solid b = true).
Proof.
  intros Hne Hall. split.
  - destruct k as [|a k]; [done|]. exists a, k. split; [done|]. apply key_byte_solid.
    cbn in Hall. by apply andb_true_iff in Hall as [? _].
  - destruct (snoc_str k) as [->|(r & b & ->)]; [done|]. exists r, b. split; [done|].
    rewrite str_all_app in Hall. apply andb_true_iff in Hall as [_ Hb]. cbn in Hb.
    apply key_byte_solid. by rewrite andb_true_r in Hb.
Qed.

Lemma dotenv_line_env env k v :
  IsValidEnvKey k = true → dotenv_line env (env_line (k, v)) = Ok (<[k := v]> env).
Proof.
  intros Hk. destruct (valid_key_bytes k Hk) as [Hne Hall]. destruct (env_key_ends k Hne Hall) as [Hf Hl].
  unfold dotenv_line, env_line. cbn [fst snd].
  assert (HL : TrimSpace (k +:+ String "=" (env_quote v)) = k +:+ String "=" (env_quote v)).
  { apply TrimSpace_solid, solid_ends_app; [done|].
    exists (String "=" (String quote (env_escape v))), quote. done. }
  rewrite HL. destruct Hf as (a & k' & Ek & Ha).
  rewrite bool_decide_false by (by rewrite Ek).
  assert (HasPrefix (k +:+ String "=" (env_quote v)) "#" = false) as ->.
  { rewrite Ek. change (HasPrefix (String a (k' +:+ String "=" (env_quote v))) "#" = false).
    rewrite HasPrefix_cons, HasPrefix_empty, bool_decide_false; [done|]. intros ->.
    rewrite Ek in Hall. done. }
  cbn [orb]. change "=" with (str1 "="). rewrite Cut_app by (eapply str_all_in; [done|done]).
  rewrite TrimSpace_solid by (by split; [exists a, k'|]).
  rewrite bool_decide_false, Hk by done. cbn. by rewrite dotenv_value_quote.
Qed.

Lemma env_line_no_nl k v : IsValidEnvKey k = true → str_in "010" (env_line (k, v)) = false.
Proof.
  intros Hk. destruct (valid_key_bytes k Hk) as [_ Hall]. unfold env_line. cbn [fst snd].
  rewrite str_in_app, (str_all_in _ _ "010"%char Hall) by done. unfold env_quote. cbn [str_in].
  by rewrite str_in_app, env_escape_no_nl.
Qed.

Lemma render_no_bom l :
  Forall (λ kv, IsValidEnvKey kv.1 = true) l → TrimPrefix (render_env l) bom = render_env l.
Proof.
  intros Hl. unfold TrimPrefix. destruct (HasPrefix (render_env l) bom) eqn:E; [|done]. exfalso.
  destruct Hl as [|[k v] l Hk Hl]; [done|]. cbn in Hk. destruct k as [|a k]; [done|].
  unfold render_env, bom in E. cbn [fmap list_fmap] in E.
  assert (∃ s, Join (env_line (String a k, v) :: (env_line <$> l)) (str1 "010") = String a s) as [s Es].
  { cbn [Join]. destruct (env_line <$> l); eexists; cbn; reflexivity. }
  rewrite Es, HasPrefix_cons in E. apply andb_true_iff in E as [E _]. apply bool_decide_eq_true in E.
  subst a. done.
Qed.

(** C27: a dotenv file that gives each variable one double-quoted line, with
    newline, backslash and double quote escaped, parses back to exactly those
    variables: for every list of valid keys with arbitrary byte strings as
    values (hashes, quotes, spaces, line breaks, non-ASCII bytes included) the
    parser returns the map in which a later line for the same key wins. *)
Theorem dotenv_roundtrip (l : list (string * string)) :
  Forall (λ kv, IsValidEnvKey kv.1 = true) l →
  parseDotEnv (render_env l) = Ok (list_to_map (reverse l)).
Proof.
  intros Hl. unfold parseDotEnv. rewrite render_no_bom by done. unfold render_env.
  destruct (decide (l = [])) as [->|Hne]; [done|].
  rewrite Split_Join.
  2: by destruct l.
  2: { apply Forall_fmap. eapply Forall_impl; [done|]. intros [k v] Hk. by apply env_line_no_nl. }
  clear Hne. induction l as [|[k v] l IH] using rev_ind; [done|].
  apply Forall_app in Hl as [Hl Hk]. apply Forall_inv in Hk. rewrite fmap_app, foldM_app, IH by done.
  cbn [fmap list_fmap foldM]. rewrite (dotenv_line_env _ k v Hk), reverse_app. done.
Qed.

Lemma dotenv_roundtrip_witness :
  parseDotEnv (render_env [("A", "x # 1"); ("B_2", String "034" "q")]) =
  Ok (list_to_map [("B_2", String "034" "q"); ("A", "x # 1")]).
Proof.
  apply (dotenv_roundtrip [("A", "x # 1"); ("B_2", String "034" "q")]).
  repeat constructor.
Defined.

(** ** The environment of a child *)

Definition dotenv_vars (dotenv : option string) : result string (gmap string string) :=
  match dotenv with None => Ok ∅ | Some data => parseDotEnv data end.

(** The value a variable has before remove-env. *)
Definition env_source (environ : list string) (de : gmap string string) (s : Service) (k : string) : option string :=
  pEnvironment (Proc s) !! k ∪ (de !! k ∪
    ((if default false (pPassEnv (Proc s)) then os_env environ !! k else None) ∪
     (if default false (pExportSocket (Proc s)) && negb (bool_decide (ControlSocket s = ""))
         && bool_decide (k = "GOPHERD_SOCKET") then Some (ControlSocket s) else None))).

Lemma lookup_foldr_delete {A} (m : gmap string A) l k :
  foldr delete m l !! k = if bool_decide (k ∈ l) then None else m !! k.
Proof.
  induction l as [|x l IH]; [done|]. cbn [foldr]. destruct (decide (k = x)) as [->|Hne].
  - rewrite lookup_delete_eq, bool_decide_true by set_solver. done.
  - rewrite lookup_delete_ne by done. rewrite IH. by repeat case_bool_decide; set_solver.
Qed.

Lemma option_union_none {A} (x : option A) : x ∪ None = x.
Proof. by destruct x. Qed.

(** The environment a child starts with.  Preparation fails exactly when
    the dotenv file is rejected.  Otherwise every variable has the value of the
    most specific source that sets it (the process's own environment, then the
    dotenv file, then, only with pass-env, gopherd's environment, then the
    exported control socket), variables listed in remove-env are absent, and
    the keys whose values are templates are those of the process environment
    and the dotenv file that were not removed. *)
Theorem child_env_sources (environ : list string) (dotenv : option string) (s : Service) :
  match dotenv_vars dotenv with
  | Err e => child_env environ dotenv s = Err e
  | Ok de =>
      ∃ env keys, child_env environ dotenv s = Ok (env, keys) ∧
        ∀ k, env !! k = (if bool_decide (k ∈ pRemoveEnv (Proc s)) then None
                         else env_source environ de s k) ∧
             (k ∈ keys ↔ (k ∉ pRemoveEnv (Proc s)) ∧
                         (is_Some (pEnvironment (Proc s) !! k) ∨ is_Some (de !! k)))
  end.
Proof.
  unfold child_env, buildEnvMap. fold (dotenv_vars dotenv).
  destruct (dotenv_vars dotenv) as [de|e]; [|done]. cbn [mbind result_bind].
  do 2 eexists. split; [done|]. intros k. split.
  - rewrite lookup_foldr_delete. case_bool_decide; [done|]. unfold env_source, merge_env.
    set (base := if default false (pPassEnv (Proc s)) then os_env environ else ∅).
    assert (Hb : base !! k = if default false (pPassEnv (Proc s)) then os_env environ !! k else None)
      by (subst base; by destruct (default false _)).
    rewrite <- Hb. set (m := pEnvironment (Proc s) ∪ (de ∪ base)).
    assert (Hm : m !! k = pEnvironment (Proc s) !! k ∪ (de !! k ∪ base !! k))
      by (subst m; by rewrite !lookup_union).
    destruct (default false (pExportSocket (Proc s)) && _); cbn [andb]; [|by rewrite Hm, option_union_none].
    case_bool_decide as Hk.
    + subst k. destruct (m !! "GOPHERD_SOCKET") as [v|] eqn:Em; rewrite ?lookup_insert_eq, ?Em;
        revert Hm; destruct (pEnvironment (Proc s) !! _), (de !! _), (base !! _); naive_solver.
    + destruct (m !! "GOPHERD_SOCKET"); rewrite ?lookup_insert_ne by done; by rewrite Hm, option_union_none.
  - rewrite elem_of_difference, elem_of_union, !elem_of_dom, elem_of_list_to_set. naive_solver.
Qed.

(** ** Signal names *)

(** Every known signal is read back from its name, with or without the prefix,
    in either case. *)
Definition signal_ok (ns : string * Z) : bool :=
  let '(n, s) := ns in
  bool_decide (SignalName s = n) &&
  forallb (λ t, match ParseSignal t with Ok z => (z =? s)%Z | Err _ => false end)
    [n; ToLower n; drop_str 3 n; ToLower (drop_str 3 n); " " +:+ n +:+ " "].

Lemma sig_assoc_elem {A} k (l : list (string * A)) v : assoc k l = Some v → (k, v) ∈ l.
Proof.
  induction l as [|[k' v'] l IH]; [done|]. cbn [assoc]. case_bool_decide as Hk.
  - intros [= ->]. subst k'. set_solver.
  - intros H. apply IH in H. set_solver.
Qed.

Lemma assoc_none {A} k (l : list (string * A)) v : assoc k l = None → (k, v) ∉ l.
Proof.
  induction l as [|[k' v'] l IH]; cbn [assoc].
  - intros _. apply not_elem_of_nil.
  - case_bool_decide; [done|]. intros Hn [[= <- <-]|Hin]%elem_of_cons; [done|]. by apply IH in Hin.
Qed.

Lemma signal_table : forallb signal_ok signalMap = true.
Proof. by vm_compute. Qed.

Lemma signal_entry n s : (n, s) ∈ signalMap → signal_ok (n, s) = true.
Proof. intros H. eapply forallb_forall; [apply signal_table|]. by apply list_elem_of_In. Qed.

(** Signal names.  Whatever text [ParseSignal] accepts stands for a signal
    of the table (an empty one for SIGTERM); the canonical name [SignalName]
    gives each of those signals is read back as that signal, also in lower
    case, without the SIG prefix and surrounded by spaces, so a signal-rewrite
    map whose keys are canonical names is found for exactly the signal named:
    forwarding rewrites a signal to the one its entry names and forwards no
    signal without an entry. *)
Theorem signal_names (name : string) (s : Service) :
  (match ParseSignal name with
   | Ok g => ∃ n, (n, g) ∈ signalMap ∧ SignalName g = n ∧
               ParseSignal n = Ok g ∧ ParseSignal (ToLower n) = Ok g ∧
               ParseSignal (drop_str 3 n) = Ok g ∧ ParseSignal (" " +:+ n +:+ " ") = Ok g ∧
               RewriteSignal s g =
                  (to ← pSignalRewrite (Proc s) !! n;
                   Some (match ParseSignal to with Ok g' => g' | Err _ => g end))
   | Err n => TrimSpace (ToUpper name) ≠ "" ∧ ∀ g, (n, g) ∉ signalMap
   end).
Proof.
  assert (Hent : ∀ n g, (n, g) ∈ signalMap →
    SignalName g = n ∧ ParseSignal n = Ok g ∧ ParseSignal (ToLower n) = Ok g ∧
    ParseSignal (drop_str 3 n) = Ok g ∧ ParseSignal (" " +:+ n +:+ " ") = Ok g).
  { intros n g H. apply signal_entry in H. unfold signal_ok in H. cbn [forallb] in H.
    rewrite !andb_true_iff in H. destruct H as (Hn & H1 & H2 & H3 & _ & H5 & _).
    apply bool_decide_eq_true in Hn.
    assert (Hr : ∀ r : result string Z, match r with Ok z => (z =? g)%Z | Err _ => false end = true → r = Ok g)
      by (intros [z|e] Hz; [by apply Z.eqb_eq in Hz as ->|done]).
    auto 10. }
  assert (Hrw : ∀ n g, SignalName g = n → RewriteSignal s g =
    (to ← pSignalRewrite (Proc s) !! n; Some (match ParseSignal to with Ok g' => g' | Err _ => g end))).
  { intros n g <-. unfold RewriteSignal. destruct (pSignalRewrite _ !! _) as [to|]; [|done]. cbn.
    by destruct (ParseSignal to). }
  destruct (ParseSignal name) as [g|n] eqn:E.
  - assert (∃ n, (n, g) ∈ signalMap) as [n Hin].
    { unfold ParseSignal in E. cbv zeta in E. case_bool_decide.
      - injection E as <-. exists "SIGTERM". set_unfold. tauto.
      - destruct (assoc _ _) as [g'|] eqn:Ea; [|done]. injection E as ->. eexists. by apply sig_assoc_elem. }
    exists n. specialize (Hent n g Hin). destruct Hent as (? & ? & ? & ? & ?). repeat split; eauto.
  - unfold ParseSignal in E. cbv zeta in E. case_bool_decide as Hne; [done|]. split; [done|].
    destruct (assoc _ _) as [g'|] eqn:Ea; [done|]. injection E as <-. intros g. by apply assoc_none.
Qed.

(** ** The constructor *)

Definition exit_ok (text : string) : Prop := ValidateExitAction text = true.

Definition duration_parses (text : string) : Prop := text = "" ∨ is_Some (ParseDuration text).

(** What [New] requires of a process. *)
Record process_ok (p : Process) : Prop := {
  ok_schedule : pStartup p = "scheduled" → is_ok (Cron.Parse (pSchedule p)) = true;
  ok_signal : is_ok (ParseSignal (pStopSignal p)) = true;
  ok_kill_delay : duration_parses (pKillDelay p);
  ok_kill_positive : ∀ d, ParseDuration (pKillDelay p) = Some d → pKillDelay p ≠ "" → (0 ≤ d)%Z;
  ok_backoff_delay : duration_parses (pBackoffDelay p);
  ok_backoff_limit : duration_parses (pBackoffLimit p);
  ok_checks : map_Forall (λ _ a, exit_ok a) (pOnCheckFailure p);
  ok_success : exit_ok (pOnSuccess p);
  ok_failure : exit_ok (pOnFailure p);
}.

(** The action a configured text stands for. *)
Definition action_of (dflt : ExitAction) (text : string) : ExitAction :=
  default dflt (assoc text exit_actions).

Lemma ParseExitAction_spec text dflt :
  match ParseExitAction text dflt with
  | Ok a => exit_ok text ∧ a = action_of dflt text
  | Err _ => ¬ exit_ok text
  end.
Proof.
  unfold ParseExitAction, exit_ok, ValidateExitAction, action_of.
  destruct (assoc text exit_actions); [done|]. case_bool_decide; done.
Qed.

Lemma opt_duration_spec text dflt :
  match opt_duration text dflt with
  | Some d => duration_parses text ∧ (text = "" → d = dflt) ∧ (text ≠ "" → ParseDuration text = Some d)
  | None => ¬ duration_parses text
  end.
Proof.
  unfold opt_duration, duration_parses. case_bool_decide; [naive_solver|].
  destruct (ParseDuration text); [naive_solver|]. intros [?|[? ?]]; done.
Qed.

Lemma parse_check_actions_spec nm m order :
  (∀ k, k ∈ order ↔ is_Some (m !! k)) →
  match parse_check_actions nm m order with
  | Ok acc => map_Forall (λ _ a, exit_ok a) m ∧ acc = action_of ActionRestart <$> m
  | Err _ => ¬ map_Forall (λ _ a, exit_ok a) m
  end.
Proof.
  intros Hord. unfold parse_check_actions. destruct (foldM _ ∅ order) as [acc|e] eqn:E.
  - assert (H : ∀ k, k ∈ order →
      (∀ a, m !! k = Some a → exit_ok a) ∧ acc !! k = action_of ActionRestart <$> m !! k).
    { refine (foldM_ind _ (λ l acc, ∀ k, k ∈ l →
        (∀ a, m !! k = Some a → exit_ok a) ∧ acc !! k = action_of ActionRestart <$> m !! k) _ _ _ _ _ E).
      { intros k Hk. by apply not_elem_of_nil in Hk. }
      intros l1 k s1 s2 Hk IH Hf k' [Hk'|Hk']%elem_of_app.
      - destruct (IH k' Hk') as [H1 H2]. split; [done|]. destruct (m !! k) as [t|] eqn:Em; [|by simplify_eq].
        pose proof (ParseExitAction_spec t ActionRestart) as Hs.
        destruct (ParseExitAction t ActionRestart) as [a|]; [|done]. destruct Hs as [_ ->]. simplify_eq.
        destruct (decide (k = k')) as [->|]; [by rewrite lookup_insert_eq, Em|by rewrite lookup_insert_ne].
      - apply list_elem_of_singleton in Hk' as ->. apply Hord in Hk as [t Ht]. rewrite Ht in Hf.
        pose proof (ParseExitAction_spec t ActionRestart) as Hs.
        destruct (ParseExitAction t ActionRestart) as [a|]; [|done]. destruct Hs as [Ho ->]. simplify_eq.
        rewrite lookup_insert_eq, Ht. split; [naive_solver|done]. }
    assert (Hdom : ∀ k, (k ∉ order) → acc !! k = None).
    { intros k. refine (foldM_ind _ (λ l acc, (k ∉ l) → acc !! k = None) _ _ _ _ _ E); [done|].
      intros l1 x s1 s2 Hx IH Hf Hn. destruct (m !! x) as [t|]; [|set_solver].
      destruct (ParseExitAction t ActionRestart); [|done]. simplify_eq.
      rewrite lookup_insert_ne by set_solver. set_solver. }
    split.
    + intros k a Hk. eapply H; [apply Hord; eauto|done].
    + apply map_eq. intros k. rewrite lookup_fmap. destruct (decide (k ∈ order)) as [Hk|Hk]; [by apply H|].
      rewrite Hdom by done. destruct (m !! k) eqn:Em; [|done]. exfalso. apply Hk, Hord. eauto.
  - apply foldM_err in E as (l1 & k & l2 & s1 & -> & _ & Hf). intros Hall.
    destruct (m !! k) as [t|] eqn:Em; [|done]. pose proof (ParseExitAction_spec t ActionRestart) as Hs.
    destruct (ParseExitAction t ActionRestart); [done|]. apply Hs. by eapply Hall.
Qed.

Lemma elem_of_keys {A} (m : gmap string A) k : k ∈ (map_to_list m).*1 ↔ is_Some (m !! k).
Proof.
  rewrite list_elem_of_fmap. split.
  - intros ([k' v] & -> & H%elem_of_map_to_list). eauto.
  - intros [v H]. exists (k, v). split; [done|]. by apply elem_of_map_to_list.
Qed.

(** [New] accepts exactly the processes whose schedule (when scheduled),
    stop signal, durations and exit actions are valid, whatever order it walks
    the on-check-failure map in; the service it builds is idle, goes by the
    process's name (or its command), has a non-negative kill delay (ten seconds
    by default), a schedule exactly when it is scheduled, shutdown as default
    exit action, restart as default check action, and positive backoff bounds. *)
Theorem service_new (p : Process) (g : string) :
  match New p g with
  | Ok s =>
      process_ok p ∧ Proc s = p ∧ Name s = (if decide (pName p = "") then pCommand p else pName p) ∧
      running s = false ∧ done s = None ∧ stopped s = false ∧ Pid s = 0%Z ∧
      Enabled s = negb (bool_decide (pStartup p = "disabled")) ∧
      (Scheduled s = true ↔ is_Some (sched s)) ∧
      ParseSignal (pStopSignal p) = Ok (stopSignal s) ∧ (0 ≤ killDelay s)%Z ∧
      (pKillDelay p = "" → killDelay s = (10 * Second)%Z) ∧
      OnSuccess s = action_of ActionShutdown (pOnSuccess p) ∧
      OnFailure s = action_of ActionShutdown (pOnFailure p) ∧
      OnCheckFailure s = action_of ActionRestart <$> pOnCheckFailure p ∧
      (∀ r, r ∈ Requires s ↔ r ∈ pRequires p) ∧
      (0 < delay (backoff s))%Z ∧ (0 < Limit (backoff s))%Z
  | Err _ => ¬ process_ok p
  end.
Proof.
  unfold New, New_in. cbv zeta.
  pose proof (ParseExitAction_spec (pOnSuccess p) ActionShutdown) as HS.
  pose proof (ParseExitAction_spec (pOnFailure p) ActionShutdown) as HF.
  pose proof (opt_duration_spec (pKillDelay p) DefaultKillDelay) as HK.
  pose proof (opt_duration_spec (pBackoffDelay p) 0) as HBD.
  pose proof (opt_duration_spec (pBackoffLimit p) 0) as HBL.
  pose proof (parse_check_actions_spec (process_name p) (pOnCheckFailure p)
    (map_to_list (pOnCheckFailure p)).*1) as HC.
  specialize (HC (elem_of_keys _)).
  destruct (bool_decide_reflect (pStartup p = "scheduled")) as [Hsch|Hsch].
  1: destruct (Cron.Parse (pSchedule p)) as [sc|e] eqn:Hcron;
       [|intros H; pose proof (ok_schedule p H Hsch) as Hs; by rewrite Hcron in Hs].
  all: cbn [err_map mbind result_bind].
  all: destruct (ParseSignal (pStopSignal p)) as [sg|e] eqn:Hsig; cbn [err_map mbind result_bind];
       [|intros H; pose proof (ok_signal p H) as Hs; by rewrite Hsig in Hs].
  all: destruct (opt_duration (pKillDelay p) DefaultKillDelay) as [kd|]; cbn [from_option_err mbind result_bind];
       [|intros H; by apply HK, ok_kill_delay].
  all: destruct HK as (HK1 & HK2 & HK3).
  all: destruct (Z.ltb_spec kd 0) as [Hneg|Hpos];
       [intros H; destruct (decide (pKillDelay p = "")) as [E|E];
         [specialize (HK2 E); unfold DefaultKillDelay, Second in HK2; lia|
          pose proof (ok_kill_positive p H kd (HK3 E) E); lia]|].
  all: destruct (opt_duration (pBackoffDelay p) 0) as [bd|]; cbn [from_option_err mbind result_bind];
       [|intros H; by apply HBD, ok_backoff_delay].
  all: destruct (opt_duration (pBackoffLimit p) 0) as [bl|]; cbn [from_option_err mbind result_bind];
       [|intros H; by apply HBL, ok_backoff_limit].
  all: destruct (parse_check_actions _ _ _) as [cm|]; cbn [mbind result_bind];
       [|intros H; by apply HC, ok_checks].
  all: destruct (ParseExitAction (pOnSuccess p) ActionShutdown) as [as_|]; cbn [err_map mbind result_bind];
       [|intros H; by apply HS, ok_success].
  all: destruct (ParseExitAction (pOnFailure p) ActionShutdown) as [af|]; cbn [err_map mbind result_bind];
       [|intros H; by apply HF, ok_failure].
  all: destruct HC as [HC1 HC2], HS as [HS1 HS2], HF as [HF1 HF2], HBD as [HBD _], HBL as [HBL _].
  all: assert (Hok : process_ok p) by (constructor; try done; intros; simplify_eq; try (by rewrite Hcron);
         rewrite ?Hsig; try done; assert (d = kd) by (apply (inj Some); rewrite <- HK3 by done; done); lia).
  all: cbn; unfold process_name; split_and!; try done.
  all: try (intros r; by rewrite elem_of_list_to_set).
  all: try (unfold Second; case_match; lia).
  all: by case_bool_decide; case_decide.
Qed.

End Service.
