(* ===== verification/Conc.v ===== *)
(** * Goroutines: programs of atomic actions and their interleavings

    A goroutine is a [prog]: a tree of atomic actions on the shared state, each
    fed one input from outside (what the kernel, the clock or a client answers)
    and blocked while it returns [None].  [go] spawns.  A pool of goroutines is
    run by an arbitrary scheduler, as a relation ([cstep]) and as an executable
    function ([run_pool]).  The rest of the file is a rely-guarantee logic: from
    an invariant and a guarantee every action keeps, what a goroutine
    establishes under the interference of all the others. *)

From S2P Require Import Prelude.

Module Conc.

Section prog.
Context {S E : Type}.

Inductive prog (A : Type) : Type :=
  | Return (a : A)
  | Act {X : Type} (f : E → S → option (X * S)) (k : X → prog A)
  | Go (p : prog unit) (k : prog A)
  | GoLoop (body : prog bool) (k : prog A).

Fixpoint pbind {A B : Type} (p : prog A) (h : A → prog B) : prog B :=
  match p with
  | Return _ a => h a
  | Act _ f k => Act _ f (λ x, pbind (k x) h)
  | Go _ q k => Go _ q (pbind k h)
  | GoLoop _ b k => GoLoop _ b (pbind k h)
  end.

(** A loop goroutine runs [body] again while it returns [true], then [after]. *)
Inductive thread : Type :=
  | Once (p : prog unit)
  | Loop (cur : prog bool) (body : prog bool) (after : prog unit).

Definition prog_step {A : Type} (e : E) (s : S) (p : prog A) : option (prog A * S * list thread) :=
  match p with
  | Return _ _ => None
  | Act _ f k => match f e s with Some (x, s') => Some (k x, s', []) | None => None end
  | Go _ q k => Some (k, s, [Once q])
  | GoLoop _ b k => Some (k, s, [Loop b b (Return _ tt)])
  end.

Definition thread_step (e : E) (s : S) (t : thread) : option (thread * S * list thread) :=
  match t with
  | Once p => match prog_step e s p with Some (p', s', new) => Some (Once p', s', new) | None => None end
  | Loop (Return _ true) body after => Some (Loop body body after, s, [])
  | Loop (Return _ false) body after => Some (Once after, s, [])
  | Loop cur body after =>
      match prog_step e s cur with Some (p', s', new) => Some (Loop p' body after, s', new) | None => None end
  end.

Record config := mkConfig { st : S; pool : list thread }.

Definition step_thread (c : config) (ie : nat * E) : option config :=
  t ← pool c !! ie.1;
  match thread_step ie.2 (st c) t with
  | Some (t', s', new) => Some (mkConfig s' (<[ie.1 := t']> (pool c) ++ new))
  | None => None
  end.

(** One step of some goroutine. *)
Definition cstep (c c' : config) : Prop := ∃ ie, step_thread c ie = Some c'.

(** A scheduler is the list of its choices. *)
Fixpoint run_pool (sched : list (nat * E)) (c : config) : option config :=
  match sched with
  | [] => Some c
  | ie :: sched => c' ← step_thread c ie; run_pool sched c'
  end.

Lemma run_pool_reachable sched c c' : run_pool sched c = Some c' → rtc cstep c c'.
Proof.
  revert c. induction sched as [|ie sched IH]; intros c; cbn [run_pool].
  - intros [= ->]. apply rtc_refl.
  - destruct (step_thread c ie) as [c1|] eqn:E1; [|done]. cbn. intros H.
    eapply rtc_l; [by exists ie|by apply IH].
Qed.

(** ** Rely-guarantee *)

Section logic.
Context (I : S → Prop) (G : S → S → Prop).

(** The other goroutines take any number of guaranteed steps before each action. *)
Fixpoint wp {A : Type} (p : prog A) (Q : A → S → Prop) (s : S) : Prop :=
  match p with
  | Return _ a => Q a s
  | Act _ f k => ∀ e s1 x s2, rtc G s s1 → I s1 → f e s1 = Some (x, s2) →
                   I s2 ∧ G s1 s2 ∧ wp (k x) Q s2
  | Go _ q k => wp q (λ _ _, True) s ∧ wp k Q s
  | GoLoop _ b k => (∀ s', rtc G s s' → I s' → wp b (λ _ _, True) s') ∧ wp k Q s
  end.

Definition stable (P : S → Prop) : Prop := ∀ s s', P s → G s s' → P s'.

Lemma stable_rtc P s s' : stable P → P s → rtc G s s' → P s'.
Proof. intros HP Hs Hr. induction Hr as [|s1 s2 s3 Hg _ IH]; [done|]. apply IH. by eapply HP. Qed.

Lemma wp_mono {A : Type} (p : prog A) (Q Q' : A → S → Prop) s :
  (∀ a s, Q a s → Q' a s) → wp p Q s → wp p Q' s.
Proof.
  intros HQ. revert s. induction p as [A a|A X f k IH|A q IHq k IHk|A b IHb k IHk]; intros s; cbn [wp].
  - apply HQ.
  - intros Hp e s1 x s2 Hr HI Hf. destruct (Hp e s1 x s2 Hr HI Hf) as (? & ? & ?). eauto.
  - intros [? ?]. split; [done|]. by eapply IHk.
  - intros [? ?]. split; [done|]. by eapply IHk.
Qed.

Lemma wp_rely {A : Type} (p : prog A) (Q : A → S → Prop) s s' :
  (∀ a, stable (Q a)) → wp p Q s → rtc G s s' → wp p Q s'.
Proof.
  intros HQ. revert s s'. induction p as [A a|A X f k IH|A q IHq k IHk|A b IHb k IHk];
    intros s s' Hp Hr; cbn [wp] in *.
  - by eapply stable_rtc.
  - intros e s1 x s2 Hr1 HI Hf. eapply Hp; [by etrans|done|done].
  - destruct Hp as [Hq Hk]. split; [|by eapply IHk]. eapply IHq; [|exact Hq|done]. by intros _ ? ?.
  - destruct Hp as [Hb Hk]. split; [|by eapply IHk]. intros s2 Hr2. apply Hb. by etrans.
Qed.

Lemma wp_bind {A B : Type} (p : prog A) (h : A → prog B) Q s :
  wp p (λ a s, wp (h a) Q s) s → wp (pbind p h) Q s.
Proof.
  revert s. induction p as [A a|A X f k IH|A q IHq k IHk|A b IHb k IHk]; intros s; cbn [wp pbind].
  - done.
  - intros Hp e s1 x s2 Hr HI Hf. destruct (Hp e s1 x s2 Hr HI Hf) as (? & ? & ?). eauto.
  - intros [? ?]. eauto.
  - intros [? ?]. eauto.
Qed.

(** An action followed by a program that only needs the invariant. *)
Lemma wp_act {A X : Type} (f : E → S → option (X * S)) (k : X → prog A) Q s :
  (∀ e s1 x s2, I s1 → f e s1 = Some (x, s2) → I s2 ∧ G s1 s2) →
  (∀ x s2, I s2 → wp (k x) Q s2) →
  wp (Act _ f k) Q s.
Proof. intros Hf Hk e s1 x s2 _ HI Hs. destruct (Hf _ _ _ _ HI Hs). auto. Qed.

(** What holds when a loop is left is what [after] may rely on. *)
Definition thread_ok (t : thread) (s : S) : Prop :=
  match t with
  | Once p => wp p (λ _ _, True) s
  | Loop cur body after =>
      ∃ J, stable J ∧
        wp cur (λ b s, b = false → J s) s ∧
        (∀ s', rtc G s s' → I s' → wp body (λ b s, b = false → J s) s') ∧
        (∀ s', rtc G s s' → I s' → J s' → wp after (λ _ _, True) s')
  end.

Lemma thread_ok_rely t s s' : thread_ok t s → rtc G s s' → thread_ok t s'.
Proof.
  destruct t as [p|cur body after]; cbn [thread_ok].
  - intros. eapply wp_rely; [|done|done]. by intros _ ? ?.
  - intros (J & HJ & Hc & Hb & Ha) Hr. exists J. split_and!; [done| | |].
    + eapply wp_rely; [|done|done]. intros b x y Hx HG Eb. by eapply HJ; [apply Hx|].
    + intros s2 Hr2. apply Hb. by etrans.
    + intros s2 Hr2. apply Ha. by etrans.
Qed.

Lemma prog_step_ok {A : Type} (p p' : prog A) Q e s s' new :
  I s → wp p Q s → prog_step e s p = Some (p', s', new) →
  I s' ∧ (s = s' ∨ G s s') ∧ wp p' Q s' ∧ Forall (λ t, thread_ok t s') new.
Proof.
  intros HI Hp. destruct p as [a|X f k|q k|b k]; cbn [prog_step wp] in *; [done| | |].
  - destruct (f e s) as [[x s1]|] eqn:Hf; [|done]. intros [= <- <- <-].
    destruct (Hp e s x s1 (rtc_refl _ _) HI Hf) as (? & ? & ?). auto.
  - intros [= <- <- <-]. destruct Hp. repeat (split || constructor || auto).
  - intros [= <- <- <-]. destruct Hp as [Hb Hk]. split_and!; auto. constructor; [|constructor].
    exists (λ _, True). split_and!; [done| | |done]; intros; (eapply wp_mono; [|by apply Hb; auto using rtc_refl]); done.
Qed.

Lemma thread_step_ok t t' e s s' new :
  I s → thread_ok t s → thread_step e s t = Some (t', s', new) →
  I s' ∧ (s = s' ∨ G s s') ∧ thread_ok t' s' ∧ Forall (λ t, thread_ok t s') new.
Proof.
  intros HI Ht. destruct t as [p|cur body after]; cbn [thread_step thread_ok] in *.
  - destruct (prog_step e s p) as [[[p1 s1] n1]|] eqn:Hp; [|done]. intros [= <- <- <-].
    by eapply prog_step_ok.
  - destruct Ht as (J & HJ & Hc & Hb & Ha).
    assert (Hgen : match prog_step e s cur with
        | Some (p', s', new) => Some (Loop p' body after, s', new) | None => None end = Some (t', s', new) →
        I s' ∧ (s = s' ∨ G s s') ∧ thread_ok t' s' ∧ Forall (λ t, thread_ok t s') new).
    { destruct (prog_step e s cur) as [[[p1 s1] n1]|] eqn:Hp; [|done]. intros [= <- <- <-].
      destruct (prog_step_ok _ _ _ _ _ _ _ HI Hc Hp) as (HI1 & Hg & Hw & Hn). split_and!; auto.
      assert (Hr1 : rtc G s s1) by (destruct Hg as [->|Hg]; [apply rtc_refl|by apply rtc_once]).
      exists J. split_and!; [done|done| |]; intros s2 Hr; [apply Hb|apply Ha]; by etrans. }
    destruct cur as [[]| | |]; try exact Hgen; intros [= <- <- <-]; split_and!; auto.
    + exists J. split_and!; auto using rtc_refl.
    + apply Ha; auto using rtc_refl.
Qed.

(** Every reachable configuration satisfies the invariant, and every step keeps
    the guarantee. *)
Theorem adequacy c c' :
  I (st c) → Forall (λ t, thread_ok t (st c)) (pool c) → rtc cstep c c' →
  I (st c') ∧ Forall (λ t, thread_ok t (st c')) (pool c') ∧ rtc G (st c) (st c').
Proof.
  intros HI Ht Hr. induction Hr as [|c c1 c2 [[i e] Hs] _ IH]; [auto using rtc_refl|].
  unfold step_thread in Hs. cbn [fst snd] in Hs. destruct (pool c !! i) as [t|] eqn:Hi; [|done].
  cbn in Hs. destruct (thread_step e (st c) t) as [[[t' s'] new]|] eqn:Ht'; [|done]. injection Hs as <-.
  assert (Hok : thread_ok t (st c)) by exact (Forall_lookup_1 _ _ _ _ Ht Hi).
  destruct (thread_step_ok _ _ _ _ _ _ HI Hok Ht') as (HI' & Hg & Hok' & Hn). cbn in IH.
  assert (Hrg : rtc G (st c) s') by (destruct Hg as [->|Hg]; [apply rtc_refl|by apply rtc_once]).
  destruct IH as (? & ? & ?); [done| |].
  - apply Forall_app. split; [|done]. apply Forall_insert; [|done].
    eapply Forall_impl; [exact Ht|]. intros t0 Ht0. exact (thread_ok_rely _ _ _ Ht0 Hrg).
  - split_and!; [done|done|by etrans].
Qed.

Lemma adequacy_step c c1 c2 :
  I (st c) → Forall (λ t, thread_ok t (st c)) (pool c) → rtc cstep c c1 → cstep c1 c2 →
  st c1 = st c2 ∨ G (st c1) (st c2).
Proof.
  intros HI Ht Hr [[i e] Hs]. destruct (adequacy _ _ HI Ht Hr) as (HI1 & Ht1 & _).
  unfold step_thread in Hs. cbn [fst snd] in Hs. destruct (pool c1 !! i) as [t|] eqn:Hi; [|done].
  cbn in Hs. destruct (thread_step e (st c1) t) as [[[t' s'] new]|] eqn:Ht'; [|done]. injection Hs as <-.
  assert (Hok : thread_ok t (st c1)) by exact (Forall_lookup_1 _ _ _ _ Ht1 Hi).
  by destruct (thread_step_ok _ _ _ _ _ _ HI1 Hok Ht') as (_ & Hg & _).
Qed.
End logic.
End prog.

Arguments prog : clear implicits.
Arguments thread : clear implicits.
Arguments config : clear implicits.
Arguments Return {S E A} a.
Arguments Act {S E A X} f k.
Arguments Go {S E A} p k.
Arguments GoLoop {S E A} body k.
Arguments Once {S E} p.
Arguments Loop {S E} cur body after.

End Conc.
