(* ===== verification/DaemonState.v ===== *)
(** * The daemon's shared state: src/daemon.go (type daemon), src/run.go

    The fields of [daemon] with what they point at: the [Service] objects in a
    heap (a map from addresses, so that replaced instances live on and aliasing
    is explicit), the done channels as a store of channel names, and the
    children and zombies the kernel keeps for the process.  [trace] records the
    observable effects in order; it is never read.  One setter per field. *)

From S2P Require Import Prelude GoStrings Metrics Reaper Check Service.

Open Scope string_scope.
Open Scope list_scope.
Open Scope nat_scope.

Module DaemonState.

(** The part of yml.Config the daemon reads. *)
Record Config := mkConfig {
  Processes : list Service.Process;
  Prefix : string;
  ShutdownOrder : string;
  Checks : gmap string Check.Config;
  Subreaper : bool;
}.

(** [syscall.WaitStatus] *)
Inductive WaitStatus :=
  | Exited (status : Z)
  | Signaled (sig : Z)
  | OtherStatus.

Definition waitStatusCode (ws : WaitStatus) : Z :=
  match ws with
  | Exited c => c
  | Signaled sig => (128 + sig)%Z
  | OtherStatus => 1%Z
  end.

(** A restart request: [rdone] is the captured done channel ([None]: one that is
    closed already). *)
Record restartReq := mkReq {
  rsvc : nat;
  rdone : option nat;
  rdelay : Z;
}.

(** The errors of the daemon's operations; [ErrPrepare] and [ErrFork] stand for
    any failure of [PrepareStart] and [FinishStart]. *)
Inductive derr :=
  | ErrShuttingDown
  | ErrServiceReplaced
  | ErrAlreadyRunning
  | ErrConditionUnmet
  | ErrPrepare
  | ErrFork
  | ErrReadyCheckUnknown (name check : string)
  | ErrReadyCheck (name : string) (e : Check.new_err)
  | ErrReadyTimeout (name text : string)
  | ErrNotReady (name check : string)
  | ErrNoNotify (name : string)
  | ErrStillRunning (name : string)
  | ErrInProgress (name verb : string)
  | ErrSkipped (name reason : string)
  | ErrStart (name : string) (e : derr)
  | ErrUnknownService (name : string)
  | ErrNotRunning (name : string)
  | ErrUnknownSignal (sig : string).

(** What the outside world sees the daemon do. *)
Inductive event :=
  | EFork (id : nat) (pid : Z)
  | EReaped (id : nat) (pid : Z)
  | EKill (target sig : Z)
  | EShutdownStop (id : nat)
  | EReturn (code : Z).

Record daemon := mkDaemon {
  heap : gmap nat Service.Service;
  nextId : nat;
  cfg : Config;
  services : gmap string nat;
  m : Metrics.Metrics;
  pidMap : gmap Z nat;
  restartCh : list restartReq;
  shutdownCh : bool;
  stopAllDone : bool;
  childStarted : bool;
  reaper : Reaper.Registry;
  restartPending : gset string;
  controlSocket : string;
  shutdownMode : string;
  checkers : list string;
  schedulers : list nat;
  entrypointArgs : list string;
  shutdownSeq : list string;
  senderWg : Z;
  reloadMu : bool;
  pendingRestarts : Z;
  exitCode : Z;
  shuttingDown : bool;
  started : bool;
  closedCh : gset nat;
  nextCh : nat;
  results : gmap nat (option derr);
  children : gset Z;
  zombies : gmap Z WaitStatus;
  returned : option Z;
  trace : list event;
}.

Definition set_heap (v : gmap nat Service.Service) (d : daemon) : daemon :=
  mkDaemon v (nextId d) (cfg d) (services d) (m d) (pidMap d) (restartCh d) (shutdownCh d)
    (stopAllDone d) (childStarted d) (reaper d) (restartPending d) (controlSocket d)
    (shutdownMode d) (checkers d) (schedulers d) (entrypointArgs d) (shutdownSeq d) (senderWg d)
    (reloadMu d) (pendingRestarts d) (exitCode d) (shuttingDown d) (started d) (closedCh d)
    (nextCh d) (results d) (children d) (zombies d) (returned d) (trace d).
Definition set_nextId (v : nat) (d : daemon) : daemon :=
  mkDaemon (heap d) v (cfg d) (services d) (m d) (pidMap d) (restartCh d) (shutdownCh d)
    (stopAllDone d) (childStarted d) (reaper d) (restartPending d) (controlSocket d)
    (shutdownMode d) (checkers d) (schedulers d) (entrypointArgs d) (shutdownSeq d) (senderWg d)
    (reloadMu d) (pendingRestarts d) (exitCode d) (shuttingDown d) (started d) (closedCh d)
    (nextCh d) (results d) (children d) (zombies d) (returned d) (trace d).
Definition set_cfg (v : Config) (d : daemon) : daemon :=
  mkDaemon (heap d) (nextId d) v (services d) (m d) (pidMap d) (restartCh d) (shutdownCh d)
    (stopAllDone d) (childStarted d) (reaper d) (restartPending d) (controlSocket d)
    (shutdownMode d) (checkers d) (schedulers d) (entrypointArgs d) (shutdownSeq d) (senderWg d)
    (reloadMu d) (pendingRestarts d) (exitCode d) (shuttingDown d) (started d) (closedCh d)
    (nextCh d) (results d) (children d) (zombies d) (returned d) (trace d).
Definition set_services (v : gmap string nat) (d : daemon) : daemon :=
  mkDaemon (heap d) (nextId d) (cfg d) v (m d) (pidMap d) (restartCh d) (shutdownCh d)
    (stopAllDone d) (childStarted d) (reaper d) (restartPending d) (controlSocket d)
    (shutdownMode d) (checkers d) (schedulers d) (entrypointArgs d) (shutdownSeq d) (senderWg d)
    (reloadMu d) (pendingRestarts d) (exitCode d) (shuttingDown d) (started d) (closedCh d)
    (nextCh d) (results d) (children d) (zombies d) (returned d) (trace d).
Definition set_m (v : Metrics.Metrics) (d : daemon) : daemon :=
  mkDaemon (heap d) (nextId d) (cfg d) (services d) v (pidMap d) (restartCh d) (shutdownCh d)
    (stopAllDone d) (childStarted d) (reaper d) (restartPending d) (controlSocket d)
    (shutdownMode d) (checkers d) (schedulers d) (entrypointArgs d) (shutdownSeq d) (senderWg d)
    (reloadMu d) (pendingRestarts d) (exitCode d) (shuttingDown d) (started d) (closedCh d)
    (nextCh d) (results d) (children d) (zombies d) (returned d) (trace d).
Definition set_pidMap (v : gmap Z nat) (d : daemon) : daemon :=
  mkDaemon (heap d) (nextId d) (cfg d) (services d) (m d) v (restartCh d) (shutdownCh d)
    (stopAllDone d) (childStarted d) (reaper d) (restartPending d) (controlSocket d)
    (shutdownMode d) (checkers d) (schedulers d) (entrypointArgs d) (shutdownSeq d) (senderWg d)
    (reloadMu d) (pendingRestarts d) (exitCode d) (shuttingDown d) (started d) (closedCh d)
    (nextCh d) (results d) (children d) (zombies d) (returned d) (trace d).
Definition set_restartCh (v : list restartReq) (d : daemon) : daemon :=
  mkDaemon (heap d) (nextId d) (cfg d) (services d) (m d) (pidMap d) v (shutdownCh d)
    (stopAllDone d) (childStarted d) (reaper d) (restartPending d) (controlSocket d)
    (shutdownMode d) (checkers d) (schedulers d) (entrypointArgs d) (shutdownSeq d) (senderWg d)
    (reloadMu d) (pendingRestarts d) (exitCode d) (shuttingDown d) (started d) (closedCh d)
    (nextCh d) (results d) (children d) (zombies d) (returned d) (trace d).
Definition set_shutdownCh (v : bool) (d : daemon) : daemon :=
  mkDaemon (heap d) (nextId d) (cfg d) (services d) (m d) (pidMap d) (restartCh d) v
    (stopAllDone d) (childStarted d) (reaper d) (restartPending d) (controlSocket d)
    (shutdownMode d) (checkers d) (schedulers d) (entrypointArgs d) (shutdownSeq d) (senderWg d)
    (reloadMu d) (pendingRestarts d) (exitCode d) (shuttingDown d) (started d) (closedCh d)
    (nextCh d) (results d) (children d) (zombies d) (returned d) (trace d).
Definition set_stopAllDone (v : bool) (d : daemon) : daemon :=
  mkDaemon (heap d) (nextId d) (cfg d) (services d) (m d) (pidMap d) (restartCh d) (shutdownCh
    d) v (childStarted d) (reaper d) (restartPending d) (controlSocket d) (shutdownMode d)
    (checkers d) (schedulers d) (entrypointArgs d) (shutdownSeq d) (senderWg d) (reloadMu d)
    (pendingRestarts d) (exitCode d) (shuttingDown d) (started d) (closedCh d) (nextCh d)
    (results d) (children d) (zombies d) (returned d) (trace d).
Definition set_childStarted (v : bool) (d : daemon) : daemon :=
  mkDaemon (heap d) (nextId d) (cfg d) (services d) (m d) (pidMap d) (restartCh d) (shutdownCh
    d) (stopAllDone d) v (reaper d) (restartPending d) (controlSocket d) (shutdownMode d)
    (checkers d) (schedulers d) (entrypointArgs d) (shutdownSeq d) (senderWg d) (reloadMu d)
    (pendingRestarts d) (exitCode d) (shuttingDown d) (started d) (closedCh d) (nextCh d)
    (results d) (children d) (zombies d) (returned d) (trace d).
Definition set_reaper (v : Reaper.Registry) (d : daemon) : daemon :=
  mkDaemon (heap d) (nextId d) (cfg d) (services d) (m d) (pidMap d) (restartCh d) (shutdownCh
    d) (stopAllDone d) (childStarted d) v (restartPending d) (controlSocket d) (shutdownMode d)
    (checkers d) (schedulers d) (entrypointArgs d) (shutdownSeq d) (senderWg d) (reloadMu d)
    (pendingRestarts d) (exitCode d) (shuttingDown d) (started d) (closedCh d) (nextCh d)
    (results d) (children d) (zombies d) (returned d) (trace d).
Definition set_restartPending (v : gset string) (d : daemon) : daemon :=
  mkDaemon (heap d) (nextId d) (cfg d) (services d) (m d) (pidMap d) (restartCh d) (shutdownCh
    d) (stopAllDone d) (childStarted d) (reaper d) v (controlSocket d) (shutdownMode d)
    (checkers d) (schedulers d) (entrypointArgs d) (shutdownSeq d) (senderWg d) (reloadMu d)
    (pendingRestarts d) (exitCode d) (shuttingDown d) (started d) (closedCh d) (nextCh d)
    (results d) (children d) (zombies d) (returned d) (trace d).
Definition set_controlSocket (v : string) (d : daemon) : daemon :=
  mkDaemon (heap d) (nextId d) (cfg d) (services d) (m d) (pidMap d) (restartCh d) (shutdownCh
    d) (stopAllDone d) (childStarted d) (reaper d) (restartPending d) v (shutdownMode d)
    (checkers d) (schedulers d) (entrypointArgs d) (shutdownSeq d) (senderWg d) (reloadMu d)
    (pendingRestarts d) (exitCode d) (shuttingDown d) (started d) (closedCh d) (nextCh d)
    (results d) (children d) (zombies d) (returned d) (trace d).
Definition set_shutdownMode (v : string) (d : daemon) : daemon :=
  mkDaemon (heap d) (nextId d) (cfg d) (services d) (m d) (pidMap d) (restartCh d) (shutdownCh
    d) (stopAllDone d) (childStarted d) (reaper d) (restartPending d) (controlSocket d) v
    (checkers d) (schedulers d) (entrypointArgs d) (shutdownSeq d) (senderWg d) (reloadMu d)
    (pendingRestarts d) (exitCode d) (shuttingDown d) (started d) (closedCh d) (nextCh d)
    (results d) (children d) (zombies d) (returned d) (trace d).
Definition set_checkers (v : list string) (d : daemon) : daemon :=
  mkDaemon (heap d) (nextId d) (cfg d) (services d) (m d) (pidMap d) (restartCh d) (shutdownCh
    d) (stopAllDone d) (childStarted d) (reaper d) (restartPending d) (controlSocket d)
    (shutdownMode d) v (schedulers d) (entrypointArgs d) (shutdownSeq d) (senderWg d) (reloadMu
    d) (pendingRestarts d) (exitCode d) (shuttingDown d) (started d) (closedCh d) (nextCh d)
    (results d) (children d) (zombies d) (returned d) (trace d).
Definition set_schedulers (v : list nat) (d : daemon) : daemon :=
  mkDaemon (heap d) (nextId d) (cfg d) (services d) (m d) (pidMap d) (restartCh d) (shutdownCh
    d) (stopAllDone d) (childStarted d) (reaper d) (restartPending d) (controlSocket d)
    (shutdownMode d) (checkers d) v (entrypointArgs d) (shutdownSeq d) (senderWg d) (reloadMu d)
    (pendingRestarts d) (exitCode d) (shuttingDown d) (started d) (closedCh d) (nextCh d)
    (results d) (children d) (zombies d) (returned d) (trace d).
Definition set_entrypointArgs (v : list string) (d : daemon) : daemon :=
  mkDaemon (heap d) (nextId d) (cfg d) (services d) (m d) (pidMap d) (restartCh d) (shutdownCh
    d) (stopAllDone d) (childStarted d) (reaper d) (restartPending d) (controlSocket d)
    (shutdownMode d) (checkers d) (schedulers d) v (shutdownSeq d) (senderWg d) (reloadMu d)
    (pendingRestarts d) (exitCode d) (shuttingDown d) (started d) (closedCh d) (nextCh d)
    (results d) (children d) (zombies d) (returned d) (trace d).
Definition set_shutdownSeq (v : list string) (d : daemon) : daemon :=
  mkDaemon (heap d) (nextId d) (cfg d) (services d) (m d) (pidMap d) (restartCh d) (shutdownCh
    d) (stopAllDone d) (childStarted d) (reaper d) (restartPending d) (controlSocket d)
    (shutdownMode d) (checkers d) (schedulers d) (entrypointArgs d) v (senderWg d) (reloadMu d)
    (pendingRestarts d) (exitCode d) (shuttingDown d) (started d) (closedCh d) (nextCh d)
    (results d) (children d) (zombies d) (returned d) (trace d).
Definition set_senderWg (v : Z) (d : daemon) : daemon :=
  mkDaemon (heap d) (nextId d) (cfg d) (services d) (m d) (pidMap d) (restartCh d) (shutdownCh
    d) (stopAllDone d) (childStarted d) (reaper d) (restartPending d) (controlSocket d)
    (shutdownMode d) (checkers d) (schedulers d) (entrypointArgs d) (shutdownSeq d) v (reloadMu
    d) (pendingRestarts d) (exitCode d) (shuttingDown d) (started d) (closedCh d) (nextCh d)
    (results d) (children d) (zombies d) (returned d) (trace d).
Definition set_reloadMu (v : bool) (d : daemon) : daemon :=
  mkDaemon (heap d) (nextId d) (cfg d) (services d) (m d) (pidMap d) (restartCh d) (shutdownCh
    d) (stopAllDone d) (childStarted d) (reaper d) (restartPending d) (controlSocket d)
    (shutdownMode d) (checkers d) (schedulers d) (entrypointArgs d) (shutdownSeq d) (senderWg d)
    v (pendingRestarts d) (exitCode d) (shuttingDown d) (started d) (closedCh d) (nextCh d)
    (results d) (children d) (zombies d) (returned d) (trace d).
Definition set_pendingRestarts (v : Z) (d : daemon) : daemon :=
  mkDaemon (heap d) (nextId d) (cfg d) (services d) (m d) (pidMap d) (restartCh d) (shutdownCh
    d) (stopAllDone d) (childStarted d) (reaper d) (restartPending d) (controlSocket d)
    (shutdownMode d) (checkers d) (schedulers d) (entrypointArgs d) (shutdownSeq d) (senderWg d)
    (reloadMu d) v (exitCode d) (shuttingDown d) (started d) (closedCh d) (nextCh d) (results d)
    (children d) (zombies d) (returned d) (trace d).
Definition set_exitCode (v : Z) (d : daemon) : daemon :=
  mkDaemon (heap d) (nextId d) (cfg d) (services d) (m d) (pidMap d) (restartCh d) (shutdownCh
    d) (stopAllDone d) (childStarted d) (reaper d) (restartPending d) (controlSocket d)
    (shutdownMode d) (checkers d) (schedulers d) (entrypointArgs d) (shutdownSeq d) (senderWg d)
    (reloadMu d) (pendingRestarts d) v (shuttingDown d) (started d) (closedCh d) (nextCh d)
    (results d) (children d) (zombies d) (returned d) (trace d).
Definition set_shuttingDown (v : bool) (d : daemon) : daemon :=
  mkDaemon (heap d) (nextId d) (cfg d) (services d) (m d) (pidMap d) (restartCh d) (shutdownCh
    d) (stopAllDone d) (childStarted d) (reaper d) (restartPending d) (controlSocket d)
    (shutdownMode d) (checkers d) (schedulers d) (entrypointArgs d) (shutdownSeq d) (senderWg d)
    (reloadMu d) (pendingRestarts d) (exitCode d) v (started d) (closedCh d) (nextCh d) (results
    d) (children d) (zombies d) (returned d) (trace d).
Definition set_started (v : bool) (d : daemon) : daemon :=
  mkDaemon (heap d) (nextId d) (cfg d) (services d) (m d) (pidMap d) (restartCh d) (shutdownCh
    d) (stopAllDone d) (childStarted d) (reaper d) (restartPending d) (controlSocket d)
    (shutdownMode d) (checkers d) (schedulers d) (entrypointArgs d) (shutdownSeq d) (senderWg d)
    (reloadMu d) (pendingRestarts d) (exitCode d) (shuttingDown d) v (closedCh d) (nextCh d)
    (results d) (children d) (zombies d) (returned d) (trace d).
Definition set_closedCh (v : gset nat) (d : daemon) : daemon :=
  mkDaemon (heap d) (nextId d) (cfg d) (services d) (m d) (pidMap d) (restartCh d) (shutdownCh
    d) (stopAllDone d) (childStarted d) (reaper d) (restartPending d) (controlSocket d)
    (shutdownMode d) (checkers d) (schedulers d) (entrypointArgs d) (shutdownSeq d) (senderWg d)
    (reloadMu d) (pendingRestarts d) (exitCode d) (shuttingDown d) (started d) v (nextCh d)
    (results d) (children d) (zombies d) (returned d) (trace d).
Definition set_nextCh (v : nat) (d : daemon) : daemon :=
  mkDaemon (heap d) (nextId d) (cfg d) (services d) (m d) (pidMap d) (restartCh d) (shutdownCh
    d) (stopAllDone d) (childStarted d) (reaper d) (restartPending d) (controlSocket d)
    (shutdownMode d) (checkers d) (schedulers d) (entrypointArgs d) (shutdownSeq d) (senderWg d)
    (reloadMu d) (pendingRestarts d) (exitCode d) (shuttingDown d) (started d) (closedCh d) v
    (results d) (children d) (zombies d) (returned d) (trace d).
Definition set_results (v : gmap nat (option derr)) (d : daemon) : daemon :=
  mkDaemon (heap d) (nextId d) (cfg d) (services d) (m d) (pidMap d) (restartCh d) (shutdownCh
    d) (stopAllDone d) (childStarted d) (reaper d) (restartPending d) (controlSocket d)
    (shutdownMode d) (checkers d) (schedulers d) (entrypointArgs d) (shutdownSeq d) (senderWg d)
    (reloadMu d) (pendingRestarts d) (exitCode d) (shuttingDown d) (started d) (closedCh d)
    (nextCh d) v (children d) (zombies d) (returned d) (trace d).
Definition set_children (v : gset Z) (d : daemon) : daemon :=
  mkDaemon (heap d) (nextId d) (cfg d) (services d) (m d) (pidMap d) (restartCh d) (shutdownCh
    d) (stopAllDone d) (childStarted d) (reaper d) (restartPending d) (controlSocket d)
    (shutdownMode d) (checkers d) (schedulers d) (entrypointArgs d) (shutdownSeq d) (senderWg d)
    (reloadMu d) (pendingRestarts d) (exitCode d) (shuttingDown d) (started d) (closedCh d)
    (nextCh d) (results d) v (zombies d) (returned d) (trace d).
Definition set_zombies (v : gmap Z WaitStatus) (d : daemon) : daemon :=
  mkDaemon (heap d) (nextId d) (cfg d) (services d) (m d) (pidMap d) (restartCh d) (shutdownCh
    d) (stopAllDone d) (childStarted d) (reaper d) (restartPending d) (controlSocket d)
    (shutdownMode d) (checkers d) (schedulers d) (entrypointArgs d) (shutdownSeq d) (senderWg d)
    (reloadMu d) (pendingRestarts d) (exitCode d) (shuttingDown d) (started d) (closedCh d)
    (nextCh d) (results d) (children d) v (returned d) (trace d).
Definition set_returned (v : option Z) (d : daemon) : daemon :=
  mkDaemon (heap d) (nextId d) (cfg d) (services d) (m d) (pidMap d) (restartCh d) (shutdownCh
    d) (stopAllDone d) (childStarted d) (reaper d) (restartPending d) (controlSocket d)
    (shutdownMode d) (checkers d) (schedulers d) (entrypointArgs d) (shutdownSeq d) (senderWg d)
    (reloadMu d) (pendingRestarts d) (exitCode d) (shuttingDown d) (started d) (closedCh d)
    (nextCh d) (results d) (children d) (zombies d) v (trace d).
Definition set_trace (v : list event) (d : daemon) : daemon :=
  mkDaemon (heap d) (nextId d) (cfg d) (services d) (m d) (pidMap d) (restartCh d) (shutdownCh
    d) (stopAllDone d) (childStarted d) (reaper d) (restartPending d) (controlSocket d)
    (shutdownMode d) (checkers d) (schedulers d) (entrypointArgs d) (shutdownSeq d) (senderWg d)
    (reloadMu d) (pendingRestarts d) (exitCode d) (shuttingDown d) (started d) (closedCh d)
    (nextCh d) (results d) (children d) (zombies d) (returned d) v.

End DaemonState.
