(* ===== verification/Daemon.v ===== *)
(** * The supervisor: src/daemon.go, src/lifecycle.go, src/run.go, src/sched.go

    Every goroutine of the running daemon as a program of atomic actions
    ([Conc]) on the state of [DaemonState].  A section of the source between
    [d.mu.Lock] and the next [Unlock] is one action.  Accesses outside the lock
    (the flags [shuttingDown], [exitCode], [pendingRestarts], the channels, a
    service's own operations) are actions of their own; the sections read each
    of those flags at most once, before they change anything, so an access that
    falls inside a section has the same effect before or after it.

    What the outside decides is the input [env] of an action: what [os.Stat] and
    fork answer, which child exited, which order Go walks a map in, whether a
    timer or a gate fired.  Timers may fire at any moment: no theorem depends on
    how long anything takes. *)

From S2P Require Import Prelude GoStrings GoTime Order Metrics Reaper Check Service Conc DaemonState.

Open Scope string_scope.
Open Scope list_scope.
Open Scope nat_scope.

Module Daemon.
Import Conc DaemonState.

(** ** Inputs *)

Inductive os_event :=
  | ChildExits (pid : Z) (ws : WaitStatus)
  | Orphan (pid : Z)
  | KillTimer (id : nat) (alive : bool)
  | Probe (o : Reaper.op)
  | Quiet.

(** A control-socket command the daemon acts on. *)
Inductive command :=
  | CStart (name : string) (wait : bool)
  | CStop (name : string) (wait : bool)
  | CRestart (name : string) (wait : bool)
  | CSignal (name sig : string)
  | CReload.

Record env := mkEnv {
  e_now : Z;                          (* the clock *)
  e_stat : string → Service.stat_result;
  e_prepare : bool;                   (* PrepareStart succeeds *)
  e_fork : option Z;                  (* the pid cmd.Start gives, or its error *)
  e_order : list string;              (* the order of one [range d.services] *)
  e_pid : Z;                          (* the child Wait4 picks *)
  e_intr : bool;                      (* EINTR *)
  e_ready : bool;                     (* a gate passed / a tick fired *)
  e_timeout : bool;                   (* the deadline of a wait passed *)
  e_delay : Z;                        (* Backoff.Next, see Backoff.v *)
  e_code : Z;                         (* a signal received *)
  e_name : string;                    (* a failed check *)
  e_cfg : option Config;              (* the configuration file, or its error *)
  e_cmd : command;
  e_os : os_event;
}.

Notation P := (prog daemon env).

#[export] Instance prog_bind : MBind P := λ A B f p, pbind p f.

Definition act {X} (f : env → daemon → option (X * daemon)) : P X := Act f Return.
Definition read {X} (f : daemon → X) : P X := act (λ _ d, Some (f d, d)).
Definition modify (f : env → daemon → daemon) : P unit := act (λ e d, Some (tt, f e d)).
Definition input {X} (f : env → X) : P X := act (λ e d, Some (f e, d)).
Definition go (p : P unit) : P unit := Go p (Return tt).

Fixpoint foreach {A} (l : list A) (f : A → P unit) : P unit :=
  match l with
  | [] => Return tt
  | a :: l => f a ≫= λ _, foreach l f
  end.

(** ** Access to services *)

Definition zero_process : Service.Process :=
  Service.mkProcess None None ∅ ∅ None None None "" "" "" "" "" "" "" "" "" "" "" "" "" "" "" ""
    "" "" "" "" "" "" "" ∅ ∅ [] [] [] [] [] (f64_of_Z 0) false false false false false.

Definition zero_service : Service.Service :=
  Service.mkService zero_process "" false false false None 0 0 Service.ActionIgnore Service.ActionIgnore
    (Service.mkBackoff 0 (f64_of_Z 0) 0) ∅ ∅ false "" "" None 0 false false None 0 0 0 None.

Definition get (d : daemon) (id : nat) : Service.Service := default zero_service (heap d !! id).

(** A write through a pointer. *)
Definition put (id : nat) (s : Service.Service) (d : daemon) : daemon :=
  set_heap (alter (λ _, s) id (heap d)) d.

(** A new object. *)
Definition alloc (s : Service.Service) (d : daemon) : daemon :=
  set_nextId (S (nextId d)) (set_heap (<[nextId d := s]> (heap d)) d).

Definition emit (evs : list event) (d : daemon) : daemon := set_trace (trace d ++ evs) d.

Definition kill_events (ks : list (Z * Z)) : list event := (λ k, EKill k.1 k.2) <$> ks.

(** [svc.Stop()] *)
Definition stop_service (now : Z) (id : nat) (d : daemon) : daemon :=
  let '(s, kills) := Service.Stop (get d id) now in
  emit (kill_events kills) (put id s d).

Definition closed (d : daemon) (ch : option nat) : bool :=
  match ch with None => true | Some c => bool_decide (c ∈ closedCh d) end.

(** [<-done] *)
Definition await (ch : option nat) : P unit :=
  act (λ _ d, if closed d ch then Some (tt, d) else None).

(** One [range d.services]: the names in the order given, which must list the
    keys once each. *)
Definition iteration (e : env) (svcs : gmap string nat) : option (list (string * nat)) :=
  if bool_decide (NoDup (e_order e)) && bool_decide (list_to_set (e_order e) =@{gset string} dom svcs)
  then Some (omap (λ n, (λ id, (n, id)) <$> svcs !! n) (e_order e))
  else None.

(** ** Restart bookkeeping *)

Definition markRestartPending (name : string) (d : daemon) : daemon :=
  set_restartPending ({[name]} ∪ restartPending d) d.

Definition takeRestartPending (name : string) (d : daemon) : bool * daemon :=
  if bool_decide (name ∈ restartPending d)
  then (true, set_restartPending (restartPending d ∖ {[name]}) d) else (false, d).

Definition wrap32 (z : Z) : Z := ((z + 2147483648) `mod` 4294967296 - 2147483648)%Z.

Definition addPending (n : Z) (d : daemon) : daemon :=
  set_pendingRestarts (wrap32 (pendingRestarts d + n)) d.

Definition restartCap : nat := 64.

(** The goroutine of [senderWg.Go]: a blocking send on [restartCh]. *)
Definition send_restart (req : restartReq) : P unit :=
  act (λ _ d, if length (restartCh d) <? restartCap
              then Some (tt, set_senderWg (senderWg d - 1) (set_restartCh (restartCh d ++ [req]) d))
              else None).

(** ** Starting *)

Definition wakeReapLoop : P unit := modify (λ _ d, set_childStarted true d).

(** The pids the kernel may give: positive, of no other child of the process,
    and not of one that was reaped a moment ago and is still in [pidMap] (pids
    are handed out in turn, so a number does not come back between [Wait4] and
    the lock that follows it). *)
Definition fresh_pid (d : daemon) (pid : Z) : bool :=
  (0 <? pid)%Z && bool_decide (pid ∉ children d) && bool_decide (zombies d !! pid = None)
  && bool_decide (pidMap d !! pid = None).

(** The section of [startService] under [d.mu]. *)
Definition start_locked (id : nat) (e : env) (d : daemon) : option (Z * option derr * daemon) :=
  let svc := get d id in
  if shuttingDown d then Some (0%Z, Some ErrShuttingDown, d)
  else if negb (bool_decide (services d !! Service.Name svc = Some id)) then
    Some (0%Z, Some ErrServiceReplaced, d)
  else if Service.IsRunning svc then Some (Service.Pid svc, Some ErrAlreadyRunning, d)
  else match Service.FinishStart svc (e_fork e) (nextCh d) (e_now e) with
  | None => Some (0%Z, Some ErrFork, d)
  | Some (pid, svc') =>
      if fresh_pid d pid then
        Some (pid, None,
          emit [EFork id pid]
            (set_children ({[pid]} ∪ children d)
            (set_m (Metrics.ServiceStarted (m d) (Service.Name svc) pid (e_now e))
            (set_pidMap (<[pid := id]> (pidMap d))
            (set_nextCh (S (nextCh d)) (put id svc' d))))))
      else None
  end.

Definition startService (id : nat) : P (Z * option derr) :=
  reason ← act (λ e d, Some (Service.UnmetCondition (e_stat e) (get d id), d));
  if negb (bool_decide (reason = "")) then
    modify (λ _ d, set_m (Metrics.ServiceSkipped (m d) (Service.Name (get d id)) reason) d) ≫= λ _,
    Return (0%Z, Some ErrConditionUnmet)
  else
    ok ← input e_prepare;
    if negb ok then Return (0%Z, Some ErrPrepare)
    else
      r ← act (start_locked id);
      match r.2 with
      | Some _ => Return r
      | None => wakeReapLoop ≫= λ _, Return r
      end.

Definition benign (err : option derr) : bool :=
  match err with
  | None | Some ErrShuttingDown | Some ErrServiceReplaced | Some ErrAlreadyRunning
  | Some ErrConditionUnmet => true
  | _ => false
  end.

(** ** Shutdown *)

Definition reverseSeq (d : daemon) : list string := reverse (shutdownSeq d).

(** One round of a loop of [stopSequential]: stop the service if it runs, and
    return the done channel to wait for, captured before the stop. *)
Definition stop_if_running (id : option nat) (e : env) (d : daemon) : option (option (option nat) * daemon) :=
  match id with
  | None => Some (None, d)
  | Some id =>
      let svc := get d id in
      if negb (Service.IsRunning svc) then Some (None, d)
      else Some (Some (Service.Done svc), emit [EShutdownStop id] (stop_service (e_now e) id d))
  end.

(** Wait for the exit.  [WaitGroupExit] then waits for the rest of the process
    group and collects the dead of it that have become children of gopherd (none
    of them is a service); that is not modelled here, such a child stays for the
    reap loop. *)
Definition wait_stopped (done : option (option nat)) : P unit :=
  match done with Some ch => await ch | None => Return tt end.

Fixpoint stop_seq (seq stopped : list string) : P (list string) :=
  match seq with
  | [] => Return stopped
  | name :: seq =>
      r ← act (λ e d, stop_if_running (services d !! name) e d);
      wait_stopped r ≫= λ _,
      stop_seq seq (match r with Some _ => name :: stopped | None => stopped end)
  end.

Definition stopSequential (seq : list string) : P unit :=
  stopped ← stop_seq seq [];
  rest ← act (λ e d, l ← iteration e (services d); Some (l, d));
  foreach rest (λ ni,
    if bool_decide (ni.1 ∈ stopped) then Return tt
    else r ← act (λ e d, stop_if_running (Some ni.2) e d); wait_stopped r).

(** All running services are stopped in one section, then awaited in turn. *)
Definition stop_all_running (e : env) (d : daemon) : option (list (option nat) * daemon) :=
  l ← iteration e (services d);
  Some (foldl (λ acc ni,
          let '(dones, d) := acc in
          if Service.IsRunning (get d ni.2)
          then (dones ++ [Service.Done (get d ni.2)], stop_service (e_now e) ni.2 d)
          else (dones, d)) ([], d) l).

Definition stopSimultaneous : P unit :=
  dones ← act stop_all_running; foreach dones await.

Definition ShutdownReverseDep : string := "reverse-dep".
Definition ShutdownDep : string := "dep".

Definition stopAll : P unit :=
  d ← read (λ d, (shutdownMode d, shutdownSeq d, reverseSeq d));
  let '(mode, seq, rev) := d in
  if bool_decide (mode = "") || bool_decide (mode = ShutdownReverseDep) then stopSequential rev
  else if bool_decide (mode = ShutdownDep) then stopSequential seq
  else stopSimultaneous.

Definition initiateShutdown (code : Z) : P unit :=
  won ← act (λ _ d, if shuttingDown d then Some (false, d) else Some (true, set_shuttingDown true d));
  if negb won then Return tt
  else
    modify (λ _ d, set_shutdownCh true d) ≫= λ _,
    modify (λ _ d, set_exitCode (wrap32 code) d) ≫= λ _,
    stopAll ≫= λ _,
    modify (λ _ d, set_stopAllDone true d).

(** ** Restart requests *)

Definition handleRestartReq (req : restartReq) : P unit :=
  await (rdone req) ≫= λ _,
  r ← read (λ d, Service.IsRunning (get d (rsvc req)));
  if (r : bool) then Return tt
  else
    (if (0 <? rdelay req)%Z then input (λ _, tt) else Return tt) ≫= λ _,
    r ← startService (rsvc req);
    if benign r.2 then Return tt else initiateShutdown 1.

(** One round of the goroutine that drains [restartCh]. *)
Definition dispatch_restart : P bool :=
  req ← act (λ _ d, match restartCh d with [] => None | r :: l => Some (r, set_restartCh l d) end);
  go (handleRestartReq req ≫= λ _, modify (λ _ d, addPending (-1) d)) ≫= λ _,
  Return true.

(** Stop a service for a restart and book it: the common part of
    [handleCheckFailure], [RestartFn] and [stopForRestart]. *)
Definition book_restart (now : Z) (id : nat) (d : daemon) : option nat * daemon :=
  let svc := get d id in
  let done := Service.Done svc in
  let d := if Service.IsRunning svc
           then markRestartPending (Service.Name svc) (stop_service now id d) else d in
  (done, addPending 1 (set_m (Metrics.ServiceRestarted (m d) (Service.Name svc)) d)).

(** ** Failed checks *)

(** The loop over the services: the requests to send, and the exit code when a
    shutdown action ends it. *)
Fixpoint check_failure_loop (now : Z) (check : string) (l : list (string * nat)) (reqs : list restartReq)
    (d : daemon) : list restartReq * option Z * daemon :=
  match l with
  | [] => (reqs, None, d)
  | (_, id) :: l =>
      match Service.OnCheckFailure (get d id) !! check with
      | None | Some Service.ActionIgnore => check_failure_loop now check l reqs d
      | Some Service.ActionRestart =>
          let '(done, d') := book_restart now id d in
          check_failure_loop now check l (reqs ++ [mkReq id done 0]) (set_senderWg (senderWg d' + 1) d')
      | Some Service.ActionSuccessShutdown => (reqs, Some 0%Z, d)
      | Some Service.ActionShutdown | Some Service.ActionFailureShutdown => (reqs, Some 1%Z, d)
      end
  end.

Definition check_failure_locked (check : string) (e : env) (d : daemon)
    : option (list restartReq * option Z * daemon) :=
  if shuttingDown d then Some ([], None, d)
  else l ← iteration e (services d); Some (check_failure_loop (e_now e) check l [] d).

Definition handleCheckFailure (checkName : string) : P unit :=
  r ← act (check_failure_locked checkName);
  foreach r.1 (λ req, go (send_restart req)) ≫= λ _,
  match r.2 with Some code => initiateShutdown code | None => Return tt end.

(** ** The reap loop *)

(** The action an exit calls for ([run.go], the switch on the kind of service). *)
Definition exit_action (svc : Service.Service) (effectiveCode : Z) : Service.ExitAction :=
  let success := (effectiveCode =? 0)%Z in
  if Service.WasStopped svc then Service.ActionIgnore
  else if Service.Scheduled svc then Service.ActionIgnore
  else if Service.Oneshot svc then
    if success then Service.ActionIgnore
    else match Service.ParseExitAction (Service.pOnFailure (Service.Proc svc)) Service.ActionIgnore with
         | Ok a => a
         | Err _ => Service.ActionIgnore
         end
  else if success then Service.OnSuccess svc
  else Service.OnFailure svc.

(** Whether the exit is the failure of a long-running service, which stops the
    services that require it. *)
Definition stops_dependents (svc : Service.Service) (effectiveCode : Z) : bool :=
  negb (Service.WasStopped svc) && negb (Service.Scheduled svc) && negb (Service.Oneshot svc)
  && negb (effectiveCode =? 0)%Z.

Definition stop_dependents (now : Z) (name : string) (l : list (string * nat)) (d : daemon) : daemon :=
  foldl (λ d ni,
    let other := get d ni.2 in
    if bool_decide (name ∈ Service.Requires other) && Service.IsRunning other
    then stop_service now ni.2 d else d) d l.

Definition effective_code (svc : Service.Service) (code : Z) : Z :=
  let code := Service.RemapExitCode svc code in
  if Service.WasStopped svc && (128 <? code)%Z then 0%Z else code.

(** What the reap loop does after the section under [d.mu]. *)
Inductive verdict :=
  | VUnmanaged
  | VShutting (anyRunning : bool)
  | VRestart (req : restartReq)
  | VShutdown (code : Z)
  | VSuccessShutdown
  | VIgnore.

(** The exit of a managed child: [MarkExited] and the removal from [pidMap]. *)
Definition mark_exited (now pid : Z) (id : nat) (d : daemon) : daemon :=
  let '(svc, ch, _) := Service.MarkExited (get d id) now in
  emit [EReaped id pid]
    (set_closedCh (match ch with Some c => {[c]} ∪ closedCh d | None => closedCh d end)
    (put id svc (set_pidMap (delete pid (pidMap d)) d))).

Definition act_on_exit (e : env) (id : nat) (code : Z) (consumed : bool) (d : daemon)
    : option (verdict * daemon) :=
  let svc := get d id in
  let action := exit_action svc code in
  d ← (if stops_dependents svc code
       then l ← iteration e (services d); Some (stop_dependents (e_now e) (Service.Name svc) l d)
       else Some d);
  let d := if negb consumed && negb (bool_decide (action = Service.ActionRestart))
           then set_m (Metrics.ServiceExited (m d) (Service.Name svc) code) d else d in
  match action with
  | Service.ActionRestart =>
      Some (VRestart (mkReq id (Service.Done svc) (e_delay e)),
            set_m (Metrics.ServiceRestarted (m d) (Service.Name svc)) d)
  | Service.ActionShutdown | Service.ActionFailureShutdown => Some (VShutdown code, d)
  | Service.ActionSuccessShutdown => Some (VSuccessShutdown, d)
  | Service.ActionIgnore => Some (VIgnore, d)
  end.

(** The section of the reap loop under [d.mu]. *)
Definition reap_locked (pid : Z) (ws : WaitStatus) (e : env) (d : daemon) : option (verdict * daemon) :=
  match pidMap d !! pid with
  | None => Some (VUnmanaged, d)
  | Some id =>
      let d := mark_exited (e_now e) pid id d in
      let svc := get d id in
      let code := effective_code svc (waitStatusCode ws) in
      let '(consumed, d) := takeRestartPending (Service.Name svc) d in
      if shuttingDown d then
        let d := if consumed then d else set_m (Metrics.ServiceExited (m d) (Service.Name svc) code) d in
        Some (VShutting (negb (bool_decide (pidMap d = ∅))), d)
      else act_on_exit e id code consumed d
  end.

(** [syscall.Wait4(-1, ...)] *)
Inductive wait4_result :=
  | WIntr
  | WNoChild
  | WPid (pid : Z) (ws : WaitStatus).

Definition wait4 (e : env) (d : daemon) : option (wait4_result * daemon) :=
  if e_intr e then Some (WIntr, d)
  else match zombies d !! e_pid e with
  | Some ws => Some (WPid (e_pid e) ws, set_zombies (delete (e_pid e) (zombies d)) d)
  | None => if bool_decide (children d = ∅) && bool_decide (zombies d = ∅) then Some (WNoChild, d) else None
  end.

(** The select of the idle loop; [timer] says whether it has a timer case. *)
Definition wait_child (timer : bool) : P unit :=
  act (λ e d, if childStarted d then Some (tt, set_childStarted false d)
              else if shutdownCh d || (timer && e_timeout e) then Some (tt, d) else None).

(** [subreaper] is the setting the daemon was started with. *)
Definition no_child (subreaper : bool) : P bool :=
  sd ← read shuttingDown;
  if (sd : bool) then Return false
  else
    pending ← read pendingRestarts;
    if (0 <? pending)%Z then wait_child true ≫= λ _, Return true
    else wait_child subreaper ≫= λ _, Return true.

Definition deliver (pid : Z) (code : Z) : P unit :=
  act (λ _ d, match Reaper.Deliver (reaper d) pid code with
              | Some (_, r) => Some (tt, set_reaper r d)
              | None => None
              end).

Definition after_unmanaged (pid code : Z) : P bool :=
  deliver pid code ≫= λ _,
  sd ← read shuttingDown;
  if (sd : bool) then read (λ d, negb (bool_decide (pidMap d = ∅))) else Return true.

(** One round of the reap loop; [false] leaves it. *)
Definition reap (subreaper : bool) : P bool :=
  w ← act wait4;
  match w with
  | WIntr => Return true
  | WNoChild => no_child subreaper
  | WPid pid ws =>
      v ← act (reap_locked pid ws);
      match v with
      | VUnmanaged => after_unmanaged pid (waitStatusCode ws)
      | VShutting anyRunning => Return anyRunning
      | VRestart req =>
          modify (λ _ d, set_senderWg (senderWg d + 1) (addPending 1 d)) ≫= λ _,
          go (send_restart req) ≫= λ _, Return true
      | VShutdown code =>
          modify (λ _ d, if (exitCode d =? 0)%Z then set_exitCode (wrap32 code) d else d) ≫= λ _,
          go (initiateShutdown code) ≫= λ _, Return true
      | VSuccessShutdown => go (initiateShutdown 0) ≫= λ _, Return true
      | VIgnore => Return true
      end
  end.

(** Leaving [run]: the wait for [stopAllDone], the end of checks and schedulers,
    the wait for the senders, and the exit code. *)
Definition stopChecks (d : daemon) : daemon := set_checkers [] d.

Definition stopSchedulers (d : daemon) : daemon :=
  set_schedulers [] (set_closedCh (list_to_set (schedulers d) ∪ closedCh d) d).

Definition run_tail : P unit :=
  sd ← read shuttingDown;
  (if (sd : bool) then act (λ _ d, if stopAllDone d then Some (tt, d) else None) else Return tt) ≫= λ _,
  modify (λ _ d, stopSchedulers (stopChecks d)) ≫= λ _,
  act (λ _ d, if (senderWg d =? 0)%Z then Some (tt, d) else None) ≫= λ _,
  modify (λ _ d, emit [EReturn (exitCode d)] (set_returned (Some (exitCode d)) d)).

(** ** Gated starts and waits (lifecycle.go) *)

Section gates.
(** Whether [http.NewRequest] accepts a URL (see [Check.New]). *)
Context (url_ok : string → bool).

(** The ready-check before a start: [e_ready] is whether [WaitReady] passed. *)
Definition ready_gate (c : Config) (svc : Service.Service) : P (option derr) :=
  let rc := Service.pReadyCheck (Service.Proc svc) in
  if bool_decide (rc = "") then Return None
  else match Checks c !! rc with
  | None => Return (Some (ErrReadyCheckUnknown (Service.Name svc) rc))
  | Some checkCfg =>
      match Check.New url_ok rc checkCfg with
      | Err err => Return (Some (ErrReadyCheck (Service.Name svc) err))
      | Ok _ =>
          let text := Service.pReadyTimeout (Service.Proc svc) in
          match (if bool_decide (text = "") then Some (60 * Second)%Z else ParseDuration text) with
          | None => Return (Some (ErrReadyTimeout (Service.Name svc) text))
          | Some _ =>
              ok ← input e_ready;
              Return (if (ok : bool) then None else Some (ErrNotReady (Service.Name svc) rc))
          end
      end
  end.

Definition startGated (c : Config) (id : nat) : P (option derr) :=
  svc ← read (λ d, get d id);
  gate ← ready_gate c svc;
  match gate with
  | Some err => Return (Some err)
  | None =>
      r ← startService id;
      match r.2 with
      | None | Some ErrAlreadyRunning =>
          if Service.pSDNotify (Service.Proc svc) then
            ok ← input e_ready;
            Return (if (ok : bool) then r.2 else Some (ErrNoNotify (Service.Name svc)))
          else Return r.2
      | Some err => Return (Some err)
      end
  end.

(** A select whose ready cases are tried in an order the input chooses. *)
Definition waitExit (bounded : bool) (name : string) (ch : option nat) : P (option derr) :=
  act (λ e d,
    if e_ready e && closed d ch then Some (None, d)
    else if negb (e_ready e) && shutdownCh d then Some (Some ErrShuttingDown, d)
    else if bounded && e_timeout e then Some (Some (ErrStillRunning name), d)
    else if closed d ch then Some (None, d)
    else if shutdownCh d then Some (Some ErrShuttingDown, d)
    else None).

(** [observe]: the work runs in a goroutine of its own and reports through a
    one-slot channel. *)
Definition observe (name verb : string) (work : P (option derr)) : P (option derr) :=
  ch ← act (λ _ d, Some (nextCh d, set_nextCh (S (nextCh d)) d));
  go (r ← work; modify (λ _ d, set_results (<[ch := r]> (results d)) d)) ≫= λ _,
  act (λ e d,
    match results d !! ch with
    | Some r => if e_ready e then Some (r, d)
                else if shutdownCh d then Some (Some ErrShuttingDown, d)
                else if e_timeout e then Some (Some (ErrInProgress name verb), d) else Some (r, d)
    | None => if shutdownCh d then Some (Some ErrShuttingDown, d)
              else if e_timeout e then Some (Some (ErrInProgress name verb), d) else None
    end).

(** ** Dependents and ordered restarts *)

(** One [range services] of [dependentClosure]: the names added. *)
Definition closure_step (name cur : string) (acc : gset string * list string) (other : Service.Service)
    : gset string * list string :=
  let '(closure, added) := acc in
  if bool_decide (cur ∈ Service.Requires other) && negb (bool_decide (Service.Name other ∈ closure))
     && negb (bool_decide (Service.Name other = name))
  then ({[Service.Name other]} ∪ closure, added ++ [Service.Name other]) else acc.

Definition closure_round (svcs : list Service.Service) (name cur : string) (closure : gset string)
    : gset string * list string := foldl (closure_step name cur) (closure, []) svcs.

(** [order i] is the order of the [i]th [range] from the end. *)
Fixpoint closure_loop (fuel : nat) (order : nat → list Service.Service) (name : string)
    (closure : gset string) (frontier : list string) : fuelled (gset string) :=
  match frontier with
  | [] => Done closure
  | cur :: frontier =>
      match fuel with
      | O => OutOfFuel
      | S fuel =>
          let '(closure, added) := closure_round (order fuel) name cur closure in
          closure_loop fuel order name closure (frontier ++ added)
      end
  end.

(** A round for the start and one for every service that may be added. *)
Definition dependentClosure (n : nat) (order : nat → list Service.Service) (name : string)
    : fuelled (gset string) := closure_loop (S n) order name ∅ [name].

Definition runningDependentsLocked (name : string) (d : daemon) : list nat :=
  let svcs := (λ ni, get d ni.2) <$> map_to_list (services d) in
  match dependentClosure (length svcs) (λ _, svcs) name with
  | OutOfFuel => []
  | Done closure =>
      omap (λ n,
        if bool_decide (n ∈ closure) then
          id ← services d !! n; if Service.IsRunning (get d id) then Some id else None
        else None) (shutdownSeq d)
  end.

Definition stopForRestart (id : nat) : P (option (option nat)) :=
  act (λ e d, if shuttingDown d then Some (None, d)
              else let '(done, d) := book_restart (e_now e) id d in Some (Some done, d)).

Definition startForRestart (c : Config) (id : nat) : P (option derr) :=
  err ← startGated c id;
  match err with
  | None | Some ErrAlreadyRunning | Some ErrServiceReplaced => Return None
  | Some ErrConditionUnmet => Return err
  | Some ErrShuttingDown => Return err
  | Some _ => initiateShutdown 1 ≫= λ _, Return err
  end.

(** Stop one leg and wait for its exit: the error to return, and how many
    requests were booked. *)
Definition restart_stop (id : nat) : P (option derr * Z) :=
  r ← stopForRestart id;
  match r with
  | None => Return (Some ErrShuttingDown, 0%Z)
  | Some done =>
      name ← read (λ d, Service.Name (get d id));
      err ← waitExit false name done;
      Return (err, 1%Z)
  end.

Fixpoint restart_stops (ids : list nat) (stopped : Z) : P (option derr * Z) :=
  match ids with
  | [] => Return (None, stopped)
  | id :: ids =>
      r ← restart_stop id;
      match r.1 with
      | Some err => Return (Some err, (stopped + r.2)%Z)
      | None => restart_stops ids (stopped + r.2)%Z
      end
  end.

Fixpoint restart_starts (c : Config) (ids : list nat) : P (option derr) :=
  match ids with
  | [] => Return None
  | id :: ids =>
      err ← startForRestart c id;
      match err with
      | None | Some ErrConditionUnmet => restart_starts c ids
      | Some err => name ← read (λ d, Service.Name (get d id)); Return (Some (ErrStart name err))
      end
  end.

(** The deferred decrement of [pendingRestarts] runs on every path. *)
Definition runRestart (id : nat) (deps : list nat) : P (option derr) :=
  c ← read cfg;
  r ← restart_stops (reverse deps ++ [id]) 0;
  err ← match r.1 with
        | Some err => Return (Some err)
        | None =>
            err ← startForRestart c id;
            match err with
            | Some ErrConditionUnmet =>
                r ← act (λ e d, Some ((Service.Name (get d id), Service.UnmetCondition (e_stat e) (get d id)), d));
                Return (Some (ErrSkipped r.1 r.2))
            | Some err => Return (Some err)
            | None => restart_starts c deps
            end
        end;
  modify (λ _ d, addPending (- r.2) d) ≫= λ _, Return err.

(** ** Control commands *)

Definition service_named (name : string) : P (option nat) := read (λ d, services d !! name).

Definition pid_text (d : daemon) (id : nat) : string := "(pid " +:+ fmt_d (Service.Pid (get d id)) +:+ ")".

(** Replies are the text of the source. *)
Definition StartFn (name : string) (wait : bool) : P (result derr string) :=
  r ← read (λ d, (services d !! name, cfg d));
  match r.1 with
  | None => Return (Err (ErrUnknownService name))
  | Some id =>
      running ← read (λ d, Service.IsRunning (get d id));
      if (running : bool) then
        t ← read (λ d, pid_text d id); Return (Ok (name +:+ ": already running " +:+ t))
      else if wait then
        err ← observe name "start" (startGated r.2 id);
        match err with
        | None => t ← read (λ d, (Service.pSDNotify (Service.Proc (get d id)), pid_text d id));
                  Return (Ok (name +:+ (if t.1 : bool then ": ready " else ": started ") +:+ t.2))
        | Some ErrAlreadyRunning =>
            t ← read (λ d, pid_text d id); Return (Ok (name +:+ ": already running " +:+ t))
        | Some ErrConditionUnmet =>
            t ← act (λ e d, Some (Service.UnmetCondition (e_stat e) (get d id), d));
            Return (Ok (name +:+ ": skipped (" +:+ t +:+ ")"))
        | Some err => Return (Err (ErrStart name err))
        end
      else
        p ← startService id;
        match p.2 with
        | None => Return (Ok (name +:+ ": started (pid " +:+ fmt_d p.1 +:+ ")"))
        | Some ErrAlreadyRunning => Return (Ok (name +:+ ": already running (pid " +:+ fmt_d p.1 +:+ ")"))
        | Some ErrConditionUnmet =>
            t ← act (λ e d, Some (Service.UnmetCondition (e_stat e) (get d id), d));
            Return (Ok (name +:+ ": skipped (" +:+ t +:+ ")"))
        | Some err => Return (Err (ErrStart name err))
        end
  end.

Definition StopFn (name : string) (wait : bool) : P (result derr string) :=
  r ← service_named name;
  match r with
  | None => Return (Err (ErrUnknownService name))
  | Some id =>
      running ← read (λ d, Service.IsRunning (get d id));
      if negb running then Return (Ok (name +:+ ": already stopped"))
      else
        done ← read (λ d, Service.Done (get d id));
        modify (λ e d, stop_service (e_now e) id d) ≫= λ _,
        if negb wait then Return (Ok (name +:+ ": stop signal sent"))
        else
          err ← waitExit true name done;
          match err with
          | Some err => Return (Err err)
          | None => Return (Ok (name +:+ ": stopped"))
          end
  end.

Definition SignalFn (name sigName : string) : P (result derr string) :=
  r ← service_named name;
  match r with
  | None => Return (Err (ErrUnknownService name))
  | Some id =>
      running ← read (λ d, Service.IsRunning (get d id));
      if negb running then Return (Err (ErrNotRunning name))
      else match Service.ParseSignal sigName with
      | Err n => Return (Err (ErrUnknownSignal n))
      | Ok sig =>
          modify (λ _ d, emit (kill_events (Service.Signal (get d id) sig)) d) ≫= λ _,
          Return (Ok (name +:+ ": sent " +:+ sigName))
      end
  end.

Definition serviceNames (d : daemon) (ids : list nat) : string :=
  Join ((λ id, Service.Name (get d id)) <$> ids) ", ".

Definition restartOrdered (id : nat) (deps : list nat) (wait : bool) : P (result derr string) :=
  name ← read (λ d, Service.Name (get d id));
  if negb wait then
    go (runRestart id deps ≫= λ _, Return tt) ≫= λ _,
    ns ← read (λ d, serviceNames d deps);
    Return (Ok (name +:+ ": restart scheduled (with dependents: " +:+ ns +:+ ")"))
  else
    err ← observe name "restart" (runRestart id deps);
    match err with
    | Some err => Return (Err err)
    | None =>
        r ← read (λ d, (pid_text d id, serviceNames d deps));
        Return (Ok (name +:+ ": restarted " +:+ r.1 +:+
                    (if bool_decide (deps = []) then "" else "; dependents restarted: " +:+ r.2)))
    end.

(** The section of [RestartFn] under [d.mu]. *)
Inductive restart_plan :=
  | RUnknown
  | RRefused
  | ROrdered (id : nat) (deps : list nat)
  | RQueued (req : restartReq).

Definition restart_locked (name : string) (wait : bool) (e : env) (d : daemon) : option (restart_plan * daemon) :=
  match services d !! name with
  | None => Some (RUnknown, d)
  | Some id =>
      if shuttingDown d then Some (RRefused, d)
      else
        let deps := if Service.pRestartWithDependents (Service.Proc (get d id))
                    then runningDependentsLocked name d else [] in
        if wait || (0 <? length deps) then Some (ROrdered id deps, d)
        else
          let '(done, d) := book_restart (e_now e) id d in
          Some (RQueued (mkReq id done 0), set_senderWg (senderWg d + 1) d)
  end.

Definition RestartFn (name : string) (wait : bool) : P (result derr string) :=
  r ← act (restart_locked name wait);
  match r with
  | RUnknown => Return (Err (ErrUnknownService name))
  | RRefused => Return (Err ErrShuttingDown)
  | ROrdered id deps => restartOrdered id deps wait
  | RQueued req => go (send_restart req) ≫= λ _, Return (Ok (name +:+ ": restart scheduled"))
  end.

(** ** Scheduled services (sched.go) *)

Definition startScheduledRun (id : nat) : P unit :=
  r ← startService id;
  match r.2 with
  | Some _ => Return tt
  | None =>
      text ← read (λ d, Service.pStartupTimeout (Service.Proc (get d id)));
      if bool_decide (text = "") then Return tt
      else match ParseDuration text with
      | None => Return tt
      | Some dur =>
          if (dur <=? 0)%Z then Return tt
          else go (modify (λ e d,
                 if Service.IsRunning (get d id) && (Service.Pid (get d id) =? r.1)%Z
                 then stop_service (e_now e) id d else d))
      end
  end.

(** One round of a runner's loop: a tick ([e_ready]), the end of the schedule
    ([e_timeout]) or the close of its stop channel. *)
Definition sched_round (id stopCh : nat) : P bool :=
  tick ← act (λ e d,
    if e_timeout e then Some (None, d)
    else if e_ready e then Some (Some true, d)
    else if bool_decide (stopCh ∈ closedCh d) then Some (Some false, d) else None);
  match tick with
  | None => Return false
  | Some false => Return false
  | Some true =>
      running ← read (λ d, Service.IsRunning (get d id));
      if (running : bool) then Return true
      else startScheduledRun id ≫= λ _, Return true
  end.

Definition startSchedulers (e : env) (d : daemon) : option (list (nat * nat) * daemon) :=
  l ← iteration e (services d);
  Some (foldl (λ acc ni,
    let '(rs, d) := acc in
    if Service.Scheduled (get d ni.2)
    then (rs ++ [(ni.2, nextCh d)],
          set_schedulers (schedulers d ++ [nextCh d]) (set_nextCh (S (nextCh d)) d))
    else acc) ([], d) l).

(** ** Checks *)

Definition startChecks (d : daemon) : daemon :=
  foldl (λ d nc,
    match Check.New url_ok nc.1 nc.2 with
    | Err _ => d
    | Ok _ => set_m (Metrics.RegisterCheck (m d) nc.1) (set_checkers (checkers d ++ [nc.1]) d)
    end) d (map_to_list (Checks (cfg d))).

(** ** Building services *)

Definition DefaultSocketPath : string := "/run/gopherd.sock".

(** The process as [buildServices] hands it to [New]. *)
Definition effective_process (d : daemon) (p : Service.Process) : Service.Process :=
  let p := if Service.pUseEntrypointArgs p && (0 <? length (entrypointArgs d))
           then Service.set_pArgs (Service.pArgs p ++ entrypointArgs d) p else p in
  if bool_decide (Service.pPrefix p = "") then Service.set_pPrefix (Prefix (cfg d)) p else p.

Definition build_service (d : daemon) (p : Service.Process) : result Service.new_err daemon :=
  let sock := if bool_decide (controlSocket d = "") then DefaultSocketPath else controlSocket d in
  svc ← Service.New (effective_process d p) (Prefix (cfg d));
  let svc := Service.set_ControlSocket sock svc in
  Ok (set_m (Metrics.RegisterService (m d) (Service.Name svc) (Service.Enabled svc))
     (set_services (<[Service.Name svc := nextId d]> (services d)) (alloc svc d))).

(** An error leaves the services built so far. *)
Fixpoint build_loop (ps : list Service.Process) (d : daemon) : option Service.new_err * daemon :=
  match ps with
  | [] => (None, d)
  | p :: ps =>
      match build_service d p with
      | Ok d => build_loop ps d
      | Err err => (Some err, d)
      end
  end.

Definition buildServices (d : daemon) : option Service.new_err * daemon :=
  build_loop (Processes (cfg d)) (set_services ∅ d).

Definition buildOrderServices (c : Config) : list Order.Service :=
  (λ p, Order.mkService (Service.process_name p) (Service.pAfter p) (Service.pBefore p) (Service.pRequires p))
    <$> Processes c.

(** ** Reload *)

Definition ptr_differs {A} `{EqDecision A} (a b : option A) : bool :=
  match a, b with
  | None, None => false
  | Some x, Some y => negb (bool_decide (x = y))
  | _, _ => true
  end.

Definition differs {A} `{EqDecision A} (a b : A) : bool := negb (bool_decide (a = b)).

Definition processConfigChanged (o n : Service.Process) : bool :=
  differs (Service.pPrefix o) (Service.pPrefix n)
  || differs (Service.pStartup o) (Service.pStartup n)
  || differs (Service.pCommand o) (Service.pCommand n)
  || differs (Service.pArgs o) (Service.pArgs n)
  || (differs (Service.pUser o) (Service.pUser n) || differs (Service.pGroup o) (Service.pGroup n))
  || (ptr_differs (Service.pUserID o) (Service.pUserID n)
      || ptr_differs (Service.pGroupID o) (Service.pGroupID n))
  || differs (Service.pUmask o) (Service.pUmask n)
  || differs (Service.pStrictGroups o) (Service.pStrictGroups n)
  || differs (Service.pWorkingDir o) (Service.pWorkingDir n)
  || differs (Service.pStopSignal o) (Service.pStopSignal n)
  || ptr_differs (Service.pPassEnv o) (Service.pPassEnv n)
  || ptr_differs (Service.pLogCapture o) (Service.pLogCapture n)
  || ptr_differs (Service.pExportSocket o) (Service.pExportSocket n)
  || differs (Service.pEnvironment o) (Service.pEnvironment n)
  || differs (Service.pRemoveEnv o) (Service.pRemoveEnv n)
  || differs (Service.pDotEnv o) (Service.pDotEnv n)
  || differs (Service.pDotEnvFollow o) (Service.pDotEnvFollow n)
  || differs (Service.pReadyCheck o) (Service.pReadyCheck n)
  || differs (Service.pReadyTimeout o) (Service.pReadyTimeout n)
  || differs (Service.pKillDelay o) (Service.pKillDelay n)
  || differs (Service.pSDNotify o) (Service.pSDNotify n)
  || differs (Service.pSDNotifyTimeout o) (Service.pSDNotifyTimeout n)
  || differs (Service.pParentDeathSignal o) (Service.pParentDeathSignal n).

(** The exit actions of an instance the reload stops. *)
Definition ignore_exits (id : nat) (d : daemon) : daemon :=
  put id (Service.set_exit_actions Service.ActionIgnore Service.ActionIgnore (get d id)) d.

Definition remove_one (now : Z) (newNames : gset string) (d : daemon) (ni : string * nat) : daemon :=
  if bool_decide (ni.1 ∈ newNames) then d
  else
    let d := ignore_exits ni.2 d in
    let d := if Service.IsRunning (get d ni.2) then stop_service now ni.2 d else d in
    set_services (delete ni.1 (services d)) d.

Definition remove_services (now : Z) (newNames : gset string) (l : list (string * nat)) (d : daemon) : daemon :=
  foldl (remove_one now newNames) d l.

(** The policy fields a preserved instance takes over from the new one. *)
Definition adopt_policy (old new : Service.Service) : Service.Service :=
  let p := Service.Proc old in
  let q := Service.Proc new in
  Service.SetFileConditions
    (Service.set_policy (Service.OnSuccess new) (Service.OnFailure new) (Service.OnCheckFailure new)
       (Service.Requires new)
       (Service.set_policy_proc (Service.pExitCodeMap q) (Service.pSignalRewrite q)
          (Service.pRestartWithDependents q) p) old)
    (Service.process_conditions q).

(** One old service: kept, stopped (its done channel is added), or neither. *)
Definition reconcile_one (now : Z) (acc : list (option nat) * daemon) (ni : string * nat)
    : list (option nat) * daemon :=
  let '(waits, d) := acc in
  let old := get d ni.2 in
  match services d !! ni.1 with
  | None => acc
  | Some newId =>
      if Service.IsRunning old && negb (processConfigChanged (Service.Proc old) (Service.Proc (get d newId)))
      then (waits, set_services (<[ni.1 := ni.2]> (services d)) (put ni.2 (adopt_policy old (get d newId)) d))
      else if Service.IsRunning old then
        (waits ++ [Service.Done old], stop_service now ni.2 (ignore_exits ni.2 d))
      else acc
  end.

Definition to_start (startOrd : list string) (d : daemon) : list nat :=
  omap (λ n,
    id ← services d !! n;
    let svc := get d id in
    if negb (Service.Enabled svc) || Service.Oneshot svc || Service.Scheduled svc || Service.IsRunning svc
    then None else Some id) startOrd.

Inductive reload_err :=
  | RStarting
  | RConfig
  | REntrypoint
  | RDependencies (e : Order.order_err)
  | RService (e : Service.new_err)
  | RShuttingDown.

(** The section of [reload] under [d.mu]: the channels to wait for, the
    services to start, and the checks of the old configuration. *)
Definition reload_locked (newCfg : Config) (startOrd : list string) (e : env) (d : daemon)
    : option (result reload_err (list (option nat) * list nat * list string) * daemon) :=
  if shuttingDown d then Some (Err RShuttingDown, d)
  else
    let newNames := list_to_set (Service.process_name <$> Processes newCfg) in
    l ← iteration e (services d);
    let oldChecks := elements (dom (Checks (cfg d))) in
    let d := remove_services (e_now e) newNames l d in
    let d := set_cfg newCfg (stopSchedulers (stopChecks d)) in
    match buildServices d with
    | (Some err, d) => Some (Err (RService err), d)
    | (None, d) =>
        let d := foldl (λ d ni, match services d !! ni.1 with
                                | Some _ => d
                                | None => set_m (Metrics.UnregisterService (m d) ni.1) d
                                end) d l in
        let '(waits, d) := foldl (reconcile_one (e_now e)) ([], d) l in
        let d := set_shutdownMode (ShutdownOrder newCfg) (set_shutdownSeq startOrd d) in
        Some (Ok (waits, to_start startOrd d, oldChecks), d)
    end.

(** The checks made before any state is touched. *)
Definition reload_validate (newCfg : Config) : result reload_err (list string) :=
  if 1 <? length (List.filter Service.pUseEntrypointArgs (Processes newCfg)) then Err REntrypoint
  else match Order.TopoSort (buildOrderServices newCfg) with
  | OutOfFuel => Err RConfig
  | Done (Err err) => Err (RDependencies err)
  | Done (Ok startOrd) =>
      match foldM (λ _ p, _ ← Service.New p (Prefix newCfg); Ok tt) tt (Processes newCfg) with
      | Err err => Err (RService err)
      | Ok _ => Ok startOrd
      end
  end.

Definition reload_finish (oldChecks : list string) (e : env) (d : daemon) : option (list (nat * nat) * daemon) :=
  r ← startSchedulers e (startChecks d);
  Some (r.1, foldl (λ d n, match Checks (cfg d) !! n with
                           | Some _ => d
                           | None => set_m (Metrics.UnregisterCheck (m d) n) d
                           end) r.2 oldChecks).

Definition reload : P (result reload_err unit) :=
  ready ← read started;
  if negb ready then Return (Err RStarting)
  else
    act (λ _ d, if reloadMu d then None else Some (tt, set_reloadMu true d)) ≫= λ _,
    r ← (c ← input e_cfg;
         match c with
         | None => Return (Err RConfig)
         | Some newCfg =>
             match reload_validate newCfg with
             | Err err => Return (Err err)
             | Ok startOrd =>
                 r ← act (reload_locked newCfg startOrd);
                 match r with
                 | Err err => Return (Err err)
                 | Ok (waits, ids, oldChecks) =>
                     foreach waits await ≫= λ _,
                     foreach ids (λ id, startService id ≫= λ _, Return tt) ≫= λ _,
                     rs ← act (reload_finish oldChecks);
                     foreach rs (λ r, GoLoop (sched_round r.1 r.2) (Return tt)) ≫= λ _,
                     Return (Ok tt)
                 end
             end
         end);
    modify (λ _ d, set_reloadMu false d) ≫= λ _, Return r.

(** ** The goroutines of the running daemon *)

Definition forward_signal (sig : Z) (e : env) (d : daemon) : option (unit * daemon) :=
  l ← iteration e (services d);
  Some (tt, foldl (λ d ni,
    match Service.RewriteSignal (get d ni.2) sig with
    | Some s => emit (kill_events (Service.Signal (get d ni.2) s)) d
    | None => d
    end) d l).

(** One received signal; [shutdownSet] is [cfg.ShutdownSignals]. *)
Definition handle_signal (shutdownSet : gset Z) : P bool :=
  sig ← input e_code;
  (if bool_decide (sig ∈ shutdownSet) then initiateShutdown 0
   else if bool_decide (sig = Service.SIGHUP) then reload ≫= λ _, Return tt
   else act (forward_signal sig)) ≫= λ _,
  Return true.

Definition handle_command (c : command) : P unit :=
  match c with
  | CStart name wait => StartFn name wait ≫= λ _, Return tt
  | CStop name wait => StopFn name wait ≫= λ _, Return tt
  | CRestart name wait => RestartFn name wait ≫= λ _, Return tt
  | CSignal name sig => SignalFn name sig ≫= λ _, Return tt
  | CReload => reload ≫= λ _, Return tt
  end.

(** The control server gives each command a goroutine. *)
Definition accept_command : P bool :=
  c ← input e_cmd; go (handle_command c) ≫= λ _, Return true.

(** A check goroutine reports a failure. *)
Definition check_fails : P bool :=
  n ← input e_name; go (handleCheckFailure n) ≫= λ _, Return true.

(** The kernel and the timers: a child exits, an orphan is adopted, a SIGKILL
    timer fires, a probe uses the registry. *)
Definition outside_step (e : env) (d : daemon) : option (unit * daemon) :=
  match e_os e with
  | ChildExits pid ws =>
      if bool_decide (pid ∈ children d)
      then Some (tt, set_zombies (<[pid := ws]> (zombies d)) (set_children (children d ∖ {[pid]}) d)) else None
  | Orphan pid => if fresh_pid d pid then Some (tt, set_children ({[pid]} ∪ children d) d) else None
  | KillTimer id alive =>
      let '(s, kills) := Service.kill_timer_fires (get d id) alive in
      Some (tt, emit (kill_events kills) (put id s d))
  | Probe (Reaper.OStart (Some pid)) =>
      if fresh_pid d pid then
        r ← Reaper.apply_op (reaper d) (Reaper.OStart (Some pid));
        Some (tt, set_children ({[pid]} ∪ children d) (set_reaper r d))
      else None
  | Probe (Reaper.ODeliver _ _) => None
  | Probe o => r ← Reaper.apply_op (reaper d) o; Some (tt, set_reaper r d)
  | Quiet => Some (tt, d)
  end.

Definition outside : P bool := act outside_step ≫= λ _, Return true.

Definition forever (body : P bool) : thread daemon env := Loop body body (Return tt).

(** The daemon [run] builds from a configuration ([None]: it refuses to start),
    as it is when the reap loop begins, without the boot: [startServiceLayers]
    is modelled in Boot.v. *)
Definition empty_daemon (c : Config) (args : list string) (sock : string) : daemon :=
  mkDaemon ∅ 0 c ∅ Metrics.New ∅ [] false false false (Reaper.New true) ∅ sock "" [] [] args [] 0 false
    0 0 false false ∅ 0 ∅ ∅ ∅ None [].

Definition setup (e : env) (c : Config) (args : list string) (sock : string)
    : option (list (nat * nat) * daemon) :=
  let sock := if bool_decide (sock = "") then DefaultSocketPath else sock in
  if 1 <? length (List.filter Service.pUseEntrypointArgs (Processes c)) then None
  else match Order.TopoSort (buildOrderServices c) with
  | Done (Ok startOrd) =>
      let d := set_shutdownMode (ShutdownOrder c) (set_shutdownSeq startOrd (empty_daemon c args sock)) in
      match buildServices d with
      | (Some _, _) => None
      | (None, d) =>
          r ← startSchedulers e (startChecks (set_reaper (Reaper.Activate (reaper d)) d));
          Some (r.1, set_started true r.2)
      end
  | _ => None
  end.

(** The pool [run] starts once the services are up, with the runners of the
    scheduled services. *)
Definition supervise (subreaper : bool) (shutdownSet : gset Z) (runners : list (nat * nat)) : list (thread daemon env) :=
  [Loop (reap subreaper) (reap subreaper) run_tail; forever dispatch_restart; forever (handle_signal shutdownSet);
   forever accept_command; forever check_fails; forever outside] ++
  ((λ r, forever (sched_round r.1 r.2)) <$> runners).
End gates.

End Daemon.
