(* ===== verification/DaemonSafety.v ===== *)
(** * Safety of the supervisor

    The invariant of the daemon's state, the guarantee every action of every
    goroutine keeps, and what follows for all interleavings: pid bookkeeping,
    guarded forks, shutdown order and completeness. *)

From S2P Require Import Prelude GoStrings Order Metrics Reaper Check Service Conc DaemonState Daemon.

Open Scope string_scope.
Open Scope list_scope.
Open Scope nat_scope.

Module DaemonSafety.
Import Conc DaemonState Daemon.

(** ** Invariant *)

Definition run_of (s : Service.Service) : string * bool * Z * option nat :=
  (Service.Name s, Service.running s, Service.Pid s, Service.done s).

Definition is_running (d : daemon) (id : nat) : bool := Service.running (get d id).

(** The order the configured mode stops services in; [None]: all at once. *)
Definition stop_order (d : daemon) : option (list string) :=
  if bool_decide (shutdownMode d = "") || bool_decide (shutdownMode d = ShutdownReverseDep)
  then Some (reverse (shutdownSeq d))
  else if bool_decide (shutdownMode d = ShutdownDep) then Some (shutdownSeq d) else None.

(** The services the daemon knows are objects of that name, and the shutdown
    sequence is the start order of the configuration. *)
Record services_ok (d : daemon) : Prop := {
  so_heap n id : services d !! n = Some id → ∃ s, heap d !! id = Some s ∧ Service.Name s = n;
  so_seq : Order.TopoSort (buildOrderServices (cfg d)) = Done (Ok (shutdownSeq d));
  so_mode : shutdownMode d = ShutdownOrder (cfg d);
}.

Record Inv (d : daemon) : Prop := {
  i_services : services_ok d;
  i_alloc id s : heap d !! id = Some s → id < nextId d;
  (* a pid is recorded exactly for the running instance that has it *)
  i_pid pid id : pidMap d !! pid = Some id ↔
    ∃ s, heap d !! id = Some s ∧ Service.running s = true ∧ Service.Pid s = pid;
  i_pos id s : heap d !! id = Some s → Service.running s = true → (0 < Service.Pid s)%Z;
  i_idle id s : heap d !! id = Some s → Service.running s = false → Service.Pid s = 0%Z ∧ Service.done s = None;
  (* a running instance has an open done channel of its own *)
  i_done id s : heap d !! id = Some s → Service.running s = true →
    ∃ c, Service.done s = Some c ∧ (c ∉ closedCh d) ∧ (c ∉ schedulers d) ∧ c < nextCh d;
  i_done_own id1 s1 id2 s2 c : heap d !! id1 = Some s1 → heap d !! id2 = Some s2 →
    Service.done s1 = Some c → Service.done s2 = Some c → id1 = id2;
  i_chan c : c ∈ closedCh d ∨ c ∈ schedulers d → c < nextCh d;
  i_stopped n id : stopAllDone d = true → services d !! n = Some id → is_running d id = false;
  i_done_sd : stopAllDone d = true → shuttingDown d = true;
  i_returned : returned d = None ∨ stopAllDone d = true;
}.

(** ** Guarantee *)

Definition plain (ev : event) : Prop :=
  match ev with EFork _ _ | EShutdownStop _ => False | _ => True end.

(** [n] comes before the first [x] in [l]; when [x] is not in [l], every [n] does. *)
Definition before_in (l : list string) (n x : string) : Prop :=
  (∃ l1 l2, l = l1 ++ x :: l2 ∧ (x ∉ l1) ∧ n ∈ l1) ∨ ((x ∉ l) ∧ n ∈ l).

Definition event_ok (d : daemon) (ev : event) : Prop :=
  match ev with
  | EFork id pid =>
      shuttingDown d = false ∧ is_running d id = false ∧ services d !! Service.Name (get d id) = Some id ∧
      pidMap d !! pid = None ∧ (0 < pid)%Z
  | EShutdownStop id =>
      shuttingDown d = true ∧ is_running d id = true ∧
      ∃ l, stop_order d = Some l ∧
        ∀ n id', services d !! n = Some id' → before_in l n (Service.Name (get d id)) → is_running d id' = false
  | _ => True
  end.

Record G (d d' : daemon) : Prop := {
  g_sd : shuttingDown d = true → shuttingDown d' = true;
  g_stopped : stopAllDone d = true → stopAllDone d' = true;
  g_names id s : heap d !! id = Some s → ∃ s', heap d' !! id = Some s' ∧ Service.Name s' = Service.Name s;
  g_closed : closedCh d ⊆ closedCh d';
  (* once shutting down nothing starts and nothing is reconfigured *)
  g_frozen : shuttingDown d = true →
    services d' = services d ∧ shutdownSeq d' = shutdownSeq d ∧ shutdownMode d' = shutdownMode d ∧
    ∀ id, is_running d' id = true → is_running d id = true ∧ Service.done (get d' id) = Service.done (get d id);
  g_trace : ∃ evs, trace d' = trace d ++ evs ∧ Forall (event_ok d) evs;
}.

(** ** Calm steps: no fork, no exit *)

(** Objects keep their run state, new ones are idle; channels are only added,
    and only scheduler channels are closed. *)
Record calm (d d' : daemon) : Prop := {
  c_flags : shuttingDown d' = shuttingDown d ∧ stopAllDone d' = stopAllDone d;
  c_returned : returned d' = returned d;
  c_pid : pidMap d' = pidMap d;
  c_heap id s : heap d !! id = Some s → ∃ s', heap d' !! id = Some s' ∧ run_of s' = run_of s;
  c_new id s' : heap d' !! id = Some s' → heap d !! id = None →
    nextId d ≤ id ∧ id < nextId d' ∧ Service.running s' = false ∧ Service.Pid s' = 0%Z ∧ Service.done s' = None;
  c_next : nextId d ≤ nextId d' ∧ nextCh d ≤ nextCh d';
  c_sub : closedCh d ⊆ closedCh d';
  c_closed c : c ∈ closedCh d' → c ∈ closedCh d ∨ c ∈ schedulers d ∨ (nextCh d ≤ c ∧ c < nextCh d');
  c_sched c : c ∈ schedulers d' → c ∈ schedulers d ∨ (nextCh d ≤ c ∧ c < nextCh d');
  c_trace : ∃ evs, trace d' = trace d ++ evs ∧ Forall plain evs;
  c_frozen : shuttingDown d = true →
    services d' = services d ∧ shutdownSeq d' = shutdownSeq d ∧ shutdownMode d' = shutdownMode d ∧ cfg d' = cfg d;
}.

Lemma calm_refl d : calm d d.
Proof.
  split; try done; try (intros; congruence); eauto.
  exists []. split; [by rewrite app_nil_r|constructor].
Qed.

Lemma calm_trans d1 d2 d3 : calm d1 d2 → calm d2 d3 → calm d1 d3.
Proof.
  intros H12 H23. destruct (c_flags _ _ H12) as [F1 F2], (c_flags _ _ H23) as [F3 F4].
  destruct (c_next _ _ H12), (c_next _ _ H23). split.
  - split; congruence.
  - rewrite (c_returned _ _ H23). apply (c_returned _ _ H12).
  - rewrite (c_pid _ _ H23). apply (c_pid _ _ H12).
  - intros id s Hs. destruct (c_heap _ _ H12 id s Hs) as (s2 & Hs2 & E2).
    destruct (c_heap _ _ H23 id s2 Hs2) as (s3 & Hs3 & E3). exists s3. split; [done|congruence].
  - intros id s3 Hs3 Hn. destruct (heap d2 !! id) as [s2|] eqn:Hs2.
    + destruct (c_new _ _ H12 id s2 Hs2 Hn) as (? & ? & ? & ? & ?).
      destruct (c_heap _ _ H23 id s2 Hs2) as (s3' & Hs3' & E). simplify_eq.
      split_and!; [lia|lia|congruence|congruence|congruence].
    + destruct (c_new _ _ H23 id s3 Hs3 Hs2) as (? & ? & ?). split_and!; [lia|lia|..]; naive_solver.
  - lia.
  - etrans; [apply (c_sub _ _ H12)|apply (c_sub _ _ H23)].
  - intros c Hc. destruct (c_closed _ _ H23 c Hc) as [Hc2|[Hc2|Hc2]]; [| |right; right; lia].
    + destruct (c_closed _ _ H12 c Hc2) as [?|[?|?]]; [auto|auto|right; right; lia].
    + destruct (c_sched _ _ H12 c Hc2) as [?|?]; [auto|right; right; lia].
  - intros c Hc. destruct (c_sched _ _ H23 c Hc) as [Hc2|?]; [|right; lia].
    destruct (c_sched _ _ H12 c Hc2) as [?|?]; [auto|right; lia].
  - destruct (c_trace _ _ H12) as (e1 & E1 & P1), (c_trace _ _ H23) as (e2 & E2 & P2).
    exists (e1 ++ e2). rewrite E2, E1, app_assoc. split; [done|]. by apply Forall_app.
  - intros Hsd. destruct (c_frozen _ _ H12 Hsd) as (<- & <- & <- & <-). apply (c_frozen _ _ H23). congruence.
Qed.

Lemma get_run d d' id : calm d d' → is_Some (heap d !! id) → run_of (get d' id) = run_of (get d id).
Proof.
  intros H [s Hs]. destruct (c_heap _ _ H id s Hs) as (s' & Hs' & E). unfold get. by rewrite Hs, Hs'.
Qed.

Lemma run_of_running s s' : run_of s = run_of s' → Service.running s = Service.running s'.
Proof. by intros [=]. Qed.

Lemma get_dom d id : is_running d id = true → is_Some (heap d !! id).
Proof. unfold is_running, get. destruct (heap d !! id); [eauto|done]. Qed.

Lemma calm_running d d' id : calm d d' → is_running d' id = is_running d id.
Proof.
  intros H. destruct (heap d !! id) as [s|] eqn:Hs.
  - unfold is_running. apply run_of_running, get_run; eauto.
  - unfold is_running at 2, get. rewrite Hs. cbn. destruct (is_running d' id) eqn:E; [|done].
    destruct (get_dom _ _ E) as [s' Hs']. destruct (c_new _ _ H id s' Hs' Hs) as (_ & _ & Hr & _).
    unfold is_running, get in E. rewrite Hs' in E. cbn in E. congruence.
Qed.

Lemma plain_ok d evs : Forall plain evs → Forall (event_ok d) evs.
Proof. intros H. eapply Forall_impl; [exact H|]. by intros []. Qed.

Lemma calm_G d d' : calm d d' → G d d'.
Proof.
  intros H. destruct (c_flags _ _ H) as [F1 F2]. split.
  - congruence.
  - congruence.
  - intros id s Hs. destruct (c_heap _ _ H id s Hs) as (s' & Hs' & E). exists s'. split; [done|]. by injection E.
  - apply (c_sub _ _ H).
  - intros Hsd. destruct (c_frozen _ _ H Hsd) as (? & ? & ? & ?). split_and!; try done.
    intros id Hr. rewrite (calm_running _ _ _ H) in Hr. split; [done|].
    assert (E : run_of (get d' id) = run_of (get d id)) by (apply get_run; [done|by apply get_dom]).
    by injection E.
  - destruct (c_trace _ _ H) as (evs & E & P). exists evs. split; [done|]. by apply plain_ok.
Qed.

(** In a calm step every object is an old one in the same run state, or idle. *)
Lemma calm_back d d' id s' : calm d d' → heap d' !! id = Some s' →
  (∃ s, heap d !! id = Some s ∧ run_of s' = run_of s) ∨
  (id < nextId d' ∧ Service.running s' = false ∧ Service.Pid s' = 0%Z ∧ Service.done s' = None).
Proof.
  intros H Hs'. destruct (heap d !! id) as [s|] eqn:Hs.
  - destruct (c_heap _ _ H id s Hs) as (s2 & Hs2 & E). assert (s2 = s') as -> by congruence. left. eauto.
  - destruct (c_new _ _ H id s' Hs' Hs) as (? & ? & ? & ? & ?). auto.
Qed.

Lemma calm_Inv d d' : calm d d' → services_ok d' → Inv d → Inv d'.
Proof.
  intros H Hso HI. destruct (c_flags _ _ H) as [F1 F2], (c_next _ _ H) as [N1 N2].
  assert (Hback := λ id s', calm_back d d' id s' H). split.
  - done.
  - intros id s' Hs'. destruct (Hback id s' Hs') as [(s & Hs & _)|(? & _)]; [|done].
    pose proof (i_alloc _ HI id s Hs). lia.
  - intros pid id. rewrite (c_pid _ _ H), (i_pid _ HI). split.
    + intros (s & Hs & Hr & Hp). destruct (c_heap _ _ H id s Hs) as (s' & Hs' & E). injection E as En Er Ep Ed.
      exists s'. split_and!; congruence.
    + intros (s' & Hs' & Hr & Hp). destruct (Hback id s' Hs') as [(s & Hs & E)|(_ & ? & _)]; [|congruence].
      injection E as En Er Ep Ed. exists s. split_and!; congruence.
  - intros id s' Hs' Hr. destruct (Hback id s' Hs') as [(s & Hs & E)|(_ & ? & _)]; [|congruence].
    injection E as En Er Ep Ed. rewrite Ep. apply (i_pos _ HI id s Hs). congruence.
  - intros id s' Hs' Hr. destruct (Hback id s' Hs') as [(s & Hs & E)|(_ & ? & ? & ?)]; [|done].
    injection E as En Er Ep Ed. rewrite Ep, Ed. apply (i_idle _ HI id s Hs). congruence.
  - intros id s' Hs' Hr. destruct (Hback id s' Hs') as [(s & Hs & E)|(_ & ? & _)]; [|congruence].
    injection E as En Er Ep Ed. destruct (i_done _ HI id s Hs) as (c & Hc & H4 & H5 & H6); [congruence|].
    exists c. split_and!; [congruence| | |lia].
    + intros Hcl. destruct (c_closed _ _ H c Hcl) as [?|[?|?]]; [done|done|lia].
    + intros Hsc. destruct (c_sched _ _ H c Hsc) as [?|?]; [done|lia].
  - intros id1 s1 id2 s2 c Hs1 Hs2 Hd1 Hd2.
    destruct (Hback id1 s1 Hs1) as [(t1 & Ht1 & E1)|(_ & _ & _ & ?)]; [|congruence].
    destruct (Hback id2 s2 Hs2) as [(t2 & Ht2 & E2)|(_ & _ & _ & ?)]; [|congruence].
    injection E1 as ??? Ed1. injection E2 as ??? Ed2. eapply (i_done_own _ HI id1 t1 id2 t2 c); congruence.
  - intros c [Hc|Hc].
    + destruct (c_closed _ _ H c Hc) as [Hc'|[Hc'|?]]; [..|lia]; pose proof (i_chan _ HI c); naive_solver lia.
    + destruct (c_sched _ _ H c Hc) as [Hc'|?]; [|lia]. pose proof (i_chan _ HI c). naive_solver lia.
  - intros n id Hd Hn. rewrite F2 in Hd. rewrite (calm_running _ _ _ H).
    destruct (c_frozen _ _ H (i_done_sd _ HI Hd)) as (Hsv & _). rewrite Hsv in Hn. by eapply i_stopped.
  - rewrite F1, F2. apply (i_done_sd _ HI).
  - rewrite (c_returned _ _ H), F2. apply (i_returned _ HI).
Qed.

(** A calm step that also keeps the configuration. *)
Record quiet (d d' : daemon) : Prop := {
  q_calm : calm d d';
  q_services : services d' = services d;
  q_cfg : cfg d' = cfg d;
  q_seq : shutdownSeq d' = shutdownSeq d;
  q_mode : shutdownMode d' = shutdownMode d;
}.

Lemma quiet_refl d : quiet d d.
Proof. split; [apply calm_refl|done..]. Qed.

Lemma quiet_trans d1 d2 d3 : quiet d1 d2 → quiet d2 d3 → quiet d1 d3.
Proof. intros [] []. split; [by eapply calm_trans|congruence..]. Qed.

Lemma quiet_services_ok d d' : quiet d d' → services_ok d → services_ok d'.
Proof.
  intros [Hc Hs Hcf Hq Hm] Hok. split.
  - intros n id Hn. rewrite Hs in Hn. destruct (so_heap _ Hok n id Hn) as (s & Hh & Hnm).
    destruct (c_heap _ _ Hc id s Hh) as (s' & Hh' & E). exists s'. split; [done|]. injection E. congruence.
  - rewrite Hcf, Hq. apply (so_seq _ Hok).
  - rewrite Hcf, Hm. apply (so_mode _ Hok).
Qed.

Lemma quiet_good d d' : quiet d d' → Inv d → Inv d' ∧ G d d'.
Proof.
  intros H HI. split; [|apply calm_G, H]. eapply calm_Inv; [apply H| |done].
  eapply quiet_services_ok; [done|apply HI].
Qed.

(** ** Quiet actions *)

Lemma inert_quiet d d' :
  heap d' = heap d → nextId d' = nextId d → cfg d' = cfg d → services d' = services d →
  pidMap d' = pidMap d → closedCh d' = closedCh d → nextCh d' = nextCh d → schedulers d' = schedulers d →
  shutdownSeq d' = shutdownSeq d → shutdownMode d' = shutdownMode d →
  shuttingDown d' = shuttingDown d → stopAllDone d' = stopAllDone d → trace d' = trace d →
  returned d' = returned d → quiet d d'.
Proof.
  intros Hh Hi Hc Hs Hp Hcl Hn Hsc Hq Hm Hsd Hst Ht Hre.
  split; [split|..]; rewrite ?Hh, ?Hi, ?Hc, ?Hs, ?Hp, ?Hcl, ?Hn, ?Hsc, ?Hq, ?Hm, ?Hsd, ?Hst, ?Ht, ?Hre;
    try done; eauto; try congruence.
  exists []. rewrite app_nil_r. by split; [|constructor].
Qed.

Ltac inert := apply inert_quiet; reflexivity.

Lemma put_quiet d id s : run_of s = run_of (get d id) → quiet d (put id s d).
Proof.
  intros Hr. split; [split|..]; try done; cbn.
  - intros id' s' Hs'. destruct (decide (id' = id)) as [->|Hne].
    + exists s. rewrite lookup_alter_eq, Hs'. split; [done|]. rewrite Hr. unfold get. by rewrite Hs'.
    + exists s'. by rewrite lookup_alter_ne.
  - intros id' s'. destruct (decide (id' = id)) as [->|Hne].
    + rewrite lookup_alter_eq. intros H1 H2. by rewrite H2 in H1.
    + rewrite lookup_alter_ne by done. congruence.
  - intros c. auto.
  - intros c. auto.
  - exists []. rewrite app_nil_r. by split; [|constructor].
Qed.

Lemma emit_quiet d evs : Forall plain evs → quiet d (emit evs d).
Proof.
  intros H. split; [split|..]; try done; cbn; eauto; try congruence.
Qed.

Lemma kill_plain ks : Forall plain (kill_events ks).
Proof. unfold kill_events. apply Forall_fmap, Forall_true. done. Qed.

Lemma Stop_run s now : run_of (Service.Stop s now).1 = run_of s.
Proof.
  unfold Service.Stop, run_of. destruct (Service.running s) eqn:E; cbn; [|by rewrite E].
  destruct (Service.Pid s <=? 0)%Z; cbn; [done|]. by destruct (0 <? Service.killDelay s)%Z.
Qed.

Lemma stop_quiet d now id : quiet d (stop_service now id d).
Proof.
  unfold stop_service. pose proof (Stop_run (get d id) now) as H.
  destruct (Service.Stop (get d id) now) as [s ks]. cbn in H.
  eapply quiet_trans; [by apply put_quiet|]. apply emit_quiet, kill_plain.
Qed.

Lemma mark_quiet d n : quiet d (markRestartPending n d).
Proof. inert. Qed.

Lemma take_quiet d n : quiet d (takeRestartPending n d).2.
Proof. unfold takeRestartPending. case_bool_decide; [inert|apply quiet_refl]. Qed.

Lemma book_quiet now id d : quiet d (book_restart now id d).2.
Proof.
  unfold book_restart. cbn [snd].
  match goal with |- quiet _ (addPending 1 (set_m _ ?x)) => set (d1 := x) end.
  apply (quiet_trans _ d1); [|inert]. subst d1. destruct (Service.IsRunning _); [|apply quiet_refl].
  eapply quiet_trans; [apply stop_quiet|inert].
Qed.

(** A loop of quiet rounds is quiet. *)
Lemma foldl_quiet {A} (f : daemon → A → daemon) l d :
  (∀ d a, quiet d (f d a)) → quiet d (foldl f d l).
Proof.
  intros Hf. revert d. induction l as [|a l IH]; intros d; [apply quiet_refl|]. cbn.
  eapply quiet_trans; [apply Hf|apply IH].
Qed.

Lemma foldl_quiet2 {A B} (f : B * daemon → A → B * daemon) l b d :
  (∀ b d a, quiet d (f (b, d) a).2) → quiet d (foldl f (b, d) l).2.
Proof.
  intros Hf. revert b d. induction l as [|a l IH]; intros b d; [apply quiet_refl|]. cbn.
  pose proof (Hf b d a) as H. destruct (f (b, d) a) as [b1 d1]. eapply quiet_trans; [exact H|apply IH].
Qed.

Lemma check_failure_quiet now check l reqs d : quiet d (check_failure_loop now check l reqs d).2.
Proof.
  revert reqs d. induction l as [|[n id] l IH]; intros reqs d; cbn; [apply quiet_refl|].
  destruct (Service.OnCheckFailure (get d id) !! check) as [[]|]; try apply IH; try apply quiet_refl.
  pose proof (book_quiet now id d) as H. unfold book_restart in *. cbn in *.
  eapply quiet_trans; [exact H|]. eapply quiet_trans; [|apply IH]. inert.
Qed.

Lemma stop_dependents_quiet now n l d : quiet d (stop_dependents now n l d).
Proof.
  apply foldl_quiet. intros d' [x id]. cbn. destruct (_ && _); [apply stop_quiet|apply quiet_refl].
Qed.

(** ** Good actions *)

Definition good {X} (f : env → daemon → option (X * daemon)) : Prop :=
  ∀ e d x d', Inv d → f e d = Some (x, d') → Inv d' ∧ G d d'.

Lemma good_quiet {X} (f : env → daemon → option (X * daemon)) :
  (∀ e d x d', f e d = Some (x, d') → quiet d d') → good f.
Proof. intros H e d x d' HI Hf. eapply quiet_good; eauto. Qed.

Definition safe {A} (p : P A) : Prop := ∀ d, Inv d → wp Inv G p (λ _ d', Inv d') d.

Lemma safe_act {A X} (f : env → daemon → option (X * daemon)) (k : X → P A) :
  good f → (∀ x, safe (k x)) → safe (Act f k).
Proof.
  intros Hf Hk d _. cbn. intros e d1 x d2 _ HI Hs. destruct (Hf e d1 x d2 HI Hs). split_and!; [done..|].
  by apply Hk.
Qed.

Lemma safe_return {A} (a : A) : safe (Return a).
Proof. by intros d. Qed.

Lemma safe_bind {A B} (p : P A) (h : A → P B) : safe p → (∀ a, safe (h a)) → safe (p ≫= h).
Proof.
  intros Hp Hh d HI. apply wp_bind. eapply wp_mono; [|by apply Hp]. intros a s Hs. by apply Hh.
Qed.

Lemma safe_true {A} (p : P A) d : safe p → Inv d → wp Inv G p (λ _ _, True) d.
Proof. intros Hp HI. eapply wp_mono; [|by apply Hp]. done. Qed.

Lemma safe_go {A} (p : P unit) (k : P A) : safe p → safe k → safe (Go p k).
Proof. intros Hp Hk d HI. cbn. split; [by apply safe_true|by apply Hk]. Qed.

Lemma safe_goloop {A} (b : P bool) (k : P A) : safe b → safe k → safe (GoLoop b k).
Proof. intros Hb Hk d HI. cbn. split; [|by apply Hk]. intros d' _ HI'. by apply safe_true. Qed.

Lemma safe_foreach {A} (l : list A) (f : A → P unit) : (∀ a, safe (f a)) → safe (foreach l f).
Proof.
  intros Hf. induction l as [|a l IH]; cbn; [apply safe_return|]. apply safe_bind; auto.
Qed.

Lemma safe_read {X} (f : daemon → X) : safe (read f).
Proof. apply safe_act; [|intros; apply safe_return]. apply good_quiet. intros ???? [= _ <-]. apply quiet_refl. Qed.

Lemma safe_input {X} (f : env → X) : safe (input f).
Proof. apply safe_act; [|intros; apply safe_return]. apply good_quiet. intros ???? [= _ <-]. apply quiet_refl. Qed.

Lemma safe_modify f : (∀ e d, quiet d (f e d)) → safe (modify f).
Proof.
  intros Hf. apply safe_act; [|intros; apply safe_return]. apply good_quiet. intros ???? [= _ <-]. apply Hf.
Qed.

Lemma safe_action {X} (f : env → daemon → option (X * daemon)) : good f → safe (act f).
Proof. intros Hf. apply safe_act; [done|]. intros. apply safe_return. Qed.

(** ** Fork and exit *)

(** Lookup in a heap where one object changed. *)
Lemma lookup_put d id s id' s' :
  heap (put id s d) !! id' = Some s' →
  (id' = id ∧ s' = s ∧ is_Some (heap d !! id)) ∨ (id' ≠ id ∧ heap d !! id' = Some s').
Proof.
  cbn. destruct (decide (id' = id)) as [->|Hne].
  - rewrite lookup_alter_eq. destruct (heap d !! id) eqn:E; [|done]. intros [= <-]. left. eauto.
  - rewrite lookup_alter_ne by done. auto.
Qed.

Lemma get_lookup d id s : heap d !! id = Some s → get d id = s.
Proof. unfold get. by intros ->. Qed.

(** The state after a fork. *)
Definition forked (now pid : Z) (id : nat) (s : Service.Service) (d : daemon) : daemon :=
  emit [EFork id pid]
    (set_children ({[pid]} ∪ children d)
    (set_m (Metrics.ServiceStarted (m d) (Service.Name s) pid now)
    (set_pidMap (<[pid := id]> (pidMap d))
    (set_nextCh (S (nextCh d)) (put id (Service.set_run s pid true false (Some (nextCh d)) now) d))))).

Lemma forked_heap now pid id s d id' s' :
  heap (forked now pid id s d) !! id' = Some s' → is_Some (heap d !! id) →
  (id' = id ∧ s' = Service.set_run s pid true false (Some (nextCh d)) now) ∨ (id' ≠ id ∧ heap d !! id' = Some s').
Proof. intros H Hi. apply lookup_put in H. naive_solver. Qed.

Lemma forked_new now pid id s d :
  is_Some (heap d !! id) →
  heap (forked now pid id s d) !! id = Some (Service.set_run s pid true false (Some (nextCh d)) now).
Proof. intros [s0 H]. cbn. by rewrite lookup_alter_eq, H. Qed.

Lemma forked_old now pid id s d id' : id' ≠ id → heap (forked now pid id s d) !! id' = heap d !! id'.
Proof. intros H. cbn. by rewrite lookup_alter_ne. Qed.

Lemma forked_pid now pid id s d p i :
  Inv d → heap d !! id = Some s → Service.running s = false → pidMap d !! pid = None →
  pidMap (forked now pid id s d) !! p = Some i ↔
  ∃ s', heap (forked now pid id s d) !! i = Some s' ∧ Service.running s' = true ∧ Service.Pid s' = p.
Proof.
  intros HI Hs Hr Hp. cbn [pidMap forked emit set_trace set_children set_m set_pidMap].
  destruct (decide (i = id)) as [->|Hne].
  - split.
    + intros H. exists (Service.set_run s pid true false (Some (nextCh d)) now).
      rewrite forked_new by eauto. split_and!; [done|done|]. cbn.
      destruct (decide (p = pid)) as [->|Hn]; [done|]. rewrite lookup_insert_ne in H by done.
      apply (i_pid _ HI) in H as (s' & ? & ? & ?). congruence.
    + intros (s' & H & _ & <-). rewrite forked_new in H by eauto. injection H as <-. by rewrite lookup_insert_eq.
  - rewrite forked_old, <- (i_pid _ HI) by done. destruct (decide (p = pid)) as [->|Hn].
    + rewrite lookup_insert_eq, Hp. split; congruence.
    + by rewrite lookup_insert_ne.
Qed.

Lemma forked_Inv now pid id s d :
  Inv d → heap d !! id = Some s → Service.running s = false → shuttingDown d = false →
  pidMap d !! pid = None → (0 < pid)%Z → Inv (forked now pid id s d).
Proof.
  intros HI Hs Hr Hsd Hp Hpos.
  assert (Hst : stopAllDone d = false).
  { destruct (stopAllDone d) eqn:E; [|done]. pose proof (i_done_sd _ HI E). congruence. }
  assert (Hold : ∀ i s', heap (forked now pid id s d) !! i = Some s' →
    (i = id ∧ s' = Service.set_run s pid true false (Some (nextCh d)) now) ∨ (i ≠ id ∧ heap d !! i = Some s')).
  { intros i s' H. apply forked_heap in H; eauto. }
  assert (Hfresh : ∀ i t c, heap d !! i = Some t → Service.done t = Some c → c < nextCh d).
  { intros i t c Ht Hc. destruct (Service.running t) eqn:Ert.
    - destruct (i_done _ HI i t Ht Ert) as (c' & ? & _ & _ & ?). congruence.
    - destruct (i_idle _ HI i t Ht Ert). congruence. }
  split.
  - split; [|apply HI|apply HI]. intros n i Hn. destruct (so_heap _ (i_services _ HI) n i Hn) as (t & Ht & Hnm).
    destruct (decide (i = id)) as [->|Hne]; [|exists t; by rewrite forked_old].
    eexists. rewrite forked_new by eauto. split; [done|]. cbn. congruence.
  - intros i s' H. apply Hold in H as [[-> ->]|[_ H]]; eapply (i_alloc _ HI); eauto.
  - intros p i. by apply forked_pid.
  - intros i s' H. apply Hold in H as [[-> ->]|[_ H]]; [done|]. by eapply (i_pos _ HI).
  - intros i s' H. apply Hold in H as [[-> ->]|[_ H]]; [done|]. by eapply (i_idle _ HI).
  - intros i s' H Hr'. cbn [closedCh schedulers nextCh forked emit set_trace set_children set_m set_pidMap set_nextCh put set_heap].
    apply Hold in H as [[-> ->]|[_ H]].
    + exists (nextCh d). split_and!; [done| | |lia]; intros Hc; pose proof (i_chan _ HI (nextCh d)); naive_solver lia.
    + destruct (i_done _ HI i s' H Hr') as (c & ? & ? & ? & ?). exists c. split_and!; [done..|lia].
  - intros i1 s1 i2 s2 c H1 H2 D1 D2. apply Hold in H1 as [[-> ->]|[N1 H1]]; apply Hold in H2 as [[-> ->]|[N2 H2]].
    + done.
    + cbn in D1. pose proof (Hfresh i2 s2 c H2 D2). simplify_eq. lia.
    + cbn in D2. pose proof (Hfresh i1 s1 c H1 D1). simplify_eq. lia.
    + by eapply (i_done_own _ HI).
  - intros c Hc. pose proof (i_chan _ HI c Hc). cbn. lia.
  - cbn. congruence.
  - cbn. congruence.
  - apply (i_returned _ HI).
Qed.

Lemma forked_G now pid id s d :
  heap d !! id = Some s → Service.running s = false → shuttingDown d = false →
  services d !! Service.Name s = Some id → pidMap d !! pid = None → (0 < pid)%Z →
  G d (forked now pid id s d).
Proof.
  intros Hs Hr Hsd Hsv Hp Hpos. split.
  - congruence.
  - done.
  - intros i t Ht. destruct (decide (i = id)) as [->|Hne]; [|exists t; by rewrite forked_old].
    eexists. rewrite forked_new by eauto. split; [done|]. cbn. congruence.
  - done.
  - congruence.
  - exists [EFork id pid]. split; [done|]. constructor; [|constructor]. cbn.
    unfold is_running. rewrite (get_lookup _ _ _ Hs). auto.
Qed.

Lemma start_good id : good (start_locked id).
Proof.
  intros e d [pid0 err] d' HI. unfold start_locked. cbv zeta.
  destruct (shuttingDown d) eqn:Hsd.
  { intros [= _ _ <-]. apply quiet_good; [apply quiet_refl|done]. }
  case_bool_decide as Hsv; cbn [negb].
  2: { intros [= _ _ <-]. apply quiet_good; [apply quiet_refl|done]. }
  destruct (Service.IsRunning (get d id)) eqn:Hr.
  { intros [= _ _ <-]. apply quiet_good; [apply quiet_refl|done]. }
  unfold Service.FinishStart. destruct (e_fork e) as [pid|]; cbn [mbind option_bind].
  2: { intros [= _ _ <-]. apply quiet_good; [apply quiet_refl|done]. }
  destruct (fresh_pid d pid) eqn:Hf; [|done]. intros [= _ _ <-].
  unfold fresh_pid in Hf. rewrite !andb_true_iff, !bool_decide_eq_true, Z.ltb_lt in Hf.
  destruct Hf as [[[Hpos _] _] Hp].
  destruct (so_heap _ (i_services _ HI) _ _ Hsv) as (s & Hs & Hn). rewrite (get_lookup _ _ _ Hs) in *.
  fold (forked (e_now e) pid id s d). split; [by apply forked_Inv|by apply forked_G].
Qed.

Lemma G_quiet d d1 d2 : G d d1 → quiet d1 d2 → G d d2.
Proof.
  intros HG Hq. pose proof (q_calm _ _ Hq) as Hc. pose proof (calm_G _ _ Hc) as HG2. split.
  - intros H. apply (g_sd _ _ HG2), (g_sd _ _ HG), H.
  - intros H. apply (g_stopped _ _ HG2), (g_stopped _ _ HG), H.
  - intros id s Hs. destruct (g_names _ _ HG id s Hs) as (s1 & Hs1 & E1).
    destruct (g_names _ _ HG2 id s1 Hs1) as (s2 & Hs2 & E2). exists s2. split; [done|congruence].
  - etrans; [apply (g_closed _ _ HG)|apply (g_closed _ _ HG2)].
  - intros H. destruct (g_frozen _ _ HG H) as (E1 & E2 & E3 & Hr).
    destruct (g_frozen _ _ HG2 (g_sd _ _ HG H)) as (E4 & E5 & E6 & Hr2). split_and!; [congruence..|].
    intros id Hid. destruct (Hr2 id Hid) as [Hid1 Ed]. destruct (Hr id Hid1). split; [done|congruence].
  - destruct (g_trace _ _ HG) as (e1 & E1 & P1), (c_trace _ _ Hc) as (e2 & E2 & P2).
    exists (e1 ++ e2). rewrite E2, E1, app_assoc. split; [done|]. apply Forall_app. split; [done|]. by apply plain_ok.
Qed.

Lemma good_then_quiet d d1 d2 : Inv d1 ∧ G d d1 → quiet d1 d2 → Inv d2 ∧ G d d2.
Proof. intros [HI HG] Hq. split; [by apply (quiet_good _ _ Hq HI)|by eapply G_quiet]. Qed.

(** The instance a recorded pid belongs to. *)
Lemma recorded d pid id :
  Inv d → pidMap d !! pid = Some id →
  ∃ s c, heap d !! id = Some s ∧ Service.running s = true ∧ Service.Pid s = pid ∧
    Service.done s = Some c ∧ (c ∉ closedCh d) ∧ (c ∉ schedulers d) ∧ c < nextCh d.
Proof.
  intros HI H. apply (i_pid _ HI) in H as (s & Hs & Hr & Hp).
  destruct (i_done _ HI id s Hs Hr) as (c & ? & ? & ? & ?). by exists s, c.
Qed.

Definition ended (s : Service.Service) : Service.Service :=
  Service.set_run s 0 false (Service.stopped s) None (Service.startedAt s).

Lemma mark_exited_eq now pid id d s c :
  heap d !! id = Some s → Service.done s = Some c →
  mark_exited now pid id d =
  emit [EReaped id pid] (set_closedCh ({[c]} ∪ closedCh d) (put id (ended s) (set_pidMap (delete pid (pidMap d)) d))).
Proof. intros Hs Hc. unfold mark_exited, Service.MarkExited. by rewrite (get_lookup _ _ _ Hs), Hc. Qed.

Section exit.
Context (now pid : Z) (id : nat) (d : daemon) (HI : Inv d) (Hpid : pidMap d !! pid = Some id).

Let d' : daemon := mark_exited now pid id d.

Lemma exit_heap i s' : heap d' !! i = Some s' →
  (i = id ∧ ∃ s, heap d !! id = Some s ∧ s' = ended s) ∨ (i ≠ id ∧ heap d !! i = Some s').
Proof.
  destruct (recorded d pid id HI Hpid) as (s & c & Hs & _ & _ & Hc & _). unfold d'.
  rewrite (mark_exited_eq now pid id d s c Hs Hc). intros H. apply lookup_put in H as [(-> & -> & _)|[? ?]]; eauto.
Qed.

Lemma exit_old i s : heap d !! i = Some s → heap d' !! i = Some (if decide (i = id) then ended s else s).
Proof.
  destruct (recorded d pid id HI Hpid) as (s0 & c & Hs & _ & _ & Hc & _). unfold d'.
  rewrite (mark_exited_eq now pid id d s0 c Hs Hc). intros H. cbn. case_decide as Hi.
  - subst i. rewrite lookup_alter_eq, Hs. simplify_eq. done.
  - by rewrite lookup_alter_ne.
Qed.

Lemma exit_running i : is_running d' i = true → i ≠ id ∧ is_running d i = true ∧ get d' i = get d i.
Proof.
  intros Hr. destruct (get_dom _ _ Hr) as [s' Hs']. unfold is_running in Hr. rewrite (get_lookup _ _ _ Hs') in Hr.
  pose proof (exit_heap i s' Hs') as [(-> & s & _ & ->)|[Hne Hs]]; [done|].
  unfold is_running. rewrite (get_lookup _ _ _ Hs), (get_lookup _ _ _ Hs'). done.
Qed.

Lemma exit_closed : ∃ c s, heap d !! id = Some s ∧ Service.done s = Some c ∧
  closedCh d' = {[c]} ∪ closedCh d ∧ c < nextCh d ∧ pidMap d' = delete pid (pidMap d) ∧
  services d' = services d ∧ cfg d' = cfg d ∧ shutdownSeq d' = shutdownSeq d ∧ shutdownMode d' = shutdownMode d ∧
  shuttingDown d' = shuttingDown d ∧ stopAllDone d' = stopAllDone d ∧ nextId d' = nextId d ∧
  nextCh d' = nextCh d ∧ schedulers d' = schedulers d ∧ trace d' = trace d ++ [EReaped id pid] ∧
  returned d' = returned d.
Proof.
  destruct (recorded d pid id HI Hpid) as (s & c & Hs & _ & _ & Hc & _ & _ & Hlt). exists c, s. unfold d'.
  by rewrite (mark_exited_eq now pid id d s c Hs Hc).
Qed.

Lemma exit_pid p i : pidMap d' !! p = Some i ↔
  ∃ s', heap d' !! i = Some s' ∧ Service.running s' = true ∧ Service.Pid s' = p.
Proof.
  destruct exit_closed as (c & s & Hs & _ & _ & _ & Hpm & _).
  destruct (recorded d pid id HI Hpid) as (s0 & _ & Hs0 & _ & Hp & _).
  rewrite Hpm. split.
  - intros [Hne H]%lookup_delete_Some. apply (i_pid _ HI) in H as (t & Ht & Hr & <-).
    exists t. rewrite (exit_old i t Ht). case_decide; [|done]. subst i. congruence.
  - intros (t & Ht & Hr & <-). apply exit_heap in Ht as [(-> & s1 & _ & ->)|[Hne Ht]]; [done|].
    assert (H : pidMap d !! Service.Pid t = Some i) by (apply (i_pid _ HI); eauto).
    apply lookup_delete_Some. split; [|done]. intros E. rewrite <- E in H. congruence.
Qed.

Lemma exit_Inv : Inv d'.
Proof.
  destruct exit_closed as (c & s & Hs & Hc & Hcl & Hlt & Hpm & Hsv & Hcf & Hsq & Hmd & Hsd & Hst & Hid & Hch & Hsc & _ & Hre).
  split.
  - split; rewrite ?Hsv, ?Hcf, ?Hsq, ?Hmd; try apply HI.
    intros n i Hn. destruct (so_heap _ (i_services _ HI) n i Hn) as (t & Ht & Hnm). eexists.
    rewrite (exit_old i t Ht). split; [done|]. by case_decide.
  - intros i t Ht. rewrite Hid. apply exit_heap in Ht as [(-> & t0 & Ht & ->)|[_ Ht]]; by eapply (i_alloc _ HI).
  - apply exit_pid.
  - intros i t Ht. apply exit_heap in Ht as [(-> & t0 & Ht & ->)|[_ Ht]]; [done|]. by eapply (i_pos _ HI).
  - intros i t Ht. apply exit_heap in Ht as [(-> & t0 & Ht & ->)|[_ Ht]]; [done|]. by eapply (i_idle _ HI).
  - intros i t Ht Hr. apply exit_heap in Ht as [(-> & t0 & Ht & ->)|[Hne Ht]]; [done|].
    destruct (i_done _ HI i t Ht Hr) as (c' & Hc' & ? & ? & ?). exists c'. rewrite Hcl, Hsc, Hch. split_and!; try done.
    intros [->%elem_of_singleton|?]%elem_of_union; [|done]. by apply Hne, (i_done_own _ HI i t id s c).
  - intros i1 s1 i2 s2 x H1 H2 D1 D2.
    apply exit_heap in H1 as [(-> & t1 & ? & ->)|[_ H1]]; [done|].
    apply exit_heap in H2 as [(-> & t2 & ? & ->)|[_ H2]]; [done|]. by eapply (i_done_own _ HI).
  - intros x. rewrite Hcl, Hsc, Hch, elem_of_union, elem_of_singleton. pose proof (i_chan _ HI x). naive_solver.
  - intros n i H1 H2. rewrite Hst in H1. rewrite Hsv in H2. destruct (is_running d' i) eqn:E; [|done].
    apply exit_running in E as (_ & E & _). by rewrite (i_stopped _ HI n i H1 H2) in E.
  - rewrite Hst, Hsd. apply (i_done_sd _ HI).
  - rewrite Hre, Hst. apply (i_returned _ HI).
Qed.

Lemma exit_G : G d d'.
Proof.
  destruct exit_closed as (c & s & Hs & Hc & Hcl & Hlt & Hpm & Hsv & Hcf & Hsq & Hmd & Hsd & Hst & Hid & Hch & Hsc & Htr & _).
  split.
  - congruence.
  - congruence.
  - intros i t Ht. eexists. rewrite (exit_old i t Ht). split; [done|]. by case_decide.
  - rewrite Hcl. set_solver.
  - intros _. split_and!; [done..|]. intros i (_ & ? & ->)%exit_running. done.
  - eexists. split; [exact Htr|]. by constructor.
Qed.
End exit.

Lemma act_on_exit_quiet e id code consumed d v d' : act_on_exit e id code consumed d = Some (v, d') → quiet d d'.
Proof.
  unfold act_on_exit. cbv zeta.
  set (o := if stops_dependents (get d id) code then _ else Some d).
  assert (Ho : ∀ d1, o = Some d1 → quiet d d1).
  { subst o. intros d1. destruct (stops_dependents _ _); [|intros [= <-]; apply quiet_refl].
    destruct (iteration e (services d)); [|done]. intros [= <-]. apply stop_dependents_quiet. }
  destruct o as [d1|]; [|done]. specialize (Ho d1 eq_refl). cbn [mbind option_bind].
  set (d2 := if negb consumed && _ then _ else d1).
  assert (H2 : quiet d d2).
  { eapply quiet_trans; [exact Ho|]. subst d2. destruct (negb consumed && _); [inert|apply quiet_refl]. }
  destruct (exit_action _ _); intros [= _ <-]; try done. eapply quiet_trans; [exact H2|inert].
Qed.

Lemma reap_good pid ws : good (reap_locked pid ws).
Proof.
  intros e d v d' HI. unfold reap_locked. destruct (pidMap d !! pid) as [id|] eqn:Hp.
  2: { intros [= _ <-]. apply quiet_good; [apply quiet_refl|done]. }
  cbv zeta. set (d1 := mark_exited (e_now e) pid id d).
  assert (H1 : Inv d1 ∧ G d d1) by (split; [by apply exit_Inv|by apply exit_G]).
  pose proof (take_quiet d1 (Service.Name (get d1 id))) as Ht.
  destruct (takeRestartPending (Service.Name (get d1 id)) d1) as [consumed d2]. cbn [snd] in Ht.
  destruct (shuttingDown d2).
  - intros [= _ <-]. eapply good_then_quiet; [exact H1|]. eapply quiet_trans; [exact Ht|].
    destruct consumed; [apply quiet_refl|inert].
  - intros Ha. eapply good_then_quiet; [exact H1|]. eapply quiet_trans; [exact Ht|].
    by eapply act_on_exit_quiet.
Qed.

(** ** The shutdown goroutine *)

(** No instance of the name runs. *)
Definition down (d : daemon) (n : string) : Prop :=
  ∀ id, services d !! n = Some id → is_running d id = false.

Definition SD (d : daemon) : Prop := shuttingDown d = true.

Lemma frozen_order d d' : SD d → G d d' → stop_order d' = stop_order d.
Proof. intros H HG. destruct (g_frozen _ _ HG H) as (_ & E1 & E2 & _). unfold stop_order. by rewrite E1, E2. Qed.

Lemma frozen_down d d' n : SD d → G d d' → down d n → down d' n.
Proof.
  intros H HG Hd id Hid. destruct (g_frozen _ _ HG H) as (E & _ & _ & Hr). rewrite E in Hid.
  destruct (is_running d' id) eqn:Er; [|done]. destruct (Hr id Er) as [Er' _]. by rewrite (Hd id Hid) in Er'.
Qed.

(** What the shutdown goroutine knows: the stop order, and the names that are down. *)
Definition T (ord : option (list string)) (names : list string) (d : daemon) : Prop :=
  SD d ∧ stop_order d = ord ∧ ∀ n, n ∈ names → down d n.

Lemma T_stable ord names : stable G (T ord names).
Proof.
  intros d d' (H & Ho & Hn) HG. split_and!; [by apply (g_sd _ _ HG)| |].
  - by rewrite (frozen_order d d').
  - intros n Hin. eapply frozen_down; eauto.
Qed.

(** While it waits for [id] to exit. *)
Definition waiting (id : nat) (ch : option nat) (d : daemon) : Prop :=
  SD d ∧ (is_running d id = true → ∃ c, ch = Some c ∧ Service.done (get d id) = Some c).

Lemma waiting_stable id ch : stable G (waiting id ch).
Proof.
  intros d d' (H & Hr) HG. split; [by apply (g_sd _ _ HG)|]. intros Hid.
  destruct (g_frozen _ _ HG H) as (_ & _ & _ & Hf). destruct (Hf id Hid) as [Hid' Ed].
  destruct (Hr Hid') as (c & ? & ?). exists c. split; [done|congruence].
Qed.

Lemma running_done d id : Inv d → is_running d id = true →
  ∃ c, Service.done (get d id) = Some c ∧ c ∉ closedCh d.
Proof.
  intros HI Hr. destruct (get_dom d id Hr) as [s Hs]. unfold is_running in Hr. rewrite (get_lookup _ _ _ Hs) in *.
  destruct (i_done _ HI id s Hs Hr) as (c & ? & ? & _). eauto.
Qed.

Lemma waited id ch d : Inv d → waiting id ch d → closed d ch = true → is_running d id = false.
Proof.
  intros HI [_ Hr] Hc. destruct (is_running d id) eqn:E; [|done]. destruct (Hr eq_refl) as (c & -> & Hd).
  destruct (running_done d id HI E) as (c' & Hd' & Hn). cbn in Hc. apply bool_decide_eq_true in Hc. congruence.
Qed.

(** The stop of one service, with what the order has to guarantee. *)
Lemma shutdown_stop_good e d id l :
  Inv d → SD d → is_running d id = true → stop_order d = Some l →
  (∀ n id', services d !! n = Some id' → before_in l n (Service.Name (get d id)) → is_running d id' = false) →
  let d' := emit [EShutdownStop id] (stop_service (e_now e) id d) in
  Inv d' ∧ G d d' ∧ waiting id (Service.Done (get d id)) d'.
Proof.
  intros HI Hsd Hr Ho Hb d'. pose proof (stop_quiet d (e_now e) id) as Hq. set (d1 := stop_service (e_now e) id d) in *.
  destruct (quiet_good _ _ Hq HI) as [HI1 HG1].
  assert (Hex : ∃ evs, trace d1 = trace d ++ evs ∧ Forall plain evs) by apply Hq.
  split_and!.
  - destruct HI1. split; try done. by destruct i_services0; split.
  - split; try apply HG1. destruct Hex as (evs & E & P). exists (evs ++ [EShutdownStop id]).
    split; [cbn; by rewrite E, app_assoc|]. apply Forall_app. split; [by apply plain_ok|].
    constructor; [|constructor]. cbn. split_and!; eauto.
  - split; [unfold SD in *; cbn; by rewrite (proj1 (c_flags _ _ (q_calm _ _ Hq)))|]. intros _.
    destruct (running_done d id HI Hr) as (c & Hc & _). exists c. split; [done|].
    change (get d' id) with (get d1 id). pose proof (get_run d d1 id (q_calm _ _ Hq) (get_dom _ _ Hr)) as E.
    injection E as _ _ _ E. congruence.
Qed.

(** The first occurrence splits a list in one way. *)
Lemma first_split {A} (x : A) l1 l2 k1 k2 :
  l1 ++ x :: l2 = k1 ++ x :: k2 → (x ∉ l1) → (x ∉ k1) → l1 = k1.
Proof.
  revert k1. induction l1 as [|a l1 IH]; intros [|b k1]; cbn; intros E H1 H2; simplify_eq; try set_solver.
Qed.

(** A stop of the service called [n] is under way, or it is down. *)
Definition stopping (n : string) (r : option (option nat)) (d : daemon) : Prop :=
  match r with
  | None => down d n
  | Some ch => ∃ id, services d !! n = Some id ∧ waiting id ch d
  end.

Lemma wait_stopped_wp ord names n r d :
  Inv d → T ord names d → stopping n r d →
  wp Inv G (wait_stopped r) (λ _ d', Inv d' ∧ T ord (n :: names) d') d.
Proof.
  intros HI HT Hst. assert (Hcons : ∀ d', T ord names d' → down d' n → T ord (n :: names) d').
  { intros d' (? & ? & Hn) Hd. split_and!; [done..|]. by intros x [->|Hx]%elem_of_cons; [|apply Hn]. }
  destruct r as [ch|]; cbn [wait_stopped stopping wp] in *; [|by auto].
  destruct Hst as (id & Hid & Hw). intros e d1 [] d2 Hr HI1.
  destruct (closed d1 ch) eqn:Hc; [|done]. intros [= <-].
  assert (HT1 : T ord names d1) by (eapply stable_rtc; [apply T_stable|exact HT|exact Hr]).
  assert (Hw1 : waiting id ch d1) by (eapply stable_rtc; [apply waiting_stable|exact Hw|exact Hr]).
  assert (Hid1 : services d1 !! n = Some id).
  { apply (stable_rtc G (λ d, SD d ∧ services d !! n = Some id) d); [|split; [apply HT|done]|done].
    intros x y [Hx E] HG. split; [by apply (g_sd _ _ HG)|]. by rewrite (proj1 (g_frozen _ _ HG Hx)). }
  split; [done|]. split; [apply calm_G, calm_refl|]. split; [done|]. apply Hcons; [done|].
  intros id' Hid'. assert (id' = id) as -> by congruence. by eapply waited.
Qed.

(** One round of either loop of [stopSequential]. *)
Lemma stop_if_running_ok ord names n oid e d r d' :
  Inv d → T (Some ord) names d → services d !! n = oid →
  (∀ x, before_in ord x n → n ∉ names → x ∈ names) →
  stop_if_running oid e d = Some (r, d') →
  Inv d' ∧ G d d' ∧ T (Some ord) names d' ∧ stopping n r d'.
Proof.
  intros HI HT Hn Hord. unfold stop_if_running.
  assert (Hrefl : down d n → Inv d ∧ G d d ∧ T (Some ord) names d ∧ stopping n None d)
    by (intros; split_and!; [done|apply calm_G, calm_refl|apply HT..|done]).
  destruct oid as [id|].
  2: { intros [= <- <-]. apply Hrefl. intros id Hid. congruence. }
  cbv zeta. destruct (Service.IsRunning (get d id)) eqn:Hr; cbn [negb].
  2: { intros [= <- <-]. apply Hrefl. intros id' Hid'. assert (id' = id) as -> by congruence. exact Hr. }
  intros [= <- <-]. destruct HT as (Hsd & Ho & Hdn).
  assert (Hname : Service.Name (get d id) = n).
  { destruct (so_heap _ (i_services _ HI) n id Hn) as (s & Hs & E). by rewrite (get_lookup _ _ _ Hs). }
  assert (Hnn : n ∉ names) by (intros Hin; pose proof (Hdn n Hin id Hn); unfold is_running, Service.IsRunning in *; congruence).
  edestruct (shutdown_stop_good e d id ord HI Hsd Hr Ho) as (HI' & HG & Hw).
  { intros x id' Hx Hb. rewrite Hname in Hb. eapply Hdn; [by eapply Hord|done]. }
  split_and!; [done|done| |].
  - eapply T_stable; [|exact HG]. done.
  - exists id. split; [|exact Hw]. by rewrite (proj1 (g_frozen _ _ HG Hsd)).
Qed.

Lemma stop_seq_wp ord seq : ∀ pre stopped d,
  ord = reverse pre ++ seq → Inv d → T (Some ord) pre d → (∀ n, n ∈ stopped → n ∈ ord) →
  wp Inv G (stop_seq seq stopped)
    (λ st d', Inv d' ∧ T (Some ord) ord d' ∧ ∀ n, n ∈ st → n ∈ ord) d.
Proof.
  induction seq as [|name seq IH]; intros pre stopped d Hord HI HT Hst; cbn [stop_seq].
  - cbn [wp]. split_and!; [done| |done]. destruct HT as (? & ? & Hn). split_and!; [done..|].
    intros n Hin. apply Hn. rewrite Hord, app_nil_r in Hin. by rewrite elem_of_reverse in Hin.
  - cbn [mbind prog_bind pbind act wp]. intros e d1 r d2 Hr HI1 Hs.
    assert (HT1 : T (Some ord) pre d1) by (eapply stable_rtc; [apply T_stable|exact HT|exact Hr]).
    destruct (stop_if_running_ok ord pre name _ e d1 r d2 HI1 HT1 eq_refl) as (HI2 & HG2 & HT2 & Hw); [|done|].
    { intros x [(l1 & l2 & E & Hl1 & Hx)|[Hno _]] Hnp.
      - rewrite Hord in E. assert (reverse pre = l1) as <-.
        { eapply (first_split name); [exact E| |done]. by rewrite elem_of_reverse. }
        by rewrite elem_of_reverse in Hx.
      - destruct Hno. rewrite Hord. set_solver. }
    split_and!; [done..|]. apply wp_bind. eapply wp_mono; [|by apply (wait_stopped_wp (Some ord) pre name r d2)].
    intros _ d3 [HI3 HT3]. apply IH with (pre := name :: pre); [|done|done|].
    + by rewrite reverse_cons, <- app_assoc.
    + assert (name ∈ ord) by (rewrite Hord; set_solver). destruct r; set_solver.
Qed.

(** A [range d.services] visits every service. *)
Lemma iteration_spec e svcs l n id : iteration e svcs = Some l → (n, id) ∈ l ↔ svcs !! n = Some id.
Proof.
  unfold iteration. destruct (_ && _) eqn:E; [|done]. intros [= <-].
  apply andb_true_iff in E as [_ E]. apply bool_decide_eq_true in E. rewrite list_elem_of_omap. split.
  - intros (x & _ & H). destruct (svcs !! x) eqn:Ex; [|done]. cbn in H. congruence.
  - intros H. exists n. rewrite H. split; [|done]. rewrite <- (elem_of_list_to_set (C:=gset string)), E.
    by apply elem_of_dom_2 in H.
Qed.

Lemma before_in_elem l n x : before_in l n x → n ∈ l.
Proof. intros [(l1 & l2 & -> & _ & H)|[_ H]]; set_solver. Qed.

Lemma services_stable svcs : stable G (λ d, SD d ∧ services d = svcs).
Proof.
  intros d d' [H E] HG. split; [by apply (g_sd _ _ HG)|]. by rewrite (proj1 (g_frozen _ _ HG H)).
Qed.

Definition rest_round (stopped : list string) (ni : string * nat) : P unit :=
  if bool_decide (ni.1 ∈ stopped) then Return tt
  else act (λ e d, stop_if_running (Some ni.2) e d) ≫= λ r, wait_stopped r.

Lemma rest_wp ord svcs stopped rest : ∀ names d,
  (∀ n, n ∈ stopped → n ∈ ord) → (∀ n id, (n, id) ∈ rest → svcs !! n = Some id) →
  (∀ n, n ∈ ord → n ∈ names) → Inv d → T (Some ord) names d → services d = svcs →
  wp Inv G (foreach rest (rest_round stopped))
    (λ _ d', Inv d' ∧ ∃ names', T (Some ord) names' d' ∧ services d' = svcs ∧
       (∀ n, n ∈ names → n ∈ names') ∧ (∀ n id, (n, id) ∈ rest → n ∈ names')) d.
Proof.
  induction rest as [|[n id] rest IH]; intros names d Hst Hrest Hsub HI HT Hsv; cbn [foreach].
  { cbn [wp]. split; [done|]. exists names. split_and!; [done|done|done|].
    intros n id Hx. by apply not_elem_of_nil in Hx. }
  assert (Hsvd : ∀ d1, rtc G d d1 → services d1 = svcs).
  { intros d1 Hr. eapply (stable_rtc G _ d d1 (services_stable svcs)); [split; [apply HT|done]|done]. }
  assert (Hcont : ∀ d', Inv d' → T (Some ord) (n :: names) d' → services d' = svcs →
    wp Inv G (foreach rest (rest_round stopped)) (λ _ d', Inv d' ∧ ∃ names', T (Some ord) names' d' ∧
       services d' = svcs ∧ (∀ x, x ∈ names → x ∈ names') ∧ (∀ x i, (x, i) ∈ (n, id) :: rest → x ∈ names')) d').
  { intros d' HI' HT' Hsv'. eapply wp_mono; [|apply (IH (n :: names) d'); try done].
    - intros _ d2 (HI2 & ns & HT2 & Hs2 & H1 & H2). split; [done|]. exists ns. split_and!; [done|done| |].
      + intros x Hx. apply H1, elem_of_cons. by right.
      + intros x i [[= -> ->]|Hx]%elem_of_cons; [apply H1, elem_of_cons; by left|by eapply H2].
    - intros x i Hx. apply Hrest, elem_of_cons. by right.
    - intros x Hx. apply elem_of_cons. right. by apply Hsub. }
  change (rest_round stopped (n, id)) with (if bool_decide (n ∈ stopped) then Return tt else
    act (λ e d, stop_if_running (Some id) e d) ≫= λ r, wait_stopped r) at 1.
  destruct (bool_decide_reflect (n ∈ stopped)) as [Hin|Hin].
  - cbn [mbind prog_bind pbind]. apply Hcont; [done| |done]. destruct HT as (? & ? & Hn). split_and!; [done..|].
    intros x [->|Hx]%elem_of_cons; auto.
  - cbn [mbind prog_bind pbind act wp]. intros e d1 r d2 Hr HI1 Hs.
    assert (HT1 : T (Some ord) names d1) by (eapply stable_rtc; [apply T_stable|exact HT|exact Hr]).
    assert (Hn1 : services d1 !! n = Some id) by (rewrite (Hsvd d1 Hr); apply Hrest, elem_of_cons; by left).
    destruct (stop_if_running_ok ord names n _ e d1 r d2 HI1 HT1 Hn1) as (HI2 & HG2 & HT2 & Hw); [|done|].
    { intros x Hb _. apply Hsub. by eapply before_in_elem. }
    split_and!; [done..|]. apply wp_bind.
    assert (Hsv2 : services d2 = svcs) by (rewrite (proj1 (g_frozen _ _ HG2 (proj1 HT1))); by apply Hsvd).
    pose proof (wait_stopped_wp (Some ord) names n r d2 HI2 HT2 Hw) as Hwait.
    destruct r as [ch|]; cbn [wait_stopped] in *.
    + cbn [wp await act] in *. intros e3 d3 [] d4 Hr3 HI3 Hc. destruct (Hwait e3 d3 tt d4 Hr3 HI3 Hc) as (? & HG4 & ? & HT4).
      split_and!; [done..|]. apply Hcont; [done..|]. destruct (closed d3 ch); [|done]. injection Hc as <-.
      eapply (stable_rtc G _ d2 d3 (services_stable svcs)); [split; [apply HT2|done]|done].
    + cbn [wp] in *. destruct Hwait. by apply Hcont.
Qed.

Definition all_down (d : daemon) : Prop := SD d ∧ ∀ n, down d n.

Lemma all_down_stable : stable G all_down.
Proof. intros d d' [H Hd] HG. split; [by apply (g_sd _ _ HG)|]. intros n. by eapply frozen_down. Qed.

Lemma stopSequential_wp ord d :
  Inv d → T (Some ord) [] d → wp Inv G (stopSequential ord) (λ _ d', Inv d' ∧ all_down d') d.
Proof.
  intros HI HT. unfold stopSequential. apply wp_bind.
  eapply wp_mono; [|apply (stop_seq_wp ord ord [] [] d); try done; set_solver].
  intros stopped d1 (HI1 & HT1 & Hst). cbn [mbind prog_bind pbind act wp]. intros e d2 rest d3 Hr HI2.
  destruct (iteration e (services d2)) as [l|] eqn:El; [|done]. cbn [mbind option_bind]. intros [= <- <-].
  assert (HT2 : T (Some ord) ord d2) by (eapply stable_rtc; [apply T_stable|exact HT1|exact Hr]).
  split; [done|]. split; [apply calm_G, calm_refl|].
  eapply wp_mono; [|apply (rest_wp ord (services d2) stopped l ord d2); try done].
  2: { intros n id. by rewrite (iteration_spec e (services d2) l). }
  intros _ d' (HI' & ns & (HSD & _ & Hdn) & Hsv & _ & Hall). split; [done|]. split; [done|].
  intros n id Hid. eapply Hdn; [|exact Hid]. eapply Hall. rewrite (iteration_spec e _ _ _ _ El), <- Hsv. exact Hid.
Qed.

(** ** Stopping all at once *)

Definition stop_acc (now : Z) (acc : list (option nat) * daemon) (ni : string * nat) : list (option nat) * daemon :=
  let '(dones, d) := acc in
  if Service.IsRunning (get d ni.2)
  then (dones ++ [Service.Done (get d ni.2)], stop_service now ni.2 d)
  else (dones, d).

Lemma stop_acc_spec now l : ∀ dones d,
  quiet d (foldl (stop_acc now) (dones, d) l).2 ∧
  (∀ x, x ∈ dones → x ∈ (foldl (stop_acc now) (dones, d) l).1) ∧
  (∀ n id, (n, id) ∈ l → is_running d id = true →
     Service.done (get d id) ∈ (foldl (stop_acc now) (dones, d) l).1).
Proof.
  induction l as [|[n id] l IH]; intros dones d; cbn [foldl].
  { split_and!; [apply quiet_refl|done|]. intros n id H. by apply not_elem_of_nil in H. }
  cbn [stop_acc snd]. destruct (Service.IsRunning (get d id)) eqn:Hr.
  - pose proof (stop_quiet d now id) as Hq.
    destruct (IH (dones ++ [Service.Done (get d id)]) (stop_service now id d)) as (H1 & H2 & H3). split_and!.
    + by eapply quiet_trans.
    + intros x Hx. apply H2. set_solver.
    + intros n' i [[= -> ->]|Hi]%elem_of_cons Hri; [apply H2; set_solver|].
      rewrite <- (calm_running _ _ i (q_calm _ _ Hq)) in Hri. pose proof (get_dom _ _ Hri) as Hd'.
      rewrite (calm_running _ _ i (q_calm _ _ Hq)) in Hri. pose proof (get_dom _ _ Hri) as Hd.
      pose proof (get_run _ _ i (q_calm _ _ Hq) Hd) as E. injection E as _ _ _ E. rewrite <- E.
      eapply H3; [done|]. by rewrite (calm_running _ _ i (q_calm _ _ Hq)).
  - destruct (IH dones d) as (H1 & H2 & H3). split_and!; [done|done|].
    intros n' i [[= -> ->]|Hi]%elem_of_cons Hri; [|by eapply H3]. unfold is_running, Service.IsRunning in *. congruence.
Qed.

(** Every running service's done channel is in the list. *)
Definition covered (dones : list (option nat)) (d : daemon) : Prop :=
  SD d ∧ ∀ n id, services d !! n = Some id → is_running d id = true → Service.done (get d id) ∈ dones.

Lemma covered_stable dones : stable G (covered dones).
Proof.
  intros d d' [H Hc] HG. split; [by apply (g_sd _ _ HG)|]. intros n id Hn Hr.
  destruct (g_frozen _ _ HG H) as (E & _ & _ & Hf). destruct (Hf id Hr) as [Hr' ->]. rewrite E in Hn. eauto.
Qed.

Lemma closed_stable ch : stable G (λ d, closed d ch = true).
Proof.
  intros d d' Hc HG. destruct ch as [c|]; [|done]. cbn in *. apply bool_decide_eq_true in Hc.
  apply bool_decide_eq_true. by apply (g_closed _ _ HG).
Qed.

Lemma await_all_wp dones todo : ∀ pre d,
  dones = pre ++ todo → Inv d → covered dones d → (∀ ch, ch ∈ pre → closed d ch = true) →
  wp Inv G (foreach todo await) (λ _ d', Inv d' ∧ all_down d') d.
Proof.
  induction todo as [|ch todo IH]; intros pre d Hd HI Hc Hpre; cbn [foreach].
  - cbn [wp]. split; [done|]. destruct Hc as [HSD Hc]. split; [done|]. intros n id Hn.
    destruct (is_running d id) eqn:Hr; [|done]. pose proof (Hc n id Hn Hr) as Hin.
    rewrite Hd, app_nil_r in Hin. apply Hpre in Hin. destruct (running_done d id HI Hr) as (c & E & Hnc).
    rewrite E in Hin. cbn in Hin. by apply bool_decide_eq_true in Hin.
  - cbn [mbind prog_bind pbind await act wp]. intros e d1 [] d2 Hr HI1.
    destruct (closed d1 ch) eqn:Ecl; [|done]. intros [= <-].
    split; [done|]. split; [apply calm_G, calm_refl|]. apply (IH (pre ++ [ch])); [by rewrite <- app_assoc|done| |].
    + eapply stable_rtc; [apply covered_stable|exact Hc|exact Hr].
    + intros x [Hx| ->%list_elem_of_singleton]%elem_of_app; [|done].
      exact (stable_rtc G _ d d1 (closed_stable x) (Hpre x Hx) Hr).
Qed.

Lemma stopSimultaneous_wp d : Inv d → SD d → wp Inv G stopSimultaneous (λ _ d', Inv d' ∧ all_down d') d.
Proof.
  intros HI HSD. unfold stopSimultaneous. cbn [mbind prog_bind pbind act wp]. intros e d1 dones d2 Hr HI1.
  unfold stop_all_running. destruct (iteration e (services d1)) as [l|] eqn:El; [|done]. cbn [mbind option_bind].
  change (foldl _ ([], d1) l) with (foldl (stop_acc (e_now e)) ([], d1) l).
  destruct (stop_acc_spec (e_now e) l [] d1) as (Hq & _ & Hall).
  destruct (foldl (stop_acc (e_now e)) ([], d1) l) as [dn d3]. intros [= <- <-]. cbn [fst snd] in *.
  destruct (quiet_good _ _ Hq HI1) as [HI3 HG3]. split_and!; [done..|].
  assert (HSD1 : SD d1).
  { apply (stable_rtc G SD d); [|done|done]. intros x y Hx HG. by apply (g_sd _ _ HG). }
  apply (await_all_wp dn dn [] d3); [done|done| |by intros ch Hx%not_elem_of_nil].
  split; [by apply (g_sd _ _ HG3)|]. intros n id Hn Hrun. rewrite (q_services _ _ Hq) in Hn.
  destruct (g_frozen _ _ HG3 HSD1) as (_ & _ & _ & Hf). destruct (Hf id Hrun) as [Hrun1 ->].
  eapply Hall; [|done]. by apply (iteration_spec e (services d1)).
Qed.

Lemma stopAll_wp d : Inv d → SD d → wp Inv G stopAll (λ _ d', Inv d' ∧ all_down d') d.
Proof.
  intros HI HSD. unfold stopAll. cbn [mbind prog_bind pbind act read wp]. intros e d1 x d2 Hr HI1 [= <- <-].
  split; [done|]. split; [apply calm_G, calm_refl|].
  assert (HSD1 : SD d1).
  { apply (stable_rtc G SD d); [|done|done]. intros y z Hy HG. by apply (g_sd _ _ HG). }
  assert (HT : ∀ ord, stop_order d1 = Some ord → T (Some ord) [] d1).
  { intros ord Ho. split_and!; [done..|]. by intros n Hn%not_elem_of_nil. }
  unfold stop_order, reverseSeq in *. destruct (_ || _); [by apply stopSequential_wp, HT|].
  case_bool_decide; [by apply stopSequential_wp, HT|by apply stopSimultaneous_wp].
Qed.

Lemma cas_good d : Inv d → shuttingDown d = false → Inv (set_shuttingDown true d) ∧ G d (set_shuttingDown true d).
Proof.
  intros HI H. split.
  - destruct HI. split; try done. by destruct i_services0; split.
  - split; try done; eauto; try congruence. exists []. rewrite app_nil_r. by split; [|constructor].
Qed.

Lemma stop_all_done_good d :
  Inv d → all_down d → Inv (set_stopAllDone true d) ∧ G d (set_stopAllDone true d).
Proof.
  intros HI [H Hd]. split.
  - destruct HI. split; try done; [by destruct i_services0; split| |by right]. intros n id _ Hn. by eapply Hd.
  - split; try done; eauto. exists []. rewrite app_nil_r. by split; [|constructor].
Qed.

Lemma initiateShutdown_safe code : safe (initiateShutdown code).
Proof.
  intros d HI. unfold initiateShutdown. cbn [mbind prog_bind pbind act wp]. intros e d1 won d2 _ HI1.
  destruct (shuttingDown d1) eqn:Hsd; intros [= <- <-].
  { split; [done|]. split; [apply calm_G, calm_refl|done]. }
  destruct (cas_good d1 HI1 Hsd) as [HI2 HG2]. split_and!; [done..|]. cbn [negb modify act pbind wp].
  assert (Hstep : ∀ (f : daemon → daemon) d3, SD d3 → Inv d3 → (∀ d, quiet d (f d)) → Inv (f d3) ∧ G d3 (f d3) ∧ SD (f d3)).
  { intros f d3 H3 HI3 Hq. destruct (quiet_good _ _ (Hq d3) HI3) as [? HG]. split_and!; [done..|]. by apply (g_sd _ _ HG). }
  assert (HSD : ∀ x y, SD x → rtc G x y → SD y).
  { intros x y Hx. apply (stable_rtc G SD); [|done]. intros a b Ha HG. by apply (g_sd _ _ HG). }
  intros e3 d3 [] d4 Hr3 HI3 [= <-].
  destruct (Hstep (set_shutdownCh true) d3) as (HI4 & HG4 & HSD4); [by apply (HSD (set_shuttingDown true d1))|done|intros; inert|].
  split_and!; [done..|]. intros e5 d5 [] d6 Hr5 HI5 [= <-].
  destruct (Hstep (set_exitCode (wrap32 code)) d5) as (HI6 & HG6 & HSD6); [by apply (HSD (set_shutdownCh true d3))|done|intros; inert|].
  split_and!; [done..|]. refine (wp_bind Inv G stopAll _ _ _ _).
  eapply wp_mono; [|by apply stopAll_wp].
  intros _ d7 [HI7 Hdown]. cbn [modify act wp]. intros e8 d8 [] d9 Hr8 HI8 [= <-].
  assert (Hdown8 : all_down d8) by (eapply stable_rtc; [apply all_down_stable|done|done]).
  by destruct (stop_all_done_good d8 HI8 Hdown8).
Qed.

(** ** Reload *)

(** The names in [services] are the names of the objects. *)
Definition named (d : daemon) : Prop :=
  ∀ n id, services d !! n = Some id → ∃ s, heap d !! id = Some s ∧ Service.Name s = n.

Definition allocated (d : daemon) : Prop := ∀ id s, heap d !! id = Some s → id < nextId d.

(** What the section of [reload] keeps at every point. *)
Record reloading (d0 d : daemon) : Prop := {
  r_calm : calm d0 d;
  r_named : named d;
  r_alloc : allocated d;
}.

Lemma calm_allocated d d' : calm d d' → allocated d → allocated d'.
Proof.
  intros H Ha id s' Hs'. destruct (calm_back d d' id s' H Hs') as [(s & Hs & _)|(? & _)]; [|done].
  pose proof (Ha id s Hs). pose proof (c_next _ _ H). lia.
Qed.

Lemma calm_object d d' id s : calm d d' → heap d !! id = Some s →
  ∃ s', heap d' !! id = Some s' ∧ Service.Name s' = Service.Name s.
Proof. intros H Hs. destruct (c_heap _ _ H id s Hs) as (s' & Hs' & E). exists s'. split; [done|]. by injection E. Qed.

Lemma reloading_quiet d0 d d' : reloading d0 d → quiet d d' → reloading d0 d'.
Proof.
  intros [Hc Hn Ha] Hq. split; [eapply calm_trans; [exact Hc|apply Hq]| |by eapply calm_allocated; [apply Hq|]].
  intros n id H. rewrite (q_services _ _ Hq) in H. destruct (Hn n id H) as (s & Hs & E).
  destruct (calm_object _ _ id s (q_calm _ _ Hq) Hs) as (s' & ? & ?). exists s'. split; [done|congruence].
Qed.

(** A step that changes only the configuration. *)
Lemma config_calm d d' :
  shuttingDown d = false →
  heap d' = heap d → nextId d' = nextId d → pidMap d' = pidMap d → closedCh d' = closedCh d →
  nextCh d' = nextCh d → schedulers d' = schedulers d → shuttingDown d' = shuttingDown d →
  stopAllDone d' = stopAllDone d → trace d' = trace d → returned d' = returned d → calm d d'.
Proof.
  intros H0 Hh Hi Hp Hcl Hn Hsc Hsd Hst Ht Hre.
  split; rewrite ?Hh, ?Hi, ?Hp, ?Hcl, ?Hn, ?Hsc, ?Hsd, ?Hst, ?Ht, ?Hre; try done; eauto; try congruence.
  exists []. rewrite app_nil_r. by split; [|constructor].
Qed.

Lemma reloading_config d0 d d' :
  shuttingDown d0 = false → reloading d0 d →
  heap d' = heap d → nextId d' = nextId d → pidMap d' = pidMap d → closedCh d' = closedCh d →
  nextCh d' = nextCh d → schedulers d' = schedulers d → shuttingDown d' = shuttingDown d →
  stopAllDone d' = stopAllDone d → trace d' = trace d → returned d' = returned d → named d' → reloading d0 d'.
Proof.
  intros H0 [Hc Hn Ha] Hh Hi Hp Hcl Hnc Hsc Hsd Hst Ht Hre Hn'. split; [|done|].
  - eapply calm_trans; [exact Hc|]. apply config_calm; try done. by rewrite (proj1 (c_flags _ _ Hc)).
  - intros id s. rewrite Hh, Hi. apply Ha.
Qed.

Lemma named_sub d d' :
  heap d' = heap d → (∀ n id, services d' !! n = Some id → services d !! n = Some id) → named d → named d'.
Proof. intros Hh Hs Hn n id H. rewrite Hh. by apply Hn, Hs. Qed.

Lemma stopSchedulers_quiet d : quiet d (stopSchedulers d).
Proof.
  split; [split|..]; try done; cbn; eauto; try congruence.
  - set_solver.
  - intros c [Hc%elem_of_list_to_set|?]%elem_of_union; auto.
  - by intros c Hc%not_elem_of_nil.
  - exists []. rewrite app_nil_r. by split; [|constructor].
Qed.

Section reload.
Context (d0 : daemon) (Hsd : shuttingDown d0 = false).

Lemma remove_services_ok now names l d :
  reloading d0 d → reloading d0 (remove_services now names l d).
Proof.
  revert d. induction l as [|[n id] l IH]; intros d H; [done|]. cbn [remove_services foldl].
  apply IH. unfold remove_one. cbn [fst snd]. case_bool_decide; [done|]. cbv zeta.
  set (d1 := ignore_exits id d). set (d2 := if Service.IsRunning (get d1 id) then _ else d1).
  assert (H2 : reloading d0 d2).
  { eapply (reloading_quiet d0 d); [done|]. apply (quiet_trans _ d1); [by apply put_quiet|].
    subst d2. destruct (Service.IsRunning _); [apply stop_quiet|apply quiet_refl]. }
  eapply reloading_config; try exact H2; try done.
  apply (named_sub d2); [reflexivity| |apply H2]. cbn. intros x i [_ ?]%lookup_delete_Some. done.
Qed.

Lemma alloc_ok d s :
  reloading d0 d → Service.running s = false → Service.Pid s = 0%Z → Service.done s = None →
  reloading d0 (set_services (<[Service.Name s := nextId d]> (services d)) (alloc s d)).
Proof.
  intros H Hr Hp Hd. destruct H as [Hc Hn Ha].
  assert (Hfresh : heap d !! nextId d = None).
  { destruct (heap d !! nextId d) eqn:E; [|done]. pose proof (Ha _ _ E). lia. }
  split.
  - eapply calm_trans; [exact Hc|]. split; try done; cbn; eauto; try lia.
    + intros id s' Hs'. exists s'. rewrite lookup_insert_ne; [done|]. intros <-. congruence.
    + intros id s' Hs' Hno. destruct (decide (nextId d = id)) as [<-|Hne].
      * rewrite lookup_insert_eq in Hs'. injection Hs' as <-. split_and!; [lia|lia|done..].
      * rewrite lookup_insert_ne in Hs' by done. congruence.
    + exists []. rewrite app_nil_r. by split; [|constructor].
    + rewrite <- (proj1 (c_flags _ _ Hc)) in Hsd. congruence.
  - intros n id. cbn. destruct (decide (Service.Name s = n)) as [<-|Hne].
    + rewrite lookup_insert_eq. intros [= <-]. exists s. by rewrite lookup_insert_eq.
    + rewrite lookup_insert_ne by done. intros Hi. destruct (Hn n id Hi) as (t & Ht & E). exists t. split; [|done].
      rewrite lookup_insert_ne; [done|]. intros <-. congruence.
  - intros id s'. cbn. destruct (decide (nextId d = id)) as [<-|Hne]; [lia|]. rewrite lookup_insert_ne by done.
    intros Hs'. pose proof (Ha id s' Hs'). lia.
Qed.

Lemma build_service_ok d p d' : reloading d0 d → build_service d p = Ok d' → reloading d0 d'.
Proof.
  intros H. unfold build_service. cbv zeta.
  destruct (Service.New _ _) as [s|] eqn:En; [|done]. cbn [mbind result_bind]. intros [= <-].
  apply Service.New_idle in En as (_ & Hr & Hp & Hd & _).
  set (s' := Service.set_ControlSocket _ s).
  apply (reloading_quiet d0 (set_services (<[Service.Name s' := nextId d]> (services d)) (alloc s' d))); [|inert].
  by apply alloc_ok.
Qed.

Lemma build_loop_ok ps d : reloading d0 d → reloading d0 (build_loop ps d).2.
Proof.
  revert d. induction ps as [|p ps IH]; intros d H; [done|]. cbn [build_loop].
  destruct (build_service d p) as [d1|e] eqn:Eb; [|done]. apply IH. by eapply build_service_ok.
Qed.

(** Reconciling keeps the names: an old instance goes back under its own name. *)
Lemma reconcile_ok now l : ∀ waits d,
  reloading d0 d → (∀ n id, (n, id) ∈ l → ∃ s, heap d0 !! id = Some s ∧ Service.Name s = n) →
  reloading d0 (foldl (reconcile_one now) (waits, d) l).2.
Proof.
  induction l as [|[n id] l IH]; intros waits d H Hl; [done|]. cbn [foldl].
  assert (Hl' : ∀ x i, (x, i) ∈ l → ∃ s, heap d0 !! i = Some s ∧ Service.Name s = x)
    by (intros x i Hx; apply Hl, elem_of_cons; by right).
  unfold reconcile_one at 2. cbn [fst snd]. destruct (services d !! n) as [nid|] eqn:En; [|by apply IH].
  cbv zeta. destruct (Service.IsRunning (get d id)) eqn:Hr; cbn [andb]; [|by apply IH].
  destruct (negb (processConfigChanged _ _)).
  - apply IH; [|done]. set (d1 := put id (adopt_policy (get d id) (get d nid)) d).
    assert (H1 : reloading d0 d1) by (eapply reloading_quiet; [exact H|by apply put_quiet]).
    eapply reloading_config; try exact H1; try done. intros x i. cbn [services set_services heap].
    destruct (decide (n = x)) as [<-|Hne]; [|rewrite lookup_insert_ne by done; apply H1].
    rewrite lookup_insert_eq. intros [= <-]. destruct (Hl n id) as (t & Ht & E); [apply elem_of_cons; by left|].
    destruct (calm_object _ _ id t (r_calm _ _ H1) Ht) as (t' & ? & ?). exists t'. split; [done|congruence].
  - apply IH; [|done]. eapply reloading_quiet; [exact H|].
    apply (quiet_trans _ (ignore_exits id d)); [by apply put_quiet|apply stop_quiet].
Qed.
End reload.

Lemma reload_validate_order c l :
  reload_validate c = Ok l → Order.TopoSort (buildOrderServices c) = Done (Ok l) ∧
  ∀ p, p ∈ Processes c → ∃ s, Service.New p (Prefix c) = Ok s.
Proof.
  unfold reload_validate. destruct (1 <? _); [done|].
  destruct (Order.TopoSort (buildOrderServices c)) as [[ord|]|] eqn:Eo; try done.
  destruct (foldM _ tt (Processes c)) as [[]|] eqn:Ef; [|done]. intros [= <-]. split; [done|].
  eapply (foldM_ok_all _ (λ p, ∃ s, Service.New p (Prefix c) = Ok s)); [|exact Ef].
  intros [] p []. destruct (Service.New p (Prefix c)); [eauto|done].
Qed.

(** What the dry run accepts, the real run builds. *)
Lemma effective_New d p g g' s : Service.New p g = Ok s → ∃ s', Service.New (effective_process d p) g' = Ok s'.
Proof.
  apply Service.New_ext; unfold effective_process; cbv zeta;
    destruct (Service.pUseEntrypointArgs p && _); case_bool_decide; done.
Qed.

Lemma build_loop_total ps d :
  (∀ p, p ∈ ps → ∃ g s, Service.New p g = Ok s) → (build_loop ps d).1 = None.
Proof.
  revert d. induction ps as [|p ps IH]; intros d H; [done|]. cbn [build_loop].
  destruct (H p) as (g & s & Hs); [apply elem_of_cons; by left|].
  unfold build_service. cbv zeta. destruct (effective_New d p g (Prefix (cfg d)) s Hs) as [s' ->].
  cbn [mbind result_bind]. apply IH. intros q Hq. apply H, elem_of_cons. by right.
Qed.

Lemma build_loop_cfg ps d : cfg (build_loop ps d).2 = cfg d.
Proof.
  revert d. induction ps as [|p ps IH]; intros d; [done|]. cbn [build_loop].
  unfold build_service. cbv zeta. destruct (Service.New _ _) as [s|]; [|done]. cbn [mbind result_bind]. by rewrite IH.
Qed.

Lemma reconcile_cfg now l : ∀ waits d, cfg (foldl (reconcile_one now) (waits, d) l).2 = cfg d.
Proof.
  induction l as [|[n id] l IH]; intros waits d; [done|]. cbn [foldl]. unfold reconcile_one at 2. cbn [fst snd].
  destruct (services d !! n) as [nid|]; [|apply IH]. cbv zeta.
  destruct (Service.IsRunning (get d id) && _); [by rewrite IH|].
  destruct (Service.IsRunning (get d id)); rewrite IH; [|done].
  apply (q_cfg _ _ (stop_quiet (ignore_exits id d) now id)).
Qed.

Lemma reload_good c l : reload_validate c = Ok l → good (reload_locked c l).
Proof.
  intros Hv e d r d' HI. destruct (reload_validate_order c l Hv) as [Hord Hnew].
  unfold reload_locked. destruct (shuttingDown d) eqn:Hsd.
  { intros [= _ <-]. apply quiet_good; [apply quiet_refl|done]. }
  cbv zeta. destruct (iteration e (services d)) as [it|] eqn:Eit; [|done]. cbn [mbind option_bind].
  assert (H0 : reloading d d) by (split; [apply calm_refl|exact (so_heap _ (i_services _ HI))|exact (i_alloc _ HI)]).
  set (d1 := remove_services _ _ it d). assert (H1 : reloading d d1) by (by apply remove_services_ok).
  set (d2 := set_cfg c (stopSchedulers (stopChecks d1))).
  assert (H2 : reloading d (set_services ∅ d2)).
  { assert (H1' : reloading d (stopSchedulers (stopChecks d1))).
    { eapply reloading_quiet; [exact H1|]. apply (quiet_trans _ (stopChecks d1)); [inert|apply stopSchedulers_quiet]. }
    eapply reloading_config; try exact H1'; try done. }
  unfold buildServices. pose proof (build_loop_ok d Hsd (Processes (cfg d2)) _ H2) as H3.
  pose proof (build_loop_total (Processes (cfg d2)) (set_services ∅ d2)) as Hnone.
  assert (Hcfg3 : cfg (build_loop (Processes (cfg d2)) (set_services ∅ d2)).2 = c) by apply build_loop_cfg.
  destruct (build_loop (Processes (cfg d2)) (set_services ∅ d2)) as [err d3]. cbn [fst snd] in *.
  rewrite Hnone by (intros p Hp; destruct (Hnew p Hp); eauto).
  set (d4 := foldl _ d3 it).
  assert (Hq4 : quiet d3 d4) by (apply foldl_quiet; intros x [n i]; cbn; destruct (services x !! n); [apply quiet_refl|inert]).
  assert (H4 : reloading d d4) by (by eapply reloading_quiet).
  pose proof (reconcile_ok d Hsd (e_now e) it [] d4 H4) as H5.
  assert (Hcfg5 : cfg (foldl (reconcile_one (e_now e)) ([], d4) it).2 = c).
  { rewrite reconcile_cfg. by rewrite (q_cfg _ _ Hq4). }
  destruct (foldl (reconcile_one (e_now e)) ([], d4) it) as [waits d5]. cbn [snd] in *. intros [= _ <-].
  destruct H5 as [Hc5 Hn5 Ha5].
  { intros n i Hin. apply (so_heap _ (i_services _ HI)). by apply (iteration_spec e (services d) it). }
  set (d6 := set_shutdownMode _ _).
  assert (Hc6 : calm d d6).
  { eapply calm_trans; [exact Hc5|]. apply config_calm; try done. by rewrite (proj1 (c_flags _ _ Hc5)). }
  split; [|by apply calm_G]. eapply calm_Inv; [exact Hc6| |done]. split.
  - exact Hn5.
  - change (cfg d6) with (cfg d5). rewrite Hcfg5. exact Hord.
  - change (cfg d6) with (cfg d5). rewrite Hcfg5. done.
Qed.

(** ** Every goroutine is safe *)

Create HintDb safe.
#[export] Hint Resolve safe_return safe_read safe_input initiateShutdown_safe : safe.

(** An action that returns one of a few quiet states. *)
Ltac quiet_cases :=
  repeat match goal with
  | |- context [if ?b then _ else _] => destruct b
  | |- context [match ?x with _ => _ end] => destruct x
  end; intros; simplify_eq; try apply quiet_refl; try inert.

Ltac safe_step :=
  match goal with
  | |- safe (Return _) => apply safe_return
  | |- safe (_ ≫= _) => apply safe_bind; [|intros ?]
  | |- safe (go _) => apply safe_go; [|apply safe_return]
  | |- safe (Go _ _) => apply safe_go
  | |- safe (GoLoop _ _) => apply safe_goloop
  | |- safe (foreach _ _) => apply safe_foreach; intros ?
  | |- safe (modify _) => apply safe_modify; intros ? ?
  | |- safe (act _) => apply safe_action
  | |- safe (if ?b then _ else _) => destruct b
  | |- safe (match ?x with _ => _ end) => destruct x
  end.

Ltac safe_tac := repeat (first [solve [eauto with safe] | safe_step]).

Lemma await_safe ch : safe (await ch).
Proof. apply safe_action, good_quiet. intros e d x d'. destruct (closed d ch); [|done]. intros [= _ <-]. apply quiet_refl. Qed.
#[export] Hint Resolve await_safe : safe.

Lemma send_restart_safe r : safe (send_restart r).
Proof. apply safe_action, good_quiet. intros e d x d'. destruct (_ <? _); [|done]. intros [= _ <-]. inert. Qed.
#[export] Hint Resolve send_restart_safe : safe.

Lemma read_env_good {X} (f : env → daemon → X) : good (λ e d, Some (f e d, d)).
Proof. apply good_quiet. intros ???? [= _ <-]. apply quiet_refl. Qed.
#[export] Hint Resolve read_env_good start_good reap_good : safe.

Lemma startService_safe id : safe (startService id).
Proof. unfold startService, wakeReapLoop. safe_tac; inert. Qed.
#[export] Hint Resolve startService_safe : safe.

Lemma handleRestartReq_safe req : safe (handleRestartReq req).
Proof. unfold handleRestartReq. safe_tac. Qed.
#[export] Hint Resolve handleRestartReq_safe : safe.

Lemma dispatch_restart_safe : safe dispatch_restart.
Proof.
  unfold dispatch_restart. safe_tac; [|inert]. apply good_quiet. intros e d x d'.
  destruct (restartCh d); [done|]. intros [= _ <-]. inert.
Qed.

Lemma check_failure_good check : good (check_failure_locked check).
Proof.
  apply good_quiet. intros e d x d'. unfold check_failure_locked.
  destruct (shuttingDown d); [intros [= _ <-]; apply quiet_refl|].
  destruct (iteration e (services d)) as [l|]; [|done]. cbn [mbind option_bind].
  pose proof (check_failure_quiet (e_now e) check l [] d) as H. intros [= E]. by rewrite E in H.
Qed.
#[export] Hint Resolve check_failure_good : safe.

Lemma handleCheckFailure_safe check : safe (handleCheckFailure check).
Proof. unfold handleCheckFailure. safe_tac. Qed.
#[export] Hint Resolve handleCheckFailure_safe : safe.

(** The loop is left only once the shutdown has begun. *)
Definition leaves (p : P bool) : Prop :=
  ∀ d, Inv d → wp Inv G p (λ b d', Inv d' ∧ (b = false → SD d')) d.

Lemma leaves_true : leaves (Return true).
Proof. intros d HI. by split. Qed.

Lemma leaves_bind {A} (p : P A) (h : A → P bool) : safe p → (∀ a, leaves (h a)) → leaves (p ≫= h).
Proof. intros Hp Hh d HI. apply wp_bind. eapply wp_mono; [|by apply Hp]. intros a s Hs. by apply Hh. Qed.

Lemma SD_stable : stable G SD.
Proof. intros d d' H HG. by apply (g_sd _ _ HG). Qed.

(** A read of the flag followed by a branch on it. *)
Lemma leaves_sd (k1 k2 : P bool) :
  (∀ d, Inv d → SD d → wp Inv G k1 (λ b d', Inv d' ∧ (b = false → SD d')) d) → leaves k2 →
  leaves (read shuttingDown ≫= λ sd, if (sd : bool) then k1 else k2).
Proof.
  intros H1 H2 d HI. cbn [mbind prog_bind pbind read act wp]. intros e d1 x d2 _ HI1 [= <- <-].
  split; [done|]. split; [apply calm_G, calm_refl|]. destruct (shuttingDown d1) eqn:E; auto.
Qed.

Lemma reap_verdict pid ws e d b d' : reap_locked pid ws e d = Some (VShutting b, d') → SD d'.
Proof.
  unfold reap_locked. destruct (pidMap d !! pid) as [id|]; [|done]. cbv zeta.
  destruct (takeRestartPending _ _) as [consumed d2]. destruct (shuttingDown d2) eqn:E.
  - intros [= _ <-]. unfold SD. by destruct consumed.
  - unfold act_on_exit. cbv zeta. destruct (if stops_dependents _ _ then _ else _); [|done]. cbn [mbind option_bind].
    by destruct (exit_action _ _).
Qed.

Lemma wait4_good : good wait4.
Proof.
  apply good_quiet. intros e d x d'. unfold wait4. destruct (e_intr e); [intros [= _ <-]; apply quiet_refl|].
  destruct (zombies d !! _); [intros [= _ <-]; inert|]. destruct (_ && _); [|done]. intros [= _ <-]. apply quiet_refl.
Qed.

Lemma wait_child_safe b : safe (wait_child b).
Proof.
  apply safe_action, good_quiet. intros e d x d'. destruct (childStarted d); [intros [= _ <-]; inert|].
  destruct (_ || _); [|done]. intros [= _ <-]. apply quiet_refl.
Qed.

Lemma deliver_safe pid code : safe (deliver pid code).
Proof.
  apply safe_action, good_quiet. intros e d x d'.
  destruct (Reaper.Deliver _ _ _) as [[? ?]|]; [|done]. intros [= _ <-]. inert.
Qed.
#[export] Hint Resolve wait4_good wait_child_safe deliver_safe : safe.

Ltac leaves_tac := repeat (apply leaves_bind; [safe_tac; try inert|intros ?]); try apply leaves_true.

Lemma reap_leaves sub : leaves (reap sub).
Proof.
  unfold reap. apply leaves_bind; [safe_tac|]. intros [| |pid ws]; [apply leaves_true| |].
  - unfold no_child. apply leaves_sd; [by intros d HI H|]. leaves_tac.
    match goal with |- leaves (if ?b then _ else _) => destruct b end; leaves_tac.
  - intros d HI. cbn [mbind prog_bind pbind act wp]. intros e d1 v d2 _ HI1 Hv.
    destruct (reap_good pid ws e d1 v d2 HI1 Hv) as [HI2 HG2]. split_and!; [done..|].
    destruct v as [|b|req|code| |]; [clear HG2 Hv| |clear HG2 Hv..].
    + revert d2 HI2. change (leaves (after_unmanaged pid (waitStatusCode ws))). unfold after_unmanaged.
      apply leaves_bind; [safe_tac|intros _]. apply leaves_sd; [|apply leaves_true]. intros d3 HI3 H3. cbn [read act wp].
      intros e4 d4 x d5 Hr HI4 [= <- <-]. split; [done|]. split; [apply calm_G, calm_refl|]. split; [done|].
      intros _. eapply stable_rtc; [apply SD_stable|exact H3|exact Hr].
    + cbn [wp]. split; [done|]. intros _. by eapply reap_verdict.
    + revert d2 HI2. match goal with |- ∀ d2, Inv d2 → wp Inv G ?p _ d2 => change (leaves p) end. leaves_tac.
    + revert d2 HI2. match goal with |- ∀ d2, Inv d2 → wp Inv G ?p _ d2 => change (leaves p) end. leaves_tac.
      cbn beta. destruct (exitCode _ =? 0)%Z; [inert|apply quiet_refl].
    + revert d2 HI2. match goal with |- ∀ d2, Inv d2 → wp Inv G ?p _ d2 => change (leaves p) end. leaves_tac.
    + cbn [wp]. by split.
Qed.

(** [run] returns only after [stopAll] has finished. *)
Lemma stopped_stable : stable G (λ d, stopAllDone d = true).
Proof. intros d d' H HG. by apply (g_stopped _ _ HG). Qed.

Lemma return_good d :
  Inv d → stopAllDone d = true →
  Inv (emit [EReturn (exitCode d)] (set_returned (Some (exitCode d)) d)) ∧
  G d (emit [EReturn (exitCode d)] (set_returned (Some (exitCode d)) d)).
Proof.
  intros HI Hst. split.
  - destruct HI. split; try done; [by destruct i_services0; split|by right].
  - split; try done; eauto. exists [EReturn (exitCode d)]. split; [done|]. by repeat constructor.
Qed.

Lemma run_tail_ok d : Inv d → SD d → wp Inv G run_tail (λ _ _, True) d.
Proof.
  intros HI HSD. unfold run_tail. cbn [mbind prog_bind pbind read act modify wp].
  intros e d1 sd d2 Hr1 HI1 [= <- <-].
  assert (HSD1 : SD d1) by (eapply stable_rtc; [apply SD_stable|exact HSD|exact Hr1]).
  split; [done|]. split; [apply calm_G, calm_refl|]. unfold SD in HSD1. rewrite HSD1. cbn [act pbind wp].
  intros e3 d3 [] d4 Hr3 HI3. destruct (stopAllDone d3) eqn:Est; [|done]. intros [= <-].
  split; [done|]. split; [apply calm_G, calm_refl|]. intros e5 d5 [] d6 Hr5 HI5 [= <-].
  assert (Hq : quiet d5 (stopSchedulers (stopChecks d5)))
    by (apply (quiet_trans _ (stopChecks d5)); [inert|apply stopSchedulers_quiet]).
  destruct (quiet_good _ _ Hq HI5) as [HI6 HG6]. split_and!; [done..|].
  intros e7 d7 [] d8 Hr7 HI7. destruct (senderWg d7 =? 0)%Z; [|done]. intros [= <-].
  split; [done|]. split; [apply calm_G, calm_refl|]. intros e9 d9 [] d10 Hr9 HI9 [= <-].
  edestruct (return_good d9 HI9); [|by split_and!].
  apply (stable_rtc G _ d3 d9 stopped_stable Est). etrans; [exact Hr5|].
  eapply rtc_l; [exact HG6|]. by etrans.
Qed.

Section gates.
Context (url_ok : string → bool).

Lemma startGated_safe c id : safe (startGated url_ok c id).
Proof. unfold startGated, ready_gate. safe_tac. Qed.
#[local] Hint Resolve startGated_safe : safe.

Lemma waitExit_safe b n ch : safe (waitExit b n ch).
Proof.
  apply safe_action, good_quiet. intros e d x d' H.
  repeat match type of H with (if ?b then _ else _) = _ => destruct b end; simplify_eq; apply quiet_refl.
Qed.
#[local] Hint Resolve waitExit_safe : safe.

Lemma nextCh_quiet d n : nextCh d ≤ n → quiet d (set_nextCh n d).
Proof.
  intros H. split; [split|..]; try done; cbn; eauto; try congruence.
  exists []. rewrite app_nil_r. by split; [|constructor].
Qed.

Lemma observe_safe n v work : safe work → safe (observe n v work).
Proof.
  intros Hw. unfold observe. safe_tac; try inert.
  - apply good_quiet. intros e d x d' [= _ <-]. apply nextCh_quiet. lia.
  - apply good_quiet. intros e d x d' H.
    repeat match type of H with
    | match ?b with _ => _ end = _ => destruct b
    end; simplify_eq; apply quiet_refl.
Qed.

Lemma stopForRestart_safe id : safe (stopForRestart id).
Proof.
  apply safe_action, good_quiet. intros e d x d'. destruct (shuttingDown d); [intros [= _ <-]; apply quiet_refl|].
  pose proof (book_quiet (e_now e) id d) as H. destruct (book_restart (e_now e) id d). by intros [= _ <-].
Qed.
#[local] Hint Resolve stopForRestart_safe : safe.

Lemma startForRestart_safe c id : safe (startForRestart url_ok c id).
Proof. unfold startForRestart. safe_tac. Qed.
#[local] Hint Resolve startForRestart_safe : safe.

Lemma restart_stops_safe ids : ∀ n, safe (restart_stops ids n).
Proof. induction ids as [|id ids IH]; intros n; cbn [restart_stops]; unfold restart_stop; safe_tac. Qed.
#[local] Hint Resolve restart_stops_safe : safe.

Lemma restart_starts_safe c ids : safe (restart_starts url_ok c ids).
Proof. induction ids as [|id ids IH]; cbn [restart_starts]; safe_tac. Qed.
#[local] Hint Resolve restart_starts_safe : safe.

Lemma runRestart_safe id deps : safe (runRestart url_ok id deps).
Proof. unfold runRestart. safe_tac. inert. Qed.
#[local] Hint Resolve runRestart_safe observe_safe : safe.

Lemma restart_locked_good n w : good (restart_locked n w).
Proof.
  apply good_quiet. intros e d x d'. unfold restart_locked. destruct (services d !! n) as [id|]; [|intros [= _ <-]; apply quiet_refl].
  destruct (shuttingDown d); [intros [= _ <-]; apply quiet_refl|]. cbv zeta.
  destruct (w || _); [intros [= _ <-]; apply quiet_refl|].
  pose proof (book_quiet (e_now e) id d) as H. destruct (book_restart (e_now e) id d) as [ch d1].
  intros [= _ <-]. apply (quiet_trans _ d1); [exact H|inert].
Qed.
#[local] Hint Resolve restart_locked_good : safe.

Lemma sched_round_safe id ch : safe (sched_round id ch).
Proof.
  unfold sched_round, startScheduledRun. safe_tac.
  - apply good_quiet. intros e d x d' H.
    repeat match type of H with (if ?b then _ else _) = _ => destruct b end; simplify_eq; apply quiet_refl.
  - cbn beta. destruct (_ && _); [apply stop_quiet|apply quiet_refl].
Qed.
#[local] Hint Resolve sched_round_safe : safe.

Lemma startSchedulers_quiet e d x d' : startSchedulers e d = Some (x, d') → quiet d d'.
Proof.
  unfold startSchedulers. destruct (iteration e (services d)) as [l|]; [|done]. cbn [mbind option_bind]. intros [= E].
  match type of E with foldl ?f ?a ?l = _ => pose proof (foldl_quiet2 f l [] d) as H end.
  rewrite E in H. apply H. clear. intros rs d [n id]. cbn [fst snd]. destruct (Service.Scheduled _); [|apply quiet_refl].
  cbn [snd]. split; [split|..]; try done; cbn; eauto; try congruence.
  - intros c [?| ->%list_elem_of_singleton]%elem_of_app; [auto|right; lia].
  - exists []. rewrite app_nil_r. by split; [|constructor].
Qed.

Lemma reload_finish_good old : good (reload_finish url_ok old).
Proof.
  apply good_quiet. intros e d x d'. unfold reload_finish.
  destruct (startSchedulers e (startChecks url_ok d)) as [[rs d1]|] eqn:E; [|done]. cbn [mbind option_bind fst snd].
  intros [= _ <-]. eapply quiet_trans.
  - apply (quiet_trans _ (startChecks url_ok d)); [|by eapply startSchedulers_quiet]. apply foldl_quiet.
    intros d2 [n c]. cbn [fst snd]. destruct (Check.New _ _ _); [inert|apply quiet_refl].
  - apply foldl_quiet. intros d2 n. destruct (Checks _ !! _); [apply quiet_refl|inert].
Qed.
#[local] Hint Resolve reload_finish_good : safe.

Lemma reload_safe : safe (reload url_ok).
Proof.
  unfold reload. apply safe_bind; [safe_tac|]. intros ready. destruct (negb ready); [safe_tac|].
  apply safe_bind.
  { apply safe_action, good_quiet. intros e d x d'. destruct (reloadMu d); [done|]. intros [= _ <-]. inert. }
  intros _. apply safe_bind; [|intros r; safe_tac; inert].
  apply safe_bind; [safe_tac|]. intros [c|]; [|safe_tac].
  destruct (reload_validate c) as [l|] eqn:Hv; [|safe_tac].
  apply safe_bind; [by apply safe_action, reload_good|]. intros [[[waits ids] old]|]; safe_tac.
Qed.
#[local] Hint Resolve reload_safe : safe.

Lemma handle_command_safe c : safe (handle_command url_ok c).
Proof.
  destruct c; cbn [handle_command]; unfold StartFn, StopFn, RestartFn, SignalFn, restartOrdered, service_named;
    safe_tac; try apply stop_quiet; try (apply emit_quiet, kill_plain); try (apply observe_safe; safe_tac).
Qed.
#[local] Hint Resolve handle_command_safe : safe.

Lemma forward_good sig : good (forward_signal sig).
Proof.
  apply good_quiet. intros e d x d'. unfold forward_signal. destruct (iteration e (services d)); [|done].
  cbn [mbind option_bind]. intros [= _ <-]. apply foldl_quiet. intros d1 [n id]. cbn [snd].
  destruct (Service.RewriteSignal _ _); [apply emit_quiet, kill_plain|apply quiet_refl].
Qed.
#[local] Hint Resolve forward_good : safe.

Lemma outside_good : good outside_step.
Proof.
  apply good_quiet. intros e d x d'. unfold outside_step. destruct (e_os e) as [pid ws|pid|id alive|o|].
  - destruct (bool_decide _); [|done]. intros [= _ <-]. inert.
  - destruct (fresh_pid d pid); [|done]. intros [= _ <-]. inert.
  - destruct (Service.kill_timer_fires (get d id) alive) as [s ks] eqn:E. intros [= _ <-].
    apply (quiet_trans _ (put id s d)); [|apply emit_quiet, kill_plain]. apply put_quiet.
    unfold Service.kill_timer_fires in E. destruct (Service.killTimer (get d id)); by injection E as <- <-.
  - destruct o as [|[pid|]|pid code|pid|ch]; [|destruct (fresh_pid d pid); [|done]| |done| |];
      cbn [Reaper.apply_op mbind option_bind]; intros [= _ <-]; inert.
  - intros [= _ <-]. apply quiet_refl.
Qed.
#[local] Hint Resolve outside_good : safe.

Lemma forever_ok body d : safe body → Inv d → thread_ok Inv G (forever body) d.
Proof.
  intros Hb HI. exists (λ _, True). split_and!; [done| | |done]; intros; (eapply wp_mono; [|by apply Hb]); done.
Qed.

Lemma supervise_ok sub sigs rs d : Inv d → Forall (λ t, thread_ok Inv G t d) (supervise url_ok sub sigs rs).
Proof.
  intros HI. unfold supervise. constructor.
  { exists SD. split_and!; [apply SD_stable| | |].
    - eapply wp_mono; [|by apply reap_leaves]. naive_solver.
    - intros d' _ HI'. eapply wp_mono; [|by apply reap_leaves]. naive_solver.
    - intros d' _ HI' H. by apply run_tail_ok. }
  repeat (constructor; [apply forever_ok; [|done]|]); [..|apply Forall_fmap, Forall_true; intros r; apply forever_ok; [apply sched_round_safe|done]].
  - apply dispatch_restart_safe.
  - unfold handle_signal. safe_tac.
  - unfold accept_command. safe_tac.
  - unfold check_fails. safe_tac.
  - unfold outside. safe_tac.
Qed.
End gates.

End DaemonSafety.
