(* ===== verification/DaemonTheorems.v ===== *)
(** * What the supervisor guarantees

    The theorems about the daemon of [Daemon], for every configuration, every
    interleaving of its goroutines and every behaviour of its children, clients,
    checks, timers and signals. *)

From S2P Require Import Prelude GoStrings GoTime Order Metrics Reaper Check Service Conc DaemonState Daemon DaemonSafety.

Open Scope string_scope.
Open Scope list_scope.
Open Scope nat_scope.

Module DaemonTheorems.
Import Conc DaemonState Daemon DaemonSafety.

(** ** The start *)

Lemma build_service_seq d p d' :
  build_service d p = Ok d' → shutdownSeq d' = shutdownSeq d ∧ shutdownMode d' = shutdownMode d.
Proof.
  unfold build_service. cbv zeta. destruct (Service.New _ _); [|done]. cbn [mbind result_bind]. by intros [= <-].
Qed.

Lemma build_loop_seq ps d :
  shutdownSeq (build_loop ps d).2 = shutdownSeq d ∧ shutdownMode (build_loop ps d).2 = shutdownMode d.
Proof.
  revert d. induction ps as [|p ps IH]; intros d; [done|]. cbn [build_loop].
  destruct (build_service d p) as [d1|] eqn:E; [|done]. apply build_service_seq in E as [<- <-]. apply IH.
Qed.

Section theorems.
Context (url_ok : string → bool).

Lemma startChecks_quiet d : quiet d (startChecks url_ok d).
Proof.
  apply foldl_quiet. intros d2 [n c]. cbn [fst snd]. destruct (Check.New _ _ _); [inert|apply quiet_refl].
Qed.

Lemma empty_Inv c args sock l :
  Order.TopoSort (buildOrderServices c) = Done (Ok l) →
  Inv (set_shutdownMode (ShutdownOrder c) (set_shutdownSeq l (empty_daemon c args sock))).
Proof.
  intros Ho. split; cbn; try (intros *; by rewrite lookup_empty); try done.
  - intros pid id. rewrite lookup_empty. split; [done|]. intros (s & H & _). by rewrite lookup_empty in H.
  - intros c' [?|?]; set_solver.
  - by left.
Qed.

Lemma setup_Inv e c args sock rs d : setup url_ok e c args sock = Some (rs, d) → Inv d.
Proof.
  unfold setup. cbv zeta. destruct (1 <? _); [done|].
  destruct (Order.TopoSort (buildOrderServices c)) as [[l|]|] eqn:Ho; try done.
  set (sk := if bool_decide (sock = "") then DefaultSocketPath else sock).
  set (d1 := set_shutdownMode _ _). assert (HI1 : Inv d1) by (by apply empty_Inv).
  unfold buildServices. set (d2 := set_services ∅ d1).
  assert (H2 : reloading d2 d2).
  { split; [apply calm_refl| |]; intros ? ? H; cbn in H; by rewrite lookup_empty in H. }
  pose proof (build_loop_ok d2 eq_refl (Processes (cfg d1)) d2 H2) as [Hc Hn _].
  pose proof (build_loop_cfg (Processes (cfg d1)) d2) as Hcfg.
  pose proof (build_loop_seq (Processes (cfg d1)) d2) as [Hseq Hmode].
  destruct (build_loop (Processes (cfg d1)) d2) as [[err|] d3]; [done|]. cbn [snd] in *.
  assert (HI3 : Inv d3).
  { apply (calm_Inv d1); [|split; [exact Hn|rewrite Hcfg, Hseq; apply HI1|rewrite Hcfg, Hmode; apply HI1]|done].
    eapply calm_trans; [|exact Hc]. by apply config_calm. }
  set (d4 := set_reaper _ d3).
  destruct (startSchedulers e (startChecks url_ok d4)) as [[rs5 d5]|] eqn:E5; [|done]. intros [= _ <-].
  apply (quiet_good d3); [|done]. apply (quiet_trans _ d4); [inert|].
  apply (quiet_trans _ (startChecks url_ok d4)); [apply startChecks_quiet|].
  apply (quiet_trans _ d5); [by eapply startSchedulers_quiet|inert].
Qed.

(** The configurations the daemon can get into. *)
Definition reachable (c : Config) (args : list string) (sock : string) (sigs : gset Z)
    (cf : config daemon env) : Prop :=
  ∃ e rs d0, setup url_ok e c args sock = Some (rs, d0) ∧ rtc cstep (Conc.mkConfig d0 (supervise url_ok (Subreaper c) sigs rs)) cf.

Lemma reachable_Inv c args sock sigs cf : reachable c args sock sigs cf → Inv (st cf).
Proof.
  intros (e & rs & d0 & Hs & Hr). pose proof (setup_Inv _ _ _ _ _ _ Hs) as HI.
  by destruct (adequacy Inv G (Conc.mkConfig d0 (supervise url_ok (Subreaper c) sigs rs)) cf HI (supervise_ok url_ok (Subreaper c) sigs rs d0 HI) Hr).
Qed.

Lemma reachable_step c args sock sigs cf cf' :
  reachable c args sock sigs cf → cstep cf cf' → st cf = st cf' ∨ G (st cf) (st cf').
Proof.
  intros (e & rs & d0 & Hs & Hr) Hst. pose proof (setup_Inv _ _ _ _ _ _ Hs) as HI.
  exact (adequacy_step Inv G (Conc.mkConfig d0 (supervise url_ok (Subreaper c) sigs rs)) _ _ HI (supervise_ok url_ok (Subreaper c) sigs rs d0 HI) Hr Hst).
Qed.

Lemma reachable_trans c args sock sigs cf cf' :
  reachable c args sock sigs cf → rtc cstep cf cf' → reachable c args sock sigs cf'.
Proof. intros (e & rs & d0 & Hs & Hr) H. exists e, rs, d0. split; [done|]. by etrans. Qed.

Lemma reachable_G c args sock sigs cf cf' :
  reachable c args sock sigs cf → rtc cstep cf cf' → rtc G (st cf) (st cf').
Proof.
  intros Hre Hr. revert Hre. induction Hr as [cf|cf cf1 cf2 H1 H2 IH]; intros Hre; [apply rtc_refl|].
  assert (Hre1 : reachable c args sock sigs cf1) by (eapply reachable_trans; [done|by apply rtc_once]).
  destruct (reachable_step _ _ _ _ _ _ Hre H1) as [->|HG]; [by apply IH|]. eapply rtc_l; [exact HG|by apply IH].
Qed.

Lemma Inv_running d id :
  Inv d → is_running d id = true → ∃ s, heap d !! id = Some s ∧ get d id = s ∧ Service.running s = true.
Proof.
  intros HI Hr. destruct (get_dom d id Hr) as [s Hs]. exists s. unfold is_running in Hr.
  by rewrite (get_lookup _ _ _ Hs) in *.
Qed.

Lemma Inv_pidMap d pid id :
  Inv d → pidMap d !! pid = Some id ↔ is_running d id = true ∧ Service.Pid (get d id) = pid.
Proof.
  intros HI. rewrite (i_pid _ HI). split.
  - intros (s & Hs & Hr & Hp). unfold is_running. by rewrite (get_lookup _ _ _ Hs).
  - intros [Hr Hp]. destruct (Inv_running d id HI Hr) as (s & Hs & E & Hr'). exists s. split_and!; [done|done|congruence].
Qed.

(** C1: pid bookkeeping.  In every state the daemon can reach, a pid is recorded
    in [pidMap] exactly for the instance that is running with that pid; a
    running instance has a positive pid and a done channel that is not closed,
    an idle one has neither; two running instances share neither a pid nor a
    channel; and every service is filed under its own name. *)
Theorem pid_bookkeeping (c : Config) (args : list string) (sock : string) (sigs : gset Z)
    (cf : config daemon env) :
  reachable c args sock sigs cf →
  (∀ pid id, pidMap (st cf) !! pid = Some id ↔
     is_running (st cf) id = true ∧ Service.Pid (get (st cf) id) = pid) ∧
  (∀ id, if is_running (st cf) id
         then (0 < Service.Pid (get (st cf) id))%Z ∧ closed (st cf) (Service.Done (get (st cf) id)) = false
         else Service.Pid (get (st cf) id) = 0%Z ∧ Service.Done (get (st cf) id) = None) ∧
  (∀ id1 id2, is_running (st cf) id1 = true → is_running (st cf) id2 = true →
     Service.Pid (get (st cf) id1) = Service.Pid (get (st cf) id2) ∨
     Service.Done (get (st cf) id1) = Service.Done (get (st cf) id2) → id1 = id2) ∧
  (∀ n id, services (st cf) !! n = Some id → Service.Name (get (st cf) id) = n).
Proof.
  intros HI%reachable_Inv. split_and!.
  - intros pid id. by apply Inv_pidMap.
  - intros id. destruct (is_running (st cf) id) eqn:Hr.
    + destruct (Inv_running _ id HI Hr) as (s & Hs & -> & Hr'). split; [by eapply i_pos|].
      destruct (i_done _ HI id s Hs Hr') as (ch & E & ? & _). unfold Service.Done. rewrite E. by apply bool_decide_eq_false.
    + unfold is_running, get in *. destruct (heap (st cf) !! id) as [s|] eqn:Hs; cbn in *; [|done].
      by eapply i_idle.
  - intros id1 id2 H1 H2 [E|E].
    + assert (P1 : pidMap (st cf) !! Service.Pid (get (st cf) id1) = Some id1) by (by apply Inv_pidMap).
      assert (P2 : pidMap (st cf) !! Service.Pid (get (st cf) id2) = Some id2) by (by apply Inv_pidMap). congruence.
    + destruct (Inv_running _ id1 HI H1) as (s1 & Hs1 & E1 & R1), (Inv_running _ id2 HI H2) as (s2 & Hs2 & E2 & R2).
      rewrite E1, E2 in E. destruct (i_done _ HI id1 s1 Hs1 R1) as (ch & D1 & _).
      eapply (i_done_own _ HI id1 s1 id2 s2 ch); [done|done|done|]. unfold Service.Done in E. congruence.
  - intros n id Hn. destruct (so_heap _ (i_services _ HI) n id Hn) as (s & Hs & E). by rewrite (get_lookup _ _ _ Hs).
Qed.

Lemma frozen_trace d d' : rtc G d d' → SD d →
  ∃ evs, trace d' = trace d ++ evs ∧ ∀ id pid, EFork id pid ∉ evs.
Proof.
  intros Hr. induction Hr as [d|d d1 d2 HG Hr IH]; intros H.
  { exists []. rewrite app_nil_r. split; [done|]. intros id pid. apply not_elem_of_nil. }
  destruct (g_trace _ _ HG) as (e1 & E1 & P1). destruct (IH (g_sd _ _ HG H)) as (e2 & E2 & P2).
  exists (e1 ++ e2). rewrite E2, E1, app_assoc. split; [done|]. intros id pid [Hin|Hin]%elem_of_app; [|by eapply P2].
  rewrite Forall_forall in P1. destruct (P1 _ Hin) as [Hf _]. unfold SD in H. congruence.
Qed.

(** C2: forks are guarded.  From the moment the reap loop runs (what the boot
    forks before that is not covered), a child is forked only while the daemon
    is not shutting down, only for the instance its name currently stands for,
    only when that instance is not running, and with a pid no instance is filed
    under; and once the shutdown has begun no child is ever forked again. *)
Theorem forks_guarded (c : Config) (args : list string) (sock : string) (sigs : gset Z)
    (cf cf' cf'' : config daemon env) :
  reachable c args sock sigs cf → cstep cf cf' → rtc cstep cf cf'' →
  (∃ evs, trace (st cf') = trace (st cf) ++ evs ∧
     ∀ id pid, EFork id pid ∈ evs →
       shuttingDown (st cf) = false ∧ is_running (st cf) id = false ∧
       services (st cf) !! Service.Name (get (st cf) id) = Some id ∧ pidMap (st cf) !! pid = None) ∧
  (shuttingDown (st cf) = true →
     ∃ evs, trace (st cf'') = trace (st cf) ++ evs ∧ ∀ id pid, EFork id pid ∉ evs).
Proof.
  intros Hre Hst Hr. split.
  - destruct (reachable_step _ _ _ _ _ _ Hre Hst) as [<-|HG].
    { exists []. rewrite app_nil_r. split; [done|]. by intros id pid Hx%not_elem_of_nil. }
    destruct (g_trace _ _ HG) as (evs & E & P). exists evs. split; [done|]. intros id pid Hin.
    rewrite Forall_forall in P. by destruct (P _ Hin) as (? & ? & ? & ? & _).
  - apply frozen_trace. by eapply reachable_G.
Qed.

Lemma before_in_reverse l1 x l2 y : NoDup (l1 ++ x :: l2) → y ∈ l2 → before_in (reverse (l1 ++ x :: l2)) y x.
Proof.
  intros Hnd Hy. left. exists (reverse l2), (reverse l1). rewrite reverse_app, reverse_cons, <- app_assoc. cbn.
  split; [done|]. rewrite !elem_of_reverse. split; [|done]. apply NoDup_app in Hnd as (_ & _ & Hnd).
  by apply NoDup_cons in Hnd as [? _].
Qed.

(** In the start order, [y] comes after [x] when a constraint puts [x] first. *)
Lemma edge_order c l x y :
  Order.TopoSort (buildOrderServices c) = Done (Ok l) → Order.edge (buildOrderServices c) x y →
  ∃ l1 l2 l3, l = l1 ++ x :: l2 ++ y :: l3 ∧ NoDup l.
Proof.
  intros Ho He. destruct (Order.toposort_order _ _ Ho) as (Hnd & Hrefs & Hperm & Hord).
  assert (Hy : y ∈ l).
  { rewrite Hperm. destruct He as (s & Hs & [[-> _]|[-> Hb]]).
    - apply list_elem_of_fmap. eauto.
    - eapply Hrefs; [exact Hs|]. set_solver. }
  apply list_elem_of_split in Hy as (a & b & ->). pose proof (Hord a y b eq_refl x He) as Hx.
  apply list_elem_of_split in Hx as (a1 & a2 & ->). exists a1, a2, b. split; [by rewrite <- app_assoc|]. by rewrite Hperm.
Qed.

(** C3: shutdown order.  When the shutdown stops a service in the default mode
    (reverse-dep), every service that a before, after or requires constraint of
    the configuration makes start later is down at that moment; in mode dep,
    every service that must start earlier is down.  This holds whatever else
    happens in between: crashes, restarts in flight, reloads before the
    shutdown, clients and signals. *)
Theorem shutdown_order (c : Config) (args : list string) (sock : string) (sigs : gset Z)
    (cf cf' : config daemon env) (evs : list event) (id : nat) :
  reachable c args sock sigs cf → cstep cf cf' →
  trace (st cf') = trace (st cf) ++ evs → EShutdownStop id ∈ evs →
  shuttingDown (st cf) = true ∧ is_running (st cf) id = true ∧
  ∀ y id', services (st cf) !! y = Some id' →
    (ShutdownOrder (cfg (st cf)) = "" ∨ ShutdownOrder (cfg (st cf)) = ShutdownReverseDep →
       Order.edge (buildOrderServices (cfg (st cf))) (Service.Name (get (st cf) id)) y →
       is_running (st cf) id' = false) ∧
    (ShutdownOrder (cfg (st cf)) = ShutdownDep →
       Order.edge (buildOrderServices (cfg (st cf))) y (Service.Name (get (st cf) id)) →
       is_running (st cf) id' = false).
Proof.
  intros Hre Hst Hev Hin. pose proof (reachable_Inv _ _ _ _ _ Hre) as HI. set (d := st cf) in *.
  destruct (reachable_step _ _ _ _ _ _ Hre Hst) as [E|HG].
  { rewrite <- E in Hev. assert (evs = []) as -> by (by apply (app_inv_head (trace d)); rewrite app_nil_r).
    by apply not_elem_of_nil in Hin. }
  destruct (g_trace _ _ HG) as (evs' & E & P). fold d in E, P.
  assert (evs' = evs) as -> by (apply (app_inv_head (trace d)); congruence).
  rewrite Forall_forall in P. destruct (P _ Hin) as (Hsd & Hr & l & Hl & Hb). split_and!; [done..|].
  intros y id' Hy. pose proof (so_seq _ (i_services _ HI)) as Hseq. pose proof (so_mode _ (i_services _ HI)) as Hmode.
  split.
  - intros Hm He. apply (Hb y id' Hy). destruct (edge_order _ _ _ _ Hseq He) as (l1 & l2 & l3 & Hs & Hnd).
    assert (l = reverse (shutdownSeq d)) as ->.
    { unfold stop_order in Hl. rewrite Hmode in Hl.
      destruct Hm as [Hm|Hm]; rewrite Hm in Hl; vm_compute bool_decide in Hl; by injection Hl as <-. }
    rewrite Hs in *. apply before_in_reverse; [done|]. set_solver.
  - intros Hm He. apply (Hb y id' Hy). destruct (edge_order _ _ _ _ Hseq He) as (l1 & l2 & l3 & Hs & Hnd).
    assert (l = shutdownSeq d) as -> by (unfold stop_order in Hl; rewrite Hmode, Hm in Hl; by injection Hl as <-).
    left. exists (l1 ++ y :: l2), l3. rewrite Hs. split; [by rewrite <- app_assoc|]. split; [|set_solver].
    rewrite Hs in Hnd. change (y :: l2 ++ ?b) with ((y :: l2) ++ b) in Hnd.
    rewrite app_assoc in Hnd. apply NoDup_app in Hnd as (_ & Hnd & _). intros Hx. eapply Hnd; [exact Hx|]. set_solver.
Qed.

(** C4: shutdown completeness.  [run] returns only after [stopAll] has finished,
    and from then on no service of the daemon is running: none is left behind,
    none comes back.  The code it returns is the exit code of that moment. *)
Theorem shutdown_complete (c : Config) (args : list string) (sock : string) (sigs : gset Z)
    (cf cf' : config daemon env) :
  reachable c args sock sigs cf → rtc cstep cf cf' →
  (returned (st cf) ≠ None → stopAllDone (st cf) = true) ∧
  (stopAllDone (st cf) = true →
     shuttingDown (st cf') = true ∧ services (st cf') = services (st cf) ∧
     ∀ n id, services (st cf') !! n = Some id → is_running (st cf') id = false).
Proof.
  intros Hre Hr. pose proof (reachable_Inv _ _ _ _ _ Hre) as HI.
  pose proof (reachable_Inv _ _ _ _ _ (reachable_trans _ _ _ _ _ _ Hre Hr)) as HI'.
  pose proof (reachable_G _ _ _ _ _ _ Hre Hr) as HG. split.
  - intros Hn. by destruct (i_returned _ HI).
  - intros Hst. pose proof (i_done_sd _ HI Hst) as Hsd.
    assert (Hst' : stopAllDone (st cf') = true) by exact (stable_rtc G _ _ _ stopped_stable Hst HG).
    split_and!.
    + exact (i_done_sd _ HI' Hst').
    + by destruct (stable_rtc G _ _ _ (services_stable (services (st cf))) (conj Hsd eq_refl) HG).
    + intros n id Hn. by eapply (i_stopped _ HI').
Qed.
End theorems.

(** ** A concrete run

    Two services, [web] requiring [db]; both are started, SIGTERM arrives, [web]
    is stopped and exits, and [db] is about to be stopped. *)

Definition named_process (n : string) (req : list string) : Service.Process :=
  Service.mkProcess None None ∅ ∅ None None None n n "" "" "" "" "" "" "" "" "" "" "" "" "" ""
    "" "" "" "" "" "" "" ∅ ∅ [] [] [] req [] (f64_of_Z 0) false false false false false.

Definition demo_cfg : Config := mkConfig [named_process "web" ["db"]; named_process "db" []] "" "" ∅ false.

Definition any_url : string → bool := λ _, true.

Definition demo_env (fork pid sig : Z) (cmd : command) (os : os_event) : env :=
  mkEnv 0 (λ _, Service.StatNotExist) true (Some fork) ["db"; "web"] pid false true false 0 sig "" None cmd os.

Definition step_of (i : nat) : nat * env := (i, demo_env 1 0 0 CReload Quiet).

Definition demo_start (name : string) (pid : Z) (t : nat) : list (nat * env) :=
  [(3, demo_env 1 0 0 (CStart name false) Quiet); step_of 3; step_of 3] ++
  replicate 6 (t, demo_env pid 0 0 CReload Quiet).

Definition demo_sched : list (nat * env) :=
  demo_start "db" 100 6 ++ demo_start "web" 101 7 ++
  (2, demo_env 1 0 15 CReload Quiet) :: replicate 5 (step_of 2) ++
  [(5, demo_env 1 0 0 CReload (ChildExits 101 (Signaled 15)));
   (0, demo_env 1 101 0 CReload Quiet); step_of 0; step_of 2].

Definition some {A} (o : option A) : bool := match o with Some _ => true | None => false end.

Lemma some_default {A} (x : A) (o : option A) : some o = true → o = Some (default x o).
Proof. by destruct o. Qed.

Definition demo_daemon : daemon :=
  default (empty_daemon demo_cfg [] "") (snd <$> setup any_url (demo_env 1 0 0 CReload Quiet) demo_cfg [] "").

Lemma demo_setup : setup any_url (demo_env 1 0 0 CReload Quiet) demo_cfg [] "" = Some ([], demo_daemon).
Proof. vm_compute. reflexivity. Qed.

Definition demo0 : config daemon env := Conc.mkConfig demo_daemon (supervise any_url false {[15%Z]} []).

Definition demo_at (sched : list (nat * env)) : config daemon env := default demo0 (run_pool sched demo0).

Lemma demo_reachable sched :
  some (run_pool sched demo0) = true → reachable any_url demo_cfg [] "" {[15%Z]} (demo_at sched).
Proof.
  intros H%(some_default demo0)%run_pool_reachable. eexists _, [], demo_daemon. split; [apply demo_setup|exact H].
Qed.

Lemma run_pool_snoc sched ie (c : config daemon env) :
  run_pool (sched ++ [ie]) c = c1 ← run_pool sched c; step_thread c1 ie.
Proof.
  revert c. induction sched as [|x sched IH]; intros c; cbn [app run_pool].
  - cbn. by destruct (step_thread c ie).
  - destruct (step_thread c x); [apply IH|done].
Qed.

Lemma demo_step sched ie :
  some (run_pool (sched ++ [ie]) demo0) = true → cstep (demo_at sched) (demo_at (sched ++ [ie])).
Proof.
  intros H. exists ie. unfold demo_at. rewrite run_pool_snoc in *.
  destruct (run_pool sched demo0) as [c1|]; [|done]. cbn [mbind option_bind default from_option] in *.
  by apply some_default.
Qed.

Definition demo_running : list (nat * env) := demo_start "db" 100 6 ++ demo_start "web" 101 7.

(** The rest of the run, to the return. *)
Definition demo_end : list (nat * env) :=
  demo_sched ++ [step_of 2; step_of 5; (5, demo_env 1 0 0 CReload (ChildExits 100 (Exited 0))); step_of 0;
    (0, demo_env 1 100 0 CReload Quiet); step_of 0; step_of 2; step_of 2; step_of 2; step_of 0] ++
  replicate 5 (step_of 0).

Lemma pid_bookkeeping_witness :
  pidMap (st (demo_at demo_running)) !! 101%Z = Some 0 ∧
  is_running (st (demo_at demo_running)) 0 = true ∧ Service.Pid (get (st (demo_at demo_running)) 0) = 101%Z.
Proof.
  destruct (pid_bookkeeping any_url demo_cfg [] "" {[15%Z]} (demo_at demo_running)) as (H & _).
  { apply demo_reachable. by vm_compute. }
  assert (Hp : pidMap (st (demo_at demo_running)) !! 101%Z = Some 0) by (by vm_compute).
  split; [exact Hp|]. apply H. exact Hp.
Defined.

Lemma demo_run_on sched rest :
  some (run_pool (sched ++ rest) demo0) = true → rtc cstep (demo_at sched) (demo_at (sched ++ rest)).
Proof.
  induction rest as [|ie rest IH] using rev_ind; intros H; [rewrite app_nil_r; apply rtc_refl|]. rewrite app_assoc in *.
  eapply rtc_r; [|by apply demo_step]. apply IH. rewrite run_pool_snoc in H. by destruct (run_pool (sched ++ rest) demo0).
Qed.

Definition demo_before_fork : list (nat * env) := take 7 demo_sched.
Definition demo_after_fork : list (nat * env) := demo_before_fork ++ [(6, demo_env 100 0 0 CReload Quiet)].

(** The step that forks [db], and the rest of the run after the shutdown began,
    in which things happen but nothing is forked. *)
Lemma forks_guarded_witness :
  (∃ evs, trace (st (demo_at demo_after_fork)) = trace (st (demo_at demo_before_fork)) ++ evs ∧ EFork 1 100 ∈ evs ∧
     is_running (st (demo_at demo_before_fork)) 1 = false ∧ pidMap (st (demo_at demo_before_fork)) !! 100%Z = None) ∧
  (∃ evs, trace (st (demo_at demo_end)) = trace (st (demo_at demo_sched)) ++ evs ∧ evs ≠ [] ∧ ∀ id pid, EFork id pid ∉ evs).
Proof.
  split.
  - destruct (forks_guarded any_url demo_cfg [] "" {[15%Z]} (demo_at demo_before_fork)
      (demo_at demo_after_fork) (demo_at demo_before_fork)) as [(evs & E & H) _].
    + apply demo_reachable. by vm_compute.
    + apply demo_step. by vm_compute.
    + apply rtc_refl.
    + exists evs. split; [exact E|]. assert (Hf : EFork 1 100 ∈ evs) by (vm_compute in E; subst evs; left).
      split; [exact Hf|]. destruct (H _ _ Hf) as (_ & Hr & _ & Hp). split; [exact Hr|exact Hp].
  - destruct (forks_guarded any_url demo_cfg [] "" {[15%Z]} (demo_at demo_sched) (demo_at (demo_sched ++ [step_of 2]))
      (demo_at demo_end)) as [_ H].
    + apply demo_reachable. by vm_compute.
    + apply demo_step. by vm_compute.
    + apply demo_run_on. by vm_compute.
    + destruct H as (evs & E & H); [by vm_compute|]. exists evs. split_and!; [exact E| |exact H]. intros ->. vm_compute in E. discriminate E.
Defined.

Lemma shutdown_order_witness : is_running (st (demo_at demo_sched)) 0 = false.
Proof.
  destruct (shutdown_order any_url demo_cfg [] "" {[15%Z]} (demo_at demo_sched) (demo_at (demo_sched ++ [step_of 2]))
    [EKill (-100) 15; EShutdownStop 1] 1) as (_ & _ & H).
  - apply demo_reachable. by vm_compute.
  - apply demo_step. by vm_compute.
  - by vm_compute.
  - set_solver.
  - assert (Hn : Service.Name (get (st (demo_at demo_sched)) 1) = "db") by (by vm_compute).
    assert (Hc : buildOrderServices (cfg (st (demo_at demo_sched))) =
      [Order.mkService "web" [] [] ["db"]; Order.mkService "db" [] [] []]) by (by vm_compute).
    destruct (H "web" 0) as [H1 _]; [by vm_compute|]. apply H1; [left; by vm_compute|]. rewrite Hn, Hc.
    exists (Order.mkService "web" [] [] ["db"]). split; [apply elem_of_cons; by left|].
    left. split; [done|]. right. apply elem_of_cons. by left.
Defined.

Lemma shutdown_complete_witness :
  returned (st (demo_at demo_end)) = Some 0%Z ∧ is_running (st (demo_at demo_end)) 1 = false.
Proof.
  destruct (shutdown_complete any_url demo_cfg [] "" {[15%Z]} (demo_at demo_end) (demo_at demo_end)) as [H1 H2].
  - apply demo_reachable. by vm_compute.
  - apply rtc_refl.
  - assert (Hr : returned (st (demo_at demo_end)) = Some 0%Z) by (by vm_compute). split; [exact Hr|].
    destruct H2 as (_ & _ & H3); [apply H1; by rewrite Hr|]. apply (H3 "db"). by vm_compute.
Defined.

End DaemonTheorems.
