(* ===== verification/DaemonPolicy.v ===== *)
(** * Exit policy and dependents

    What the reap loop does with the exit of a service, on every branch, and the
    transitive requirers a restart takes along. *)

From S2P Require Import Prelude GoStrings GoTime Order Metrics Reaper Check Service Conc DaemonState Daemon DaemonSafety DaemonTheorems.

Open Scope string_scope.
Open Scope list_scope.
Open Scope nat_scope.

Module DaemonPolicy.
Import Conc DaemonState Daemon DaemonSafety DaemonTheorems.

(** ** Exit policy *)

Definition is_stopped (d : daemon) (id : nat) : bool := Service.stopped (get d id).

Lemma get_put_eq d id s : is_Some (heap d !! id) → get (put id s d) id = s.
Proof. intros [s0 H]. unfold get, put. cbn. by rewrite lookup_alter_eq, H. Qed.

Lemma get_put_ne d id s i : i ≠ id → get (put id s d) i = get d i.
Proof. intros H. unfold get, put. cbn. by rewrite lookup_alter_ne. Qed.

Lemma Stop_fields s now :
  Service.Requires (Service.Stop s now).1 = Service.Requires s ∧
  Service.stopped (Service.Stop s now).1 = Service.stopped s || Service.running s.
Proof.
  unfold Service.Stop. destruct (Service.running s) eqn:Hr; cbn; [|by rewrite orb_false_r].
  rewrite orb_true_r. destruct (Service.Pid s <=? 0)%Z; cbn; [done|]. by destruct (0 <? Service.killDelay s)%Z.
Qed.

(** The effect of [Stop] on one service as seen through [get]. *)
Lemma stop_service_get now id d i :
  Service.Requires (get (stop_service now id d) i) = Service.Requires (get d i) ∧
  is_running (stop_service now id d) i = is_running d i ∧
  is_stopped (stop_service now id d) i = is_stopped d i || (bool_decide (i = id) && is_running d i).
Proof.
  split_and!; [|apply calm_running, stop_quiet|].
  all: unfold stop_service, is_stopped, is_running; pose proof (Stop_fields (get d id) now) as [H1 H2];
    destruct (Service.Stop (get d id) now) as [s ks]; cbn [fst snd] in *;
    change (get (emit (kill_events ks) (put id s d)) i) with (get (put id s d) i).
  all: destruct (decide (i = id)) as [->|Hne]; [|rewrite get_put_ne by done; try done; by rewrite bool_decide_false, orb_false_r].
  all: destruct (heap d !! id) as [s0|] eqn:Hs; [rewrite get_put_eq by eauto|].
  - done.
  - unfold get, put. cbn. by rewrite lookup_alter_eq, Hs.
  - by rewrite bool_decide_true.
  - unfold get, put. cbn. rewrite lookup_alter_eq, Hs. cbn. by rewrite andb_false_r.
Qed.

(** Exactly the running services that require the failed one are stopped. *)
Lemma stop_dependents_get now n l : ∀ d i,
  is_stopped (stop_dependents now n l d) i =
  is_stopped d i || (existsb (λ ni, ni.2 =? i) l && bool_decide (n ∈ Service.Requires (get d i)) && is_running d i).
Proof.
  induction l as [|[x id] l IH]; intros d i; cbn [stop_dependents foldl existsb].
  { by rewrite orb_false_r. }
  cbn [snd]. fold (stop_dependents now n l). destruct (_ && _) eqn:E.
  - change (foldl _ (stop_service now id d) l) with (stop_dependents now n l (stop_service now id d)). rewrite IH.
    destruct (stop_service_get now id d i) as (-> & -> & ->). apply andb_true_iff in E as [E1 E2].
    destruct (decide (i = id)) as [->|Hne].
    + rewrite bool_decide_true, Nat.eqb_refl by done. cbn [andb orb]. unfold is_running. unfold Service.IsRunning in E2.
      rewrite E1, E2. destruct (is_stopped d id), (existsb _ l); done.
    + rewrite bool_decide_false by done. cbn [andb]. rewrite orb_false_r.
      destruct (Nat.eqb_spec id i); [congruence|]. done.
  - change (foldl _ d l) with (stop_dependents now n l d). rewrite IH.
    destruct (Nat.eqb_spec id i) as [->|Hne]; [|done]. cbn [orb].
    unfold is_running. unfold Service.IsRunning in E. rewrite andb_true_l, E, <- andb_assoc, E. by rewrite andb_false_r.
Qed.

(** What follows an exit. *)
Definition verdict_for (action : Service.ExitAction) (id : nat) (code delay : Z) : verdict :=
  match action with
  | Service.ActionRestart => VRestart (mkReq id None delay)
  | Service.ActionShutdown | Service.ActionFailureShutdown => VShutdown code
  | Service.ActionSuccessShutdown => VSuccessShutdown
  | Service.ActionIgnore => VIgnore
  end.

Lemma mark_exited_get now pid id d s c i :
  heap d !! id = Some s → Service.done s = Some c →
  get (mark_exited now pid id d) i = (if decide (i = id) then ended s else get d i) ∧
  m (mark_exited now pid id d) = m d ∧ restartPending (mark_exited now pid id d) = restartPending d ∧
  services (mark_exited now pid id d) = services d ∧ shuttingDown (mark_exited now pid id d) = shuttingDown d ∧
  pidMap (mark_exited now pid id d) = delete pid (pidMap d) ∧ c ∈ closedCh (mark_exited now pid id d).
Proof.
  intros Hs Hc. rewrite (mark_exited_eq now pid id d s c Hs Hc). split_and!; try done; [|cbn; set_solver].
  unfold get, put, emit. cbn. case_decide as Hi.
  - subst i. by rewrite lookup_alter_eq, Hs.
  - by rewrite lookup_alter_ne.
Qed.

Lemma stop_service_keep now id d :
  m (stop_service now id d) = m d ∧ restartPending (stop_service now id d) = restartPending d.
Proof. unfold stop_service. by destruct (Service.Stop (get d id) now). Qed.

Lemma stop_dependents_keep now n l : ∀ d,
  m (stop_dependents now n l d) = m d ∧ restartPending (stop_dependents now n l d) = restartPending d.
Proof.
  induction l as [|[x id] l IH]; intros d; [done|]. cbn [stop_dependents foldl snd]. fold (stop_dependents now n l).
  match goal with |- context [foldl _ ?d1 l] => destruct (IH d1) as [H1 H2]; unfold stop_dependents in H1, H2 end.
  rewrite H1, H2. destruct (_ && _); [apply stop_service_keep|done].
Qed.

Lemma existsb_iteration e svcs l i :
  iteration e svcs = Some l → existsb (λ ni, ni.2 =? i) l = true ↔ ∃ n, svcs !! n = Some i.
Proof.
  intros H. rewrite existsb_exists. split.
  - intros ([n j] & Hin & E). apply Nat.eqb_eq in E as <-. exists n. apply list_elem_of_In in Hin.
    by apply (iteration_spec e svcs l).
  - intros [n Hn]. exists (n, i). split; [|apply Nat.eqb_refl]. apply list_elem_of_In. by apply (iteration_spec e svcs l).
Qed.

Lemma exit_action_ended s code : exit_action (ended s) code = exit_action s code.
Proof. done. Qed.

(** The code an exit counts as: the mapped one, and 0 for a service stopped on
    request that a signal killed. *)
Definition reported (svc : Service.Service) (raw code : Z) : Prop :=
  ∃ mapped, mapped = default raw (Service.pExitCodeMap (Service.Proc svc) !! raw) ∧
    ((Service.stopped svc = true ∧ (128 < mapped)%Z ∧ code = 0%Z) ∨
     ((Service.stopped svc = false ∨ (mapped ≤ 128)%Z) ∧ code = mapped)).

(** The action the configuration asks for. *)
Definition configured (svc : Service.Service) (code : Z) (a : Service.ExitAction) : Prop :=
  (Service.stopped svc = true ∨ Service.Scheduled svc = true ∨ (Service.Oneshot svc = true ∧ code = 0%Z) →
   a = Service.ActionIgnore) ∧
  (Service.stopped svc = false → Service.Scheduled svc = false → Service.Oneshot svc = true → code ≠ 0%Z →
   a = match Service.ParseExitAction (Service.pOnFailure (Service.Proc svc)) Service.ActionIgnore with
       | Ok x => x | Err _ => Service.ActionIgnore end) ∧
  (Service.stopped svc = false → Service.Scheduled svc = false → Service.Oneshot svc = false →
   a = if decide (code = 0%Z) then Service.OnSuccess svc else Service.OnFailure svc).

(** The failure of a long-running service nobody asked to stop. *)
Definition failed (svc : Service.Service) (code : Z) : Prop :=
  Service.stopped svc = false ∧ Service.Scheduled svc = false ∧ Service.Oneshot svc = false ∧ code ≠ 0%Z.

Lemma effective_code_reported svc raw : reported svc raw (effective_code svc raw).
Proof.
  unfold reported, effective_code, Service.RemapExitCode, Service.WasStopped. eexists. split; [reflexivity|].
  destruct (Service.stopped svc); cbn [andb]; [|auto].
  destruct (Z.ltb_spec 128 (default raw (Service.pExitCodeMap (Service.Proc svc) !! raw))); auto.
Qed.

Lemma exit_action_configured svc code : configured svc code (exit_action svc code).
Proof.
  unfold configured, exit_action, Service.WasStopped. split_and!.
  - destruct (Service.stopped svc); [done|]. destruct (Service.Scheduled svc); [done|].
    intros [?|[?|[-> ->]]]; done.
  - intros -> -> -> Hc. by apply Z.eqb_neq in Hc as ->.
  - intros -> -> ->. case_decide as Hc; [by subst|]. by apply Z.eqb_neq in Hc as ->.
Qed.

Lemma stops_dependents_failed svc code : stops_dependents svc code = true ↔ failed svc code.
Proof.
  unfold stops_dependents, failed, Service.WasStopped. rewrite !andb_true_iff, !negb_true_iff, Z.eqb_neq. tauto.
Qed.

Section exit.
Context (e : env) (d : daemon) (pid : Z) (ws : WaitStatus) (id : nat).

Let svc := get d id.
Let name := Service.Name svc.
Let code := effective_code svc (waitStatusCode ws).
Let action := exit_action svc code.

(** What the exit does to the state, apart from the verdict. *)
Record exit_effect (shutting : bool) (d' : daemon) : Prop := {
  (* the instance is down and whoever waits for it is woken *)
  ee_down : is_running d' id = false;
  ee_done : closed d' (Service.Done svc) = true;
  ee_pid : pidMap d' !! pid = None;
  (* one event in the metrics, none for the exit half of a restart *)
  ee_metrics : m d' =
    if negb shutting && bool_decide (action = Service.ActionRestart) then Metrics.ServiceRestarted (m d) name
    else if bool_decide (name ∈ restartPending d) then m d
    else Metrics.ServiceExited (m d) name code;
  ee_pending : restartPending d' = restartPending d ∖ {[name]};
  (* a failure stops exactly the running services that require it *)
  ee_others i : is_stopped d' i = true ↔ is_stopped d i = true ∨
    (shutting = false ∧ failed svc code ∧ i ≠ id ∧ is_running d i = true ∧
     name ∈ Service.Requires (get d i) ∧ ∃ n, services d !! n = Some i);
}.

Context (HI : Inv d) (Hpid : pidMap d !! pid = Some id).

Let d1 := mark_exited (e_now e) pid id d.

Lemma take_spec (d2 : daemon) (consumed : bool) :
  takeRestartPending name d1 = (consumed, d2) →
  consumed = bool_decide (name ∈ restartPending d) ∧ restartPending d2 = restartPending d ∖ {[name]} ∧
  m d2 = m d ∧ services d2 = services d ∧ shuttingDown d2 = shuttingDown d ∧ (∀ i, get d2 i = get d1 i) ∧ quiet d1 d2.
Proof.
  destruct (recorded d pid id HI Hpid) as (s & c & Hs & _ & _ & Hc & _).
  destruct (mark_exited_get (e_now e) pid id d s c id Hs Hc) as (_ & Hm & Hrp & Hsv & Hsd & _). fold d1 in Hm, Hrp, Hsv, Hsd.
  pose proof (take_quiet d1 name) as Hq. unfold takeRestartPending in *. rewrite Hrp in *.
  case_bool_decide as Hin; intros [= <- <-]; cbn [snd] in Hq; split_and!; try done.
  rewrite Hrp. apply set_eq. set_solver.
Qed.

Lemma effect_intro shutting d' :
  quiet d1 d' →
  m d' = (if negb shutting && bool_decide (action = Service.ActionRestart) then Metrics.ServiceRestarted (m d) name
          else if bool_decide (name ∈ restartPending d) then m d else Metrics.ServiceExited (m d) name code) →
  restartPending d' = restartPending d ∖ {[name]} →
  (∀ i, is_stopped d' i = true ↔ is_stopped d1 i = true ∨
    (shutting = false ∧ stops_dependents svc code = true ∧ is_running d1 i = true ∧
     name ∈ Service.Requires (get d1 i) ∧ ∃ n, services d !! n = Some i)) →
  exit_effect shutting d'.
Proof.
  intros Hq Hm Hrp Hst. destruct (recorded d pid id HI Hpid) as (s & c & Hs & _ & _ & Hc & _).
  pose proof (mark_exited_get (e_now e) pid id d s c id Hs Hc) as (Hid & _ & _ & _ & _ & Hpm & Hcl).
  rewrite decide_True in Hid by done. fold d1 in Hid, Hpm, Hcl.
  assert (Hdown : is_running d1 id = false) by (unfold is_running; by rewrite Hid). split.
  - by rewrite (calm_running _ _ id (q_calm _ _ Hq)).
  - unfold svc. rewrite (get_lookup _ _ _ Hs). unfold Service.Done. rewrite Hc. apply bool_decide_eq_true.
    by apply (c_sub _ _ (q_calm _ _ Hq)).
  - rewrite (c_pid _ _ (q_calm _ _ Hq)), Hpm. apply lookup_delete_eq.
  - exact Hm.
  - exact Hrp.
  - intros i. rewrite Hst, stops_dependents_failed. destruct (decide (i = id)) as [->|Hne].
    + rewrite Hdown. assert (is_stopped d1 id = is_stopped d id) as ->.
      { unfold is_stopped. by rewrite Hid, (get_lookup _ _ _ Hs). }
      clear. split; (intros [?|H]; [by left|destruct_and? H; done]).
    + pose proof (mark_exited_get (e_now e) pid id d s c i Hs Hc) as (Hi & _). rewrite decide_False in Hi by done.
      fold d1 in Hi. unfold is_stopped, is_running. rewrite Hi. clear -Hne. tauto.
Qed.

Lemma act_exit (d2 d' : daemon) consumed v :
  takeRestartPending name d1 = (consumed, d2) → shuttingDown d = false →
  act_on_exit e id code consumed d2 = Some (v, d') →
  exit_effect false d' ∧ v = verdict_for action id code (e_delay e).
Proof.
  intros Ht Hsd. destruct (take_spec d2 consumed Ht) as (-> & Hrp & Hm & Hsv & _ & Hget & Hq).
  destruct (recorded d pid id HI Hpid) as (s & c & Hs & _ & _ & Hc & _).
  pose proof (mark_exited_get (e_now e) pid id d s c id Hs Hc) as (Hid & _). rewrite decide_True in Hid by done.
  fold d1 in Hid. assert (Hsvc : svc = s) by (apply (get_lookup _ _ _ Hs)).
  intros Ha. pose proof (act_on_exit_quiet _ _ _ _ _ _ _ Ha) as Hq2. revert Ha. unfold act_on_exit.
  rewrite Hget, Hid. cbv zeta. change (exit_action (ended s) code) with (exit_action s code).
  change (stops_dependents (ended s) code) with (stops_dependents s code). change (Service.Name (ended s)) with (Service.Name s).
  assert (Hact : exit_action s code = action) by (unfold action; by rewrite Hsvc). rewrite Hact.
  assert (Hname : Service.Name s = name) by (unfold name; by rewrite Hsvc). rewrite Hname.
  set (o := if stops_dependents s code then _ else Some d2).
  assert (Ho : ∀ d3, o = Some d3 → m d3 = m d ∧ restartPending d3 = restartPending d ∖ {[name]} ∧
    ∀ i, is_stopped d3 i = true ↔ is_stopped d1 i = true ∨
      (stops_dependents svc code = true ∧ is_running d1 i = true ∧ name ∈ Service.Requires (get d1 i) ∧
       ∃ n, services d !! n = Some i)).
  { subst o. rewrite Hsvc. destruct (stops_dependents s code) eqn:Esd; intros d3.
    - destruct (iteration e (services d2)) as [l|] eqn:El; [|done]. intros [= <-].
      destruct (stop_dependents_keep (e_now e) name l d2) as [-> ->]. split_and!; [done..|]. intros i.
      rewrite stop_dependents_get, orb_true_iff, !andb_true_iff, bool_decide_eq_true.
      rewrite (existsb_iteration e (services d2) l i El), Hsv, Hget. unfold is_stopped, is_running. rewrite Hget. clear. tauto.
    - intros [= <-]. split_and!; [done..|]. intros i. unfold is_stopped. rewrite Hget. clear. intuition discriminate. }
  destruct o as [d3|]; [|done]. destruct (Ho d3 eq_refl) as (Hm3 & Hrp3 & Hst3). cbn [mbind option_bind].
  remember action as a eqn:Ea. intros Hd'.
  assert (m d' = (if negb false && bool_decide (a = Service.ActionRestart) then Metrics.ServiceRestarted (m d) name
             else if bool_decide (name ∈ restartPending d) then m d else Metrics.ServiceExited (m d) name code) ∧
          restartPending d' = restartPending d3 ∧ (∀ i, get d' i = get d3 i) ∧ v = verdict_for a id code (e_delay e))
    as (Hm' & Hr' & Hg & ->).
  { clear - Hd' Hm3. destruct a; [rewrite !bool_decide_true in * by done|rewrite !(bool_decide_false (_ = Service.ActionRestart)) in * by done..];
      cbn [negb andb] in *; rewrite ?andb_true_r, ?andb_false_r in Hd';
      injection Hd' as <- <-; destruct (bool_decide (name ∈ restartPending d)); cbn; rewrite ?Hm3; done. }
  split; [|done]. apply effect_intro; [by eapply quiet_trans|by rewrite <- Ea|congruence|].
  intros i. unfold is_stopped at 1. rewrite Hg. fold (is_stopped d3 i). rewrite Hst3. clear. tauto.
Qed.

(** C5: exit policy.  When the reap loop collects a managed child, it marks
    exactly that instance down, closes its done channel and forgets its pid;
    the metrics get one event (a restart, or an exit with the remapped code,
    which for a stopped service killed by a signal is 0; nothing for the exit
    half of a booked restart); during a shutdown nothing else happens and the
    loop ends with the last recorded pid; otherwise a failed long-running
    service stops exactly the running services that require it, and the
    verdict is the configured action: restart after the backoff delay,
    shutdown with the exit code, successful shutdown, or nothing.  A service
    that was stopped on request, a scheduled run and a successful oneshot are
    always ignored. *)
Theorem exit_policy v d' :
  reap_locked pid ws e d = Some (v, d') →
  reported svc (waitStatusCode ws) code ∧ configured svc code action ∧ exit_effect (shuttingDown d) d' ∧
  v = (if shuttingDown d then VShutting (negb (bool_decide (pidMap d' = ∅)))
       else verdict_for action id code (e_delay e)).
Proof.
  intros Hr. split; [apply effective_code_reported|]. split; [apply exit_action_configured|]. revert Hr.
  unfold reap_locked. rewrite Hpid. cbv zeta. fold d1.
  destruct (recorded d pid id HI Hpid) as (s & c & Hs & _ & _ & Hc & _).
  pose proof (mark_exited_get (e_now e) pid id d s c id Hs Hc) as (Hid & _). rewrite decide_True in Hid by done.
  fold d1 in Hid. rewrite Hid. assert (Hsvc : svc = s) by (apply (get_lookup _ _ _ Hs)).
  change (Service.Name (ended s)) with (Service.Name s).
  change (effective_code (ended s) (waitStatusCode ws)) with (effective_code s (waitStatusCode ws)).
  rewrite <- Hsvc. fold name code. destruct (takeRestartPending name d1) as [consumed d2] eqn:Ht.
  destruct (take_spec d2 consumed Ht) as (Hcon & Hrp & Hm & Hsv & Hsd & Hget & Hq). rewrite Hsd.
  destruct (shuttingDown d) eqn:E; [|by apply act_exit].
  intros [= <- <-]. split; [|by destruct consumed].
  apply effect_intro; [|rewrite Hcon; destruct consumed; cbn; by rewrite <- ?Hcon, Hm| |].
  - destruct consumed; [done|]. eapply quiet_trans; [exact Hq|inert].
  - by destruct consumed.
  - intros i. assert (is_stopped (if consumed then d2 else set_m (Metrics.ServiceExited (m d2) name code) d2) i = is_stopped d1 i) as ->.
    { unfold is_stopped. rewrite <- Hget. by destruct consumed. }
    clear. intuition discriminate.
Qed.
End exit.

(** [web] of the run of [DaemonTheorems] fails with code 3. *)
Definition demo_exit : option (verdict * daemon) :=
  reap_locked 101 (Exited 3) (demo_env 1 0 0 CReload Quiet) (st (demo_at demo_running)).

Lemma exit_policy_witness :
  ∃ v d', demo_exit = Some (v, d') ∧ v = VShutdown 3 ∧ is_running d' 0 = false.
Proof.
  assert (Hs : some demo_exit = true) by (vm_compute; reflexivity).
  destruct demo_exit as [[v d']|] eqn:E; [|done]. exists v, d'. split; [done|].
  destruct (exit_policy (demo_env 1 0 0 CReload Quiet) (st (demo_at demo_running)) 101 (Exited 3) 0) with (v := v) (d' := d')
    as (_ & _ & H1 & H2).
  - eapply reachable_Inv, demo_reachable. by vm_compute.
  - by vm_compute.
  - exact E.
  - split; [|exact (ee_down _ _ _ _ _ _ H1)]. clear H1. rewrite H2.
    assert (Hsd : shuttingDown (st (demo_at demo_running)) = false) by (vm_compute; reflexivity). rewrite Hsd.
    vm_compute. reflexivity.
Defined.

(** ** Dependents

    [closure_loop] is a breadth-first walk of the "is required by" edges. *)

Section closure.
Context (svcs : list Service.Service) (order : nat → list Service.Service) (name : string).
Hypothesis Horder : ∀ i, order i ≡ₚ svcs.

(** [b] requires [a]. *)
Definition requires_edge (a b : string) : Prop :=
  ∃ s, s ∈ svcs ∧ Service.Name s = b ∧ a ∈ Service.Requires s.

Lemma closure_round_spec (l : list Service.Service) cur : ∀ c a c' a',
  foldl (closure_step name cur) (c, a) l = (c', a') →
  ∃ new : list string, a' = a ++ new ∧ c' = c ∪ list_to_set new ∧ NoDup new ∧ (∀ x, x ∈ new → x ∉ c) ∧
    ∀ x, x ∈ c' ↔ x ∈ c ∨ (x ≠ name ∧ ∃ s, s ∈ l ∧ Service.Name s = x ∧ cur ∈ Service.Requires s).
Proof.
  induction l as [|s l IH]; intros c a c' a' H; cbn [foldl] in H.
  { injection H as <- <-. exists []. rewrite app_nil_r. split_and!; [done|set_solver|constructor|set_solver|].
    intros x. split; [by left|]. intros [?|(_ & s & Hs & _)]; [done|]. by apply not_elem_of_nil in Hs. }
  unfold closure_step at 2 in H. destruct (bool_decide _ && _ && _) eqn:E.
  - rewrite !andb_true_iff, !negb_true_iff, bool_decide_eq_true, !bool_decide_eq_false in E. destruct E as [[E1 E2] E3].
    apply IH in H as (new & -> & -> & Hnd & Hdis & Hx). exists (Service.Name s :: new). split_and!.
    + by rewrite <- app_assoc.
    + apply leibniz_equiv. set_solver.
    + constructor; [|done]. intros Hin. apply (Hdis _ Hin). set_solver.
    + intros x [->|Hin]%elem_of_cons; [done|]. pose proof (Hdis x Hin). set_solver.
    + intros x. rewrite Hx, elem_of_union, elem_of_singleton. split.
      * intros [[->|?]|(Hn & t & Ht & He & Hc)]; [right|by left|right].
        -- split; [done|]. exists s. split_and!; [apply elem_of_cons; by left|done..].
        -- split; [done|]. exists t. split_and!; [apply elem_of_cons; by right|done..].
      * intros [?|(Hn & t & [->|Ht]%elem_of_cons & He & Hc)]; [left; by right|left; left; done|right; eauto].
  - apply IH in H as (new & -> & -> & Hnd & Hdis & Hx). exists new. split_and!; [done..|].
    intros x. rewrite Hx. split.
    + intros [?|(Hn & t & Ht & He & Hc)]; [by left|right]. split; [done|]. exists t. split_and!; [apply elem_of_cons; by right|done..].
    + intros [?|(Hn & t & [->|Ht]%elem_of_cons & He & Hc)]; [by left| |right; eauto].
      left. destruct (decide (Service.Name s ∈ c)) as [Hin|Hnin]; [congruence|].
      rewrite !bool_decide_true, (bool_decide_false _ Hnin), bool_decide_false in E by congruence. done.
Qed.

Lemma size_names (l : list string) : size (list_to_set l : gset string) ≤ length l.
Proof.
  induction l as [|x l IH]; cbn [list_to_set length]; [by rewrite size_empty|].
  rewrite size_union_alt, size_singleton.
  assert (size (list_to_set l ∖ {[x]} : gset string) ≤ size (list_to_set l : gset string)) by (apply subseteq_size; set_solver). lia.
Qed.

(** What the walk maintains: the closure holds only transitive requirers, and
    everything one edge away from a name already taken off the frontier. *)
Record walk (closure : gset string) (frontier : list string) : Prop := {
  w_sound x : x ∈ closure → x ≠ name ∧ tc requires_edge name x;
  w_front x : x ∈ frontier → x = name ∨ x ∈ closure;
  w_done x y : x = name ∨ x ∈ closure → (x ∉ frontier) → requires_edge x y → y = name ∨ y ∈ closure;
}.

Definition left_names (closure : gset string) : gset string :=
  list_to_set (Service.Name <$> svcs) ∖ closure.

Lemma walk_round cur frontier closure closure' added i :
  walk closure (cur :: frontier) → closure_round (order i) name cur closure = (closure', added) →
  walk closure' (frontier ++ added) ∧ size (left_names closure') + length added = size (left_names closure).
Proof.
  intros W H. apply closure_round_spec in H as (new & Ha & Hc' & Hnd & Hdis & Hx). cbn [app] in Ha. subst added.
  assert (Hx' : ∀ x, x ∈ closure' ↔ x ∈ closure ∨ (x ≠ name ∧ requires_edge cur x)).
  { intros x. rewrite Hx. unfold requires_edge. setoid_rewrite (Horder i). done. }
  clear Hx. assert (Hcur : cur = name ∨ cur ∈ closure) by (apply (w_front _ _ W), elem_of_cons; by left).
  split; [split|].
  - intros x [Hin|[Hne He]]%Hx'; [by apply (w_sound _ _ W)|]. split; [done|].
    destruct Hcur as [->|Hc]; [by apply tc_once|]. eapply tc_r; [apply (w_sound _ _ W _ Hc)|done].
  - intros x [Hf|Hn]%elem_of_app.
    + destruct (w_front _ _ W x) as [?|?]; [apply elem_of_cons; by right|by left|right; apply Hx'; by left].
    + right. rewrite Hc'. set_solver.
  - intros x y Hxin Hnf He. destruct (decide (y = name)) as [->|Hy]; [by left|right]. apply Hx'.
    destruct (decide (x = cur)) as [->|Hxc]; [by right|]. left.
    destruct (w_done _ _ W x y) as [?|?]; [| |done..|done].
    + destruct Hxin as [?|Hin]; [by left|right]. rewrite Hc' in Hin. set_solver.
    + set_solver.
  - assert (left_names closure = left_names closure' ∪ list_to_set new) as ->.
    { apply leibniz_equiv. unfold left_names. rewrite Hc'. intros x. rewrite elem_of_union, !elem_of_difference, elem_of_union.
      split; [destruct (decide (x ∈ new)); set_solver|]. intros [?|Hn]; [set_solver|].
      assert (Hxn : x ∈ new) by set_solver. split; [|by apply Hdis].
      assert (Hxc : x ∈ closure') by (rewrite Hc'; set_solver). apply Hx' in Hxc as [?|(_ & s & Hs & <- & _)]; [by apply Hdis in Hxn|].
      apply elem_of_list_to_set, list_elem_of_fmap. eauto. }
    rewrite size_union, size_list_to_set by (try done; unfold left_names; rewrite Hc'; set_solver). done.
Qed.

Lemma walk_ends fuel : ∀ closure frontier,
  walk closure frontier → length frontier + size (left_names closure) ≤ fuel →
  ∃ c, closure_loop fuel order name closure frontier = Done c ∧ walk c [].
Proof.
  induction fuel as [|fuel IH]; intros closure frontier W Hf; destruct frontier as [|cur frontier]; cbn [length] in Hf;
    try lia; try (by exists closure).
  cbn [closure_loop]. destruct (closure_round (order fuel) name cur closure) as [closure' added] eqn:E.
  destruct (walk_round _ _ _ _ _ _ W E) as [W' Hsz]. apply IH; [done|]. rewrite length_app. lia.
Qed.

Lemma walk_start : walk ∅ [name].
Proof. split; [set_solver..|]. intros x y [->|?] Hn; set_solver. Qed.

(** C28: dependent closure.  However Go orders each [range] over the services,
    [dependentClosure] ends after at most one round per service and one for the
    start, and returns exactly the services that require [name], directly or
    through others, without [name] itself, also when the requirements form a
    cycle. *)
Theorem dependent_closure n :
  length svcs ≤ n →
  ∃ c, dependentClosure n order name = Done c ∧ ∀ x, x ∈ c ↔ x ≠ name ∧ tc requires_edge name x.
Proof.
  intros Hn. unfold dependentClosure.
  destruct (walk_ends (S n) ∅ [name] walk_start) as (c & Hc & W).
  { cbn [length]. unfold left_names. rewrite difference_empty_L.
    pose proof (size_names (Service.Name <$> svcs)) as Hs. rewrite length_fmap in Hs. lia. }
  exists c. split; [done|]. intros x. split; [apply W|]. intros [Hne Ht].
  assert (Hin : ∀ y, tc requires_edge name y → y = name ∨ y ∈ c).
  { apply tc_ind_r.
    - intros y He. apply (w_done _ _ W name); [by left|by apply not_elem_of_nil|done].
    - intros y z _ He IH. eapply (w_done _ _ W y); [done|by apply not_elem_of_nil|done]. }
  destruct (Hin x Ht); done.
Qed.
End closure.

(** [api] requires [db], [web] requires [api]: both follow [db]. *)
Definition demo_service (n : string) (req : list string) : Service.Service :=
  match Service.New (named_process n req) "" with Ok s => s | Err _ => zero_service end.

Definition demo_chain : list Service.Service :=
  [demo_service "web" ["api"]; demo_service "api" ["db"]; demo_service "db" ["web"]].

Lemma dependent_closure_witness :
  ∃ c, dependentClosure 3 (λ i, if Nat.even i then demo_chain else reverse demo_chain) "db" = Done c ∧ "web" ∈ c.
Proof.
  destruct (dependent_closure demo_chain (λ i, if Nat.even i then demo_chain else reverse demo_chain) "db") with (n := 3)
    as (c & Hc & Hx).
  - intros i. destruct (Nat.even i); [done|]. apply reverse_Permutation.
  - by vm_compute.
  - exists c. split; [exact Hc|]. apply Hx. split; [done|]. apply tc_l with "api"; [|apply tc_once].
    + exists (demo_service "api" ["db"]). split_and!; [apply elem_of_cons; right; apply elem_of_cons; by left|done|].
      refine (proj1 (bool_decide_eq_true _) _). vm_compute. reflexivity.
    + exists (demo_service "web" ["api"]). split_and!; [apply elem_of_cons; by left|done|].
      refine (proj1 (bool_decide_eq_true _) _). vm_compute. reflexivity.
Defined.

End DaemonPolicy.
