(* ===== verification/DaemonReload.v ===== *)
(** * Reload

    What a reload does to the services: which instances it keeps, stops, builds
    and forgets, and that a refused one changes nothing. *)

From S2P Require Import Prelude GoStrings GoTime Order Metrics Reaper Check Service Conc DaemonState Daemon DaemonSafety DaemonTheorems.

Open Scope string_scope.
Open Scope list_scope.
Open Scope nat_scope.

Module DaemonReload.
Import Conc DaemonState Daemon DaemonSafety DaemonTheorems.

(** ** Single steps, by what they do to the heap *)

(** An instance the reload stops: its exit is ignored and, if it runs, it gets
    the stop signal. *)
Definition retired (now : Z) (s : Service.Service) : Service.Service :=
  (Service.Stop (Service.set_exit_actions Service.ActionIgnore Service.ActionIgnore s) now).1.

Lemma retired_idle now s : Service.running s = false →
  retired now s = Service.set_exit_actions Service.ActionIgnore Service.ActionIgnore s.
Proof. intros H. unfold retired, Service.Stop. cbn. by rewrite H. Qed.

Lemma elem_snd {A B} (a : A) (b : B) (l : list (A * B)) : (a, b) ∈ l → b ∈ l.*2.
Proof. intros H. apply list_elem_of_fmap. by exists (a, b). Qed.

Lemma elem_fst {A B} (a : A) (b : B) (l : list (A * B)) : (a, b) ∈ l → a ∈ l.*1.
Proof. intros H. apply list_elem_of_fmap. by exists (a, b). Qed.

Lemma put_heap id s s' d : heap d !! id = Some s → heap (put id s' d) = <[id := s']> (heap d).
Proof.
  intros H. unfold put. cbn. rewrite <- (insert_id (heap d) id s H) at 1. by rewrite alter_insert_eq.
Qed.

Lemma stop_service_heap now id d s : heap d !! id = Some s →
  heap (stop_service now id d) = <[id := (Service.Stop s now).1]> (heap d).
Proof.
  intros H. unfold stop_service. rewrite (get_lookup d id s H). destruct (Service.Stop s now) as [s' ks].
  by apply (put_heap id s s').
Qed.

Lemma stop_service_services now id d : services (stop_service now id d) = services d.
Proof. unfold stop_service. by destruct (Service.Stop _ _). Qed.

Lemma ignore_heap id d s : heap d !! id = Some s →
  heap (ignore_exits id d) = <[id := Service.set_exit_actions Service.ActionIgnore Service.ActionIgnore s]> (heap d).
Proof. intros H. unfold ignore_exits. rewrite (get_lookup d id s H). by apply (put_heap id s). Qed.

Lemma retire_heap now id d s : heap d !! id = Some s →
  heap (stop_service now id (ignore_exits id d)) = <[id := retired now s]> (heap d).
Proof.
  intros H. erewrite stop_service_heap; [|rewrite (ignore_heap id d s H); apply lookup_insert_eq].
  rewrite (ignore_heap id d s H). apply insert_insert_eq.
Qed.

(** ** Services that left the configuration *)

Lemma remove_one_heap now names d n id s : heap d !! id = Some s →
  heap (remove_one now names d (n, id)) =
  if bool_decide (n ∈ names) then heap d else <[id := retired now s]> (heap d).
Proof.
  intros H. unfold remove_one. cbn [fst snd]. case_bool_decide; [done|]. cbv zeta. cbn [heap set_services].
  destruct (Service.IsRunning _) eqn:Hr; [by apply retire_heap|].
  rewrite (ignore_heap id d s H), retired_idle; [done|].
  unfold get in Hr. rewrite (ignore_heap id d s H), lookup_insert_eq in Hr. exact Hr.
Qed.

(** What the rest of the reload reads. *)
Definition same_setup (d d' : daemon) : Prop :=
  nextId d' = nextId d ∧ entrypointArgs d' = entrypointArgs d ∧ controlSocket d' = controlSocket d.

Lemma remove_one_setup now names d ni : same_setup d (remove_one now names d ni).
Proof.
  unfold remove_one. case_bool_decide; [done|]. cbv zeta. destruct (Service.IsRunning _); [|done].
  unfold stop_service. by destruct (Service.Stop _ _).
Qed.

Lemma remove_services_heap now names l : ∀ d,
  NoDup l.*2 → (∀ n id, (n, id) ∈ l → is_Some (heap d !! id)) →
  same_setup d (remove_services now names l d) ∧
  (∀ id, id ∉ l.*2 → heap (remove_services now names l d) !! id = heap d !! id) ∧
  (∀ n id, (n, id) ∈ l → heap (remove_services now names l d) !! id =
     if bool_decide (n ∈ names) then heap d !! id else retired now <$> heap d !! id).
Proof.
  induction l as [|[n id] l IH]; intros d Hnd Hl.
  { split_and!; [done|done|]. by intros n id ?%not_elem_of_nil. }
  apply NoDup_cons in Hnd as [Hid Hnd]. cbn [snd] in Hid. cbn [remove_services foldl].
  destruct (Hl n id) as [s Hs]; [apply elem_of_cons; by left|].
  pose proof (remove_one_heap now names d n id s Hs) as Hh. pose proof (remove_one_setup now names d (n, id)) as Hset.
  set (d1 := remove_one now names d (n, id)) in *. clearbody d1.
  assert (Hother : ∀ i, i ≠ id → heap d1 !! i = heap d !! i).
  { intros i Hi. rewrite Hh. case_bool_decide; [done|]. by rewrite lookup_insert_ne. }
  destruct (IH d1 Hnd) as (Hset' & Hf & Hx).
  { intros x i Hin. rewrite Hother; [apply (Hl x), elem_of_cons; by right|]. intros ->. apply Hid.
    by eapply elem_snd. }
  unfold remove_services in *. split_and!.
  - unfold same_setup in *. destruct Hset as (? & ? & ?), Hset' as (? & ? & ?). split_and!; congruence.
  - intros i Hi. cbn in Hi. apply not_elem_of_cons in Hi as [Hi1 Hi2]. rewrite Hf by done. by apply Hother.
  - intros x i [[= -> ->]|Hin]%elem_of_cons.
    + rewrite Hf, Hh by done. case_bool_decide; [done|]. by rewrite lookup_insert_eq, Hs.
    + rewrite (Hx x i Hin), Hother; [done|]. intros ->. apply Hid. by eapply elem_snd.
Qed.

(** ** New instances *)

(** [s] is the instance [buildServices] makes for [p]. *)
Definition built (d : daemon) (p : Service.Process) (s : Service.Service) : Prop :=
  ∃ s0, Service.New (effective_process d p) (Prefix (cfg d)) = Ok s0 ∧
        s = Service.set_ControlSocket (if bool_decide (controlSocket d = "") then DefaultSocketPath else controlSocket d) s0.

Lemma built_facts d p s : built d p s →
  Service.Name s = Service.process_name p ∧ Service.running s = false ∧ Service.Proc s = effective_process d p.
Proof.
  intros (s0 & H & ->). apply Service.New_idle in H as (Hn & Hr & _ & _ & Hp). cbn. split_and!; [|done..].
  rewrite Hn. unfold effective_process. cbv zeta. repeat case_match; reflexivity.
Qed.

Lemma build_service_spec d p d' : build_service d p = Ok d' →
  ∃ s, built d p s ∧ heap d' = <[nextId d := s]> (heap d) ∧ services d' = <[Service.process_name p := nextId d]> (services d) ∧
       nextId d' = S (nextId d) ∧ cfg d' = cfg d ∧ entrypointArgs d' = entrypointArgs d ∧ controlSocket d' = controlSocket d.
Proof.
  unfold build_service. cbv zeta. destruct (Service.New _ _) as [s0|] eqn:En; [|done]. cbn [mbind result_bind]. intros [= <-].
  eexists. split; [by exists s0|]. set (s := Service.set_ControlSocket _ _).
  assert (Hb : built d p s) by (by exists s0). destruct (built_facts d p s Hb) as [Hn _].
  split_and!; try done. transitivity (<[Service.Name s := nextId d]> (services d)); [done|by rewrite Hn].
Qed.

Lemma built_ext d d' p s :
  cfg d' = cfg d → entrypointArgs d' = entrypointArgs d → controlSocket d' = controlSocket d → built d' p s → built d p s.
Proof. intros Hc He Hs (s0 & H & ->). exists s0. unfold effective_process in *. by rewrite <- Hc, <- He, <- Hs. Qed.

(** Every process gets a fresh instance under its name; nothing else changes. *)
Lemma build_loop_spec ps : ∀ d,
  (build_loop ps d).1 = None → NoDup (Service.process_name <$> ps) →
  let d' := (build_loop ps d).2 in
  (∀ n, n ∉ Service.process_name <$> ps → services d' !! n = services d !! n) ∧
  (∀ id, id < nextId d → heap d' !! id = heap d !! id) ∧
  (∀ p, p ∈ ps → ∃ id s, services d' !! Service.process_name p = Some id ∧ nextId d ≤ id ∧ heap d' !! id = Some s ∧ built d p s).
Proof.
  induction ps as [|p ps IH]; intros d Hok Hnd; cbn [build_loop] in *.
  { split_and!; [done|done|]. by intros p ?%not_elem_of_nil. }
  destruct (build_service d p) as [d1|err] eqn:Eb; [|done].
  destruct (build_service_spec d p d1 Eb) as (s & Hb & Hh & Hsv & Hid & Hc & He & Hs).
  apply NoDup_cons in Hnd as [Hp Hnd]. destruct (IH d1 Hok Hnd) as (H1 & H2 & H3). cbn zeta in *. split_and!.
  - intros n Hn. cbn [fmap list_fmap] in Hn. rewrite not_elem_of_cons in Hn. rewrite H1 by tauto. rewrite Hsv.
    by rewrite lookup_insert_ne by (intros <-; tauto).
  - intros id Hlt. rewrite H2 by lia. rewrite Hh. by rewrite lookup_insert_ne by lia.
  - intros q [->|Hq]%elem_of_cons.
    + exists (nextId d), s. split_and!; [|done| |done].
      * rewrite H1 by done. by rewrite Hsv, lookup_insert_eq.
      * rewrite H2 by lia. by rewrite Hh, lookup_insert_eq.
    + destruct (H3 q Hq) as (id & t & ? & ? & ? & Hbt). exists id, t. split_and!; [done|lia|done|].
      by apply (built_ext d d1).
Qed.

(** ** Reconciling *)

(** What became of the old instance [id] of [n], whose new one is [nid]. *)
Definition outcome (now : Z) (d : daemon) (n : string) (id : nat) (waits : list (option nat)) (d' : daemon) : Prop :=
  match services d !! n with
  | None => services d' !! n = None ∧ heap d' !! id = heap d !! id
  | Some nid =>
      let old := get d id in
      if Service.running old then
        if processConfigChanged (Service.Proc old) (Service.Proc (get d nid))
        then services d' !! n = Some nid ∧ heap d' !! id = Some (retired now old) ∧ Service.Done old ∈ waits
        else services d' !! n = Some id ∧ heap d' !! id = Some (adopt_policy old (get d nid))
      else services d' !! n = Some nid ∧ heap d' !! id = heap d !! id
  end.

(** Reconciling keeps a name served if it was, and by the new instance if the
    old one was idle. *)
Lemma outcome_present now d n id waits d' : outcome now d n id waits d' → is_Some (services d' !! n) ↔ is_Some (services d !! n).
Proof.
  unfold outcome. destruct (services d !! n); [|by intros [-> _]].
  cbv zeta. destruct (Service.running _); [destruct (processConfigChanged _ _)|]; intros [-> _]; split; eauto.
Qed.

Lemma outcome_idle now d n id waits d' : outcome now d n id waits d' → Service.running (get d id) = false → services d' !! n = services d !! n.
Proof. unfold outcome. destruct (services d !! n); [|by intros [? _]]. cbv zeta. intros H Hr. rewrite Hr in H. by destruct H. Qed.

Lemma reconcile_one_spec now waits d n id :
  is_Some (heap d !! id) →
  let r := reconcile_one now (waits, d) (n, id) in
  outcome now d n id r.1 r.2 ∧ (∃ ws, r.1 = waits ++ ws) ∧
  (∀ i, i ≠ id → heap r.2 !! i = heap d !! i) ∧ (∀ x, x ≠ n → services r.2 !! x = services d !! x) ∧
  (∀ nid, services r.2 !! n = Some nid → nid = id ∨ services d !! n = Some nid).
Proof.
  intros [s Hs]. unfold reconcile_one, outcome. cbn [fst snd]. rewrite (get_lookup d id s Hs). cbv zeta.
  destruct (services d !! n) as [nid|] eqn:En; cbn [fst snd].
  2:{ split_and!; try done; [exists []; by rewrite app_nil_r|naive_solver]. }
  unfold Service.IsRunning. destruct (Service.running s) eqn:Hr; cbn [andb fst snd].
  2:{ split_and!; try done; [exists []; by rewrite app_nil_r|naive_solver]. }
  destruct (processConfigChanged _ _); cbn [negb fst snd].
  - rewrite stop_service_services, (retire_heap now id d s Hs). cbn [services ignore_exits put set_heap].
    split_and!; [done|by rewrite lookup_insert_eq|set_solver|by eexists| |done|naive_solver].
    intros i Hi. by rewrite lookup_insert_ne.
  - cbn [services set_services heap]. rewrite (put_heap id s _ d Hs).
    split_and!; [by rewrite lookup_insert_eq|by rewrite lookup_insert_eq|exists []; by rewrite app_nil_r| | |].
    + intros i Hi. by rewrite lookup_insert_ne.
    + intros x Hx. by rewrite lookup_insert_ne.
    + intros x. rewrite lookup_insert_eq. intros [= <-]. by left.
Qed.

Lemma get_heap d d' id : heap d' !! id = heap d !! id → get d' id = get d id.
Proof. unfold get. by intros ->. Qed.

Lemma outcome_ext now d d1 n id waits waits' d' :
  services d1 !! n = services d !! n → heap d1 !! id = heap d !! id →
  (∀ nid, services d !! n = Some nid → heap d1 !! nid = heap d !! nid) → (∀ w, w ∈ waits → w ∈ waits') →
  outcome now d1 n id waits d' → outcome now d n id waits' d'.
Proof.
  unfold outcome. intros -> Hid Hnid Hw. destruct (services d !! n) as [nid|]; [|by rewrite Hid].
  cbv zeta. rewrite (get_heap _ _ _ Hid), (get_heap _ _ _ (Hnid nid eq_refl)), Hid.
  destruct (Service.running _); [|done]. destruct (processConfigChanged _ _); [|done]. naive_solver.
Qed.

Lemma reconcile_spec now l : ∀ waits d,
  NoDup l.*1 → NoDup l.*2 → (∀ n id, (n, id) ∈ l → is_Some (heap d !! id)) →
  (∀ n nid, n ∈ l.*1 → services d !! n = Some nid → nid ∉ l.*2) →
  let r := foldl (reconcile_one now) (waits, d) l in
  (∃ ws, r.1 = waits ++ ws) ∧
  (∀ id, id ∉ l.*2 → heap r.2 !! id = heap d !! id) ∧ (∀ n, n ∉ l.*1 → services r.2 !! n = services d !! n) ∧
  (∀ n id, (n, id) ∈ l → outcome now d n id r.1 r.2).
Proof.
  induction l as [|[n id] l IH]; intros waits d Hn Hi Hl Hnew; cbn [foldl].
  { split_and!; [exists []; by rewrite app_nil_r|done..|]. by intros ? ? ?%not_elem_of_nil. }
  apply NoDup_cons in Hn as [Hnl Hn]. apply NoDup_cons in Hi as [Hil Hi]. cbn [fmap list_fmap fst snd] in *.
  assert (Hs : is_Some (heap d !! id)) by (apply (Hl n), elem_of_cons; by left).
  destruct (reconcile_one_spec now waits d n id Hs) as (Ho & [ws Hws] & Hh & Hsv & Hsn). cbn zeta in *.
  destruct (reconcile_one now (waits, d) (n, id)) as [waits1 d1]. cbn [fst snd] in *.
  assert (Hne : ∀ i, i ∈ l.*2 → i ≠ id) by (intros i ? ->; done).
  assert (Hnn : ∀ x, x ∈ l.*1 → x ≠ n) by (intros x ? ->; done).
  destruct (IH waits1 d1 Hn Hi) as ([ws' Hws'] & H1 & H2 & H3).
  { intros x i Hin. rewrite Hh by (apply Hne; by eapply elem_snd). apply (Hl x), elem_of_cons. by right. }
  { intros x nid Hx. rewrite Hsv by (by apply Hnn). intros Hnid Hin. eapply Hnew; [|exact Hnid|].
    - apply elem_of_cons. by right.
    - apply elem_of_cons. by right. }
  cbn zeta in *. split_and!.
  - exists (ws ++ ws'). by rewrite Hws', Hws, app_assoc.
  - intros i Hx. rewrite not_elem_of_cons in Hx. rewrite H1 by tauto. apply Hh. tauto.
  - intros x Hx. rewrite not_elem_of_cons in Hx. rewrite H2 by tauto. apply Hsv. tauto.
  - intros x i [[= -> ->]|Hin]%elem_of_cons.
    + revert Ho. unfold outcome. rewrite H2, H1 by done. destruct (services d !! n); [|done]. cbv zeta.
      destruct (Service.running _); [|done]. destruct (processConfigChanged _ _); [|done]. rewrite Hws'. set_solver.
    + eapply outcome_ext; [..|exact (H3 x i Hin)]; [apply Hsv, Hnn; by eapply elem_fst|apply Hh, Hne; by eapply elem_snd| |done].
      intros nid Hnid. apply Hh. intros ->. eapply Hnew; [|exact Hnid|].
      * apply elem_of_cons. right. by eapply elem_fst.
      * apply elem_of_cons. by left.
Qed.

Lemma iteration_names e svcs l : iteration e svcs = Some l → l.*1 = e_order e ∧ NoDup l.*1.
Proof.
  unfold iteration. destruct (_ && _) eqn:E; [|done]. intros [= <-].
  apply andb_true_iff in E as [Hnd%bool_decide_eq_true Hdom%bool_decide_eq_true].
  assert (Hx : (omap (λ n, (λ id, (n, id)) <$> svcs !! n) (e_order e)).*1 = e_order e); [|by rewrite Hx].
  assert (Hin : ∀ n, n ∈ e_order e → is_Some (svcs !! n)) by (intros n Hn; apply elem_of_dom; rewrite <- Hdom; set_solver).
  clear -Hin. induction (e_order e) as [|n ns IH]; [done|]. cbn [omap list_omap].
  destruct (Hin n) as [id Hid]; [apply elem_of_cons; by left|]. rewrite Hid. cbn. f_equal.
  apply IH. intros x Hx. apply Hin, elem_of_cons. by right.
Qed.

Lemma iteration_ids e d l : Inv d → iteration e (services d) = Some l → NoDup l.*2.
Proof.
  intros HI H. destruct (iteration_names _ _ _ H) as [_ Hnd]. apply NoDup_fmap_1 in Hnd.
  apply NoDup_fmap_2_strong; [|done]. intros [n i] [n' i'] H1 H2 E. cbn in E. subst i'.
  apply (iteration_spec e _ _ _ _ H) in H1, H2.
  destruct (so_heap _ (i_services _ HI) _ _ H1) as (s & Hs & <-), (so_heap _ (i_services _ HI) _ _ H2) as (s' & Hs' & <-).
  congruence.
Qed.

(** ** The whole section *)

Record reloaded (c : Config) (l : list string) (now : Z) (d : daemon) (waits : list (option nat)) (d' : daemon) : Prop := {
  rl_names : dom (services d') = list_to_set (Service.process_name <$> Processes c);
  rl_config : cfg d' = c ∧ shutdownSeq d' = l ∧ shutdownMode d' = ShutdownOrder c;
  (* an instance that left the configuration *)
  rl_removed n id s : services d !! n = Some id → heap d !! id = Some s → n ∉ Service.process_name <$> Processes c →
    heap d' !! id = Some (retired now s);
  (* a running instance of a process that stays: replaced and stopped when the
     process changed, kept with the new policy otherwise *)
  rl_running p id s : p ∈ Processes c → services d !! Service.process_name p = Some id → heap d !! id = Some s →
    Service.running s = true →
    if processConfigChanged (Service.Proc s) (effective_process d' p)
    then heap d' !! id = Some (retired now s) ∧ Service.Done s ∈ waits ∧
         ∃ nid s', services d' !! Service.process_name p = Some nid ∧ nextId d ≤ nid ∧ heap d' !! nid = Some s' ∧ built d' p s'
    else services d' !! Service.process_name p = Some id ∧
         ∃ new, built d' p new ∧ heap d' !! id = Some (adopt_policy s new);
  (* every other process gets a new instance *)
  rl_new p : p ∈ Processes c → (∀ id, services d !! Service.process_name p = Some id → is_running d id = false) →
    ∃ nid s', services d' !! Service.process_name p = Some nid ∧ nextId d ≤ nid ∧ heap d' !! nid = Some s' ∧ built d' p s';
}.

Lemma reconcile_setup now l : ∀ waits d, same_setup d (foldl (reconcile_one now) (waits, d) l).2.
Proof.
  induction l as [|[n id] l IH]; intros waits d; [done|]. cbn [foldl].
  assert (H : same_setup d (reconcile_one now (waits, d) (n, id)).2).
  { unfold reconcile_one. cbn [fst snd]. destruct (services d !! n); [|done]. destruct (_ && _); [done|].
    destruct (Service.IsRunning _); [|done]. cbn [snd]. unfold stop_service. by destruct (Service.Stop _ _). }
  destruct (reconcile_one now (waits, d) (n, id)) as [waits1 d1]. cbn [snd] in H.
  destruct (IH waits1 d1) as (? & ? & ?), H as (? & ? & ?). unfold same_setup. split_and!; congruence.
Qed.

Section locked.
Context (c : Config) (l : list string) (e : env) (d : daemon) (it : list (string * nat)).
Context (HI : Inv d) (Hv : reload_validate c = Ok l) (Hit : iteration e (services d) = Some it).

Let names : list string := Service.process_name <$> Processes c.

Lemma valid_names : NoDup names.
Proof.
  destruct (reload_validate_order c l Hv) as [Ho _]. apply Order.toposort_order in Ho as (Hnd & _).
  unfold buildOrderServices in Hnd. rewrite <- list_fmap_compose in Hnd. exact Hnd.
Qed.

(** The state after the new services are built and before old ones come back. *)
Record rebuilt (d4 : daemon) : Prop := {
  rb_cfg : cfg d4 = c;
  rb_setup : entrypointArgs d4 = entrypointArgs d ∧ controlSocket d4 = controlSocket d;
  rb_new p : p ∈ Processes c → ∃ nid s, services d4 !! Service.process_name p = Some nid ∧ nextId d ≤ nid ∧
    heap d4 !! nid = Some s ∧ built d4 p s;
  rb_only n : n ∉ names → services d4 !! n = None;
  rb_old n id s : services d !! n = Some id → heap d !! id = Some s →
    heap d4 !! id = Some (if bool_decide (n ∈ names) then s else retired (e_now e) s);
}.

Lemma rebuild d2 :
  d2 = set_services ∅ (set_cfg c (stopSchedulers (stopChecks (remove_services (e_now e) (list_to_set names) it d)))) →
  (build_loop (Processes c) d2).1 = None ∧ rebuilt (build_loop (Processes c) d2).2.
Proof.
  intros E. destruct (reload_validate_order c l Hv) as [_ Hnew].
  assert (Hok : (build_loop (Processes c) d2).1 = None) by (apply build_loop_total; intros p Hp; destruct (Hnew p Hp); eauto).
  split; [done|]. destruct (build_loop_spec (Processes c) d2 Hok valid_names) as (H1 & H2 & H3). cbn zeta in *.
  assert (Hl : ∀ n id, (n, id) ∈ it → is_Some (heap d !! id)).
  { intros n id Hin. apply (iteration_spec e _ _ _ _ Hit) in Hin. destruct (so_heap _ (i_services _ HI) _ _ Hin) as (s & Hs & _). eauto. }
  destruct (remove_services_heap (e_now e) (list_to_set names) it d (iteration_ids e d it HI Hit) Hl) as ((Hid & He & Hcs) & _ & Hrm).
  set (d1 := remove_services _ _ it d) in *.
  assert (Hf : heap d2 = heap d1 ∧ nextId d2 = nextId d1 ∧ cfg d2 = c ∧ entrypointArgs d2 = entrypointArgs d1 ∧
    controlSocket d2 = controlSocket d1 ∧ services d2 = ∅) by (by subst d2). destruct Hf as (Eh & En & Ec & Ea & Es & Ev).
  assert (Hset : ∀ ps d0, entrypointArgs (build_loop ps d0).2 = entrypointArgs d0 ∧ controlSocket (build_loop ps d0).2 = controlSocket d0).
  { clear. induction ps as [|p ps IH]; intros d0; [done|]. cbn [build_loop]. destruct (build_service d0 p) as [d1|] eqn:E; [|done].
    destruct (build_service_spec d0 p d1 E) as (_ & _ & _ & _ & _ & _ & He & Hs). destruct (IH d1). split; congruence. }
  destruct (Hset (Processes c) d2) as [Ha3 Hs3]. pose proof (build_loop_cfg (Processes c) d2) as Hc3.
  set (d3 := (build_loop (Processes c) d2).2) in *. split.
  - congruence.
  - split; congruence.
  - intros p Hp. destruct (H3 p Hp) as (nid & s & ? & ? & ? & Hb). exists nid, s. split_and!; [done|lia|done|].
    apply (built_ext d3 d2); congruence.
  - intros n Hn. rewrite (H1 n Hn), Ev. apply lookup_empty.
  - intros n id s Hn Hs. rewrite H2 by (rewrite En, Hid; by apply (i_alloc _ HI id s)). rewrite Eh.
    rewrite (Hrm n id) by (by apply (iteration_spec e _ _ _ _ Hit)). rewrite Hs.
    rewrite (bool_decide_ext (n ∈ list_to_set names) (n ∈ names)) by apply elem_of_list_to_set. by case_bool_decide.
Qed.

Lemma unregister_same d3 :
  let d4 := foldl (λ d ni, match services d !! ni.1 with Some _ => d | None => set_m (Metrics.UnregisterService (m d) ni.1) d end) d3 it in
  heap d4 = heap d3 ∧ services d4 = services d3 ∧ cfg d4 = cfg d3 ∧ nextId d4 = nextId d3 ∧
  entrypointArgs d4 = entrypointArgs d3 ∧ controlSocket d4 = controlSocket d3.
Proof.
  clear. revert d3. induction it as [|[n i] k IH]; intros d3; [done|]. cbn [foldl fst].
  destruct (services d3 !! n); [apply IH|]. apply (IH (set_m (Metrics.UnregisterService (m d3) n) d3)).
Qed.
Lemma rebuilt_ids d4 n nid : rebuilt d4 → services d4 !! n = Some nid → nextId d ≤ nid.
Proof.
  intros H Hn. destruct (decide (n ∈ names)) as [Hin|Hni]; [|by rewrite (rb_only _ H n Hni) in Hn].
  apply list_elem_of_fmap in Hin as (p & -> & Hp). destruct (rb_new _ H p Hp) as (nid' & s & Hs & ? & _). congruence.
Qed.

Lemma old_ids id : id ∈ it.*2 → id < nextId d.
Proof.
  intros ([n i] & -> & Hin)%list_elem_of_fmap. apply (iteration_spec e _ _ _ _ Hit) in Hin.
  destruct (so_heap _ (i_services _ HI) _ _ Hin) as (s & Hs & _). by apply (i_alloc _ HI _ s).
Qed.

(** What reconciling makes of the old names, the new ones and the new instances. *)
Lemma reconciled d4 : rebuilt d4 →
  let r := foldl (reconcile_one (e_now e)) ([], d4) it in
  (∀ n id, services d !! n = Some id → outcome (e_now e) d4 n id r.1 r.2) ∧
  (∀ n, services d !! n = None → services r.2 !! n = services d4 !! n) ∧
  (∀ id, nextId d ≤ id → heap r.2 !! id = heap d4 !! id).
Proof.
  intros H r. destruct (reconcile_spec (e_now e) it [] d4) as (_ & Hfr & Hfs & Hout).
  { apply (iteration_names _ _ _ Hit). }
  { by eapply iteration_ids. }
  { intros n id Hin%(iteration_spec e _ _ _ _ Hit). destruct (so_heap _ (i_services _ HI) _ _ Hin) as (s & Hs & _).
    rewrite (rb_old _ H n id s Hin Hs). eauto. }
  { intros n nid _ Hn Hin%old_ids. pose proof (rebuilt_ids d4 n nid H Hn). lia. }
  split_and!.
  - intros n id Hn. by apply Hout, (iteration_spec e _ _ _ _ Hit).
  - intros n Hn. apply Hfs. intros ([x i] & -> & Hin)%list_elem_of_fmap. apply (iteration_spec e _ _ _ _ Hit) in Hin. cbn in Hn. congruence.
  - intros id Hid. apply Hfr. intros Hin%old_ids. lia.
Qed.

Lemma locked_done d4 : rebuilt d4 →
  let r := foldl (reconcile_one (e_now e)) ([], d4) it in
  reloaded c l (e_now e) d r.1 (set_shutdownMode (ShutdownOrder c) (set_shutdownSeq l r.2)).
Proof.
  intros H. pose proof (reconcile_setup (e_now e) it [] d4) as (Hnid & Hargs & Hsock).
  pose proof (reconcile_cfg (e_now e) it [] d4) as Hcfg. destruct (reconciled d4 H) as (Hnew & Hfs & Hfr).
  cbn zeta in *. destruct (foldl (reconcile_one (e_now e)) ([], d4) it) as [waits d5]. cbn [fst snd] in *.
  set (d' := set_shutdownMode _ _).
  assert (Hb : ∀ p s, built d4 p s → built d' p s).
  { intros p s. apply built_ext; unfold d'; cbn; congruence. }
  assert (Hfresh : ∀ p, p ∈ Processes c → services d5 !! Service.process_name p = services d4 !! Service.process_name p →
    ∃ nid s', services d' !! Service.process_name p = Some nid ∧ nextId d ≤ nid ∧ heap d' !! nid = Some s' ∧ built d' p s').
  { intros p Hp E. destruct (rb_new _ H p Hp) as (nid & s' & Hs & Hle & Hh & Hbt). exists nid, s'. split_and!; auto.
    - unfold d'. cbn. by rewrite E.
    - unfold d'. cbn. by rewrite Hfr. }
  split.
  - apply set_eq. intros n. rewrite elem_of_dom, elem_of_list_to_set. change (services d') with (services d5).
    assert (is_Some (services d5 !! n) ↔ is_Some (services d4 !! n)) as ->.
    { destruct (services d !! n) as [id|] eqn:En; [|by rewrite Hfs by auto]. by eapply outcome_present, Hnew. }
    fold names. destruct (decide (n ∈ names)) as [Hin|Hni]; [|rewrite (rb_only _ H n Hni); split; [by intros [? ?]|done]].
    split; [done|]. intros _. apply list_elem_of_fmap in Hin as (p & -> & Hp).
    destruct (rb_new _ H p Hp) as (nid & s' & -> & _). eauto.
  - split_and!; [|done..]. unfold d'. cbn. rewrite Hcfg. apply (rb_cfg _ H).
  - intros n id s Hn Hs Hni. pose proof (Hnew n id Hn) as Ho. unfold outcome in Ho. rewrite (rb_only _ H n Hni) in Ho.
    destruct Ho as [_ Ho]. unfold d'. cbn. rewrite Ho, (rb_old _ H n id s Hn Hs). by rewrite bool_decide_false.
  - intros p id s Hp Hn Hs Hr. pose proof (Hnew _ id Hn) as Ho. unfold outcome in Ho.
    destruct (rb_new _ H p Hp) as (nid & s' & Hs' & Hle & Hh & Hbt). rewrite Hs' in Ho. cbv zeta in Ho.
    assert (Hin : Service.process_name p ∈ names) by (apply list_elem_of_fmap; eauto).
    pose proof (rb_old _ H _ id s Hn Hs) as Hold. rewrite bool_decide_true in Hold by done.
    rewrite (get_lookup _ _ _ Hold), (get_lookup _ _ _ Hh), Hr in Ho.
    destruct (built_facts _ _ _ (Hb _ _ Hbt)) as (_ & _ & Hproc). rewrite <- Hproc.
    destruct (processConfigChanged _ _).
    + destruct Ho as (H1 & H2 & H3). split_and!; [done..|]. apply Hfresh; [done|congruence].
    + destruct Ho as [H1 H2]. split; [done|]. exists s'. split; [by apply Hb|done].
  - intros p Hp Hidle. apply Hfresh; [done|]. destruct (services d !! Service.process_name p) as [id|] eqn:En; [|by rewrite Hfs by auto].
    apply (outcome_idle _ _ _ id _ _ (Hnew _ id En)). destruct (so_heap _ (i_services _ HI) _ _ En) as (s & Hs & _).
    rewrite (get_lookup _ _ _ (rb_old _ H _ id s En Hs)), bool_decide_true by (apply list_elem_of_fmap; eauto).
    specialize (Hidle id eq_refl). unfold is_running in Hidle. by rewrite (get_lookup _ _ _ Hs) in Hidle.
Qed.
End locked.

(** The section under the lock, in terms of its parts. *)
Lemma reload_locked_effect (c : Config) (l : list string) (e : env) (d d' : daemon)
    (r : result reload_err (list (option nat) * list nat * list string)) :
  Inv d → reload_validate c = Ok l → reload_locked c l e d = Some (r, d') →
  if shuttingDown d then r = Err RShuttingDown ∧ d' = d
  else ∃ waits, r = Ok (waits, to_start l d', elements (dom (Checks (cfg d)))) ∧ reloaded c l (e_now e) d waits d'.
Proof.
  intros HI Hv. unfold reload_locked. destruct (shuttingDown d); [by intros [= <- <-]|].
  cbv zeta. destruct (iteration e (services d)) as [it|] eqn:Hit; [|done]. cbn [mbind option_bind].
  destruct (rebuild c l e d it HI Hv Hit _ eq_refl) as [Hnone H3]. unfold buildServices. cbn [Processes cfg set_cfg].
  destruct (build_loop _ _) as [err d3]. cbn [fst snd] in *. subst err.
  pose proof (unregister_same it d3) as (Eh & Es & Ec & _ & Ea & Ek). cbn zeta in *.
  set (d4 := foldl _ d3 it) in *. assert (H4 : rebuilt c e d d4).
  { destruct H3 as [Hcfg [Hs1 Hs2] Hnew Honly Hold]. split; rewrite ?Eh, ?Es, ?Ec, ?Ea, ?Ek; try done.
    intros p Hp. destruct (Hnew p Hp) as (nid & s & ? & ? & ? & Hb). exists nid, s. split_and!; [done..|].
    by apply (built_ext d4 d3). }
  pose proof (locked_done c l e d it HI Hit d4 H4) as Hdone. cbn zeta in Hdone.
  destruct (foldl (reconcile_one (e_now e)) ([], d4) it) as [waits d5]. cbn [fst snd] in *.
  intros [= <- <-]. by exists waits.
Qed.

End DaemonReload.
