(* ===== verification/ReloadSpec.v ===== *)
(** * What a reload promises

    The outcome of [reload]'s section under the lock (Daemon.v, DaemonReload.v)
    said without its code: what makes a process another one, what a kept
    instance takes over, what a stopped one is sent, what a new one is, and what
    is started in which order. *)

From S2P Require Import Prelude GoStrings GoTime Order Metrics Reaper Check Service Conc DaemonState Daemon DaemonSafety DaemonTheorems DaemonReload.

Open Scope string_scope.
Open Scope list_scope.
Open Scope nat_scope.

Module ReloadSpec.
Import Conc DaemonState Daemon DaemonSafety DaemonTheorems DaemonReload.

(** ** The promise *)

(** The process of [p] as an instance has it: with the prefix of the
    configuration if it has none, and the arguments of the entrypoint if it asks
    for them. *)
Definition process_of (prefix : string) (args : list string) (p : Service.Process) : Service.Process :=
  Service.set_pPrefix (if decide (Service.pPrefix p = "") then prefix else Service.pPrefix p)
    (Service.set_pArgs (Service.pArgs p ++ if Service.pUseEntrypointArgs p then args else []) p).

(** [n] differs from [o] at most in its name, its order, its exit and check
    actions, its backoff, its schedule and startup timeout, its file
    conditions, its exit code and signal maps and its restart policy.  All else
    (command, arguments, user, environment, ...) needs another process. *)
Definition policy_only (o n : Service.Process) : Prop :=
  n = Service.mkProcess (Service.pUserID o) (Service.pGroupID o) (Service.pEnvironment o) (Service.pOnCheckFailure n)
    (Service.pPassEnv o) (Service.pLogCapture o) (Service.pExportSocket o) (Service.pName n) (Service.pCommand o)
    (Service.pWorkingDir o) (Service.pUser o) (Service.pGroup o) (Service.pStartup o) (Service.pStopSignal o)
    (Service.pKillDelay o) (Service.pOnSuccess n) (Service.pOnFailure n) (Service.pBackoffDelay n) (Service.pBackoffLimit n)
    (Service.pReadyCheck o) (Service.pReadyTimeout o) (Service.pStartupTimeout n) (Service.pSchedule n)
    (Service.pConditionFileExists n) (Service.pConditionFileMissing n) (Service.pUmask o) (Service.pDotEnv o)
    (Service.pPrefix o) (Service.pSDNotifyTimeout o) (Service.pParentDeathSignal o) (Service.pExitCodeMap n)
    (Service.pSignalRewrite n) (Service.pArgs o) (Service.pAfter n) (Service.pBefore n) (Service.pRequires n)
    (Service.pRemoveEnv o) (Service.pBackoffFactor n) (Service.pUseEntrypointArgs n) (Service.pSDNotify o)
    (Service.pStrictGroups o) (Service.pDotEnvFollow o) (Service.pRestartWithDependents n).

(** The actions a process asks for: shutdown by default on an exit, restart by
    default on a failed check. *)
Definition on_exit (text : string) : Service.ExitAction := Service.action_of Service.ActionShutdown text.
Definition on_check (m : gmap string string) : gmap string Service.ExitAction := Service.action_of Service.ActionRestart <$> m.

(** A new instance of [p]. *)
Record fresh_instance (prefix : string) (args : list string) (p : Service.Process) (s : Service.Service) : Prop := {
  fi_name : Service.Name s = Service.process_name p;
  fi_proc : Service.Proc s = process_of prefix args p;
  fi_idle : Service.running s = false ∧ Service.stopped s = false ∧ Service.Pid s = 0%Z ∧ Service.done s = None;
  fi_enabled : Service.Enabled s = true ↔ Service.pStartup p ≠ "disabled";
  fi_oneshot : Service.Oneshot s = true ↔ Service.pStartup p = "oneshot";
  fi_scheduled : Service.Scheduled s = true ↔ Service.pStartup p = "scheduled";
  fi_actions : Service.OnSuccess s = on_exit (Service.pOnSuccess p) ∧ Service.OnFailure s = on_exit (Service.pOnFailure p) ∧
    Service.OnCheckFailure s = on_check (Service.pOnCheckFailure p);
  fi_requires : ∀ r, r ∈ Service.Requires s ↔ r ∈ Service.pRequires p;
}.

(** The instance [s] runs on under the policy of [p]: its actions, what it
    requires, its conditions, maps and restart policy are those of [p], and
    nothing else changes. *)
Definition kept_as (p : Service.Process) (s s' : Service.Service) : Prop :=
  s' = Service.mkService
    (Service.set_policy_proc (Service.pExitCodeMap p) (Service.pSignalRewrite p) (Service.pRestartWithDependents p) (Service.Proc s))
    (Service.Name s) (Service.Enabled s) (Service.Oneshot s) (Service.Scheduled s) (Service.sched s) (Service.stopSignal s)
    (Service.killDelay s) (on_exit (Service.pOnSuccess p)) (on_exit (Service.pOnFailure p)) (Service.backoff s)
    (list_to_set (Service.pRequires p)) (on_check (Service.pOnCheckFailure p)) (Service.LogCapture s) (Service.prefix s)
    (Service.ControlSocket s) (Some (Service.mkFileConditions (Service.pConditionFileExists p) (Service.pConditionFileMissing p)))
    (Service.Pid s) (Service.running s) (Service.stopped s) (Service.done s) (Service.startedAt s) (Service.killPgid s)
    (Service.killDeadline s) (Service.killTimer s).

(** The instance [s] is no longer wanted: its exit will be ignored; if it runs
    it is marked as stopped and its group is to be killed after the delay. *)
Record dismissed (now : Z) (s s' : Service.Service) : Prop := {
  dm_actions : Service.OnSuccess s' = Service.ActionIgnore ∧ Service.OnFailure s' = Service.ActionIgnore;
  dm_same : Service.Proc s' = Service.Proc s ∧ Service.Name s' = Service.Name s ∧ Service.running s' = Service.running s ∧
    Service.Pid s' = Service.Pid s ∧ Service.done s' = Service.done s;
  dm_stopped : Service.running s = true → Service.stopped s' = true;
  dm_timer : Service.running s = true → (0 < Service.killDelay s)%Z →
    Service.killTimer s' = Some (Service.Pid s) ∧ Service.killPgid s' = Service.Pid s ∧
    Service.killDeadline s' = (now + Service.killDelay s)%Z;
}.

(** [q] comes before [p]. *)
Definition comes_after (p q : Service.Process) : Prop :=
  Service.process_name q ∈ Service.pAfter p ∨ Service.process_name q ∈ Service.pRequires p ∨
  Service.process_name p ∈ Service.pBefore q.

(** Long-running services that do not run, those others come after first. *)
Record started_next (c : Config) (d' : daemon) (ids : list nat) : Prop := {
  sn_who : ∀ id, id ∈ ids ↔ ∃ p, p ∈ Processes c ∧ services d' !! Service.process_name p = Some id ∧
    (Service.pStartup p ∉ ["disabled"; "oneshot"; "scheduled"]) ∧ is_running d' id = false;
  sn_once : NoDup ids;
  sn_order : ∀ p q idp idq, p ∈ Processes c → q ∈ Processes c → comes_after p q →
    services d' !! Service.process_name p = Some idp → services d' !! Service.process_name q = Some idq →
    idp ∈ ids → idq ∈ ids → ∃ l1 l2 l3, ids = l1 ++ idq :: l2 ++ idp :: l3;
}.

(** [evs] is what was sent to processes. *)
Record reload_done (c : Config) (now : Z) (d : daemon) (waits : list (option nat)) (ids : list nat) (evs : list event) (d' : daemon) : Prop := {
  rd_names : dom (services d') = list_to_set (Service.process_name <$> Processes c);
  rd_config : cfg d' = c ∧ shutdownMode d' = ShutdownOrder c ∧
    Order.TopoSort (buildOrderServices c) = Done (Ok (shutdownSeq d'));
  rd_trace : trace d' = trace d ++ evs;
  (* an instance that left the configuration *)
  rd_removed n id s : services d !! n = Some id → heap d !! id = Some s → n ∉ Service.process_name <$> Processes c →
    (∃ s', heap d' !! id = Some s' ∧ dismissed now s s') ∧
    (Service.running s = true → EKill (- Service.Pid s) (Service.stopSignal s) ∈ evs);
  (* a running instance of a process that stays as it is *)
  rd_kept p id s : p ∈ Processes c → services d !! Service.process_name p = Some id → heap d !! id = Some s →
    Service.running s = true → policy_only (Service.Proc s) (process_of (Prefix c) (entrypointArgs d) p) →
    services d' !! Service.process_name p = Some id ∧ ∃ s', heap d' !! id = Some s' ∧ kept_as p s s';
  (* a running instance of a process that changes *)
  rd_changed p id s : p ∈ Processes c → services d !! Service.process_name p = Some id → heap d !! id = Some s →
    Service.running s = true → ¬ policy_only (Service.Proc s) (process_of (Prefix c) (entrypointArgs d) p) →
    (∃ s', heap d' !! id = Some s' ∧ dismissed now s s') ∧ Service.done s ∈ waits ∧
    EKill (- Service.Pid s) (Service.stopSignal s) ∈ evs ∧
    ∃ nid s', services d' !! Service.process_name p = Some nid ∧ nextId d ≤ nid ∧ heap d' !! nid = Some s' ∧
      fresh_instance (Prefix c) (entrypointArgs d) p s';
  (* every other process *)
  rd_new p : p ∈ Processes c → (∀ id, services d !! Service.process_name p = Some id → is_running d id = false) →
    ∃ nid s', services d' !! Service.process_name p = Some nid ∧ nextId d ≤ nid ∧ heap d' !! nid = Some s' ∧
      fresh_instance (Prefix c) (entrypointArgs d) p s';
  rd_started : started_next c d' ids;
}.

(** ** The parts of the code *)

Lemma differs_false {A} `{EqDecision A} (a b : A) : differs a b = false ↔ a = b.
Proof. unfold differs. rewrite negb_false_iff. apply bool_decide_eq_true. Qed.

Lemma ptr_differs_false {A} `{EqDecision A} (a b : option A) : ptr_differs a b = false ↔ a = b.
Proof. destruct a, b; cbn; rewrite ?negb_false_iff, ?bool_decide_eq_true; naive_solver. Qed.

Lemma changed_policy o n : processConfigChanged o n = false ↔ policy_only o n.
Proof.
  unfold processConfigChanged, policy_only. rewrite !orb_false_iff, !differs_false, !ptr_differs_false. split.
  - intros H. destruct_and! H. destruct o, n. cbn in *. by subst.
  - intros ->. by split_and!.
Qed.

Lemma effective_process_of d p : effective_process d p = process_of (Prefix (cfg d)) (entrypointArgs d) p.
Proof.
  unfold effective_process, process_of. cbv zeta. destruct p. cbn. destruct pUseEntrypointArgs, (entrypointArgs d); cbn; rewrite ?app_nil_r;
    case_bool_decide; case_decide; done.
Qed.

Lemma New_startup p g s : Service.New p g = Ok s →
  Service.Enabled s = negb (bool_decide (Service.pStartup p = "disabled")) ∧
  Service.Oneshot s = bool_decide (Service.pStartup p = "oneshot") ∧
  Service.Scheduled s = bool_decide (Service.pStartup p = "scheduled") ∧
  Service.OnFailure s = Service.action_of Service.ActionShutdown (Service.pOnFailure p).
Proof.
  unfold Service.New, Service.New_in. cbv zeta. pose proof (Service.ParseExitAction_spec (Service.pOnFailure p) Service.ActionShutdown) as Ha.
  intros H. Service.bind_ok H; injection H as <-; cbn; split_and!; try done; by destruct Ha.
Qed.

Lemma built_fresh d p s : built d p s → fresh_instance (Prefix (cfg d)) (entrypointArgs d) p s.
Proof.
  intros Hb. destruct (built_facts d p s Hb) as (Hn & _ & Hp). destruct Hb as (s0 & H & ->).
  pose proof (Service.service_new (effective_process d p) (Prefix (cfg d))) as HN. rewrite H in HN.
  destruct HN as (_ & _ & _ & H1 & H2 & H3 & H4 & _ & _ & _ & _ & _ & H5 & H6 & H7 & H8 & _).
  apply New_startup in H as (E1 & E2 & E3 & _). rewrite effective_process_of in *.
  split; cbn in *; try done; rewrite ?E1, ?E2, ?E3, ?negb_true_iff, ?bool_decide_eq_true, ?bool_decide_eq_false; done.
Qed.

(** The policy a kept instance takes over is that of the process. *)
Lemma adopted d p s new : built d p new → kept_as p s (adopt_policy s new).
Proof.
  intros Hb. pose proof (built_fresh d p new Hb) as [_ Hp _ _ _ _ (H1 & H2 & H3) Hr]. unfold kept_as, adopt_policy. cbv zeta.
  assert (Service.Requires new = list_to_set (Service.pRequires p)) as Er.
  { apply set_eq. intros r. rewrite Hr. symmetry. apply elem_of_list_to_set. }
  unfold Service.SetFileConditions, Service.set_policy. cbn. by rewrite H1, H2, H3, Er, Hp.
Qed.

Lemma retired_dismissed now s : (Service.running s = true → (0 < Service.Pid s)%Z) → dismissed now s (retired now s).
Proof.
  intros Hpos. unfold retired, Service.Stop. cbn. destruct (Service.running s) eqn:Er; cbn;
    [|split; cbn; rewrite ?Er; split_and?; done].
  specialize (Hpos eq_refl). rewrite (proj2 (Z.leb_gt (Service.Pid s) 0)) by lia.
  destruct (Z.ltb_spec 0 (Service.killDelay s)); split; cbn; rewrite ?Er; split_and?; try done; intros; lia.
Qed.

(** ** What is sent *)

Definition stop_kill (s : Service.Service) : event := EKill (- Service.Pid s) (Service.stopSignal s).

Lemma stop_trace now id d s : heap d !! id = Some s → ∃ evs, trace (stop_service now id (ignore_exits id d)) = trace d ++ evs ∧
  (Service.running s = true → (0 < Service.Pid s)%Z → stop_kill s ∈ evs).
Proof.
  intros Hs. unfold stop_service. rewrite (get_lookup _ id (Service.set_exit_actions Service.ActionIgnore Service.ActionIgnore s))
    by (rewrite (ignore_heap id d s Hs); apply lookup_insert_eq).
  destruct (Service.Stop _ now) as [s' ks] eqn:E. exists (kill_events ks). split; [done|]. intros Hr Hp.
  unfold Service.Stop in E. cbn in E. rewrite Hr in E. cbn in E. rewrite (proj2 (Z.leb_gt (Service.Pid s) 0)) in E by lia.
  destruct (0 <? Service.killDelay s)%Z; injection E as <- <-; left.
Qed.

Lemma remove_one_trace now names d n id s : heap d !! id = Some s → ∃ evs, trace (remove_one now names d (n, id)) = trace d ++ evs ∧
  (n ∉ names → Service.running s = true → (0 < Service.Pid s)%Z → stop_kill s ∈ evs).
Proof.
  intros Hs. unfold remove_one. cbn [fst snd]. case_bool_decide; [exists []; rewrite app_nil_r; naive_solver|]. cbv zeta.
  unfold Service.IsRunning. rewrite (get_lookup _ id (Service.set_exit_actions Service.ActionIgnore Service.ActionIgnore s))
    by (rewrite (ignore_heap id d s Hs); apply lookup_insert_eq). cbn [Service.running Service.set_exit_actions].
  destruct (Service.running s) eqn:Er.
  - destruct (stop_trace now id d s Hs) as (evs & E & Hk). exists evs. split; [exact E|]. auto.
  - exists []. rewrite app_nil_r. split; [done|]. intros ? [=].
Qed.

Lemma remove_services_trace now names l : ∀ d, NoDup l.*2 → (∀ n id, (n, id) ∈ l → is_Some (heap d !! id)) →
  ∃ evs, trace (remove_services now names l d) = trace d ++ evs ∧
    ∀ n id s, (n, id) ∈ l → heap d !! id = Some s → n ∉ names → Service.running s = true → (0 < Service.Pid s)%Z → stop_kill s ∈ evs.
Proof.
  induction l as [|[n id] l IH]; intros d Hnd Hl.
  { exists []. rewrite app_nil_r. split; [done|]. by intros n id s ?%not_elem_of_nil. }
  apply NoDup_cons in Hnd as [Hid Hnd]. cbn [snd] in Hid. destruct (Hl n id) as [s Hs]; [left|].
  destruct (remove_one_trace now names d n id s Hs) as (evs1 & E1 & H1). pose proof (remove_one_heap now names d n id s Hs) as Hh.
  assert (Hother : ∀ i, i ≠ id → heap (remove_one now names d (n, id)) !! i = heap d !! i).
  { intros i Hi. rewrite Hh. case_bool_decide; [done|]. by rewrite lookup_insert_ne. }
  assert (Hne : ∀ x i, (x, i) ∈ l → i ≠ id) by (intros x i Hin ->; apply Hid; by eapply elem_snd).
  destruct (IH (remove_one now names d (n, id)) Hnd) as (evs2 & E2 & H2).
  { intros x i Hin. rewrite Hother by (by eapply Hne). apply (Hl x). by right. }
  exists (evs1 ++ evs2). split; [cbn [remove_services foldl]; unfold remove_services in E2; by rewrite E2, E1, app_assoc|].
  intros x i s' [[= -> ->]|Hin]%elem_of_cons Hs' Hx Hr Hp; apply elem_of_app.
  - left. assert (s' = s) as -> by congruence. auto.
  - right. eapply H2; [exact Hin| |done..]. rewrite Hother; [done|by eapply Hne].
Qed.

Lemma reconcile_one_trace now waits d n id s : heap d !! id = Some s →
  ∃ evs, trace (reconcile_one now (waits, d) (n, id)).2 = trace d ++ evs ∧
    (∀ nid, services d !! n = Some nid → Service.running s = true → (0 < Service.Pid s)%Z →
       processConfigChanged (Service.Proc s) (Service.Proc (get d nid)) = true → stop_kill s ∈ evs).
Proof.
  intros Hs. unfold reconcile_one. cbn [fst snd]. rewrite (get_lookup d id s Hs). cbv zeta. unfold Service.IsRunning.
  destruct (services d !! n) as [nid|]; [|exists []; rewrite app_nil_r; naive_solver].
  destruct (Service.running s) eqn:Er; cbn [andb]; [|exists []; rewrite app_nil_r; naive_solver].
  destruct (processConfigChanged _ _) eqn:Ec; cbn [negb snd].
  - destruct (stop_trace now id d s Hs) as (evs & E & Hk). exists evs. split; [exact E|]. auto.
  - exists []. rewrite app_nil_r. split; [done|]. intros ? [= <-]. congruence.
Qed.

Lemma reconcile_trace now l : ∀ waits d, NoDup l.*1 → NoDup l.*2 → (∀ n id, (n, id) ∈ l → is_Some (heap d !! id)) →
  (∀ n nid, n ∈ l.*1 → services d !! n = Some nid → nid ∉ l.*2) →
  ∃ evs, trace (foldl (reconcile_one now) (waits, d) l).2 = trace d ++ evs ∧
    ∀ n id s nid, (n, id) ∈ l → heap d !! id = Some s → services d !! n = Some nid → Service.running s = true → (0 < Service.Pid s)%Z →
      processConfigChanged (Service.Proc s) (Service.Proc (get d nid)) = true → stop_kill s ∈ evs.
Proof.
  induction l as [|[n id] l IH]; intros waits d Hn Hi Hl Hnew; cbn [foldl].
  { exists []. rewrite app_nil_r. split; [done|]. by intros ? ? ? ? ?%not_elem_of_nil. }
  apply NoDup_cons in Hn as [Hnl Hn]. apply NoDup_cons in Hi as [Hil Hi]. cbn [fmap list_fmap fst snd] in *.
  destruct (Hl n id) as [s Hs]; [left|].
  destruct (reconcile_one_spec now waits d n id ltac:(eauto)) as (_ & _ & Hh & Hsv & _). cbn zeta in *.
  destruct (reconcile_one_trace now waits d n id s Hs) as (evs1 & E1 & H1).
  destruct (reconcile_one now (waits, d) (n, id)) as [waits1 d1]. cbn [fst snd] in *.
  assert (Hne : ∀ x i, (x, i) ∈ l → i ≠ id) by (intros x i Hin ->; apply Hil; by eapply elem_snd).
  assert (Hnn : ∀ x, x ∈ l.*1 → x ≠ n) by (intros x ? ->; done).
  destruct (IH waits1 d1 Hn Hi) as (evs2 & E2 & H2).
  { intros x i Hin. rewrite Hh by (by eapply Hne). apply (Hl x). by right. }
  { intros x nid Hx. rewrite Hsv by (by apply Hnn). intros Hnid Hin. eapply Hnew; [|exact Hnid|]; by right. }
  exists (evs1 ++ evs2). split; [by rewrite E2, E1, app_assoc|].
  intros x i s' nid [[= -> ->]|Hin]%elem_of_cons Hs' Hnid Hr Hp Hc; apply elem_of_app.
  - left. assert (s' = s) as -> by congruence. eauto.
  - right. assert (Hxn : x ∈ l.*1) by (by eapply elem_fst). apply (H2 x i s' nid); try done; [rewrite Hh; [done|by eapply Hne]|by rewrite Hsv by auto|].
    rewrite (get_heap d d1 nid); [done|]. apply Hh. intros ->. eapply (Hnew x); [by right|exact Hnid|left].
Qed.

Lemma build_loop_trace ps : ∀ d, trace (build_loop ps d).2 = trace d.
Proof.
  induction ps as [|p ps IH]; intros d; [done|]. cbn [build_loop]. unfold build_service. cbv zeta.
  destruct (Service.New _ _); cbn [mbind result_bind]; [|done]. by rewrite IH.
Qed.

Lemma unregister_trace l : ∀ d,
  trace (foldl (λ d ni, match services d !! (ni.1 : string) with
                        | Some _ => d
                        | None => set_m (Metrics.UnregisterService (m d) ni.1) d
                        end) d (l : list (string * nat))) = trace d.
Proof. induction l as [|ni l IH]; intros d; [done|]. cbn [foldl]. rewrite IH. by destruct (services d !! ni.1). Qed.

(** What is sent by a reload that is not refused. *)
Lemma reload_trace c l e d d' r : Inv d → reload_validate c = Ok l → shuttingDown d = false → reload_locked c l e d = Some (r, d') →
  entrypointArgs d' = entrypointArgs d ∧ ∃ evs, trace d' = trace d ++ evs ∧
    (∀ n id s, services d !! n = Some id → heap d !! id = Some s → n ∉ Service.process_name <$> Processes c →
       Service.running s = true → stop_kill s ∈ evs) ∧
    (∀ p id s, p ∈ Processes c → services d !! Service.process_name p = Some id → heap d !! id = Some s → Service.running s = true →
       ¬ policy_only (Service.Proc s) (process_of (Prefix c) (entrypointArgs d) p) → stop_kill s ∈ evs).
Proof.
  intros HI Hv Hsd. unfold reload_locked. rewrite Hsd. cbv zeta. destruct (iteration e (services d)) as [it|] eqn:Hit; [|done]. cbn [mbind option_bind].
  assert (Hin : ∀ n id, (n, id) ∈ it → is_Some (heap d !! id)).
  { intros n id Hin. apply (iteration_spec e _ _ _ _ Hit) in Hin. destruct (so_heap _ (i_services _ HI) _ _ Hin) as (s & Hs & _). eauto. }
  destruct (rebuild c l e d it HI Hv Hit _ eq_refl) as [Hnone H3]. unfold buildServices. cbn [Processes cfg set_cfg].
  destruct (remove_services_trace (e_now e) (list_to_set (Service.process_name <$> Processes c)) it d (iteration_ids e d it HI Hit) Hin)
    as (evs1 & E1 & K1).
  pose proof (build_loop_trace (Processes c) (set_services ∅ (set_cfg c (stopSchedulers (stopChecks
    (remove_services (e_now e) (list_to_set (Service.process_name <$> Processes c)) it d)))))) as Eb.
  destruct (build_loop _ _) as [err d3]. cbn [fst snd] in *. subst err.
  pose proof (unregister_trace it d3) as Eu. pose proof (unregister_same it d3) as (Eh & Es & Ec & _ & Ea & Ek). cbn zeta in *.
  set (d4 := foldl _ d3 it) in *. assert (H4 : rebuilt c e d d4).
  { destruct H3 as [Hcfg [Hs1 Hs2] Hnew Honly Hold]. split; rewrite ?Eh, ?Es, ?Ec, ?Ea, ?Ek; try done.
    intros p Hp. destruct (Hnew p Hp) as (nid & s & ? & ? & ? & Hb). exists nid, s. split_and!; [done..|]. by apply (built_ext d4 d3). }
  destruct (reconcile_trace (e_now e) it [] d4) as (evs2 & E2 & K2).
  { apply (iteration_names _ _ _ Hit). }
  { by eapply iteration_ids. }
  { intros n id Hn%(iteration_spec e _ _ _ _ Hit). destruct (so_heap _ (i_services _ HI) _ _ Hn) as (s & Hs & _).
    rewrite (rb_old _ _ _ _ H4 n id s Hn Hs). eauto. }
  { intros n nid _ Hn Hid. pose proof (old_ids e d it HI Hit nid Hid). pose proof (rebuilt_ids c e d d4 n nid H4 Hn). lia. }
  pose proof (reconcile_setup (e_now e) it [] d4) as (_ & Ha5 & _).
  destruct (foldl (reconcile_one (e_now e)) ([], d4) it) as [waits d5]. cbn [fst snd] in *. intros [= <- <-].
  split; [cbn; rewrite Ha5; apply (rb_setup _ _ _ _ H4)|]. exists (evs1 ++ evs2). split; [change (trace d5 = trace d ++ evs1 ++ evs2); rewrite E2, Eu, Eb; change (trace (remove_services (e_now e) (list_to_set (Service.process_name <$> Processes c)) it d) ++ evs2 = trace d ++ evs1 ++ evs2); by rewrite E1, app_assoc|].
  split.
  - intros n id s Hn Hs Hni Hr. apply elem_of_app. left. apply (K1 n id s); try done; [by apply (iteration_spec e _ _ _ _ Hit)| |by apply (i_pos _ HI id)].
    by rewrite elem_of_list_to_set.
  - intros p id s Hp Hn Hs Hr Hc. apply elem_of_app. right. destruct (rb_new _ _ _ _ H4 p Hp) as (nid & s' & Hs' & _ & Hh & Hb).
    apply (K2 (Service.process_name p) id s nid); try done; [by apply (iteration_spec e _ _ _ _ Hit)| |by apply (i_pos _ HI id)|].
    + rewrite (rb_old _ _ _ _ H4 _ id s Hn Hs), bool_decide_true; [done|]. by apply list_elem_of_fmap_2.
    + rewrite (get_lookup _ _ _ Hh). destruct (built_facts _ _ _ Hb) as (_ & _ & ->). rewrite effective_process_of, (rb_cfg _ _ _ _ H4).
      destruct (rb_setup _ _ _ _ H4) as [-> _]. destruct (processConfigChanged _ _) eqn:E; [done|]. by apply changed_policy in E.
Qed.

(** ** What is started *)

Lemma NoDup_omap_inj {A B} (f : A → option B) (l : list A) : NoDup l →
  (∀ x y z, x ∈ l → y ∈ l → f x = Some z → f y = Some z → x = y) → NoDup (omap f l).
Proof.
  induction 1 as [|x l Hx _ IH]; intros Hf; cbn; [constructor|]. destruct (f x) as [z|] eqn:E; [|apply IH; intros; apply (Hf x0 y z); by try right].
  constructor; [|apply IH; intros x0 y z0 ? ?; apply Hf; by right]. intros (y & Hy & Ey)%list_elem_of_omap.
  apply Hx. rewrite (Hf x y z); [done|left|by right|done|done].
Qed.

Lemma comes_edge c p q : p ∈ Processes c → q ∈ Processes c → comes_after p q →
  Order.edge (buildOrderServices c) (Service.process_name q) (Service.process_name p).
Proof.
  intros Hp Hq [H|[H|H]].
  3: eexists; split; [apply list_elem_of_fmap_2, Hq|]; cbn; auto.
  all: eexists; (split; [apply list_elem_of_fmap_2, Hp|]); cbn; auto.
Qed.

(** Every process has an instance, of its kind if it does not run. *)
Definition kinds_ok (c : Config) (d' : daemon) : Prop := ∀ p, p ∈ Processes c → ∃ id s,
  services d' !! Service.process_name p = Some id ∧ heap d' !! id = Some s ∧ Service.Name s = Service.process_name p ∧
  (Service.running s = false → (Service.Enabled s = true ↔ Service.pStartup p ≠ "disabled") ∧
     (Service.Oneshot s = true ↔ Service.pStartup p = "oneshot") ∧ (Service.Scheduled s = true ↔ Service.pStartup p = "scheduled")).

(** The body of the loop that lists what is to be started. *)
Definition pick (d : daemon) (n : string) : option nat :=
  id ← services d !! n;
  let svc := get d id in
  if negb (Service.Enabled svc) || Service.Oneshot svc || Service.Scheduled svc || Service.IsRunning svc then None else Some id.

Lemma pick_spec c d' p id : kinds_ok c d' → p ∈ Processes c → pick d' (Service.process_name p) = Some id ↔
  services d' !! Service.process_name p = Some id ∧ (Service.pStartup p ∉ ["disabled"; "oneshot"; "scheduled"]) ∧ is_running d' id = false.
Proof.
  intros Hk Hp. destruct (Hk p Hp) as (id' & s & Hs & Hh & _ & Hkind). unfold pick. rewrite Hs. cbn [mbind option_bind]. cbv zeta.
  assert (Hg : is_running d' id' = Service.running s) by (unfold is_running; by rewrite (get_lookup _ _ _ Hh)).
  rewrite (get_lookup _ _ _ Hh). unfold Service.IsRunning.
  destruct (Service.running s) eqn:Er; [rewrite orb_true_r; split; [done|]; intros ([= <-] & _ & H); congruence|].
  destruct (Hkind eq_refl) as (H1 & H2 & H3). rewrite orb_false_r.
  assert (Hb : negb (Service.Enabled s) || Service.Oneshot s || Service.Scheduled s = false ↔
    (Service.pStartup p ∉ ["disabled"; "oneshot"; "scheduled"])).
  { rewrite !orb_false_iff, negb_false_iff, H1, <- !not_true_iff_false, H2, H3. rewrite !not_elem_of_cons. pose proof (not_elem_of_nil (Service.pStartup p)). tauto. }
  destruct (_ || _ || _); [|naive_solver]. split; [done|]. intros (_ & H%Hb & _). done.
Qed.

Lemma to_start_spec c l d' : Order.TopoSort (buildOrderServices c) = Done (Ok l) → kinds_ok c d' → started_next c d' (to_start l d').
Proof.
  intros Ho Hk. destruct (Order.toposort_order _ _ Ho) as (Hnd & _ & Hperm & _). change (to_start l d') with (omap (pick d') l).
  assert (Hl : ∀ n, n ∈ l ↔ ∃ p, p ∈ Processes c ∧ n = Service.process_name p).
  { intros n. rewrite Hperm. unfold buildOrderServices. rewrite <- list_fmap_compose, list_elem_of_fmap. naive_solver. }
  assert (Hname : ∀ n id, pick d' n = Some id → n ∈ l → Service.Name (get d' id) = n).
  { intros n id Hpk (p & Hp & ->)%Hl. apply (pick_spec c) in Hpk as (Hs & _); [|done..]. destruct (Hk p Hp) as (id' & s & Hs' & Hh & <- & _).
    assert (id' = id) as -> by congruence. by rewrite (get_lookup _ _ _ Hh). }
  assert (Hat : ∀ p id, p ∈ Processes c → services d' !! Service.process_name p = Some id → id ∈ omap (pick d') l → pick d' (Service.process_name p) = Some id).
  { intros p id Hp Hs (n & Hn & Hpk)%list_elem_of_omap. rewrite <- (Hname n id Hpk Hn) in Hpk. destruct (Hk p Hp) as (id' & s & Hs' & Hh & E & _).
    assert (id' = id) as -> by congruence. by rewrite (get_lookup _ _ _ Hh), E in Hpk. }
  split.
  - intros id. rewrite list_elem_of_omap. split.
    + intros (n & (p & Hp & ->)%Hl & Hpk). apply (pick_spec c) in Hpk; [|done..]. eauto.
    + intros (p & Hp & Hs). exists (Service.process_name p). split; [apply Hl; eauto|]. by apply (pick_spec c).
  - apply NoDup_omap_inj; [by rewrite Hperm|]. intros x y id Hx Hy Ex Ey. by rewrite <- (Hname x id), <- (Hname y id).
  - intros p q idp idq Hp Hq Hc Hsp Hsq Hip Hiq. destruct (edge_order any_url c l _ _ Ho (comes_edge c p q Hp Hq Hc)) as (l1 & l2 & l3 & -> & _).
    apply (Hat p) in Hip; [|done..]. apply (Hat q) in Hiq; [|done..].
    exists (omap (pick d') l1), (omap (pick d') l2), (omap (pick d') l3). rewrite omap_app. cbn. rewrite Hiq, omap_app. cbn. by rewrite Hip.
Qed.

(** ** The theorem *)

Lemma reload_kinds c l now d waits d' : Inv d → reloaded c l now d waits d' → kinds_ok c d'.
Proof.
  intros HI H p Hp. destruct (rl_config _ _ _ _ _ _ H) as (Hcfg & _).
  assert (Hnew : (∃ nid s', services d' !! Service.process_name p = Some nid ∧ nextId d ≤ nid ∧ heap d' !! nid = Some s' ∧ built d' p s') →
    ∃ id s, services d' !! Service.process_name p = Some id ∧ heap d' !! id = Some s ∧ Service.Name s = Service.process_name p ∧
      (Service.running s = false → (Service.Enabled s = true ↔ Service.pStartup p ≠ "disabled") ∧
         (Service.Oneshot s = true ↔ Service.pStartup p = "oneshot") ∧ (Service.Scheduled s = true ↔ Service.pStartup p = "scheduled"))).
  { intros (nid & s' & Hs & _ & Hh & Hb). destruct (built_fresh _ _ _ Hb). exists nid, s'. by split_and!. }
  destruct (services d !! Service.process_name p) as [id|] eqn:En; [|apply Hnew, (rl_new _ _ _ _ _ _ H p Hp); congruence].
  destruct (so_heap _ (i_services _ HI) _ _ En) as (s & Hs & Hname).
  destruct (Service.running s) eqn:Er.
  - pose proof (rl_running _ _ _ _ _ _ H p id s Hp En Hs Er) as Ho. destruct (processConfigChanged _ _); [apply Hnew; tauto|].
    destruct Ho as (Hid & new & _ & Hh). exists id, (adopt_policy s new). split_and!; [done..|]. cbn. congruence.
  - apply Hnew, (rl_new _ _ _ _ _ _ H p Hp). intros id' Hid'. assert (id' = id) as -> by congruence. unfold is_running. by rewrite (get_lookup _ _ _ Hs).
Qed.


(** ** An example *)

(** The running [db] stays, the running [web] gets other arguments. *)
Definition demo_cfg' : Config :=
  mkConfig [Service.set_pArgs ["-v"] (named_process "web" ["db"]); named_process "db" []] "" "" ∅ false.

Definition demo_reload : option (result reload_err (list (option nat) * list nat * list string) * daemon) :=
  reload_locked demo_cfg' ["db"; "web"] (demo_env 1 0 0 CReload Quiet) (st (demo_at demo_running)).

Lemma demo_web : ∃ s, heap (st (demo_at demo_running)) !! 0 = Some s ∧ Service.running s = true ∧ Service.Pid s = 101%Z ∧
  Service.stopSignal s = 15%Z ∧ Service.pArgs (Service.Proc s) = [].
Proof. eexists. split; [vm_compute; reflexivity|]. split_and!; reflexivity. Qed.


End ReloadSpec.
