(* ===== verification/Credential.v ===== *)
(** * Credentials: src/service/user.go

    Which user, group and supplementary groups a child runs with.  The user and
    group databases are arguments: the answers of [user.Lookup],
    [user.LookupId] and [user.LookupGroup]. *)

From S2P Require Import Prelude GoStrings.

Open Scope string_scope.
Open Scope list_scope.
Open Scope Z_scope.

Module Credential.

(** [user.User]; [GroupIds] is the answer of its method. *)
Record User := mkUser {
  Uid : string;
  Gid : string;
  GroupIds : option (list string);
}.

(** [syscall.Credential]. *)
Record Cred := mkCred {
  cUid : Z;
  cGid : Z;
  cGroups : list Z;
}.

Inductive cred_err :=
  | EIdRange (field : string) (id : Z)
  | EUserIdUnknown (id : Z)
  | EParseGidOfUid (id : Z)
  | ELookupUser (name : string)
  | EParseUid (name : string)
  | EParseGid (name : string)
  | ELookupGroup (name : string)
  | EParseGroupGid (name : string).

Definition MaxUint32 : Z := 4294967295.
Definition uint32 (z : Z) : Z := z mod (MaxUint32 + 1).

Definition validateNumericID (field : string) (id : option Z) : result cred_err unit :=
  match id with
  | None => Ok tt
  | Some n => if (n <? 0) || (MaxUint32 <? n) then Err (EIdRange field n) else Ok tt
  end.

Definition parse_id (e : cred_err) (s : string) : result cred_err Z :=
  match ParseUint s 10 32 with Some n => Ok (uint32 n) | None => Err e end.

(** The supplementary groups of an entry: the ids that are numbers. *)
Definition numeric_groups (u : User) : list Z :=
  match GroupIds u with
  | None => []
  | Some ids => omap (λ s, uint32 <$> ParseUint s 10 32) ids
  end.

(** The variables of the function. *)
Record vars := mkVars {
  uid : Z;
  gid : Z;
  groups : list Z;
  hasUser : bool;
  hasGroup : bool;
}.

Section resolve.
Context (Lookup LookupId : string → option User) (LookupGroup : string → option string) (getuid : Z).

Definition resolve_user (userName groupName : string) (userID groupID : option Z) : result cred_err vars :=
  let noGroup := bool_decide (groupID = None) && bool_decide (groupName = "") in
  match userID with
  | Some n =>
      if noGroup then
        match LookupId (fmt_d n) with
        | None => Err (EUserIdUnknown n)
        | Some u => id ← parse_id (EParseGidOfUid n) (Gid u); Ok (mkVars (uint32 n) id (numeric_groups u) true true)
        end
      else Ok (mkVars (uint32 n) 0 [] true false)
  | None =>
      if bool_decide (userName = "") then Ok (mkVars 0 0 [] false false)
      else
        match Lookup userName with
        | None => Err (ELookupUser userName)
        | Some u =>
            id ← parse_id (EParseUid userName) (Uid u);
            if noGroup then g ← parse_id (EParseGid userName) (Gid u); Ok (mkVars id g (numeric_groups u) true true)
            else Ok (mkVars id 0 (numeric_groups u) true false)
        end
  end.

Definition resolve_group (groupName : string) (groupID : option Z) (v : vars) : result cred_err vars :=
  match groupID with
  | Some n => Ok (mkVars (uid v) (uint32 n) (groups v) (hasUser v) true)
  | None =>
      if bool_decide (groupName = "") then Ok v
      else
        match LookupGroup groupName with
        | None => Err (ELookupGroup groupName)
        | Some g => id ← parse_id (EParseGroupGid groupName) g; Ok (mkVars (uid v) id (groups v) (hasUser v) true)
        end
  end.

Definition ResolveCredential (userName groupName : string) (userID groupID : option Z) (strictGroups : bool)
    : result cred_err (option Cred) :=
  _ ← validateNumericID "user-id" userID;
  _ ← validateNumericID "group-id" groupID;
  v ← resolve_user userName groupName userID groupID;
  v ← resolve_group groupName groupID v;
  if negb (hasUser v) && negb (hasGroup v) then Ok None
  else
    let v := if negb (hasUser v) && hasGroup v then mkVars (uint32 getuid) (gid v) [gid v] (hasUser v) (hasGroup v) else v in
    let explicitGroup := bool_decide (groupID ≠ None) || bool_decide (groupName ≠ "") in
    let groups := if strictGroups && hasUser v && explicitGroup then [gid v] else groups v in
    Ok (Some (mkCred (uid v) (gid v) groups)).

(** ** What the configuration asks for *)

Inductive who :=
  | Nobody
  | ById (n : Z)
  | ByName (name : string).

(** A numeric id takes precedence over a name. *)
Definition asked (id : option Z) (name : string) : who :=
  match id with Some n => ById n | None => if bool_decide (name = "") then Nobody else ByName name end.

Definition in_uint32 (n : Z) : Prop := 0 ≤ n < 2 ^ 32.
Definition valid (w : who) : Prop := match w with ById n => in_uint32 n | _ => True end.
Definition denotes (s : string) (n : Z) : Prop := ParseUint s 10 32 = Some n.

(** The group a request for one stands for. *)
Definition group_is (w : who) (n : Z) : Prop :=
  match w with
  | Nobody => False
  | ById m => n = m
  | ByName name => ∃ g, LookupGroup name = Some g ∧ denotes g n
  end.

(** The table of the documentation: the user's own groups when no group is
    asked for, only the group when no user is. *)
Definition grants (user group : who) (strict : bool) (c : Cred) : Prop :=
  match user, group with
  | Nobody, Nobody => False
  | Nobody, g => cUid c = uint32 getuid ∧ group_is g (cGid c) ∧ cGroups c = [cGid c]
  | ById n, Nobody =>
      cUid c = n ∧ ∃ u, LookupId (fmt_d n) = Some u ∧ denotes (Gid u) (cGid c) ∧ cGroups c = numeric_groups u
  | ById n, g => cUid c = n ∧ group_is g (cGid c) ∧ cGroups c = if strict then [cGid c] else []
  | ByName name, g => ∃ u, Lookup name = Some u ∧ denotes (Uid u) (cUid c) ∧
      match g with
      | Nobody => denotes (Gid u) (cGid c) ∧ cGroups c = numeric_groups u
      | _ => group_is g (cGid c) ∧ cGroups c = if strict then [cGid c] else numeric_groups u
      end
  end.

End resolve.

(** ** Numbers *)

Lemma uint32_id n : in_uint32 n → uint32 n = n.
Proof. unfold in_uint32, uint32, MaxUint32. intros H. apply Z.mod_small. lia. Qed.

Lemma uint32_range n : in_uint32 (uint32 n).
Proof. unfold in_uint32, uint32, MaxUint32. apply Z.mod_pos_bound. lia. Qed.

Lemma denotes_range s n : denotes s n → in_uint32 n.
Proof.
  unfold denotes, ParseUint, in_uint32. destruct (parse_nat 10 s) as [v|] eqn:E; [|done]. cbn.
  destruct (Z.ltb_spec v (2 ^ 32)); [|done]. intros [= <-]. split; [|done]. unfold parse_nat in E. destruct s; [done|].
  eapply digits_val_nonneg; [..|exact E]; lia.
Qed.

Lemma parse_id_ok e s n : parse_id e s = Ok n ↔ denotes s n.
Proof.
  unfold parse_id. destruct (ParseUint s 10 32) as [m|] eqn:E.
  - rewrite uint32_id by (by eapply denotes_range). unfold denotes. rewrite E. split; congruence.
  - unfold denotes. rewrite E. done.
Qed.

Lemma validate_ok field id name : validateNumericID field id = Ok tt ↔ valid (asked id name).
Proof.
  destruct id as [n|]; cbn; [|by case_bool_decide]. unfold in_uint32, MaxUint32.
  destruct (Z.ltb_spec n 0), (Z.ltb_spec 4294967295 n); cbn; split; try done; lia.
Qed.

Lemma numeric_range u : Forall in_uint32 (numeric_groups u).
Proof.
  unfold numeric_groups. destruct (GroupIds u) as [ids|]; [|constructor]. apply Forall_forall. intros g Hg.
  apply list_elem_of_omap in Hg as (s & _ & Hs). apply fmap_Some in Hs as (m & _ & ->). apply uint32_range.
Qed.

(** Two results agree when the parsed ids do. *)
Lemma bind_parse {B} e s (f : Z → result cred_err B) (r : B) :
  (n ← parse_id e s; f n) = Ok r ↔ ∃ n, denotes s n ∧ f n = Ok r.
Proof.
  destruct (parse_id e s) as [n|e'] eqn:E; cbn [mbind result_bind].
  - apply parse_id_ok in E. split; [eauto|]. intros (m & Hm & Hf). unfold denotes in *. congruence.
  - split; [done|]. intros (n & Hn & _). apply (parse_id_ok e) in Hn. congruence.
Qed.

Section granted.
Context (Lookup LookupId : string → option User) (LookupGroup : string → option string) (getuid : Z).

(** The user's part of the table. *)
Definition user_vars (user group : who) (v : vars) : Prop :=
  match user with
  | Nobody => v = mkVars 0 0 [] false false
  | ById n =>
      match group with
      | Nobody => ∃ u g, LookupId (fmt_d n) = Some u ∧ denotes (Gid u) g ∧ v = mkVars n g (numeric_groups u) true true
      | _ => v = mkVars n 0 [] true false
      end
  | ByName name => ∃ u i, Lookup name = Some u ∧ denotes (Uid u) i ∧
      match group with
      | Nobody => ∃ g, denotes (Gid u) g ∧ v = mkVars i g (numeric_groups u) true true
      | _ => v = mkVars i 0 (numeric_groups u) true false
      end
  end.

Lemma Ok_iff {A} (a b : A) : @Ok cred_err A a = Ok b ↔ b = a.
Proof. split; [by intros [= ->]|by intros ->]. Qed.

Lemma resolve_user_ok userName groupName userID groupID v : valid (asked userID userName) →
  resolve_user Lookup LookupId userName groupName userID groupID = Ok v ↔
  user_vars (asked userID userName) (asked groupID groupName) v.
Proof.
  intros Hv. unfold resolve_user, asked in *. destruct userID as [n|]; [cbn in Hv; rewrite !(uint32_id n Hv)|].
  - destruct groupID as [m|]; [rewrite (bool_decide_false (Some m = None)) by done; cbn [andb]; by rewrite Ok_iff|].
    rewrite (bool_decide_true (None = None)) by done. cbn [andb user_vars].
    case_bool_decide; [|by rewrite Ok_iff]. destruct (LookupId (fmt_d n)) as [u|]; [|naive_solver].
    rewrite bind_parse. setoid_rewrite Ok_iff. naive_solver.
  - case_bool_decide; cbn [user_vars]; [by rewrite Ok_iff|]. destruct (Lookup userName) as [u|]; [|naive_solver].
    rewrite bind_parse. destruct groupID as [m|]; [rewrite (bool_decide_false (Some m = None)) by done; cbn [andb]; setoid_rewrite Ok_iff; naive_solver|]. rewrite (bool_decide_true (None = None)) by done.
    cbn [andb]. case_bool_decide; [setoid_rewrite bind_parse|]; setoid_rewrite Ok_iff; naive_solver.
Qed.

Lemma resolve_group_ok groupName groupID v w : valid (asked groupID groupName) →
  resolve_group LookupGroup groupName groupID v = Ok w ↔
  match asked groupID groupName with
  | Nobody => w = v
  | g => ∃ n, group_is LookupGroup g n ∧ w = mkVars (uid v) n (groups v) (hasUser v) true
  end.
Proof.
  intros Hv. unfold resolve_group, asked in *. destruct groupID as [m|]; [cbn in Hv; rewrite (uint32_id m Hv), Ok_iff; naive_solver|].
  case_bool_decide; [by rewrite Ok_iff|]. cbn [group_is]. destruct (LookupGroup groupName) as [g|]; [|naive_solver].
  rewrite bind_parse. setoid_rewrite Ok_iff. naive_solver.
Qed.

(** The last lines of the function: what the variables give. *)
Definition credential_of (explicit strict : bool) (v : vars) : option Cred :=
  if hasUser v then Some (mkCred (uid v) (gid v) (if strict && explicit then [gid v] else groups v))
  else if hasGroup v then Some (mkCred (uint32 getuid) (gid v) [gid v]) else None.

Definition is_asked (w : who) : bool := match w with Nobody => false | _ => true end.

Lemma explicit_asked groupID groupName :
  bool_decide (groupID ≠ None) || bool_decide (groupName ≠ "") = is_asked (asked groupID groupName).
Proof. destruct groupID as [n|]; [done|]. cbn. destruct (decide (groupName = "")) as [->|H]; [done|]. by rewrite bool_decide_true, bool_decide_false. Qed.

Lemma resolve_ok userName groupName userID groupID strict r :
  ResolveCredential Lookup LookupId LookupGroup getuid userName groupName userID groupID strict = Ok r ↔
  valid (asked userID userName) ∧ valid (asked groupID groupName) ∧
  ∃ v w, user_vars (asked userID userName) (asked groupID groupName) v ∧
    match asked groupID groupName with
    | Nobody => w = v
    | g => ∃ n, group_is LookupGroup g n ∧ w = mkVars (uid v) n (groups v) (hasUser v) true
    end ∧ r = credential_of (is_asked (asked groupID groupName)) strict w.
Proof.
  unfold ResolveCredential. rewrite <- (validate_ok "user-id" userID userName), <- (validate_ok "group-id" groupID groupName).
  destruct (validateNumericID "user-id" userID) as [[]|] eqn:E1; [|naive_solver].
  destruct (validateNumericID "group-id" groupID) as [[]|] eqn:E2; [|naive_solver]. cbn [mbind result_bind].
  apply (validate_ok _ _ userName) in E1. apply (validate_ok _ _ groupName) in E2. rewrite explicit_asked.
  assert (Hfin : ∀ w, (if negb (hasUser w) && negb (hasGroup w) then Ok None
      else let v := if negb (hasUser w) && hasGroup w then mkVars (uint32 getuid) (gid w) [gid w] (hasUser w) (hasGroup w) else w in
           Ok (Some (mkCred (uid v) (gid v) (if strict && hasUser v && is_asked (asked groupID groupName) then [gid v] else groups v)))) =
      @Ok cred_err _ (credential_of (is_asked (asked groupID groupName)) strict w)).
  { intros [u g gs hu hg]. unfold credential_of. cbn. destruct hu, hg; cbn; rewrite ?andb_true_r, ?andb_false_r; done. }
  setoid_rewrite <- (resolve_user_ok userName groupName userID groupID _ E1).
  setoid_rewrite <- (resolve_group_ok groupName groupID _ _ E2).
  destruct (resolve_user Lookup LookupId userName groupName userID groupID) as [v|]; cbn [mbind result_bind]; [|naive_solver].
  destruct (resolve_group LookupGroup groupName groupID v) as [w|] eqn:Ew; cbn [mbind result_bind]; [|naive_solver congruence].
  rewrite Hfin. split; [intros [= <-]; split_and!; eauto|]. intros (_ & _ & v' & w' & [= <-] & Hw' & ->). congruence.
Qed.

Ltac opened := repeat match goal with H : ∃ _, _ |- _ => destruct H as [? H] | H : _ ∧ _ |- _ => destruct H end.

(** The variables at the end, for a request. *)
Definition final_vars (u g : who) (w : vars) : Prop :=
  ∃ v, user_vars u g v ∧
    match g with
    | Nobody => w = v
    | g => ∃ n, group_is LookupGroup g n ∧ w = mkVars (uid v) n (groups v) (hasUser v) true
    end.

Lemma final_none u g strict : (∃ w, final_vars u g w ∧ None = credential_of (is_asked g) strict w) ↔ u = Nobody ∧ g = Nobody.
Proof.
  unfold final_vars. split.
  - intros (w & (v & Hu & Hg) & Hn). destruct u, g; cbn in *; naive_solver.
  - intros [-> ->]. eexists. split; [eexists; split; reflexivity|done].
Qed.

Lemma final_grants u g strict c :
  (∃ w, final_vars u g w ∧ Some c = credential_of (is_asked g) strict w) ↔ grants Lookup LookupId LookupGroup getuid u g strict c.
Proof.
  destruct c as [cu cg cgs]. unfold final_vars. split.
  - intros (w & (v & Hu & Hg) & Hc). destruct u, g, strict; cbn in *; opened; subst; unfold credential_of in Hc; simplify_eq/=; eauto 12.
  - intros H. unfold credential_of. destruct u, g, strict; cbn in *; opened; simplify_eq/=; try done;
    (eexists; split; [eexists; split; [eauto 9|cbn; eauto 9]|cbn; done]).
Qed.

Lemma group_is_range g n : valid g → group_is LookupGroup g n → in_uint32 n.
Proof. destruct g; cbn; [done|by intros ? ->|]. intros _ (s & _ & Hs). by eapply denotes_range. Qed.

Lemma grants_range u g strict c : valid u → valid g → grants Lookup LookupId LookupGroup getuid u g strict c →
  in_uint32 (cUid c) ∧ in_uint32 (cGid c) ∧ Forall in_uint32 (cGroups c).
Proof.
  intros Hu Hg H. pose proof (uint32_range getuid) as Hme. pose proof numeric_range as Hnum. pose proof denotes_range as Hden.
  assert (Hgr : ∀ n, group_is LookupGroup g n → in_uint32 n) by (intros n; by apply group_is_range).
  assert (Hone : ∀ n, in_uint32 n → Forall in_uint32 [n]) by (intros n Hn; by rewrite Forall_singleton).
  destruct c as [cu cg cgs]; destruct u, g, strict; cbn -[in_uint32] in *; destruct_and?; try done;
    opened; subst; split_and!; eauto 6 using Forall_nil.
Qed.

Lemma resolved_iff userName groupName userID groupID strict :
  let resolved := ResolveCredential Lookup LookupId LookupGroup getuid userName groupName userID groupID strict in
  (resolved = Ok None ↔ asked userID userName = Nobody ∧ asked groupID groupName = Nobody) ∧
  ∀ c, resolved = Ok (Some c) ↔
    (valid (asked userID userName) ∧ valid (asked groupID groupName)) ∧
    grants Lookup LookupId LookupGroup getuid (asked userID userName) (asked groupID groupName) strict c.
Proof.
  assert (Hok : ∀ r, ResolveCredential Lookup LookupId LookupGroup getuid userName groupName userID groupID strict = Ok r ↔
    (valid (asked userID userName) ∧ valid (asked groupID groupName)) ∧
    ∃ w, final_vars (asked userID userName) (asked groupID groupName) w ∧ r = credential_of (is_asked (asked groupID groupName)) strict w).
  { intros r. rewrite resolve_ok. unfold final_vars. destruct (asked groupID groupName); (split;
    [intros (? & ? & v & w & ? & ? & ?); split; [done|]; exists w; split; [by exists v|done]
    |intros ([? ?] & w & (v & ? & ?) & ?); split_and!; try done; by exists v, w]). }
  cbv zeta. split; [|intros c].
  - rewrite Hok, final_none. split; [by intros [_ ?]|]. intros [-> ->]. split_and!; done.
  - by rewrite Hok, final_grants.
Qed.

(** C14: a child gets the credentials its configuration asks for, or it is an
    error.  Nothing is set exactly when neither a user nor a group is given.
    Otherwise a credential is granted exactly when the numeric ids fit 32 bits
    and the entries that are needed exist, and it is the one of the table: ids
    are never truncated, a user without a group gets the primary and
    supplementary groups of its own entry (never those of the daemon), a group
    without a user keeps the uid and drops every other group, and strict mode
    leaves only an explicit group. *)
Theorem credential_granted (userName groupName : string) (userID groupID : option Z) (strict : bool) :
  let resolved := ResolveCredential Lookup LookupId LookupGroup getuid userName groupName userID groupID strict in
  (resolved = Ok None ↔ asked userID userName = Nobody ∧ asked groupID groupName = Nobody) ∧
  ∀ c, (resolved = Ok (Some c) ↔
    (valid (asked userID userName) ∧ valid (asked groupID groupName)) ∧
    grants Lookup LookupId LookupGroup getuid (asked userID userName) (asked groupID groupName) strict c) ∧
    (resolved = Ok (Some c) → in_uint32 (cUid c) ∧ in_uint32 (cGid c) ∧ Forall in_uint32 (cGroups c)).
Proof.
  destruct (resolved_iff userName groupName userID groupID strict) as [H1 H2]. cbv zeta. split; [exact H1|]. intros c. split; [apply H2|].
  rewrite H2. intros [[Hu Hg] H]. exact (grants_range _ _ _ _ Hu Hg H).
Qed.

End granted.

(** A small passwd and group database. *)
Definition demo_user (name : string) : option User :=
  if bool_decide (name = "app") || bool_decide (name = "1000") then Some (mkUser "1000" "1000" (Some ["1000"; "998"; "x"])) else None.
Definition demo_group (name : string) : option string := if bool_decide (name = "web") then Some "33" else None.

Lemma credential_granted_witness :
  ResolveCredential demo_user demo_user demo_group 0 "app" "web" None None false = Ok (Some (mkCred 1000 33 [1000; 998])) ∧
  in_uint32 33.
Proof.
  destruct (credential_granted demo_user demo_user demo_group 0 "app" "web" None None false) as [_ H].
  destruct (H (mkCred 1000 33 [1000; 998])) as [[_ Hgrant] Hrange].
  assert (Hr : ResolveCredential demo_user demo_user demo_group 0 "app" "web" None None false = Ok (Some (mkCred 1000 33 [1000; 998]))).
  { apply Hgrant. split; [done|]. cbn. eexists. split; [reflexivity|]. split; [reflexivity|]. split; [|reflexivity]. eexists. split; reflexivity. }
  split; [exact Hr|]. exact (proj1 (proj2 (Hrange Hr))).
Defined.

(** The four ways of naming a user and a group, the unknown uid, and the bounds
    of a numeric id.  The largest id accepted is (uid_t)-1. *)
Example credential_ex :
  let resolve := ResolveCredential demo_user demo_user demo_group 0 in
  resolve "" "" (Some 1000) None false = Ok (Some (mkCred 1000 1000 [1000; 998])) ∧
  resolve "" "" (Some 1000) (Some 7) false = Ok (Some (mkCred 1000 7 [])) ∧
  resolve "app" "web" None None true = Ok (Some (mkCred 1000 33 [33])) ∧
  resolve "" "web" None None false = Ok (Some (mkCred 0 33 [33])) ∧
  resolve "" "" (Some 5) None false = Err (EUserIdUnknown 5) ∧
  resolve "" "" (Some (2 ^ 32)) (Some 0) false = Err (EIdRange "user-id" (2 ^ 32)) ∧
  resolve "" "" (Some (2 ^ 32 - 1)) (Some 0) false = Ok (Some (mkCred (2 ^ 32 - 1) 0 [])).
Proof. vm_compute. repeat split. Qed.

End Credential.
