(* ===== verification/SdNotify.v ===== *)
(** * Readiness notifications: src/internal/sdnotify

    The listener a service reports its state to.  Its read loop is a function
    of what the socket returns; [syscall.ParseSocketControlMessage] and
    [ParseUnixCredentials] are part of what a datagram brings. *)

From S2P Require Import Prelude GoStrings.

Open Scope string_scope.
Open Scope list_scope.
Open Scope Z_scope.

Module SdNotify.

Definition readBufSize : nat := Z.to_nat 4096.

(** A control message: credentials ([None]: they do not parse) or another kind. *)
Inductive scm :=
  | ScmOther
  | ScmCredentials (uid : option Z).

(** The control messages of a datagram; [None] when they do not parse. *)
Definition ancillary : Type := option (list scm).

Fixpoint first_credentials (l : list scm) : option Z :=
  match l with
  | [] => None
  | ScmOther :: l => first_credentials l
  | ScmCredentials uid :: _ => uid
  end.

Definition parseSenderUID (oob : ancillary) : option Z := l ← oob; first_credentials l.

(** [Listener]; [readyCh] counts how often the channel has been closed (a second
    close panics). *)
Record Listener := mkListener {
  allowedUID : Z;
  ready : bool;
  readyCh : nat;
  stopping : bool;
  status : string;
  closed : bool;
  reading : bool;
}.

(** The name of the socket, in the abstract name space. *)
Definition notify_path (pid : Z) (name nonce : string) : string :=
  "@gopherd-sd-notify-" +:+ fmt_d pid +:+ "-" +:+ name +:+ "-" +:+ nonce.

Definition Listen (uid : Z) : Listener := mkListener uid false 0 false "" false true.

(** On Linux ([credEnabled]): the child's uid or root. *)
Definition authorized (credEnabled : bool) (n : Listener) (oob : ancillary) : bool :=
  if negb credEnabled then true
  else match parseSenderUID oob with
       | None => false
       | Some uid => (uid =? allowedUID n) || (uid =? 0)
       end.

(** One line of a datagram: its key and value. *)
Definition record_of (line : string) : option (string * string) :=
  let line := TrimSpace line in
  if bool_decide (line = "") then None
  else
    let '(key, val, found) := Cut line "=" in
    if negb found || bool_decide (key = "") then None else Some (key, val).

Definition apply_record (n : Listener) (r : string * string) : Listener :=
  let '(key, val) := r in
  if bool_decide (key = "READY") then
    if bool_decide (val = "1") && negb (ready n) then
      mkListener (allowedUID n) true (S (readyCh n)) (stopping n) (status n) (closed n) (reading n)
    else n
  else if bool_decide (key = "STOPPING") then
    if bool_decide (val = "1") then mkListener (allowedUID n) (ready n) (readyCh n) true (status n) (closed n) (reading n) else n
  else if bool_decide (key = "STATUS") then
    mkListener (allowedUID n) (ready n) (readyCh n) (stopping n) val (closed n) (reading n)
  else n.

Definition parse (n : Listener) (data : string) : Listener :=
  foldl apply_record n (omap record_of (Split "010" data)).

(** What happens at the socket: a datagram (cut at the buffer), a timeout,
    another error, or [Close], which makes the next read fail. *)
Inductive event :=
  | Datagram (oob : ancillary) (data : string)
  | ReadTimeout
  | ReadError
  | CloseCalled.

Definition stop_reading (n : Listener) : Listener :=
  mkListener (allowedUID n) (ready n) (readyCh n) (stopping n) (status n) (closed n) false.

Definition Close (n : Listener) : Listener :=
  mkListener (allowedUID n) (ready n) (readyCh n) (stopping n) (status n) true (reading n).

(** One round of [readLoop], or a call of [Close]. *)
Definition step (credEnabled : bool) (n : Listener) (e : event) : Listener :=
  match e with
  | CloseCalled => Close n
  | _ =>
      if negb (reading n) then n
      else match e with
           | Datagram oob data =>
               if negb (authorized credEnabled n oob) then n else parse n (take_str readBufSize data)
           | ReadTimeout => if closed n then stop_reading n else n
           | _ => stop_reading n
           end
  end.

(** [WaitReady]: returns at once when the channel is closed; [ctxDone] otherwise
    decides. *)
Inductive wait_result := WReady | WCanceled | WBlocks.

Definition WaitReady (n : Listener) (ctxDone : bool) : list wait_result :=
  (if Nat.ltb 0 (readyCh n) then [WReady] else []) ++ (if ctxDone then [WCanceled] else []) ++
  (if Nat.ltb 0 (readyCh n) || ctxDone then [] else [WBlocks]).

(** ** What was reported *)

(** The records that count: those of datagrams read and authorized, in order.
    The loop reads until an error, or a timeout after [Close]. *)
Fixpoint reported (credEnabled : bool) (uid : Z) (closed reading : bool) (evs : list event) : list (string * string) :=
  match evs with
  | [] => []
  | Datagram oob data :: evs =>
      (if reading && (negb credEnabled || match parseSenderUID oob with Some u => (u =? uid) || (u =? 0) | None => false end)
       then omap record_of (Split "010" (take_str readBufSize data)) else []) ++ reported credEnabled uid closed reading evs
  | ReadTimeout :: evs => reported credEnabled uid closed (reading && negb closed) evs
  | ReadError :: evs => reported credEnabled uid closed false evs
  | CloseCalled :: evs => reported credEnabled uid true reading evs
  end.

(** The values of a key among the records. *)
Definition values (key : string) (rs : list (string * string)) : list string :=
  omap (λ r, if bool_decide (r.1 = key) then Some r.2 else None) rs.

(** The state after the records [rs], from a fresh listener. *)
Definition tracks (n : Listener) (rs : list (string * string)) : Prop :=
  (ready n = true ↔ "1" ∈ values "READY" rs) ∧ readyCh n = (if ready n then 1 else 0)%nat ∧
  (stopping n = true ↔ "1" ∈ values "STOPPING" rs) ∧ status n = default "" (last (values "STATUS" rs)).

Lemma values_snoc key rs r : values key (rs ++ [r]) = values key rs ++ (if bool_decide (r.1 = key) then [r.2] else []).
Proof. unfold values. rewrite omap_app. cbn. by case_bool_decide. Qed.

Lemma tracks_record n rs r : tracks n rs → tracks (apply_record n r) (rs ++ [r]).
Proof.
  intros (Hr & Hc & Hs & Ht). destruct r as [key val]. unfold tracks. rewrite !values_snoc. unfold apply_record. cbn [fst snd].
  destruct (bool_decide_reflect (key = "READY")) as [->|H1]; [|destruct (bool_decide_reflect (key = "STOPPING")) as [->|H2];
    [|destruct (bool_decide_reflect (key = "STATUS")) as [->|H3]]]; cbn -[values]; rewrite ?app_nil_r.
  - destruct (bool_decide_reflect (val = "1")) as [->|Hv], (ready n) eqn:E; cbn -[values]; rewrite ?E, ?elem_of_app, ?list_elem_of_singleton;
      split_and!; try done; try (by rewrite Hc); naive_solver.
  - destruct (bool_decide_reflect (val = "1")) as [->|Hv]; cbn -[values]; rewrite ?elem_of_app, ?list_elem_of_singleton; split_and!; naive_solver.
  - split_and!; try done. by rewrite last_snoc.
  - done.
Qed.

Lemma tracks_parse n rs more : tracks n rs → tracks (foldl apply_record n more) (rs ++ more).
Proof.
  revert n rs. induction more as [|r more IH]; intros n rs H; [by rewrite app_nil_r|]. cbn [foldl].
  replace (rs ++ r :: more) with ((rs ++ [r]) ++ more) by (by rewrite <- app_assoc). by apply IH, tracks_record.
Qed.

Lemma apply_fixed n r : allowedUID (apply_record n r) = allowedUID n ∧ closed (apply_record n r) = closed n ∧ reading (apply_record n r) = reading n.
Proof. destruct r as [k v]. unfold apply_record. repeat case_match; done. Qed.

Lemma parse_fixed n rs : let n' := foldl apply_record n rs in allowedUID n' = allowedUID n ∧ closed n' = closed n ∧ reading n' = reading n.
Proof.
  revert n. induction rs as [|r rs IH]; intros n; [done|]. cbn [foldl]. destruct (IH (apply_record n r)) as (-> & -> & ->). apply apply_fixed.
Qed.

Lemma tracks_events cred evs : ∀ n rs, tracks n rs →
  tracks (foldl (step cred) n evs) (rs ++ reported cred (allowedUID n) (closed n) (reading n) evs).
Proof.
  induction evs as [|e evs IH]; intros n rs H; [cbn; by rewrite app_nil_r|]. cbn [foldl reported].
  destruct e as [oob data| | |]; cbn [step].
  - destruct (reading n) eqn:Er; cbn [negb andb]; [|specialize (IH n rs H); by rewrite Er in IH].
    assert (Ha : authorized cred n oob = negb cred || match parseSenderUID oob with Some u => (u =? allowedUID n) || (u =? 0) | None => false end)
      by (unfold authorized; by destruct cred).
    rewrite <- Ha. destruct (authorized cred n oob); cbn [negb].
    + unfold parse. set (more := omap record_of _). destruct (parse_fixed n more) as (E1 & E2 & E3).
      specialize (IH _ _ (tracks_parse n rs more H)). rewrite E1, E2, E3, Er in IH. by rewrite app_assoc.
    + specialize (IH n rs H). by rewrite Er in IH.
  - destruct (reading n) eqn:Er; cbn [negb andb]; [|specialize (IH n rs H); by rewrite Er in IH].
    destruct (closed n) eqn:Ec; cbn [negb]; [|specialize (IH n rs H); by rewrite Er, Ec in IH].
    specialize (IH (stop_reading n) rs H). cbn in IH. by rewrite Ec in IH.
  - destruct (reading n) eqn:Er; cbn [negb]; [exact (IH (stop_reading n) rs H)|specialize (IH n rs H); by rewrite Er in IH].
  - exact (IH (Close n) rs H).
Qed.


(** A message cut at the buffer; a foreign sender; READY twice. *)
Example listener_ex :
  let own := Some [ScmOther; ScmCredentials (Some 1000)] in
  let n := foldl (step true) (Listen 1000)
    [Datagram own ("STATUS=warming up" +:+ str1 "010" +:+ "MAINPID=7"); Datagram (Some [ScmCredentials (Some 1001)]) "STOPPING=1";
     Datagram None "STOPPING=1"; Datagram own ("READY=1" +:+ str1 "010" +:+ " READY=1"); ReadTimeout; CloseCalled; ReadTimeout; Datagram own "STATUS=late"] in
  ready n = true ∧ readyCh n = 1%nat ∧ stopping n = false ∧ status n = "warming up" ∧ reading n = false.
Proof. vm_compute. repeat split. Qed.

End SdNotify.
