(* ===== verification/GoPath.v ===== *)
(** * Package path/filepath on Unix, as the sources use it *)

From S2P Require Import Prelude GoStrings.

Open Scope string_scope.
Open Scope list_scope.
Open Scope nat_scope.

Module GoPath.

Definition slash : ascii := "/".

(** [Clean]: empty and "." components go, ".." takes the one before with it; at
    the root it goes too, and at the start of a relative path it stays. *)
Definition clean_step (rooted : bool) (stack : list string) (c : string) : list string :=
  if bool_decide (c = "") || bool_decide (c = ".") then stack
  else if bool_decide (c = "..") then
    match stack with
    | top :: st => if bool_decide (top = "..") then c :: stack else st
    | [] => if rooted then [] else [c]
    end
  else c :: stack.

Definition components (rooted : bool) (p : string) : list string := rev (foldl (clean_step rooted) [] (Split slash p)).

(** The path of a list of components. *)
Definition render (rooted : bool) (cs : list string) : string :=
  if rooted then "/" +:+ Join cs "/" else match cs with [] => "." | _ => Join cs "/" end.
Definition abs (cs : list string) : string := render true cs.

Definition Clean (p : string) : string :=
  if bool_decide (p = "") then "." else render (HasPrefix p "/") (components (HasPrefix p "/") p).

(** The text before the last slash. *)
Fixpoint before_last (s : string) : option string :=
  match s with
  | "" => None
  | String a s' =>
      match before_last s' with
      | Some r => Some (String a r)
      | None => if bool_decide (a = slash) then Some "" else None
      end
  end.

Definition Dir (p : string) : string :=
  match before_last p with Some d => Clean (d +:+ "/") | None => "." end.

Definition IsAbs (p : string) : bool := HasPrefix p "/".

(** The text after the last slash. *)
Fixpoint after_last (s : string) : string :=
  match s with
  | "" => ""
  | String a s' => if bool_decide (a = slash) then after_last s' else if str_in slash s' then after_last s' else s
  end.

Definition Base (p : string) : string :=
  if bool_decide (p = "") then "."
  else let b := after_last (TrimRight p "/") in if bool_decide (b = "") then "/" else b.

(** [Join] of two elements, the second not empty. *)
Definition join2 (a b : string) : string := if bool_decide (a = "") then Clean b else Clean (a +:+ "/" +:+ b).

Example paths_ex :
  Clean "/a//b/./../c/" = "/a/c" ∧ Clean "/../a" = "/a" ∧ Clean "../../a/.." = "../.." ∧ Clean "a/.." = "." ∧
  Dir "/a/b" = "/a" ∧ Dir "/a" = "/" ∧ Dir "a" = "." ∧ Dir ".." = "." ∧ join2 "/" "x" = "/x" ∧ join2 "/a/" "x" = "/a/x" ∧
  Base "/a/b" = "b" ∧ Base "/a//" = "a" ∧ Base "/" = "/" ∧ Base "" = "." ∧ Base "ab" = "ab".
Proof. vm_compute. repeat split. Qed.

(** ** Components *)

(** A component of a clean path. *)
Definition comp_ok (c : string) : Prop := c ≠ "" ∧ str_in slash c = false.

(** A list of components no step of [Clean] changes. *)
Definition clean_list (r : bool) (cs : list string) : Prop :=
  Forall comp_ok cs ∧ foldl (clean_step r) [] cs = rev cs.

Lemma Split_parts sep s : Forall (λ c, str_in sep c = false) (Split sep s).
Proof.
  induction s as [|a s IH]; cbn [Split]; [by repeat constructor|].
  case_bool_decide; [by constructor|]. destruct (Split sep s) as [|p ps]; apply Forall_cons_2 || idtac.
  - cbn. rewrite bool_decide_false by congruence. done.
  - done.
  - inversion IH; subst. cbn [str_in]. rewrite bool_decide_false by congruence. done.
  - by inversion IH.
Qed.

Lemma clean_step_cases r st c :
  (clean_step r st c = st ∧ (c = "" ∨ c = "." ∨ (c = ".." ∧ r = true ∧ st = []))) ∨ (∃ x, st = x :: clean_step r st c ∧ c = ".." ∧ x ≠ "..") ∨
  (clean_step r st c = c :: st ∧ c ≠ "" ∧ c ≠ "." ∧ (c = ".." → st = [] ∧ r = false ∨ ∃ st', st = ".." :: st')).
Proof.
  unfold clean_step. destruct (bool_decide_reflect (c = "")) as [->|H1]; [left; by auto|].
  destruct (bool_decide_reflect (c = ".")) as [->|H2]; [left; by auto|]. cbn [orb].
  destruct (bool_decide_reflect (c = "..")) as [->|H3]; [|right; right; done].
  destruct st as [|top st]; [destruct r; [left; by auto 10|right; right; by auto 10]|].
  destruct (bool_decide_reflect (top = "..")) as [->|H4]; [right; right; split_and!; eauto|right; left; eauto].
Qed.

Lemma fold_ok r l : ∀ st, Forall (λ c, str_in slash c = false) l → Forall comp_ok st → Forall comp_ok (foldl (clean_step r) st l).
Proof.
  induction l as [|c l IH]; intros st Hl Hst; [done|]. inversion Hl as [|? ? Hc Hl']; subst. cbn [foldl]. apply IH; [done|].
  destruct (clean_step_cases r st c) as [[-> _]|[(x & Hx & _)|[-> (H & _)]]]; [done| |by constructor].
  rewrite Hx in Hst. by inversion Hst.
Qed.

(** The stack of [Clean], read from the bottom, is a clean list. *)
Definition stack_ok (r : bool) (st : list string) : Prop :=
  foldl (clean_step r) [] (rev st) = st ∧ Forall (λ c, c ≠ "" ∧ c ≠ ".") st.

Lemma stack_pop r x st : stack_ok r (x :: st) → stack_ok r st.
Proof.
  intros [Hst Hall]. inversion Hall as [|? ? [Hx1 Hx2] Hall']; subst. split; [|done].
  cbn [rev] in Hst. rewrite foldl_app in Hst. cbn [foldl] in Hst.
  assert (Hlen : ∀ l st0, length (foldl (clean_step r) st0 l) ≤ length st0 + length l).
  { induction l as [|c l IH]; intros st0; cbn [foldl length]; [lia|]. specialize (IH (clean_step r st0 c)).
    destruct (clean_step_cases r st0 c) as [[E _]|[(y & E & _)|[E _]]]; [rewrite E in IH |- *; lia| |rewrite E in IH |- *; cbn in IH; lia].
    apply (f_equal length) in E. cbn in E. lia. }
  specialize (Hlen (rev st) []). rewrite length_rev in Hlen. cbn in Hlen. set (st1 := foldl _ [] (rev st)) in *.
  destruct (clean_step_cases r st1 x) as [[E _]|[(y & E & _)|[E _]]].
  - rewrite E in Hst. rewrite Hst in Hlen. cbn in Hlen. lia.
  - rewrite Hst in E. rewrite E in Hlen. cbn in Hlen. lia.
  - rewrite E in Hst. by injection Hst.
Qed.

Lemma fold_stack r l : ∀ st, stack_ok r st → stack_ok r (foldl (clean_step r) st l).
Proof.
  induction l as [|c l IH]; intros st Hst; [done|]. cbn [foldl]. apply IH.
  destruct (clean_step_cases r st c) as [[-> _]|[(x & Hx & _)|[Hp (H1 & H2 & _)]]]; [done| |].
  - rewrite Hx in Hst. by eapply stack_pop.
  - destruct Hst as [Hst Hall]. split; [|rewrite Hp; by constructor].
    rewrite Hp. cbn [rev]. rewrite foldl_app, Hst. exact Hp.
Qed.

Lemma components_clean r p : clean_list r (components r p).
Proof.
  unfold clean_list, components. split; [apply Forall_rev, fold_ok; [apply Split_parts|constructor]|].
  rewrite rev_involutive. apply fold_stack. by split; [|constructor].
Qed.

Lemma clean_list_dots r cs : clean_list r cs → Forall (λ c, c ≠ ".") cs.
Proof.
  intros [_ Hf]. assert (H : stack_ok r (foldl (clean_step r) [] cs)) by (apply fold_stack; split; [done|constructor]).
  destruct H as [_ H]. rewrite Hf in H. apply Forall_rev in H. rewrite rev_involutive in H.
  eapply Forall_impl; [exact H|]. by intros ? [_ ?].
Qed.

(** A prefix of a clean list is one. *)
Lemma clean_prefix r cs c : clean_list r (cs ++ [c]) → clean_list r cs.
Proof.
  intros H. pose proof (clean_list_dots _ _ H) as Hd. destruct H as [Hok Hf].
  assert (Hs : stack_ok r (c :: rev cs)).
  { split.
    - cbn [rev]. rewrite rev_involutive, Hf. by rewrite rev_app_distr.
    - apply Forall_app in Hok as [Hok [Hc _]%Forall_cons]. apply Forall_app in Hd as [Hd [Hdc _]%Forall_cons].
      constructor; [by destruct Hc|]. apply Forall_rev, Forall_and. split; [|done]. eapply Forall_impl; [exact Hok|]. by intros ? [? _]. }
  apply stack_pop in Hs as [Hs _]. rewrite rev_involutive in Hs. split; [by apply Forall_app in Hok as [? _]|done].
Qed.

Lemma clean_prefixes r cs more : clean_list r (cs ++ more) → clean_list r cs.
Proof.
  induction more as [|c more IH] using rev_ind; [by rewrite app_nil_r|]. rewrite app_assoc. intros H%clean_prefix. auto.
Qed.

(** ** Rendering *)

Lemma Split_Join_more cs t : cs ≠ [] → Forall comp_ok cs → Split slash (Join cs "/" +:+ "/" +:+ t) = cs ++ Split slash t.
Proof.
  intros Hne Hok. induction cs as [|c cs IH]; [done|]. inversion Hok as [|? ? [_ Hc] Hok']; subst. destruct cs as [|c1 cs].
  - cbn [Join]. change (c +:+ "/" +:+ t) with (c +:+ String slash t). by rewrite Split_app.
  - change (Join (c :: c1 :: cs) "/" +:+ "/" +:+ t) with ((c +:+ "/" +:+ Join (c1 :: cs) "/") +:+ "/" +:+ t).
    rewrite !app_assoc_str. change (c +:+ "/" +:+ ?x) with (c +:+ String slash x). rewrite Split_app by done. by rewrite IH.
Qed.

Lemma Split_abs cs t : Forall comp_ok cs → Split slash (abs cs +:+ "/" +:+ t) = "" :: (match cs with [] => [""] | _ => cs end) ++ Split slash t.
Proof.
  intros Hok. unfold abs, render. rewrite app_assoc_str. change (Split slash ("/" +:+ ?x)) with ("" :: Split slash x). f_equal.
  destruct cs as [|c cs]; [done|]. by apply Split_Join_more.
Qed.

Lemma prefix_render r cs t : Forall comp_ok cs → (r = false → cs ≠ []) → HasPrefix (render r cs +:+ t) "/" = r.
Proof.
  intros Hok Hne. destruct r; cbn [render].
  - change (HasPrefix (String "/" (Join cs "/" +:+ t)) "/" = true). by rewrite HasPrefix_cons, bool_decide_true, HasPrefix_empty.
  - destruct cs as [|c cs]; [by destruct (Hne eq_refl)|]. inversion Hok as [|? ? [Hc Hs] _]; subst. destruct c as [|a c]; [done|].
    assert (Ha : a ≠ "/"%char) by (cbn in Hs; apply orb_false_iff in Hs as [Hs _]; apply bool_decide_eq_false in Hs; done).
    assert (∃ x, Join (String a c :: cs) "/" +:+ t = String a x) as [x ->] by (destruct cs; eexists; cbn; reflexivity).
    by rewrite HasPrefix_cons, bool_decide_false.
Qed.

(** The components of a rendered path, whatever follows the slash after it. *)
Lemma fold_rendered r cs t : clean_list r cs → (r = false → cs ≠ []) →
  foldl (clean_step r) [] (Split slash (render r cs +:+ "/" +:+ t)) = foldl (clean_step r) (rev cs) (Split slash t).
Proof.
  intros [Hok Hf] Hne. destruct r.
  - change (render true cs) with (abs cs). rewrite Split_abs by done. cbn [foldl]. rewrite foldl_app. change (clean_step true [] "") with (@nil string).
    destruct cs as [|c cs]; [done|]. by rewrite Hf.
  - cbn [render]. destruct cs as [|c cs]; [by destruct (Hne eq_refl)|]. rewrite Split_Join_more, foldl_app by done. by rewrite Hf.
Qed.

Lemma nonempty_app a b c : a +:+ String c b ≠ "".
Proof. by destruct a. Qed.

(** A clean path followed by a slash cleans to itself. *)
Lemma Clean_slash r cs : clean_list r cs → cs ≠ [] → Clean (render r cs +:+ "/") = render r cs.
Proof.
  intros H Hne. unfold Clean. rewrite bool_decide_false by apply nonempty_app. destruct H as [Hok Hf].
  rewrite prefix_render by done. f_equal. unfold components. change (render r cs +:+ "/") with (render r cs +:+ "/" +:+ "").
  rewrite fold_rendered by done. apply rev_involutive.
Qed.

(** Joining a component to an absolute clean path appends it. *)
Lemma join2_abs cs c : clean_list true (cs ++ [c]) → join2 (abs cs) c = abs (cs ++ [c]).
Proof.
  intros H. pose proof (clean_prefix _ _ _ H) as Hcs. unfold join2, Clean. rewrite bool_decide_false by (by destruct cs).
  rewrite bool_decide_false by apply nonempty_app. destruct H as [Hok Hf].
  unfold abs. rewrite prefix_render by (by destruct Hcs). f_equal.
  unfold components. rewrite fold_rendered by done. apply Forall_app in Hok as [_ [[_ Hc] _]%Forall_cons]. rewrite Split_one by done.
  destruct Hcs as [_ Hcs]. rewrite foldl_app, Hcs in Hf. by rewrite Hf, rev_involutive.
Qed.

(** An absolute path cleans to its components. *)
Lemma Clean_abs p : HasPrefix p "/" = true → Clean p = abs (components true p).
Proof. intros Hp. unfold Clean. rewrite bool_decide_false by (by intros ->). by rewrite Hp. Qed.

(** The components of a clean path are the list it was made from. *)
Lemma components_render r cs : clean_list r cs → components r (render r cs) = cs.
Proof.
  intros [Hok Hf]. unfold components. destruct cs as [|c cs]; [by destruct r|].
  assert (HS : Split slash (Join (c :: cs) "/") = c :: cs).
  { change "/" with (str1 slash). apply Split_Join; [done|]. eapply Forall_impl; [exact Hok|by intros ? [_ ?]]. }
  destruct r; unfold render.
  - change (Split slash ("/" +:+ ?x)) with ("" :: Split slash x). rewrite HS. cbn [foldl] in *.
    change (clean_step true [] "") with (@nil string). by rewrite Hf, rev_involutive.
  - by rewrite HS, Hf, rev_involutive.
Qed.

Lemma prefix_abs r cs : clean_list r cs → HasPrefix (render r cs) "/" = r.
Proof.
  intros H. destruct (decide (r = false ∧ cs = [])) as [[-> ->]|Hn]; [done|].
  rewrite <- (app_nil_r_str (render r cs)). apply prefix_render; [by destruct H|]. intros -> ->. by apply Hn.
Qed.

Lemma Clean_idem p : HasPrefix p "/" = true → Clean (Clean p) = Clean p.
Proof.
  intros Hp. rewrite (Clean_abs p Hp). pose proof (components_clean true p) as H. unfold abs.
  rewrite Clean_abs by (by rewrite prefix_abs). by rewrite components_render.
Qed.

Lemma before_last_none l : str_in slash l = false → before_last l = None.
Proof.
  induction l as [|a l IH]; [done|]. cbn. intros [Ha Hl]%orb_false_iff. rewrite IH by done.
  apply bool_decide_eq_false in Ha. by rewrite bool_decide_false.
Qed.

Lemma before_last_app d l : str_in slash l = false → before_last (d +:+ "/" +:+ l) = Some d.
Proof.
  intros Hl. induction d as [|a d IH]; cbn; [by rewrite (before_last_none l Hl)|]. cbn in IH. by rewrite IH.
Qed.

Lemma Join_snoc cs c : cs ≠ [] → Join (cs ++ [c]) "/" = Join cs "/" +:+ "/" +:+ c.
Proof.
  induction cs as [|c0 cs IH]; [done|]. intros _. destruct cs as [|c1 cs]; [done|].
  change (Join ((c0 :: c1 :: cs) ++ [c]) "/") with (c0 +:+ "/" +:+ Join ((c1 :: cs) ++ [c]) "/").
  rewrite IH by done. change (Join (c0 :: c1 :: cs) "/") with (c0 +:+ "/" +:+ Join (c1 :: cs) "/"). by rewrite !app_assoc_str.
Qed.

Lemma render_snoc r cs c : cs ≠ [] → render r (cs ++ [c]) = render r cs +:+ "/" +:+ c.
Proof.
  intros Hne. destruct r; cbn [render]; [by rewrite Join_snoc, app_assoc_str|].
  destruct cs as [|c0 cs]; [done|]. cbn [app]. change (c0 :: cs ++ [c]) with ((c0 :: cs) ++ [c]). by apply Join_snoc.
Qed.

(** The directory of a clean path is the path without its last component. *)
Lemma Dir_clean r cs c : clean_list r (cs ++ [c]) → Dir (render r (cs ++ [c])) = render r cs.
Proof.
  intros H. pose proof (clean_prefix _ _ _ H) as Hcs. destruct H as [Hok _]. apply Forall_app in Hok as [_ [[_ Hc] _]%Forall_cons].
  unfold Dir. destruct (decide (cs = [])) as [->|Hne].
  - destruct r; cbn [render app Join].
    + change ("/" +:+ c) with ("" +:+ "/" +:+ c). by rewrite before_last_app.
    + by rewrite before_last_none.
  - rewrite render_snoc by done. rewrite before_last_app by done. by apply Clean_slash.
Qed.

(** Every directory is a clean path. *)
Lemma Dir_render p : ∃ r cs, Dir p = render r cs ∧ clean_list r cs ∧ length cs ≤ S (String.length p).
Proof.
  assert (Hlen : ∀ s, length (Split slash s) ≤ S (String.length s)).
  { induction s as [|a s IH]; [done|]. cbn [Split String.length]. case_bool_decide; cbn [length]; [lia|].
    destruct (Split slash s); cbn in *; lia. }
  assert (Hfold : ∀ r l st, length (foldl (clean_step r) st l) ≤ length st + length l).
  { intros r. induction l as [|c l IH]; intros st0; cbn [foldl length]; [lia|]. specialize (IH (clean_step r st0 c)).
    destruct (clean_step_cases r st0 c) as [[E _]|[(y & E & _)|[E _]]]; [rewrite E in IH |- *; lia| |rewrite E in IH |- *; cbn in IH; lia].
    apply (f_equal length) in E. cbn in E. lia. }
  assert (Hdot : ∃ r cs, "." = render r cs ∧ clean_list r cs ∧ length cs ≤ S (String.length p))
    by (exists false, []; split_and!; [done|split; [constructor|done]|cbn; lia]).
  unfold Dir. destruct (before_last p) as [d|] eqn:E; [|exact Hdot]. unfold Clean. case_bool_decide; [exact Hdot|].
  eexists _, _. split; [reflexivity|]. split; [apply components_clean|]. unfold components. rewrite length_rev.
  specialize (Hfold (HasPrefix (d +:+ "/") "/") (Split slash (d +:+ "/")) []). specialize (Hlen (d +:+ "/")).
  assert (String.length (d +:+ "/") ≤ String.length p); [|cbn in *; lia].
  clear -E. revert d E. induction p as [|a p IH]; intros d; cbn [before_last]; [done|].
  destruct (before_last p) as [r|]; [|case_bool_decide; [intros [= <-]; cbn; lia|done]].
  intros [= <-]. specialize (IH r eq_refl). cbn in *. lia.
Qed.

End GoPath.
