(* ===== verification/Boot.v ===== *)
(** * The boot sequence: startServiceLayers, runLayerOneshots, startLayerNonOneshots and waitOneshot of src/run.go

    Layers are started one after the other.  In a layer the enabled oneshots are
    forked in order and then awaited together; then the long-running services
    are started, each in a goroutine of its own.  The machine below takes one
    event per iteration of a loop, per process that ends and per goroutine that
    returns, in whatever order they come; what the kernel, the checks and
    concurrent control clients answer is part of the event.  [d.services] does
    not change during the boot (a reload is refused until [d.started]). *)

From S2P Require Import Prelude GoTime Order Service DaemonState Daemon.

Open Scope string_scope.
Open Scope list_scope.
Open Scope nat_scope.

Module Boot.
Import DaemonState.

(** How a service of a layer ended up. *)
Inductive how :=
  | Skipped
  | Completed
  | Ignored (code : Z)
  | AlreadyUp
  | Ready
  | Failed.

Inductive stage :=
  | Oneshots
  | Services
  | Booted
  | Aborted.

#[global] Instance stage_eq_dec : EqDecision stage.
Proof. solve_decision. Defined.

Record boot := mkBoot {
  cur : list string;
  rest : list (list string);
  at_stage : stage;
  todo : list string;
  waiting : list string;
  fatal : bool;
  settled : gmap string how;
}.

(** The select of [waitOneshot]: the process ended, [Wait4] failed, or the timer
    fired. *)
Inductive wait_answer :=
  | Waited (ws : WaitStatus)
  | WaitError
  | TimerFirst.

(** The exit code, or an error; [None] blocks (there is no timer). *)
Definition waitOneshot (timeoutStr : string) (a : wait_answer) : option (option Z) :=
  let answered := match a with Waited ws => Some (waitStatusCode ws) | _ => None end in
  if bool_decide (timeoutStr = "") then match a with TimerFirst => None | _ => Some answered end
  else match ParseDuration timeoutStr with None => Some None | Some _ => Some answered end.

Inductive event :=
  (* one iteration of the loop over the layer's oneshots *)
  | EvOneshot (unmet : bool) (fork : bool)
  (* what [waitOneshot] saw first for a started oneshot *)
  | EvExit (name : string) (a : wait_answer)
  (* one iteration of the loop over the layer's long-running services *)
  | EvSpawn (up : bool)
  (* [startGated] returned *)
  | EvStarted (name : string) (err : option derr)
  (* the loops of a stage are through *)
  | EvNext.

Section boot.
Context (svcs : gmap string Service.Service).

Definition settle (n : string) (h : how) (b : boot) : boot :=
  mkBoot (cur b) (rest b) (at_stage b) (todo b) (waiting b) (fatal b) (<[n := h]> (settled b)).
Definition set_todo (l : list string) (b : boot) : boot :=
  mkBoot (cur b) (rest b) (at_stage b) l (waiting b) (fatal b) (settled b).
Definition set_waiting (l : list string) (b : boot) : boot :=
  mkBoot (cur b) (rest b) (at_stage b) (todo b) l (fatal b) (settled b).
Definition set_fatal (b : boot) : boot :=
  mkBoot (cur b) (rest b) (at_stage b) (todo b) (waiting b) true (settled b).
Definition abort (b : boot) : boot :=
  mkBoot (cur b) (rest b) Aborted (todo b) (waiting b) (fatal b) (settled b).

Definition is_oneshot (n : string) : bool :=
  match svcs !! n with Some s => Service.Enabled s && Service.Oneshot s | None => false end.

(** The start loop of [runLayerOneshots]. *)
Definition start_oneshot (n : string) (unmet fork : bool) (b : boot) : boot :=
  if negb (is_oneshot n) then b
  else if unmet then settle n Skipped b
  else if fork then set_waiting (n :: waiting b) b
  else abort b.

(** The result loop of [runLayerOneshots]. *)
Definition oneshot_result (n : string) (code : option Z) (b : boot) : boot :=
  match svcs !! n, code with
  | Some svc, Some raw =>
      let code := Service.RemapExitCode svc raw in
      if (code =? 0)%Z then settle n Completed b
      else if bool_decide (Service.OnFailure svc = Service.ActionIgnore) then settle n (Ignored code) b
      else set_fatal (settle n Failed b)
  | _, _ => set_fatal (settle n Failed b)
  end.

(** The loop of [startLayerNonOneshots]. *)
Definition spawn_service (n : string) (up : bool) (b : boot) : boot :=
  match svcs !! n with
  | None => settle n Skipped b
  | Some svc =>
      if negb (Service.Enabled svc) then settle n Skipped b
      else if Service.Oneshot svc then b
      else if Service.Scheduled svc then settle n Skipped b
      else if up then settle n AlreadyUp b
      else set_waiting (n :: waiting b) b
  end.

(** [startNonOneshot]: any error but these two is fatal. *)
Definition service_result (n : string) (err : option derr) (b : boot) : boot :=
  match err with
  | None => settle n Ready b
  | Some ErrAlreadyRunning => settle n AlreadyUp b
  | Some ErrConditionUnmet => settle n Skipped b
  | Some _ => abort (settle n Failed b)
  end.

Definition remove (n : string) (l : list string) : list string := filter (λ x, x ≠ n) l.

(** The loops are over: to the services of the layer, or to the next layer. *)
Definition next_stage (b : boot) : boot :=
  match at_stage b with
  | Oneshots =>
      if fatal b then abort b
      else mkBoot (cur b) (rest b) Services (cur b) [] false (settled b)
  | _ =>
      match rest b with
      | [] => mkBoot [] [] Booted [] [] false (settled b)
      | l :: rest => mkBoot l rest Oneshots l [] false (settled b)
      end
  end.

Definition startup_timeout (n : string) : string :=
  match svcs !! n with Some s => Service.pStartupTimeout (Service.Proc s) | None => "" end.

Definition boot_step (b : boot) (ev : event) : option boot :=
  match at_stage b, ev, todo b with
  | Oneshots, EvOneshot unmet fork, n :: l => Some (start_oneshot n unmet fork (set_todo l b))
  | Oneshots, EvExit n a, [] =>
      if bool_decide (n ∈ waiting b) then
        code ← waitOneshot (startup_timeout n) a;
        Some (oneshot_result n code (set_waiting (remove n (waiting b)) b))
      else None
  | Services, EvSpawn up, n :: l => Some (spawn_service n up (set_todo l b))
  | Services, EvStarted n err, _ =>
      if bool_decide (n ∈ waiting b) then Some (service_result n err (set_waiting (remove n (waiting b)) b)) else None
  | (Oneshots | Services), EvNext, [] => if bool_decide (waiting b = []) then Some (next_stage b) else None
  | _, _, _ => None
  end.

Fixpoint boot_run (evs : list event) (b : boot) : option boot :=
  match evs with
  | [] => Some b
  | ev :: evs => b' ← boot_step b ev; boot_run evs b'
  end.

(** [startServiceLayers] before the first layer. *)
Definition boot_start (layers : list (list string)) : boot :=
  match layers with
  | [] => mkBoot [] [] Booted [] [] false ∅
  | l :: rest => mkBoot l rest Oneshots l [] false ∅
  end.

End boot.

(** ** Order and progress *)

Section theorems.
Context (svcs : gmap string Service.Service) (layers : list (list string)).

Abbreviation boot_run := (boot_run svcs).
Abbreviation boot_step := (boot_step svcs).
Abbreviation is_oneshot := (is_oneshot svcs).

Definition final (b : boot) : Prop := at_stage b = Booted ∨ at_stage b = Aborted.

(** A start of the service was attempted, or it was passed over for good. *)
Definition reached (b : boot) (n : string) : Prop := n ∈ waiting b ∨ is_Some (settled b !! n).

(** What a run keeps: the layers [pre] are behind it. *)
Record boot_inv (pre : list (list string)) (b : boot) : Prop := {
  bi_layers : at_stage b ≠ Booted → layers = pre ++ cur b :: rest b;
  bi_booted : at_stage b = Booted → layers = pre ∧ cur b = [];
  bi_pre : ∀ n, n ∈ concat pre → is_Some (settled b !! n);
  bi_todo : ∀ n, n ∈ todo b → n ∈ cur b;
  bi_waiting : ∀ n, n ∈ waiting b → n ∈ cur b;
  bi_reached : ∀ n, reached b n → n ∈ concat pre ∨ n ∈ cur b;
  bi_oneshots : ∀ n, at_stage b = Oneshots → n ∈ cur b → is_oneshot n = true → n ∈ todo b ∨ reached b n;
  bi_services : ∀ n, at_stage b = Services → n ∈ cur b → (n ∈ todo b ∨ reached b n) ∧
                      (is_oneshot n = true → is_Some (settled b !! n));
}.

(** A failure is remembered until the boot is given up. *)
Definition fail_inv (b : boot) : Prop :=
  at_stage b ≠ Aborted → (∃ n, settled b !! n = Some Failed) → at_stage b = Oneshots ∧ fatal b = true.

Lemma boot_start_inv : boot_inv [] (boot_start layers) ∧ fail_inv (boot_start layers).
Proof.
  destruct layers as [|l rest] eqn:E; (split; [split|]); cbn; unfold reached; cbn; try done; try set_solver.
  all: try (intros n; rewrite ?lookup_empty; set_solver).
  all: try (intros _ [n Hn]; by rewrite lookup_empty in Hn).
Qed.

(** A step within a stage that deals with service [n]. *)
Record drift (n : string) (b b' : boot) : Prop := {
  l_cur : cur b' = cur b;
  l_rest : rest b' = rest b;
  l_stage : at_stage b' = at_stage b;
  l_todo : ∀ m, m ∈ todo b' → m ∈ todo b;
  l_left : ∀ m, m ∈ todo b → m ∈ todo b' ∨ m = n;
  l_keep : ∀ m, is_Some (settled b !! m) → is_Some (settled b' !! m);
  l_wait : ∀ m, m ∈ waiting b → m ∈ waiting b' ∨ (m = n ∧ is_Some (settled b' !! n));
  l_sent : ∀ m, m ∈ waiting b' → m ∈ waiting b ∨ m = n;
  l_new : ∀ m, reached b' m → reached b m ∨ m = n;
}.

(** ... and leaves it reached, where its stage is to. *)
Record local (n : string) (b b' : boot) : Prop := {
  l_drift : drift n b b';
  l_one : at_stage b = Oneshots → is_oneshot n = true → reached b' n;
  l_svc : at_stage b = Services → is_oneshot n = false → reached b' n;
}.

Lemma drift_abort pre n b b' : boot_inv pre b → at_stage b ≠ Booted → n ∈ cur b → drift n b b' → boot_inv pre (abort b').
Proof.
  intros [H1 H2 H3 H4 Hw H5 H6 H7] Hs Hn [L1 L2 L3 L4 L5 L6 L7 L7' L8]. split; cbn; rewrite ?L1, ?L2; auto; try done.
  - intros m Hm. destruct (L7' m Hm) as [?| ->]; auto.
  - intros m Hm. destruct (L8 m Hm) as [?| ->]; auto.
Qed.

Lemma local_inv pre n b b' : boot_inv pre b → n ∈ cur b → local n b b' → boot_inv pre b'.
Proof.
  intros [H1 H2 H3 H4 Hw H5 H6 H7] Hn [[L1 L2 L3 L4 L5 L6 L7 L7' L8] L9 L10].
  assert (Hmono : ∀ m, reached b m → reached b' m).
  { intros m [Hm|Hm]; [|right; auto]. destruct (L7 m Hm) as [?|[-> ?]]; [by left|by right]. }
  split; rewrite ?L1, ?L2, ?L3; auto.
  - intros m Hm. destruct (L7' m Hm) as [?| ->]; auto.
  - intros m Hm. destruct (L8 m Hm) as [?| ->]; auto.
  - intros m Hs Hm Ho. destruct (H6 m Hs Hm Ho) as [Ht|Hr]; [|auto]. destruct (L5 m Ht) as [?| ->]; auto.
  - intros m Hs Hm. destruct (H7 m Hs Hm) as [Ht Ho]. split; [|auto]. destruct Ht as [Ht|Hr]; [|auto].
    destruct (L5 m Ht) as [?| ->]; [auto|]. right. destruct (is_oneshot n) eqn:E; [right; auto|auto].
Qed.

Lemma abort_inv pre b : boot_inv pre b → at_stage b ≠ Booted → boot_inv pre (abort b).
Proof. intros [H1 H2 H3 H4 Hw H5 H6 H7] Hs. split; cbn; auto; done. Qed.

Lemma elem_of_remove n m l : m ∈ remove n l ↔ m ≠ n ∧ m ∈ l.
Proof. unfold remove. by rewrite list_elem_of_filter. Qed.

Lemma settled_insert b n h m : is_Some (settled b !! m) → is_Some (<[n := h]> (settled b) !! m).
Proof. intros H. destruct (decide (m = n)) as [->|]; [rewrite lookup_insert_eq|rewrite lookup_insert_ne by done]; eauto. Qed.

Lemma settled_insert_eq b n h : is_Some (<[n := h]> (settled b) !! n).
Proof. rewrite lookup_insert_eq. eauto. Qed.

Lemma settled_insert_inv b n h m : is_Some (<[n := h]> (settled b) !! m) → is_Some (settled b !! m) ∨ m = n.
Proof. destruct (decide (m = n)) as [->|]; [auto|]. rewrite lookup_insert_ne by done. auto. Qed.

(** Taking [n] off the list and settling it, sending it off, or passing it by. *)
Lemma take_drop n l b : todo b = n :: l → drift n b (set_todo l b).
Proof. intros Ht. split; cbn; try done; auto; rewrite Ht; set_solver. Qed.

Lemma take_settle n l h b : todo b = n :: l → local n b (settle n h (set_todo l b)).
Proof.
  intros Ht. split; [split; cbn; try done; auto using settled_insert|..].
  - rewrite Ht. set_solver.
  - rewrite Ht. set_solver.
  - intros m [Hm|[Hm|Hm]%settled_insert_inv]; [left; by left|left; by right|by right].
  - right. cbn. apply settled_insert_eq.
  - right. cbn. apply settled_insert_eq.
Qed.

Lemma take_wait n l b : todo b = n :: l → local n b (set_waiting (n :: waiting (set_todo l b)) (set_todo l b)).
Proof.
  intros Ht. split; [split; cbn; try done|..].
  - rewrite Ht. set_solver.
  - rewrite Ht. set_solver.
  - intros m Hm. left. by right.
  - set_solver.
  - intros m [[->|Hm]%elem_of_cons|Hm]; [by right|left; by left|left; by right].
  - left. cbn. left.
  - left. cbn. left.
Qed.

Lemma take_pass n l b :
  todo b = n :: l → (at_stage b = Oneshots → is_oneshot n = false) → (at_stage b = Services → is_oneshot n = true) →
  local n b (set_todo l b).
Proof.
  intros Ht Ho Hs. split; [by apply take_drop|..].
  - intros E1 E2. rewrite Ho in E2; done.
  - intros E1 E2. rewrite Hs in E2; done.
Qed.

(** An awaited service is settled. *)
Lemma wait_settle n h b : local n b (settle n h (set_waiting (remove n (waiting b)) b)).
Proof.
  split; [split; cbn; try done; auto using settled_insert|..].
  - intros m Hm. destruct (decide (m = n)) as [->|]; [right; split; [done|apply settled_insert_eq]|left; by rewrite elem_of_remove].
  - intros m [_ Hm]%elem_of_remove. by left.
  - intros m [Hm|[Hm|Hm]%settled_insert_inv]; cbn in *; [|left; by right|by right].
    left; left. apply elem_of_remove in Hm. tauto.
  - right. cbn. apply settled_insert_eq.
  - right. cbn. apply settled_insert_eq.
Qed.

Lemma fatal_local n b b' : local n b b' → local n b (set_fatal b').
Proof. intros [[L1 L2 L3 L4 L5 L6 L7 L7' L8] L9 L10]. by repeat split. Qed.

Lemma next_oneshots pre b : boot_inv pre b → at_stage b = Oneshots → todo b = [] → waiting b = [] → boot_inv pre (next_stage b).
Proof.
  intros HI Hs Ht Hw. unfold next_stage. rewrite Hs. destruct (fatal b); [apply abort_inv; [done|congruence]|].
  destruct HI as [H1 H2 H3 H4 Hx H5 H6 H7]. split; cbn; auto; try done.
  - intros _. apply H1. congruence.
  - intros m Hm. by apply elem_of_nil in Hm.
  - intros m [Hm|Hm]; cbn in Hm; [by apply elem_of_nil in Hm|]. apply H5. by right.
  - intros m _ Hm. split; [by left|]. intros Ho. destruct (H6 m Hs Hm Ho) as [Hm'|[Hm'|?]]; [| |done].
    + rewrite Ht in Hm'. by apply elem_of_nil in Hm'.
    + rewrite Hw in Hm'. by apply elem_of_nil in Hm'.
Qed.

Lemma next_services pre b : boot_inv pre b → at_stage b = Services → todo b = [] → waiting b = [] →
  boot_inv (pre ++ [cur b]) (next_stage b).
Proof.
  intros [H1 H2 H3 H4 Hx H5 H6 H7] Hs Ht Hw. unfold next_stage. rewrite Hs. rewrite Hs in H1. specialize (H1 ltac:(done)).
  assert (Hall : ∀ n, n ∈ concat (pre ++ [cur b]) → is_Some (settled b !! n)).
  { intros n. rewrite concat_app, elem_of_app. cbn. rewrite app_nil_r. intros [Hn|Hn]; [auto|].
    destruct (H7 n Hs Hn) as [[Hm|[Hm|?]] _]; [rewrite Ht in Hm|rewrite Hw in Hm|done]; by apply elem_of_nil in Hm. }
  assert (Hin : ∀ m, is_Some (settled b !! m) → m ∈ concat (pre ++ [cur b])).
  { intros m Hm. rewrite concat_app, elem_of_app. cbn. rewrite app_nil_r. apply H5. by right. }
  destruct (rest b) as [|l rest]; split; cbn; try done.
  all: try (intros m Hm; by apply elem_of_nil in Hm).
  all: try (intros m [Hm|Hm]; cbn in Hm; [by apply elem_of_nil in Hm|auto]).
  - intros _. by rewrite H1, <- app_assoc.
  - intros m _ Hm _. by left.
Qed.

Lemma oneshot_step_inv pre n l unmet fork b :
  boot_inv pre b → at_stage b = Oneshots → todo b = n :: l → boot_inv pre (start_oneshot svcs n unmet fork (set_todo l b)).
Proof.
  intros HI Hs Ht. assert (Hn : n ∈ cur b) by (apply (bi_todo _ _ HI); rewrite Ht; left). unfold start_oneshot.
  destruct (is_oneshot n) eqn:Eo; cbn [negb]; [|apply (local_inv pre n b); [done|done|apply take_pass; congruence]].
  destruct unmet; [apply (local_inv pre n b); [done|done|by apply take_settle]|].
  destruct fork; [apply (local_inv pre n b); [done|done|by apply take_wait]|].
  apply (drift_abort pre n b); [done|congruence|done|by apply take_drop].
Qed.

Lemma oneshot_result_inv pre n code b :
  boot_inv pre b → n ∈ waiting b → boot_inv pre (oneshot_result svcs n code (set_waiting (remove n (waiting b)) b)).
Proof.
  intros HI Hw. apply (local_inv pre n b); [done|by apply (bi_waiting _ _ HI)|]. unfold oneshot_result.
  destruct (svcs !! n), code; try apply fatal_local; try apply wait_settle.
  destruct (_ =? 0)%Z; [apply wait_settle|]. case_bool_decide; [|apply fatal_local]; apply wait_settle.
Qed.

Lemma spawn_step_inv pre n l up b :
  boot_inv pre b → at_stage b = Services → todo b = n :: l → boot_inv pre (spawn_service svcs n up (set_todo l b)).
Proof.
  intros HI Hs Ht. assert (Hn : n ∈ cur b) by (apply (bi_todo _ _ HI); rewrite Ht; left).
  apply (local_inv pre n b); [done|done|]. unfold spawn_service. destruct (svcs !! n) as [svc|] eqn:E; [|by apply take_settle].
  destruct (Service.Enabled svc) eqn:E1; cbn [negb]; [|by apply take_settle].
  destruct (Service.Oneshot svc) eqn:E2.
  - apply take_pass; [done|congruence|]. intros _. unfold Boot.is_oneshot. by rewrite E, E1, E2.
  - destruct (Service.Scheduled svc); [by apply take_settle|]. destruct up; [by apply take_settle|by apply take_wait].
Qed.

Lemma service_result_inv pre n err b :
  boot_inv pre b → at_stage b = Services → n ∈ waiting b →
  boot_inv pre (service_result n err (set_waiting (remove n (waiting b)) b)).
Proof.
  intros HI Hs Hw. assert (Hn : n ∈ cur b) by (by apply (bi_waiting _ _ HI)).
  assert (Hok : ∀ h, boot_inv pre (settle n h (set_waiting (remove n (waiting b)) b)))
    by (intros h; apply (local_inv pre n b); [done|done|apply wait_settle]).
  unfold service_result. destruct err as [[]|]; try apply abort_inv; try apply Hok; cbn; congruence.
Qed.

Lemma step_inv pre b ev b' : boot_inv pre b → boot_step b ev = Some b' → ∃ pre', boot_inv pre' b'.
Proof.
  intros HI H. unfold Boot.boot_step in H. destruct (at_stage b) eqn:Es; [| |by destruct ev, (todo b)..].
  - destruct ev as [unmet fork|n a|up|n err|]; destruct (todo b) as [|n0 l] eqn:Et; try done; exists pre.
    + injection H as <-. by apply oneshot_step_inv.
    + case_bool_decide; [|done]. destruct (waitOneshot _ _) as [code|]; [|done]. injection H as <-. by apply oneshot_result_inv.
    + case_bool_decide; [|done]. injection H as <-. by apply next_oneshots.
  - destruct ev as [unmet fork|n a|up|n err|]; destruct (todo b) as [|n0 l] eqn:Et; try done.
    + injection H as <-. exists pre. by apply spawn_step_inv.
    + case_bool_decide; [|done]. injection H as <-. exists pre. by apply service_result_inv.
    + case_bool_decide; [|done]. injection H as <-. exists pre. by apply service_result_inv.
    + case_bool_decide; [|done]. injection H as <-. exists (pre ++ [cur b]). by apply next_services.
Qed.

Lemma settle_fail n h b : h ≠ Failed → fail_inv b → fail_inv (settle n h b).
Proof.
  intros Hh HF Hs [m Hm]. apply HF; [done|]. cbn in Hm. apply lookup_insert_Some in Hm as [[_ ?]|[_ ?]]; [done|eauto].
Qed.

Lemma step_fail b ev b' : fail_inv b → boot_step b ev = Some b' → fail_inv b'.
Proof.
  intros HF H. unfold Boot.boot_step in H. destruct (at_stage b) eqn:Es; [| |by destruct ev, (todo b)..].
  - destruct ev as [unmet fork|n a|up|n err|]; destruct (todo b) as [|n0 l] eqn:Et; try done.
    + injection H as <-. unfold start_oneshot. destruct (negb _); [done|]. destruct unmet; [by apply settle_fail|].
      destruct fork; [done|]. by intros [].
    + case_bool_decide; [|done]. destruct (waitOneshot _ _) as [code|]; [|done]. injection H as <-. unfold oneshot_result.
      destruct (svcs !! n), code; try (intros _ _; cbn; by rewrite Es).
      destruct (_ =? 0)%Z; [by apply settle_fail|]. case_bool_decide; [by apply settle_fail|]. intros _ _. cbn. by rewrite Es.
    + case_bool_decide; [|done]. injection H as <-. unfold next_stage. rewrite Es. destruct (fatal b) eqn:Ef; [by intros []|].
      intros _ Hm. destruct (HF ltac:(congruence) Hm). congruence.
  - assert (Hno : ¬ ∃ n, settled b !! n = Some Failed) by (intros Hm; destruct (HF ltac:(congruence) Hm); congruence).
    destruct ev as [unmet fork|n a|up|n err|]; destruct (todo b) as [|n0 l] eqn:Et; try done.
    + injection H as <-. unfold spawn_service. destruct (svcs !! n0); [|by apply settle_fail].
      destruct (negb _); [by apply settle_fail|]. destruct (Service.Oneshot _); [done|].
      destruct (Service.Scheduled _); [by apply settle_fail|]. by destruct up; [apply settle_fail|].
    + case_bool_decide; [|done]. injection H as <-. unfold service_result.
      destruct err as [[]|]; try (by intros []); by apply settle_fail.
    + case_bool_decide; [|done]. injection H as <-. unfold service_result.
      destruct err as [[]|]; try (by intros []); by apply settle_fail.
    + case_bool_decide; [|done]. injection H as <-. unfold next_stage. rewrite Es. by destruct (rest b).
Qed.

Lemma boot_run_inv evs : ∀ b b' pre, boot_inv pre b → fail_inv b → boot_run evs b = Some b' → ∃ pre', boot_inv pre' b' ∧ fail_inv b'.
Proof.
  induction evs as [|ev evs IH]; intros b b' pre HI HF; cbn; [intros [= <-]; eauto|].
  destruct (boot_step b ev) as [b1|] eqn:E; [|done]. cbn. destruct (step_inv _ _ _ _ HI E) as [pre1 HI1].
  eapply IH; [exact HI1|by eapply step_fail].
Qed.

(** ** The length of a boot *)

Definition later (ls : list (list string)) : nat := sum_list ((λ l, 4 * length l + 2) <$> ls).
#[local] Arguments later : simpl never.

Definition measure (b : boot) : nat :=
  match at_stage b with
  | Oneshots => 2 * length (todo b) + length (waiting b) + 1 + 2 * length (cur b) + 1 + later (rest b)
  | Services => 2 * length (todo b) + length (waiting b) + 1 + later (rest b)
  | _ => 0
  end.

Lemma remove_shorter n l : n ∈ l → length (remove n l) < length l.
Proof. intros Hn. unfold remove. apply (length_filter_lt _ _ n); [done|]. intros H. by apply H. Qed.

Lemma step_measure b ev b' : boot_step b ev = Some b' → measure b' < measure b.
Proof.
  intros H. unfold Boot.boot_step in H. unfold measure at 2. destruct (at_stage b) eqn:Es; [| |by destruct ev, (todo b)..].
  - destruct ev as [unmet fork|n a|up|n err|]; destruct (todo b) as [|n0 l] eqn:Et; try done.
    + injection H as <-. unfold start_oneshot. destruct (negb _); [unfold measure; cbn; rewrite Es; cbn; lia|].
      destruct unmet; [unfold measure; cbn; rewrite Es; cbn; lia|]. destruct fork; unfold measure; cbn; rewrite ?Es; cbn; lia.
    + case_bool_decide as Hw; [|done]. destruct (waitOneshot _ _) as [code|]; [|done]. injection H as <-.
      pose proof (remove_shorter n (waiting b) Hw). unfold oneshot_result.
      destruct (svcs !! n), code; try (unfold measure; cbn; rewrite Es, Et; cbn; lia).
      destruct (_ =? 0)%Z; [unfold measure; cbn; rewrite Es, Et; cbn; lia|].
      case_bool_decide; unfold measure; cbn; rewrite Es, Et; cbn; lia.
    + case_bool_decide as Hw; [|done]. injection H as <-. unfold next_stage. rewrite Es, Hw. destruct (fatal b); unfold measure; cbn; lia.
  - assert (Hres : ∀ n err, n ∈ waiting b → measure (service_result n err (set_waiting (remove n (waiting b)) b)) <
      2 * length (todo b) + length (waiting b) + 1 + later (rest b)).
    { intros n err Hw. pose proof (remove_shorter n (waiting b) Hw). unfold service_result, measure.
      destruct err as [[]|]; cbn; rewrite ?Es; cbn; lia. }
    destruct ev as [unmet fork|n a|up|n err|]; destruct (todo b) as [|n0 l] eqn:Et; try done.
    + injection H as <-. unfold spawn_service. destruct (svcs !! n0); [|unfold measure; cbn; rewrite Es; cbn; lia].
      destruct (negb _); [unfold measure; cbn; rewrite Es; cbn; lia|]. destruct (Service.Oneshot _); [unfold measure; cbn; rewrite Es; cbn; lia|].
      destruct (Service.Scheduled _); [unfold measure; cbn; rewrite Es; cbn; lia|].
      destruct up; unfold measure; cbn; rewrite Es; cbn; lia.
    + case_bool_decide as Hw; [|done]. injection H as <-. by apply Hres.
    + case_bool_decide as Hw; [|done]. injection H as <-. by apply Hres.
    + case_bool_decide as Hw; [|done]. injection H as <-. unfold next_stage. rewrite Es. destruct (rest b) as [|l rest];
        unfold measure, later; cbn; lia.
Qed.

Lemma run_length evs : ∀ b b', boot_run evs b = Some b' → length evs + measure b' ≤ measure b.
Proof.
  induction evs as [|ev evs IH]; intros b b'; cbn; [intros [= <-]; lia|].
  destruct (boot_step b ev) as [b1|] eqn:E; [|done]. cbn. intros H%IH. apply step_measure in E. lia.
Qed.

Lemma run_from_start evs b : boot_run evs (boot_start layers) = Some b → ∃ pre, boot_inv pre b ∧ fail_inv b.
Proof. destruct boot_start_inv as [H1 H2]. by apply (boot_run_inv evs _ _ []). Qed.

End theorems.

(** Layers come before what depends on them. *)
Lemma layer_deps services layers pre l rest a n :
  Order.TopoLayers services = Prelude.Done (Ok layers) → layers = pre ++ l :: rest → n ∈ l → Order.edge services a n → a ∈ concat pre.
Proof.
  intros HT -> Hn He. destruct (Order.topolayers_layered _ _ HT) as [_ HL].
  destruct (HL pre l rest eq_refl) as (_ & _ & Hl). apply Hl in Hn as (_ & _ & Hn). auto.
Qed.

Lemma concat_layer (pre : list (list string)) n : n ∈ concat pre → ∃ p1 l p2, pre = p1 ++ l :: p2 ∧ n ∈ l.
Proof.
  induction pre as [|l pre IH]; cbn; [by intros ?%elem_of_nil|]. intros [Hn|Hn]%elem_of_app.
  - by exists [], l, pre.
  - destruct (IH Hn) as (p1 & l' & p2 & -> & ?). by exists (l :: p1), l', p2.
Qed.

(** The boot follows the dependencies.  At every moment of the boot, whatever
    the order in which processes end and gates open, a service is started (or
    passed over) only when everything it is ordered after is settled: ready,
    completed, ignored as configured, already up, disabled, scheduled or skipped
    by its conditions.  A failure that is not ignored is never passed: the boot
    is then still in the oneshot stage of that layer and bound to abort, or has
    aborted.  When the boot ends normally every service is settled without
    failure. *)
Lemma boot_order (svcs : gmap string Service.Service) (services : list Order.Service) (layers : list (list string))
    (evs : list event) (b : boot) :
  Order.TopoLayers services = Prelude.Done (Ok layers) → boot_run svcs evs (boot_start layers) = Some b →
  (∀ a n, reached b n → Order.edge services a n → is_Some (settled b !! a)) ∧
  (∀ n, settled b !! n = Some Failed → at_stage b = Aborted ∨ (at_stage b = Oneshots ∧ fatal b = true)) ∧
  (at_stage b = Booted → ∀ n, n ∈ Order.Name <$> services → ∃ h, settled b !! n = Some h ∧ h ≠ Failed).
Proof.
  intros HT HR. destruct (run_from_start svcs layers evs b HR) as (pre & HI & HF).
  assert (Hstage : ∀ n, settled b !! n = Some Failed → at_stage b = Aborted ∨ (at_stage b = Oneshots ∧ fatal b = true)).
  { intros n Hn. destruct (decide (at_stage b = Aborted)) as [?|Hs]; [by left|]. right. apply HF; eauto. }
  split; [|split; [exact Hstage|]].
  - intros a n Hn He. destruct (bi_reached _ _ _ _ HI n Hn) as [Hpre|Hcur].
    + destruct (concat_layer pre n Hpre) as (p1 & l & p2 & Hp & Hl).
      assert (Hlay : ∃ rest, layers = p1 ++ l :: rest).
      { destruct (decide (at_stage b = Booted)) as [Hb|Hb].
        - exists p2. by rewrite (proj1 (bi_booted _ _ _ _ HI Hb)).
        - exists (p2 ++ cur b :: rest b). by rewrite (bi_layers _ _ _ _ HI Hb), Hp, <- app_assoc. }
      destruct Hlay as [rst Hlay]. apply (bi_pre _ _ _ _ HI). rewrite Hp, concat_app, elem_of_app. left.
      by eapply layer_deps.
    + apply (bi_pre _ _ _ _ HI). destruct (decide (at_stage b = Booted)) as [Hb|Hb]; [|by eapply layer_deps, He; [done|apply (bi_layers _ _ _ _ HI Hb)|done]].
      rewrite (proj2 (bi_booted _ _ _ _ HI Hb)) in Hcur. by apply elem_of_nil in Hcur.
  - intros Hb n Hn. destruct (Order.topolayers_layered _ _ HT) as [Hperm _]. rewrite <- Hperm in Hn.
    rewrite (proj1 (bi_booted _ _ _ _ HI Hb)) in Hn. destruct (bi_pre _ _ _ _ HI n Hn) as [h Hh]. exists h. split; [done|].
    intros ->. destruct (Hstage n Hh) as [?|[? _]]; congruence.
Qed.

Lemma later_size (ls : list (list string)) : later ls = 4 * length (concat ls) + 2 * length ls.
Proof.
  induction ls as [|l ls IH]; [done|]. change (later (l :: ls)) with (4 * length l + 2 + later ls).
  cbn [concat length]. rewrite length_app. lia.
Qed.

(** The next iteration of a loop is enabled whatever the fork or the conditions
    answer, or the boot waits for some service and goes on with whatever status
    that process ends or whatever its gate returns, or the stage is through. *)
Definition goes_on (svcs : gmap string Service.Service) (b : boot) : Prop :=
  (∀ unmet fork, is_Some (boot_step svcs b (EvOneshot unmet fork))) ∨ (∀ up, is_Some (boot_step svcs b (EvSpawn up))) ∨
  (∃ n, n ∈ waiting b ∧ ((∀ ws, is_Some (boot_step svcs b (EvExit n (Waited ws)))) ∨
                         (∀ err, is_Some (boot_step svcs b (EvStarted n err))))) ∨
  is_Some (boot_step svcs b EvNext).

(** The boot ends: it takes at most four events per service and two per layer,
    and as long as it is not over it can go on.  So once the awaited processes
    end and the gates return, it is booted or aborted. *)
Lemma boot_ends (svcs : gmap string Service.Service) (services : list Order.Service) (layers : list (list string))
    (evs : list event) (b : boot) :
  Order.TopoLayers services = Prelude.Done (Ok layers) → boot_run svcs evs (boot_start layers) = Some b →
  length evs ≤ 4 * length services + 2 * length layers ∧ (final b ∨ goes_on svcs b).
Proof.
  intros HT HR. split.
  - apply run_length in HR. destruct (Order.topolayers_layered _ _ HT) as [Hperm _]. apply Permutation_length in Hperm.
    rewrite length_fmap in Hperm. enough (measure (boot_start layers) ≤ later layers) by (rewrite later_size in *; lia).
    destruct layers as [|l rest]; [cbn; lia|]. unfold measure, later. cbn. lia.
  - unfold goes_on, boot_step, final. destruct (at_stage b) eqn:Es; [right|right|by left; left|by left; right].
    + destruct (todo b) as [|n l]; [|left; eauto]. destruct (waiting b) as [|n l] eqn:Ew.
      { right; right; right. rewrite bool_decide_true by done. eauto. }
      right; right; left. exists n. split; [left|]. left. intros ws. rewrite bool_decide_true by left.
      unfold waitOneshot. case_bool_decide; [eauto|]. destruct (ParseDuration _); eauto.
    + destruct (todo b) as [|n l]; [|right; left; eauto]. destruct (waiting b) as [|n l] eqn:Ew.
      { right; right; right. rewrite bool_decide_true by done. eauto. }
      right; right; left. exists n. split; [left|]. right. intros err. rewrite bool_decide_true by left. eauto.
Qed.

(** ** A boot *)

Definition demo_proc (name startup : string) (after : list string) : Service.Process :=
  Service.mkProcess None None ∅ ∅ None None None name ("/bin/" +:+ name) "" "" "" startup "" "" "" "" "" "" "" "" "" "" "" "" "" "" "" "" ""
    ∅ ∅ [] after [] [] [] (SpecFloat.S754_zero false) false false false false false.

Definition demo_procs : list Service.Process :=
  [demo_proc "db" "" ["init"]; demo_proc "init" "oneshot" []; demo_proc "web" "" ["db"]; demo_proc "old" "disabled" []].

Definition demo_services : list Order.Service :=
  (λ p, Order.mkService (Service.process_name p) (Service.pAfter p) (Service.pBefore p) (Service.pRequires p)) <$> demo_procs.

Definition demo_svcs : gmap string Service.Service :=
  list_to_map (omap (λ p, match Service.New p "" with Ok s => Some (Service.process_name p, s) | Err _ => None end) demo_procs).

Definition demo_layers : list (list string) := [["init"; "old"]; ["db"]; ["web"]].

Definition demo_events : list event :=
  [EvOneshot false true; EvOneshot false true; EvExit "init" (Waited (Exited 0)); EvNext; EvSpawn false; EvSpawn false; EvNext;
   EvOneshot false true; EvNext; EvSpawn false; EvStarted "db" None; EvNext;
   EvOneshot false true; EvNext; EvSpawn true; EvNext].

Example boot_ex : ∃ b, boot_run demo_svcs demo_events (boot_start demo_layers) = Some b ∧ at_stage b = Booted ∧
  settled b !! "init" = Some Completed ∧ settled b !! "old" = Some Skipped ∧ settled b !! "web" = Some AlreadyUp.
Proof. eexists. split; [vm_compute; reflexivity|]. split_and!; reflexivity. Qed.

End Boot.
