(* ===== verification/BootSpec.v ===== *)
(** * What the end of a oneshot and the start of a service mean at boot

    Said with the settings of the process (exit-code-map, startup-timeout) and
    what was seen of it, not with the code of src/run.go (Boot.v), which the
    lemmas at the end tie to it. *)

From S2P Require Import Prelude GoTime Order Service DaemonState Boot.

Open Scope string_scope.
Open Scope list_scope.
Open Scope nat_scope.

Module BootSpec.
Import DaemonState Boot.

(** The status of a process: that of its exit, 128 and the signal that ended
    it, 1 where neither is known. *)
Inductive status_of : WaitStatus → Z → Prop :=
  | status_exit c : status_of (Exited c) c
  | status_signal g : status_of (Signaled g) (128 + g)
  | status_other : status_of OtherStatus 1.

(** The status the configuration reports [c] as. *)
Definition mapped (p : Service.Process) (c c' : Z) : Prop :=
  Service.pExitCodeMap p !! c = Some c' ∨ (Service.pExitCodeMap p !! c = None ∧ c' = c).

Definition timely (p : Service.Process) : Prop :=
  Service.pStartupTimeout p = "" ∨ is_Some (ParseDuration (Service.pStartupTimeout p)).

(** It ended, in time, and is reported with status [c']. *)
Definition ended (p : Service.Process) (a : wait_answer) (c' : Z) : Prop :=
  timely p ∧ ∃ ws c, a = Waited ws ∧ status_of ws c ∧ mapped p c c'.

(** Its end was not seen: the wait failed, the time was up, or the timeout
    cannot be read. *)
Definition lost (p : Service.Process) (a : wait_answer) : Prop := ¬ timely p ∨ a = WaitError ∨ a = TimerFirst.

(** What the end of a oneshot makes of it; [lenient]: failures are ignored. *)
Definition exit_verdict (lenient : Prop) (p : Service.Process) (a : wait_answer) (h : how) : Prop :=
  match h with
  | Completed => ended p a 0
  | Ignored c => ended p a c ∧ c ≠ 0%Z ∧ lenient
  | Failed => lost p a ∨ ∃ c, ended p a c ∧ c ≠ 0%Z ∧ ¬ lenient
  | _ => False
  end.

(** What the result of a gated start makes of a service. *)
Definition start_verdict (err : option derr) (h : how) : Prop :=
  match h with
  | Ready => err = None
  | AlreadyUp => err = Some ErrAlreadyRunning
  | Skipped => err = Some ErrConditionUnmet
  | Failed => ∃ e, err = Some e ∧ e ≠ ErrAlreadyRunning ∧ e ≠ ErrConditionUnmet
  | _ => False
  end.

Lemma ended_functional p a c c' : ended p a c → ended p a c' → c = c'.
Proof.
  intros (_ & ws & r & -> & Hr & Hm) (_ & ws' & r' & [= <-] & Hr' & Hm'). assert (r = r') as <- by (inversion Hr; inversion Hr'; congruence).
  unfold mapped in *. destruct Hm as [?|[? ->]], Hm' as [?|[? ->]]; congruence.
Qed.

Lemma ended_seen p a c : ended p a c → ¬ lost p a.
Proof. intros (Ht & ws & r & -> & _) [?|[?|?]]; done. Qed.

(** A failure is nothing else. *)
Lemma failed_only L p a h : exit_verdict L p a Failed → exit_verdict L p a h → h = Failed.
Proof.
  intros HF H. destruct h as [| |c| | |]; cbn in H; try done.
  - destruct HF as [Hl|(c & Hc & Hne & _)]; [by apply ended_seen in H|]. by destruct Hne, (ended_functional p a c 0).
  - destruct H as (H & _ & Hl). destruct HF as [HF|(? & _ & _ & ?)]; [by apply ended_seen in H|done].
Qed.

Lemma not_started_only err h : start_verdict err Failed → start_verdict err h → h = Failed.
Proof. intros (e & -> & H1 & H2) H. destruct h; cbn in H; try done; congruence. Qed.

(** Only these settings of the process count. *)
Lemma exit_verdict_ext (L L' : Prop) p p' a h : (L ↔ L') → Service.pExitCodeMap p' = Service.pExitCodeMap p →
  Service.pStartupTimeout p' = Service.pStartupTimeout p → exit_verdict L p a h ↔ exit_verdict L' p' a h.
Proof.
  intros HL E1 E2. assert (He : ∀ c, ended p' a c ↔ ended p a c) by (intros c; unfold ended, timely, mapped; by rewrite E1, E2).
  assert (Hl : lost p' a ↔ lost p a) by (unfold lost, timely; by rewrite E2).
  destruct h; cbn; rewrite ?He, ?Hl, ?HL; try done. by setoid_rewrite He; setoid_rewrite HL.
Qed.

Lemma remapped s c : mapped (Service.Proc s) c (Service.RemapExitCode s c).
Proof. unfold mapped, Service.RemapExitCode. destruct (_ !! c); cbn; auto. Qed.

Lemma wait_answered s a code :
  waitOneshot (Service.pStartupTimeout (Service.Proc s)) a = Some code →
  match code with
  | Some raw => ended (Service.Proc s) a (Service.RemapExitCode s raw)
  | None => lost (Service.Proc s) a
  end.
Proof.
  unfold waitOneshot, ended, lost, timely. cbv zeta.
  assert (Hw : ∀ ws, ∃ ws' c, Waited ws = Waited ws' ∧ status_of ws' c ∧ mapped (Service.Proc s) c (Service.RemapExitCode s (waitStatusCode ws))).
  { intros ws. exists ws, (waitStatusCode ws). split_and!; [done|by destruct ws; constructor|apply remapped]. }
  case_bool_decide as Ht.
  - destruct a; intros [= <-]; eauto.
  - destruct (ParseDuration _) as [t|] eqn:Ep.
    + intros [= <-]. destruct a; eauto.
    + intros [= <-]. left. by intros [?|[? ?]].
Qed.

Section verdicts.
Context (svcs : gmap string Service.Service).

Definition lenient_svc (s : Service.Service) : Prop := Service.OnFailure s = Service.ActionIgnore.

(** The result loop of the oneshots gives the verdict. *)
Lemma oneshot_settles n s a code b : svcs !! n = Some s → waitOneshot (startup_timeout svcs n) a = Some code →
  ∃ h, settled (oneshot_result svcs n code b) = <[n := h]> (settled b) ∧ exit_verdict (lenient_svc s) (Service.Proc s) a h.
Proof.
  intros Hs Ha. unfold startup_timeout in Ha. rewrite Hs in Ha. apply wait_answered in Ha. unfold oneshot_result. rewrite Hs.
  destruct code as [raw|]; [|exists Failed; split; [done|by left]].
  destruct (Z.eqb_spec (Service.RemapExitCode s raw) 0) as [E|E]; [rewrite E in Ha; by exists Completed|].
  case_bool_decide as Hl; eexists; (split; [reflexivity|]); cbn; [done|]. right. eauto.
Qed.

Lemma start_settles n err b : ∃ h, settled (service_result n err b) = <[n := h]> (settled b) ∧ start_verdict err h.
Proof.
  unfold service_result. destruct err as [e|]; [|by exists Ready].
  destruct e; try (by eexists; (split; [reflexivity|]); cbn); exists Failed; (split; [done|]); cbn; eauto.
Qed.

End verdicts.

End BootSpec.
