(* ===== verification/Control.v ===== *)
(** * The control socket: src/control/options.go, client.go, server.go

    The command line of the client, the one-line protocol, the dispatch of the
    server and the connection slots of its accept loop.  The callbacks the
    daemon wires into the server are arbitrary functions on a state; replies
    keep the error a message is made from instead of its wording. *)

From S2P Require Import Prelude GoStrings GoTime.

Open Scope string_scope.
Open Scope list_scope.
Open Scope nat_scope.

Module Control.

(** ** [time.Duration.String] *)

(** The last [prec] decimals of [v] without trailing zeros, put before [acc],
    and the rest of [v]. *)
Fixpoint fmtFrac (prec : nat) (print : bool) (v : Z) (acc : string) : string * Z :=
  match prec with
  | O => (if print then String "." acc else acc, v)
  | S prec =>
      let digit := (v mod 10)%Z in
      let print := print || negb (digit =? 0)%Z in
      fmtFrac prec print (v / 10)%Z (if print then fmt_d digit +:+ acc else acc)
  end.

Definition Microsecond : Z := 1000.
Definition Millisecond : Z := 1000000.

Definition sub_second (u : Z) : string :=
  if (u =? 0)%Z then "0s"
  else
    let '(prec, unit) :=
      if (u <? Microsecond)%Z then (0, "ns")
      else if (u <? Millisecond)%Z then (3, micro)
      else (6, "ms") in
    let '(frac, v) := fmtFrac prec false u unit in
    fmt_d v +:+ frac.

Definition Duration_String (d : Z) : string :=
  let u := Z.abs d in
  let text :=
    if (u <? Second)%Z then sub_second u
    else
      let '(frac, v) := fmtFrac 9 false u "s" in
      let s := fmt_d (v mod 60) +:+ frac in
      let m := (v / 60)%Z in
      if (0 <? m)%Z then
        let s := fmt_d (m mod 60) +:+ "m" +:+ s in
        let h := (m / 60)%Z in
        if (0 <? h)%Z then fmt_d h +:+ "h" +:+ s else s
      else s in
  if (d <? 0)%Z then "-" +:+ text else text.

Example Duration_String_ex :
  Duration_String (90 * Second) = "1m30s" ∧ Duration_String 1500000000 = "1.5s" ∧
  Duration_String (3600 * Second) = "1h0m0s" ∧ Duration_String 2500000 = "2.5ms" ∧ Duration_String 0 = "0s".
Proof. vm_compute. done. Qed.

(** ** Options *)

Definition DefaultWaitTimeout : Z := 60 * Second.
Definition MaxWaitTimeout : Z := 300 * Second.

Record ActionOptions := mkOptions {
  Timeout : Z;
  Wait : bool;
}.

(** Why a command is refused, by the client or by the server. *)
Inductive ctl_err :=
  | ETimeoutMissing
  | ETimeoutInvalid (arg : string)
  | ETimeoutNotPositive (arg : string)
  | ETimeoutTooLong (arg : string)
  | ETimeoutAlone
  | EOutputFormat (fmt : string)
  | EOutputMissing
  | EUsage
  | EUnknownAction (action : string)
  | EWaitNotAllowed
  | EEmptyCommand
  | ENeedsName (cmd : string)
  | EExtraName (arg : string)
  | EUnexpected (cmd arg : string)
  | ENotSupported (cmd : string)
  | EUnknownCommand (cmd : string)
  | EPermissionDenied
  | ETooManyStreams
  | ECallback (msg : string).

Definition wire (o : ActionOptions) : string :=
  if negb (Wait o) then ""
  else if (0 <? Timeout o)%Z then "--wait --timeout " +:+ Duration_String (Timeout o)
  else "--wait".

Fixpoint wait_flags (args positional : list string) (opts : ActionOptions)
    : result ctl_err (list string * ActionOptions) :=
  match args with
  | [] =>
      if (0 <? Timeout opts)%Z && negb (Wait opts) then Err ETimeoutAlone else Ok (positional, opts)
  | a :: args =>
      if bool_decide (a = "--wait") then wait_flags args positional (mkOptions (Timeout opts) true)
      else if bool_decide (a = "--timeout") then
        match args with
        | [] => Err ETimeoutMissing
        | t :: args =>
            match ParseDuration t with
            | None => Err (ETimeoutInvalid t)
            | Some d =>
                if (d <=? 0)%Z then Err (ETimeoutNotPositive t)
                else if (MaxWaitTimeout <? d)%Z then Err (ETimeoutTooLong t)
                else wait_flags args positional (mkOptions d (Wait opts))
            end
        end
      else wait_flags args (positional ++ [a]) opts
  end.

Definition extractWaitFlags (args : list string) : result ctl_err (list string * ActionOptions) :=
  wait_flags args [] (mkOptions 0 false).

(** ** The client *)

Definition ClientCommands : list string := ["start"; "stop"; "restart"; "status"; "signal"; "logs"; "reload"].
Definition serviceActions : list string := ["start"; "stop"; "restart"; "status"].

Definition IsClientCommand (args : list string) : bool :=
  match args with
  | [] => false
  | a :: rest =>
      bool_decide (a ∈ ClientCommands)
      || match rest with b :: _ => bool_decide (b ∈ serviceActions) | [] => false end
  end.

Definition ClientCommandList : list string := sort_strings ClientCommands.

(** Who the peer of a connection is: -1 when the platform does not say. *)
Definition peerTrusted (uid euid : Z) : bool := (uid =? -1)%Z || (uid =? 0)%Z || (uid =? euid)%Z.

(** [before] is what was passed over, in order. *)
Fixpoint output_flag (before args : list string) : result ctl_err (list string * string) :=
  match args with
  | a :: ((v :: rest) as tail) =>
      if negb (bool_decide (a = "-o")) then output_flag (before ++ [a]) tail
      else if negb (bool_decide (v = "json")) then Err (EOutputFormat v)
      else Ok (before ++ rest, "-o " +:+ v)
  | _ => Ok (before ++ args, "")
  end.

Definition extractOutputFlag (args : list string) : result ctl_err (list string * string) := output_flag [] args.

Definition waitableCommand (cmd : string) : bool :=
  let '(action, _, _) := Cut cmd " " in
  bool_decide (action = "start") || bool_decide (action = "stop") || bool_decide (action = "restart").

Definition two_words (a b : string) : result ctl_err string :=
  let '(action, svcName) := if bool_decide (a ∈ serviceActions) then (a, b) else (b, a) in
  if bool_decide (action ∈ serviceActions) then Ok (action +:+ " " +:+ svcName) else Err (EUnknownAction action).

Definition buildPositionalCommand (args : list string) : result ctl_err string :=
  match args with
  | [a] => if bool_decide (a = "status") || bool_decide (a = "reload") then Ok a else Err EUsage
  | a :: rest =>
      if (length args =? 3) && bool_decide (a = "signal") then Ok (Join args " ")
      else if bool_decide (a = "logs") then Ok (Join args " ")
      else match rest with [b] => two_words a b | _ => Err EUsage end
  | [] => Err EUsage
  end.

Definition buildClientCommand (args : list string) : result ctl_err string :=
  '(positional, flagSuffix) ← extractOutputFlag args;
  '(positional, waitOpts) ← extractWaitFlags positional;
  cmd ← buildPositionalCommand positional;
  cmd ← (if Wait waitOpts then
           if negb (waitableCommand cmd) then Err EWaitNotAllowed else Ok (cmd +:+ " " +:+ wire waitOpts)
         else Ok cmd);
  Ok (if bool_decide (flagSuffix = "") then cmd else cmd +:+ " " +:+ flagSuffix).

(** The reply lines: those starting with "error:" go to standard error and make
    the exit status 1. *)
Definition RunClient_lines (lines : list string) : list string * list string * Z :=
  let errs := List.filter (λ l, HasPrefix l "error:") lines in
  (List.filter (λ l, negb (HasPrefix l "error:")) lines, errs, if bool_decide (errs = []) then 0%Z else 1%Z).

(** ** The server *)

Section server.
Context {S : Type}.

(** The callbacks; [None] is a nil function. *)
Record Server := mkServer {
  StartFn : option (string → ActionOptions → S → result string string * S);
  StopFn : option (string → ActionOptions → S → result string string * S);
  RestartFn : option (string → ActionOptions → S → result string string * S);
  StatusFn : option (string → S → result string string * S);
  SignalFn : option (string → string → S → result string string * S);
  ReloadFn : option (S → result string string * S);
  StatsFn : option (S → string * S);
  StatsJSONFn : option (S → string * S);
  StatusJSONFn : option (string → S → result string string * S);
  LogsFn : option (string → bool → S → result string (list string) * S);
}.

Inductive reply :=
  | Text (msg : string)
  | Failed (e : ctl_err).

(** "error: %v" or the message. *)
Definition answer (r : result string string * S) : reply * S :=
  match r.1 with Ok msg => (Text msg, r.2) | Err e => (Failed (ECallback e), r.2) end.

Definition call {F} (cmd : string) (fn : option F) (use : F → reply * S) (st : S) : reply * S :=
  match fn with Some f => use f | None => (Failed (ENotSupported cmd), st) end.

(** The name, whether JSON is asked for, or the error. *)
Fixpoint status_args (args : list string) (svcName format : string) : result ctl_err (string * string) :=
  match args with
  | [] => Ok (svcName, format)
  | a :: args =>
      if bool_decide (a = "-o") then
        match args with
        | [] => Err EOutputMissing
        | v :: args => if negb (bool_decide (v = "json")) then Err (EOutputFormat v) else status_args args svcName "json"
        end
      else if negb (bool_decide (svcName = "")) then Err (EExtraName a)
      else status_args args a format
  end.

Definition parseStatusArgs (args : list string) : result ctl_err (string * string) := status_args args "" "".

Definition run_status (cs : Server) (svcName format : string) (st : S) : reply * S :=
  let json := bool_decide (format = "json") in
  if bool_decide (svcName = "") then
    if json then call "status -o json" (StatsJSONFn cs) (λ f, let r := f st in (Text r.1, r.2)) st
    else call "status" (StatsFn cs) (λ f, let r := f st in (Text r.1, r.2)) st
  else if json then call "status -o json" (StatusJSONFn cs) (λ f, answer (f svcName st)) st
  else call "status" (StatusFn cs) (λ f, answer (f svcName st)) st.

Definition action_fn (cs : Server) (cmd : string) : option (string → ActionOptions → S → result string string * S) :=
  if bool_decide (cmd = "start") then StartFn cs
  else if bool_decide (cmd = "stop") then StopFn cs
  else RestartFn cs.

Definition handleCommand (cs : Server) (parts : list string) (st : S) : reply * S :=
  match parts with
  | [] => (Failed EEmptyCommand, st)
  | cmd :: args =>
      if bool_decide (cmd = "status") then
        match parseStatusArgs args with
        | Err e => (Failed e, st)
        | Ok (svcName, format) => run_status cs svcName format st
        end
      else if bool_decide (cmd = "start") || bool_decide (cmd = "stop") || bool_decide (cmd = "restart") then
        match args with
        | [] => (Failed (ENeedsName cmd), st)
        | name :: args =>
            match extractWaitFlags args with
            | Err e => (Failed e, st)
            | Ok (x :: _, _) => (Failed (EUnexpected cmd x), st)
            | Ok ([], opts) => call cmd (action_fn cs cmd) (λ f, answer (f name opts st)) st
            end
        end
      else if bool_decide (cmd = "signal") then
        match args with
        | name :: sig :: _ => call cmd (SignalFn cs) (λ f, answer (f name sig st)) st
        | _ => (Failed (ENeedsName cmd), st)
        end
      else if bool_decide (cmd = "reload") then call cmd (ReloadFn cs) (λ f, answer (f st)) st
      else (Failed (EUnknownCommand cmd), st)
  end.

(** What happens while a log session streams. *)
Inductive stream_event :=
  | SLine (line : string) (written : bool)
  | SClosed
  | SIdle
  | SStopped.

Fixpoint stream_logs (evs : list stream_event) : list string :=
  match evs with
  | SLine l true :: evs => l :: stream_logs evs
  | _ => []
  end.

(** What a connection gets back. *)
Inductive session :=
  | Nothing
  | Answer (r : reply)
  | Lines (l : list string).

Definition handleLogs (cs : Server) (parts : list string) (evs : list stream_event) (st : S) : session * S :=
  match parts with
  | _ :: name :: rest =>
      let follow := match rest with f :: _ => bool_decide (f = "-f") | [] => false end in
      match LogsFn cs with
      | None => (Answer (Failed (ENotSupported "logs")), st)
      | Some f =>
          match f name follow st with
          | (Err e, st) => (Answer (Failed (ECallback e)), st)
          | (Ok recent, st) => (Lines (recent ++ if follow then stream_logs evs else []), st)
          end
      end
  | _ => (Answer (Failed (ENeedsName "logs")), st)
  end.

Definition MaxScanTokenSize : Z := 65536.

(** [bufio.Scanner]: the first line without its line end, if it fits the buffer. *)
Definition scan_line (data : string) : option string :=
  let '(line, _, ended) := Cut data (str1 "010") in
  if bool_decide (data = "") || negb (Z.of_nat (String.length line) <? MaxScanTokenSize)%Z then None
  else Some (if HasSuffix line (str1 "013") then take_str (String.length line - 1) line else line).

(** A whole connection: what the client sent, who it is, and whether a
    streaming slot is free. *)
Definition handleConn (cs : Server) (data : string) (uid euid : Z) (slot : bool) (evs : list stream_event) (st : S)
    : session * S :=
  match scan_line data with
  | None => (Nothing, st)
  | Some text =>
      let line := TrimSpace text in
      if bool_decide (line = "") then (Nothing, st)
      else if negb (peerTrusted uid euid) then (Answer (Failed EPermissionDenied), st)
      else match Fields line with
      | (p :: _) as parts =>
          if bool_decide (p = "logs") then
            if slot then handleLogs cs parts evs st else (Answer (Failed ETooManyStreams), st)
          else let r := handleCommand cs parts st in (Answer r.1, r.2)
      | [] => (Nothing, st)
      end
  end.
End server.

Arguments Server : clear implicits.

(** ** From the command line to the callback *)

Inductive action := Start | Stop | Restart.

Definition act_word (a : action) : string :=
  match a with Start => "start" | Stop => "stop" | Restart => "restart" end.

(** What a client can ask for. *)
Inductive request :=
  | QAction (a : action) (name : string) (o : ActionOptions)
  | QStatus (name : option string) (json : bool)
  | QSignal (name sig : string)
  | QReload
  | QLogs (name : string) (follow : bool).

(** The lines among the events up to the first that is not a line sent. *)
Definition sent_line (ev : stream_event) : option string := match ev with SLine l true => Some l | _ => None end.
Definition lines_sent (evs : list stream_event) : list string :=
  omap sent_line (take (default (length evs) (fst <$> list_find (λ ev, sent_line ev = None) evs)) evs).

(** What a client is told of a call: its answer, its error, or that there is no
    such callback. *)
Definition told {S} (cmd : string) (r : option (result string string * S)) (st : S) : session * S :=
  match r with
  | None => (Answer (Failed (ENotSupported cmd)), st)
  | Some (Ok msg, st') => (Answer (Text msg), st')
  | Some (Err e, st') => (Answer (Failed (ECallback e)), st')
  end.

(** A request carried out: the callback it names, called once with what it
    carries. *)
Definition invoke {S} (cs : Server S) (q : request) (evs : list stream_event) (st : S) : session * S :=
  match q with
  | QAction Start name o => told "start" ((λ f, f name o st) <$> StartFn cs) st
  | QAction Stop name o => told "stop" ((λ f, f name o st) <$> StopFn cs) st
  | QAction Restart name o => told "restart" ((λ f, f name o st) <$> RestartFn cs) st
  | QStatus None false => told "status" ((λ f, (Ok (f st).1, (f st).2)) <$> StatsFn cs) st
  | QStatus None true => told "status -o json" ((λ f, (Ok (f st).1, (f st).2)) <$> StatsJSONFn cs) st
  | QStatus (Some name) false => told "status" ((λ f, f name st) <$> StatusFn cs) st
  | QStatus (Some name) true => told "status -o json" ((λ f, f name st) <$> StatusJSONFn cs) st
  | QSignal name sig => told "signal" ((λ f, f name sig st) <$> SignalFn cs) st
  | QReload => told "reload" ((λ f, f st) <$> ReloadFn cs) st
  | QLogs name follow =>
      match (λ f, f name follow st) <$> LogsFn cs with
      | None => (Answer (Failed (ENotSupported "logs")), st)
      | Some (Err e, st') => (Answer (Failed (ECallback e)), st')
      | Some (Ok recent, st') => (Lines (recent ++ if follow then lines_sent evs else []), st')
      end
  end.

(** A word of the protocol that is no flag. *)
Definition plain (w : string) : Prop := word w ∧ w ∉ ["--wait"; "--timeout"; "-o"].

(** Flags spread over the words in any way; the last [--timeout] counts. *)
Inductive mixed : list string → ActionOptions → list string → Prop :=
  | mix_nil : mixed [] (mkOptions 0 false) []
  | mix_word w ws o args : plain w → mixed ws o args → mixed (w :: ws) o (w :: args)
  | mix_wait ws o args : mixed ws o args → mixed ws (mkOptions (Timeout o) true) ("--wait" :: args)
  | mix_timeout t d ws o args : plain t → ParseDuration t = Some d → (0 < d ≤ MaxWaitTimeout)%Z → mixed ws o args →
      mixed ws (mkOptions (if (0 <? Timeout o)%Z then Timeout o else d) (Wait o)) ("--timeout" :: t :: args).

(** The ways to write a request on the command line. *)
Inductive spelled : request → list string → Prop :=
  | sp_action a name o ws args :
      (* action first, or service first unless the name is a command word *)
      ws = [act_word a; name] ∨ (ws = [name; act_word a] ∧ name ∉ ["logs"; "start"; "stop"; "restart"; "status"]) →
      mixed ws o args → spelled (QAction a name o) args
  | sp_status_all : spelled (QStatus None false) ["status"]
  | sp_status_all_json args : args = ["status"; "-o"; "json"] ∨ args = ["-o"; "json"; "status"] →
      spelled (QStatus None true) args
  | sp_status name ws l1 l2 json :
      ws = ["status"; name] ∨ (ws = [name; "status"] ∧ name ∉ ["logs"; "start"; "stop"; "restart"; "status"]) →
      ws = l1 ++ l2 → spelled (QStatus (Some name) json) (l1 ++ (if json then ["-o"; "json"] else []) ++ l2)
  | sp_signal name sig : spelled (QSignal name sig) ["signal"; name; sig]
  | sp_reload : spelled QReload ["reload"]
  | sp_logs name (follow : bool) : spelled (QLogs name follow) ("logs" :: name :: if follow then ["-f"] else []).

(** Names are words; a timeout needs [--wait] and is a whole number of seconds. *)
Definition request_ok (q : request) : Prop :=
  match q with
  | QAction _ name o => plain name ∧ (Wait o = false → Timeout o = 0%Z) ∧ ∃ k, Timeout o = (k * Second)%Z ∧ (0 ≤ k ≤ 300)%Z
  | QStatus (Some name) _ => plain name
  | QStatus None _ | QReload => True
  | QSignal name sig => plain name ∧ plain sig
  | QLogs name _ => plain name
  end.

(** *** Words and lines *)

Lemma Join_bytes ws : Forall word ws → str_all line_byte (Join ws " ") = true.
Proof.
  induction ws as [|w ws IH]; intros H; [done|]. apply Forall_cons in H as [[_ Hw] H].
  assert (Hl : str_all line_byte w = true) by (eapply str_all_impl; [|exact Hw]; intros a Ha; unfold line_byte; by rewrite Ha).
  destruct ws as [|w' ws]; [done|]. change (Join (w :: w' :: ws) " ") with (w +:+ (" " +:+ Join (w' :: ws) " ")).
  rewrite !str_all_app, Hl, (IH H). done.
Qed.

(** A line of words arrives as these words. *)
Lemma handleConn_words {S} (cs : Server S) w ws uid euid slot evs st :
  Forall word (w :: ws) → (Z.of_nat (String.length (Join (w :: ws) " ")) < MaxScanTokenSize)%Z → peerTrusted uid euid = true →
  handleConn cs (Join (w :: ws) " " +:+ str1 "010") uid euid slot evs st =
  if bool_decide (w = "logs") then
    if slot then handleLogs cs (w :: ws) evs st else (Answer (Failed ETooManyStreams), st)
  else let r := handleCommand cs (w :: ws) st in (Answer r.1, r.2).
Proof.
  intros Hw Hlen Ht. pose proof (Join_bytes _ Hw) as Hb. pose proof (Join_ends _ _ Hw) as He.
  pose proof (Fields_words _ Hw) as Hf. set (l := Join (w :: ws) " ") in *. unfold handleConn, scan_line.
  assert (Hnl : str_in "010" l = false) by (by eapply str_all_in).
  change (str1 "010") with (String "010" "") at 1. rewrite (Cut_app "010" l "" Hnl).
  assert (Hne : l ≠ "") by (intros E; destruct He as [(a & s' & E' & _) _]; congruence).
  rewrite bool_decide_false by (intros E; apply (f_equal String.length) in E; rewrite length_app_str in E; cbn in E; lia).
  rewrite (proj2 (Z.ltb_lt _ _) Hlen). cbn [orb negb].
  assert (Hcr : HasSuffix l (str1 "013") = false).
  { destruct He as [_ (r & b & E & Hsb)]. unfold HasSuffix. rewrite E, str_rev_app. cbn [str_rev String.append].
    change (HasPrefix (String b (str_rev r)) (str1 "013") = false). unfold str1. rewrite HasPrefix_cons.
    rewrite bool_decide_false; [done|]. intros ->. done. }
  rewrite Hcr, (TrimSpace_solid l He), bool_decide_false by done. rewrite Ht. cbn [negb].
  by rewrite Hf.
Qed.

(** *** Flags *)

Lemma mixed_flags ws o args : mixed ws o args → ∀ pos acc,
  wait_flags args pos acc =
  let o' := mkOptions (if (0 <? Timeout o)%Z then Timeout o else Timeout acc) (Wait acc || Wait o) in
  if (0 <? Timeout o')%Z && negb (Wait o') then Err ETimeoutAlone else Ok (pos ++ ws, o').
Proof.
  induction 1 as [|w ws o args [_ Hp] H IH|ws o args H IH|t d ws o args _ Ht Hd H IH]; intros pos acc; cbn [wait_flags].
  - destruct acc as [t w]. cbn. by rewrite orb_false_r, app_nil_r.
  - rewrite !bool_decide_false by (intros ->; apply Hp; set_solver). rewrite IH. by rewrite <- app_assoc.
  - rewrite bool_decide_true by done. rewrite IH. cbn [Timeout Wait orb]. by rewrite orb_true_r.
  - rewrite bool_decide_false, bool_decide_true, Ht by done.
    destruct (Z.leb_spec d 0); [lia|]. destruct (Z.ltb_spec MaxWaitTimeout d); [lia|]. rewrite IH. cbn [Timeout Wait].
    destruct (0 <? Timeout o)%Z eqn:E; cbv iota; rewrite ?E; [done|]. rewrite !(proj2 (Z.ltb_lt 0 d)) by lia. done.
Qed.

Lemma mixed_nonneg ws o args : mixed ws o args → (0 ≤ Timeout o)%Z.
Proof. induction 1; cbn; try lia. destruct (0 <? _)%Z; lia. Qed.

Lemma extract_mixed ws o args : mixed ws o args → (Wait o = false → Timeout o = 0%Z) →
  extractWaitFlags args = Ok (ws, o).
Proof.
  intros H Hw. unfold extractWaitFlags. rewrite (mixed_flags ws o args H). cbn. destruct o as [t w]. cbn in *.
  pose proof (mixed_nonneg _ _ _ H) as Hn. cbn in Hn.
  assert (Et : (if (0 <? t)%Z then t else 0%Z) = t) by (destruct (Z.ltb_spec 0 t); lia). rewrite Et.
  destruct w; [by rewrite andb_false_r|]. by rewrite Hw.
Qed.

Lemma mixed_no_output ws o args : mixed ws o args → "-o" ∉ args.
Proof.
  induction 1 as [|w ws o args [_ Hp] H IH|ws o args H IH|t d ws o args [_ Hp] _ _ H IH]; rewrite ?not_elem_of_cons; try done.
  - by apply not_elem_of_nil.
  - split; [|done]. intros <-. apply Hp. set_solver.
  - split_and!; [done| |done]. intros <-. apply Hp. set_solver.
Qed.

Lemma output_step before a v rest : a ≠ "-o" → output_flag before (a :: v :: rest) = output_flag (before ++ [a]) (v :: rest).
Proof.
  intros H. transitivity (if negb (bool_decide (a = "-o")) then output_flag (before ++ [a]) (v :: rest)
    else if negb (bool_decide (v = "json")) then Err (EOutputFormat v) else Ok (before ++ rest, "-o " +:+ v)); [done|].
  by rewrite bool_decide_false.
Qed.

Lemma output_none args : ∀ before, "-o" ∉ args → output_flag before args = Ok (before ++ args, "").
Proof.
  induction args as [|a args IH]; intros before H; [done|]. apply not_elem_of_cons in H as [Ha H].
  destruct args as [|v rest]; [done|]. rewrite output_step, IH by congruence. by rewrite <- app_assoc.
Qed.

Lemma output_json l1 l2 : ∀ before, "-o" ∉ l1 →
  output_flag before (l1 ++ "-o" :: "json" :: l2) = Ok (before ++ l1 ++ l2, "-o json").
Proof.
  induction l1 as [|a l1 IH]; intros before H.
  { done. }
  apply not_elem_of_cons in H as [Ha H]. specialize (IH (before ++ [a]) H). rewrite <- app_assoc in IH.
  cbn [app] in *. destruct (l1 ++ "-o" :: "json" :: l2) as [|v rest] eqn:E; [by destruct l1|].
  rewrite output_step by congruence. exact IH.
Qed.

Lemma plain_mixed ws : Forall plain ws → mixed ws (mkOptions 0 false) ws.
Proof. induction 1; by constructor. Qed.

(** *** The round trip *)

Definition wire_tokens (o : ActionOptions) : list string :=
  if negb (Wait o) then []
  else if (0 <? Timeout o)%Z then ["--wait"; "--timeout"; Duration_String (Timeout o)] else ["--wait"].

Definition tokens (q : request) : list string :=
  match q with
  | QAction a name o => act_word a :: name :: wire_tokens o
  | QStatus name json => "status" :: match name with Some n => [n] | None => [] end ++ (if json then ["-o"; "json"] else [])
  | QSignal name sig => ["signal"; name; sig]
  | QReload => ["reload"]
  | QLogs name follow => "logs" :: name :: if follow then ["-f"] else []
  end.

Definition second_ok (k : Z) : bool :=
  let t := Duration_String (k * Second) in
  bool_decide (ParseDuration t = Some (k * Second)%Z) && negb (bool_decide (t = "")) && str_all solid t.

Lemma seconds_table : forallb second_ok (seqZ 1 300) = true.
Proof. vm_compute. reflexivity. Qed.

Lemma seconds_ok k : (1 ≤ k ≤ 300)%Z →
  ParseDuration (Duration_String (k * Second)) = Some (k * Second)%Z ∧ word (Duration_String (k * Second)).
Proof.
  intros Hk. pose proof seconds_table as H. rewrite forallb_forall in H. specialize (H k).
  unfold second_ok in H. cbv zeta in H. rewrite !andb_true_iff, negb_true_iff, bool_decide_eq_true, bool_decide_eq_false in H.
  destruct H as [[H1 H2] H3]; [|done]. apply list_elem_of_In, elem_of_seqZ. lia.
Qed.

Ltac closed_word := split; [done|vm_compute; reflexivity].
Ltac each tac := repeat (apply Forall_cons_2; [tac|]); apply Forall_nil_2.

Lemma act_is_word a : word (act_word a).
Proof. destruct a; closed_word. Qed.

Lemma wire_words o : (Wait o = false → Timeout o = 0%Z) → (∃ k, Timeout o = (k * Second)%Z ∧ (0 ≤ k ≤ 300)%Z) →
  Forall word (wire_tokens o) ∧ extractWaitFlags (wire_tokens o) = Ok ([], o) ∧
  (Wait o = true → wire o = Join (wire_tokens o) " ").
Proof.
  destruct o as [t w]. cbn [Wait Timeout]. intros Hw (k & -> & Hk). unfold wire_tokens, wire. cbn [Wait Timeout].
  destruct w; cbn [negb]; [|rewrite Hw by done; split_and!; [constructor|done|done]].
  assert (Hwait : word "--wait") by closed_word. assert (Htime : word "--timeout") by closed_word.
  destruct (Z.ltb_spec 0 (k * Second)) as [Hp|Hp].
  - destruct (seconds_ok k) as [Hparse Hword]; [unfold Second in *; lia|]. split_and!; [each ltac:(assumption)| |done].
    unfold extractWaitFlags. cbn [wait_flags]. rewrite !bool_decide_true, bool_decide_false, Hparse by done.
    destruct (Z.leb_spec (k * Second) 0); [lia|]. destruct (Z.ltb_spec MaxWaitTimeout (k * Second)); [unfold MaxWaitTimeout, Second in *; lia|].
    cbn [Wait Timeout]. by rewrite andb_false_r.
  - assert (k = 0%Z) as -> by (unfold Second in *; lia). split_and!; [each ltac:(assumption)|done|done].
Qed.

Lemma tokens_words q : request_ok q → Forall word (tokens q).
Proof.
  intros H. destruct q as [a n o|n j|n sg| |n f]; cbn [tokens request_ok] in *.
  - destruct H as ([Hn _] & Hw & Hk). apply Forall_cons_2; [apply act_is_word|]. apply Forall_cons_2; [done|]. by apply wire_words.
  - apply Forall_cons_2; [closed_word|]. apply Forall_app. split; [destruct n; each ltac:(apply H)|].
    destruct j; each ltac:(closed_word).
  - destruct H as [[Hn _] [Hs _]]. each ltac:(assumption || closed_word).
  - each ltac:(closed_word).
  - destruct H as [Hn _]. destruct f; each ltac:(assumption || closed_word).
Qed.

Lemma stream_logs_sent evs : stream_logs evs = lines_sent evs.
Proof.
  unfold lines_sent. induction evs as [|ev evs IH]; [done|]. cbn [list_find]. destruct (decide (sent_line ev = None)) as [E|E].
  - cbn. by destruct ev as [l []| | |].
  - destruct ev as [l []| | |]; try done. cbn [stream_logs]. rewrite IH.
    destruct (list_find _ evs) as [[i x]|]; cbn; done.
Qed.

Lemma told_call {S F} cmd (fn : option F) (use : F → result string string * S) (st : S) :
  (let r := call cmd fn (λ f, answer (use f)) st in (Answer r.1, r.2)) = told cmd (use <$> fn) st.
Proof. destruct fn as [f|]; cbn; [|done]. unfold answer. by destruct (use f) as [[|] ?]. Qed.

Lemma dispatch_tokens {S} (cs : Server S) q evs st : request_ok q →
  (if bool_decide (hd "" (tokens q) = "logs") then handleLogs cs (tokens q) evs st
   else let r := handleCommand cs (tokens q) st in (Answer r.1, r.2)) = invoke cs q evs st.
Proof.
  intros H. destruct q as [a n o|n j|n sg| |n f]; cbn [tokens hd request_ok] in *.
  - destruct H as (_ & Hw & Hk). destruct (wire_words o Hw Hk) as (_ & He & _).
    assert (Hd : bool_decide (act_word a = "logs") = false) by (by destruct a). rewrite Hd. cbn [handleCommand].
    rewrite He. destruct a; apply told_call.
  - rewrite bool_decide_false by done. cbn [handleCommand]. rewrite bool_decide_true by done.
    destruct n as [n|]; [destruct H as [[Hne _] Hp]|].
    + cbn [app]. unfold parseStatusArgs. cbn [status_args].
      rewrite bool_decide_false by (intros ->; apply Hp; set_solver). cbn [bool_decide negb].
      transitivity (let r := run_status cs n (if j then "json" else "") st in (Answer r.1, r.2)); [by destruct j|].
      unfold run_status. rewrite (bool_decide_false (n = "")) by done. destruct j; apply told_call.
    + destruct j; cbn; unfold run_status; cbn; [destruct (StatsJSONFn cs)|destruct (StatsFn cs)]; done.
  - apply told_call.
  - apply told_call.
  - rewrite bool_decide_true by done. unfold handleLogs, invoke. rewrite stream_logs_sent.
    destruct f; cbn; destruct (LogsFn cs) as [f|]; cbn; try done; by destruct (f n _ st) as [[|] ?].
Qed.

Lemma two_tokens a n : buildPositionalCommand [act_word a; n] = Ok (Join [act_word a; n] " ").
Proof. by destruct a. Qed.

Lemma two_tokens_swapped w n : w ∈ serviceActions → n ∉ "logs" :: serviceActions →
  buildPositionalCommand [n; w] = Ok (Join [w; n] " ").
Proof.
  intros Hw Hn. unfold buildPositionalCommand. cbn [length Nat.eqb andb].
  rewrite bool_decide_false by (intros ->; apply Hn; set_solver). unfold two_words.
  rewrite (bool_decide_false (n ∈ _)) by set_solver. by rewrite bool_decide_true.
Qed.

Lemma waitable a n : waitableCommand (Join [act_word a; n] " ") = true.
Proof.
  unfold waitableCommand. change (Join [act_word a; n] " ") with (act_word a +:+ String " " n).
  assert (E : Cut (act_word a +:+ String " " n) " " = (act_word a, n, true)) by (apply (Cut_app " "); by destruct a).
  rewrite E. by destruct a.
Qed.

Lemma Join_app_nonempty l1 l2 : l1 ≠ [] → l2 ≠ [] → Join (l1 ++ l2) " " = Join l1 " " +:+ " " +:+ Join l2 " ".
Proof.
  intros H1 H2. induction l1 as [|w l1 IH]; [done|]. destruct l1 as [|w' l1]; [by destruct l2|].
  change ((w :: w' :: l1) ++ l2) with (w :: w' :: (l1 ++ l2)).
  change (Join (w :: w' :: (l1 ++ l2)) " ") with (w +:+ " " +:+ Join ((w' :: l1) ++ l2) " "). rewrite IH by done.
  change (Join (w :: w' :: l1) " ") with (w +:+ " " +:+ Join (w' :: l1) " "). by rewrite !app_assoc_str.
Qed.

Lemma client_action a n o ws args : request_ok (QAction a n o) → mixed ws o args →
  buildPositionalCommand ws = Ok (Join [act_word a; n] " ") →
  buildClientCommand args = Ok (Join (tokens (QAction a n o)) " ").
Proof.
  intros (Hn & Hw & Hk) Hm Hb. unfold buildClientCommand, extractOutputFlag.
  rewrite (output_none args []) by (by eapply mixed_no_output). cbn [app mbind result_bind].
  rewrite (extract_mixed ws o args Hm Hw). cbn [mbind result_bind]. rewrite Hb. cbn [mbind result_bind].
  destruct (wire_words o Hw Hk) as (_ & _ & Hwire). cbn [tokens]. destruct (Wait o) eqn:E.
  - rewrite waitable. cbn [negb mbind result_bind]. rewrite bool_decide_true by done. f_equal.
    change (act_word a :: n :: wire_tokens o) with ([act_word a; n] ++ wire_tokens o).
    rewrite Join_app_nonempty, Hwire; [done..|]. unfold wire_tokens. rewrite E. by destruct (0 <? Timeout o)%Z.
  - cbn [mbind result_bind]. rewrite bool_decide_true by done. unfold wire_tokens. by rewrite E.
Qed.

Lemma client_status n ws l1 l2 (j : bool) : plain n → Forall plain ws → ws = l1 ++ l2 →
  buildPositionalCommand ws = Ok (Join ["status"; n] " ") →
  buildClientCommand (l1 ++ (if j then ["-o"; "json"] else []) ++ l2) = Ok (Join (tokens (QStatus (Some n) j)) " ").
Proof.
  intros Hn Hws -> Hb. pose proof (plain_mixed _ Hws) as Hm. pose proof (mixed_no_output _ _ _ Hm) as Ho.
  unfold buildClientCommand, extractOutputFlag. destruct j; cbn [app].
  - rewrite (output_json l1 l2 []) by set_solver. cbn [app mbind result_bind]. rewrite (extract_mixed _ _ _ Hm) by done.
    cbn [mbind result_bind Wait]. rewrite Hb. cbn [mbind result_bind]. rewrite bool_decide_false by done.
    f_equal.
  - rewrite (output_none _ []) by done. cbn [app mbind result_bind]. rewrite (extract_mixed _ _ _ Hm) by done.
    cbn [mbind result_bind Wait]. rewrite Hb. cbn [mbind result_bind]. by rewrite bool_decide_true.
Qed.

Lemma client_words ws : Forall plain ws → buildClientCommand ws = buildPositionalCommand ws.
Proof.
  intros Hws. pose proof (plain_mixed _ Hws) as Hm. unfold buildClientCommand, extractOutputFlag.
  rewrite (output_none _ []) by (by eapply mixed_no_output). cbn [app mbind result_bind].
  rewrite (extract_mixed _ _ _ Hm) by done. cbn [mbind result_bind Wait].
  destruct (buildPositionalCommand ws); cbn [mbind result_bind]; [|done]. by rewrite bool_decide_true.
Qed.

Ltac closed_plain := split; [closed_word|set_solver].

Lemma client_tokens q args : request_ok q → spelled q args → buildClientCommand args = Ok (Join (tokens q) " ").
Proof.
  intros Hq Hs. destruct Hs as [a n o ws args Hws Hm| |args Ha|n ws l1 l2 j Hws E|n sg| |n f].
  - apply (client_action a n o ws); [done|done|]. destruct Hws as [->|[-> Hn]]; [apply two_tokens|].
    apply two_tokens_swapped; [destruct a; set_solver|exact Hn].
  - done.
  - by destruct Ha as [-> | ->].
  - cbn [request_ok] in Hq. assert (Hst : plain "status") by closed_plain. apply (client_status n ws); try done.
    + destruct Hws as [->|[-> _]]; each ltac:(assumption).
    + destruct Hws as [->|[-> Hn]]; [done|]. apply two_tokens_swapped; [set_solver|exact Hn].
  - destruct Hq as [Hn Hsg]. rewrite client_words by (each ltac:(assumption || closed_plain)). done.
  - done.
  - rewrite client_words; [|destruct f; each ltac:(assumption || closed_plain)].
    by destruct f.
Qed.

(** C9: control protocol.  However a request is written on the command line
    (action first or service first, flags anywhere, the last [--timeout]
    counting; names are words that are no flags, a timeout is a whole number of
    seconds up to the five minutes allowed), the client sends one line, and when
    a trusted peer sends that line (shorter than the 64 KiB of the scanner, and a
    streaming slot is free if it asks for logs) the server calls the callback the
    request names, once, with the same service, signal, format, follow and wait
    flags and timeout, and answers with that callback's answer or error; for logs
    with the lines it gives and, when following, those that then arrive. *)
Theorem control_roundtrip {S : Type} (cs : Server S) (q : request) (args : list string) (uid euid : Z)
    (evs : list stream_event) (st : S) :
  request_ok q → spelled q args → peerTrusted uid euid = true →
  ∃ line, buildClientCommand args = Ok line ∧
    ((Z.of_nat (String.length line) < MaxScanTokenSize)%Z →
     handleConn cs (line +:+ str1 "010") uid euid true evs st = invoke cs q evs st).
Proof.
  intros Hq Hs Ht. exists (Join (tokens q) " "). split; [by apply client_tokens|]. intros Hlen.
  pose proof (tokens_words q Hq) as Hw. pose proof (dispatch_tokens cs q evs st Hq) as Hd.
  destruct (tokens q) as [|w ws] eqn:E; [by destruct q as [[]| | | |]|].
  rewrite handleConn_words by done. exact Hd.
Qed.

(** A recording server: the state is the list of calls. *)
Definition recorder : Server (list request) :=
  mkServer (Some (λ n o l, (Ok "started", l ++ [QAction Start n o]))) (Some (λ n o l, (Ok "stopped", l ++ [QAction Stop n o])))
    (Some (λ n o l, (Ok "restarted", l ++ [QAction Restart n o]))) (Some (λ n l, (Ok "up", l ++ [QStatus (Some n) false])))
    (Some (λ n sg l, (Ok "sent", l ++ [QSignal n sg]))) (Some (λ l, (Ok "reloaded", l ++ [QReload])))
    (Some (λ l, ("all", l ++ [QStatus None false]))) (Some (λ l, ("{}", l ++ [QStatus None true])))
    (Some (λ n l, (Ok "{}", l ++ [QStatus (Some n) true]))) (Some (λ n f l, (Ok ["line"], l ++ [QLogs n f]))).

Lemma control_roundtrip_witness : ∃ line,
  buildClientCommand ["--timeout"; "90s"; "web"; "--wait"; "restart"] = Ok line ∧
  handleConn recorder (line +:+ str1 "010") 0 1000 true [] [] =
    (Answer (Text "restarted"), [QAction Restart "web" (mkOptions (90 * Second) true)]).
Proof.
  destruct (control_roundtrip recorder (QAction Restart "web" (mkOptions (90 * Second) true))
    ["--timeout"; "90s"; "web"; "--wait"; "restart"] 0 1000 [] []) as (line & Hl & Hc).
  - split; [split; [closed_word|set_solver]|]. split; [done|]. exists 90%Z. split; [done|lia].
  - apply (sp_action Restart "web" (mkOptions (90 * Second) true) ["web"; "restart"]).
    + right. split; [done|set_solver].
    + apply (mix_timeout "90s" (90 * Second) ["web"; "restart"] (mkOptions 0 true)).
      * split; [closed_word|set_solver].
      * vm_compute. reflexivity.
      * unfold MaxWaitTimeout, Second. lia.
      * apply mix_word; [split; [closed_word|set_solver]|]. apply (mix_wait ["restart"] (mkOptions 0 false)).
        apply mix_word; [split; [closed_word|set_solver]|]. apply mix_nil.
  - done.
  - exists line. split; [exact Hl|]. rewrite Hc; [done|]. vm_compute in Hl. injection Hl as <-. vm_compute. reflexivity.
Defined.

(** ** Connection slots

    The accept loop and its handlers as a state machine on the two semaphores.
    Each handler is a phase; releasing a command slot and taking a streaming
    slot are separate steps. *)

Definition maxConns : nat := 64.
Definition maxStreaming : nat := 16.

Inductive phase :=
  | InCommand                   (* holds a command slot *)
  | Swapping                    (* released it, about to try for a streaming slot *)
  | Streaming                   (* holds a streaming slot *)
  | Closed.

Definition is_phase (p q : phase) : bool :=
  match p, q with
  | InCommand, InCommand | Swapping, Swapping | Streaming, Streaming | Closed, Closed => true
  | _, _ => false
  end.

Record slots := mkSlots {
  cmdSem : nat;
  streamSem : nat;
  conns : list phase;           (* the handlers, in the order they were started *)
  pending : bool;               (* the accept loop holds a connection *)
  listening : bool;
  stopping : bool;              (* Stop was called *)
  returned : bool;              (* Stop returned *)
}.

Inductive conn_event :=
  | Accept                      (* Accept returns a connection *)
  | Dispatch                    (* the select on the command semaphore *)
  | Finish (i : nat)            (* a handler returns, by panic or not *)
  | BeginLogs (i : nat)         (* releaseCmd of a logs command *)
  | TryStream (i : nat)         (* the select on the streaming semaphore *)
  | CallStop
  | StopReturns.

(** A receive from a semaphore blocks when it is empty. *)
Definition take_slot (n : nat) : option nat := match n with O => None | S n => Some n end.

Definition conn_step (s : slots) (ev : conn_event) : option slots :=
  match ev with
  | Accept =>
      if listening s && negb (pending s)
      then Some (mkSlots (cmdSem s) (streamSem s) (conns s) true true (stopping s) (returned s)) else None
  | Dispatch =>
      if negb (pending s) then None
      else if cmdSem s <? maxConns
      then Some (mkSlots (S (cmdSem s)) (streamSem s) (conns s ++ [InCommand]) false (listening s) (stopping s) (returned s))
      else Some (mkSlots (cmdSem s) (streamSem s) (conns s) false (listening s) (stopping s) (returned s))
  | Finish i =>
      match conns s !! i with
      | Some InCommand =>
          n ← take_slot (cmdSem s);
          Some (mkSlots n (streamSem s) (<[i := Closed]> (conns s)) (pending s) (listening s) (stopping s) (returned s))
      | Some Streaming =>
          n ← take_slot (streamSem s);
          Some (mkSlots (cmdSem s) n (<[i := Closed]> (conns s)) (pending s) (listening s) (stopping s) (returned s))
      | _ => None
      end
  | BeginLogs i =>
      match conns s !! i with
      | Some InCommand =>
          n ← take_slot (cmdSem s);
          Some (mkSlots n (streamSem s) (<[i := Swapping]> (conns s)) (pending s) (listening s) (stopping s) (returned s))
      | _ => None
      end
  | TryStream i =>
      match conns s !! i with
      | Some Swapping =>
          if streamSem s <? maxStreaming
          then Some (mkSlots (cmdSem s) (S (streamSem s)) (<[i := Streaming]> (conns s)) (pending s) (listening s) (stopping s) (returned s))
          else Some (mkSlots (cmdSem s) (streamSem s) (<[i := Closed]> (conns s)) (pending s) (listening s) (stopping s) (returned s))
      | _ => None
      end
  | CallStop => Some (mkSlots (cmdSem s) (streamSem s) (conns s) (pending s) false true (returned s))
  | StopReturns =>
      if stopping s && forallb (is_phase Closed) (conns s)
      then Some (mkSlots (cmdSem s) (streamSem s) (conns s) (pending s) (listening s) true true) else None
  end.

Fixpoint conn_run (evs : list conn_event) (s : slots) : option slots :=
  match evs with
  | [] => Some s
  | ev :: evs => s ← conn_step s ev; conn_run evs s
  end.

Definition fresh_slots : slots := mkSlots 0 0 [] false true false false.

Definition holding (p : phase) (l : list phase) : nat := length (List.filter (is_phase p) l).
#[global] Arguments holding : simpl never.

Definition unit_if (b : bool) : nat := if b then 1 else 0.

Lemma holding_app p l1 l2 : holding p (l1 ++ l2) = holding p l1 + holding p l2.
Proof. unfold holding. by rewrite List.filter_app, length_app. Qed.

Lemma holding_cons p q l : holding p (q :: l) = unit_if (is_phase p q) + holding p l.
Proof. unfold holding. cbn [List.filter]. by destruct (is_phase p q). Qed.

Lemma holding_snoc p q l : holding p (l ++ [q]) = holding p l + unit_if (is_phase p q).
Proof. rewrite holding_app, holding_cons. change (holding p []) with 0. lia. Qed.

Lemma holding_insert p q q' l i : l !! i = Some q →
  holding p (<[i := q']> l) + unit_if (is_phase p q) = holding p l + unit_if (is_phase p q').
Proof.
  revert i. induction l as [|x l IH]; intros [|i] H; cbn in H; [done|done| |].
  - injection H as ->. change (<[0 := q']> (q :: l)) with (q' :: l). rewrite !holding_cons. lia.
  - change (<[S i := q']> (x :: l)) with (x :: <[i := q']> l). rewrite !holding_cons. specialize (IH i H). lia.
Qed.

Lemma holding_pos p l i : l !! i = Some p → 0 < holding p l.
Proof.
  revert i. induction l as [|x l IH]; intros [|i] H; cbn in H; [done|done| |]; rewrite holding_cons.
  - injection H as ->. assert (is_phase p p = true) as -> by (by destruct p). cbn. lia.
  - specialize (IH i H). lia.
Qed.

(** Handlers that have not returned. *)
Definition active (l : list phase) : nat := holding InCommand l + holding Swapping l + holding Streaming l.
#[global] Arguments active : simpl never.

Lemma active_insert q q' l i : l !! i = Some q →
  active (<[i := q']> l) + unit_if (negb (is_phase Closed q)) = active l + unit_if (negb (is_phase Closed q')).
Proof.
  intros H. unfold active. pose proof (holding_insert InCommand q q' l i H). pose proof (holding_insert Swapping q q' l i H).
  pose proof (holding_insert Streaming q q' l i H). destruct q, q'; cbn in *; lia.
Qed.

Lemma active_none l : forallb (is_phase Closed) l = true ↔ active l = 0.
Proof.
  unfold active. induction l as [|x l IH]; [done|]. cbn [forallb]. rewrite andb_true_iff, IH, !holding_cons.
  destruct x; cbn; intuition lia.
Qed.

(** The semaphores count their holders; after [Stop] has returned only the
    connection the accept loop already held can still be served. *)
Record slots_ok (s : slots) : Prop := {
  sl_cmd : cmdSem s = holding InCommand (conns s);
  sl_stream : streamSem s = holding Streaming (conns s);
  sl_max : cmdSem s ≤ 64 ∧ streamSem s ≤ 16;
  sl_stop : stopping s = true → listening s = false;
  sl_returned : returned s = true → stopping s = true ∧ active (conns s) + unit_if (pending s) ≤ 1;
}.

Ltac count_slots :=
  repeat match goal with
  | H : ?l !! ?i = Some ?q |- context [<[?i := ?q']> ?l] =>
      lazymatch goal with
      | _ : holding InCommand (<[i := q']> l) + _ = _ |- _ => fail
      | _ => pose proof (holding_insert InCommand q q' l i H); pose proof (holding_insert Streaming q q' l i H);
             pose proof (active_insert q q' l i H)
      end
  end.

Lemma conn_step_ok s ev s' : slots_ok s → conn_step s ev = Some s' → slots_ok s'.
Proof.
  intros [Hc Hs [Hm1 Hm2] Hl Hr]. destruct s as [c m l p li st re]. cbn in *. destruct ev as [| |i|i|i| |]; cbn -[maxConns maxStreaming Nat.ltb];
    unfold maxConns, maxStreaming in *.
  - destruct li, p; try done. intros [= <-]. split; cbn; try done. intros [Hst Ha]%Hr. by specialize (Hl Hst).
  - destruct p; [|done]. cbn [negb]. unfold active in Hr. destruct (Nat.ltb_spec c 64); (intros Heq; injection Heq as <-); split; cbn; try done;
      unfold active; rewrite ?holding_snoc; cbn; try lia; intros [? ?]%Hr; (split; [done|cbn in *; lia]).
  - destruct (l !! i) as [[]|] eqn:E; try done; pose proof (holding_pos _ _ _ E); cbn.
    + destruct c as [|c]; [done|]. intros [= <-]. split; cbn; count_slots; cbn in *; try lia; try done. intros [? ?]%Hr. split; [done|lia].
    + destruct m as [|m]; [done|]. intros [= <-]. split; cbn; count_slots; cbn in *; try lia; try done. intros [? ?]%Hr. split; [done|lia].
  - destruct (l !! i) as [[]|] eqn:E; try done; pose proof (holding_pos _ _ _ E); cbn.
    destruct c as [|c]; [done|]. intros [= <-]. split; cbn; count_slots; cbn in *; try lia; try done. intros [? ?]%Hr. split; [done|lia].
  - destruct (l !! i) as [[]|] eqn:E; try done. destruct (Nat.ltb_spec m 16); (intros Heq; injection Heq as <-); split; cbn; count_slots; cbn in *; try lia; try done;
      intros [? ?]%Hr; (split; [done|lia]).
  - intros [= <-]. split; cbn; try done. intros [? ?]%Hr. done.
  - destruct st; [|done]. cbn. destruct (forallb _ l) eqn:E; [|done]. intros [= <-]. split; cbn; try done.
    intros _. split; [done|]. apply active_none in E. rewrite E. destruct p; cbn; lia.
Qed.

Lemma conn_run_ok evs s s' : slots_ok s → conn_run evs s = Some s' → slots_ok s'.
Proof.
  revert s. induction evs as [|ev evs IH]; intros s H; cbn [conn_run]; [by intros [= <-]|].
  destruct (conn_step s ev) as [s1|] eqn:E; [|done]. cbn. apply IH. by eapply conn_step_ok.
Qed.

(** C16: connection slots.  Under every interleaving of clients, handlers and
    [Stop]: at most 64 connections hold a command slot and at most 16 stream
    logs; each semaphore holds exactly one entry per handler in that phase, so
    no path, a panic included, leaks or double-frees a slot and no release
    blocks; when every handler has returned all slots are free; and after
    [Stop] has returned at most one connection (the one the accept loop already
    held) is still being served. *)
Theorem slot_bounds (evs : list conn_event) (s : slots) :
  conn_run evs fresh_slots = Some s →
  holding InCommand (conns s) ≤ 64 ∧ holding Streaming (conns s) ≤ 16 ∧
  cmdSem s = holding InCommand (conns s) ∧ streamSem s = holding Streaming (conns s) ∧
  (∀ i, conns s !! i = Some InCommand ∨ conns s !! i = Some Streaming → is_Some (conn_step s (Finish i))) ∧
  ((∀ i p, conns s !! i = Some p → p = Closed) → cmdSem s = 0 ∧ streamSem s = 0) ∧
  (returned s = true → listening s = false ∧ active (conns s) ≤ 1).
Proof.
  intros H. apply conn_run_ok in H as [Hc Hs [Hm1 Hm2] Hl Hr]; [|by split; cbn; try lia].
  split_and!; [lia|lia|done|done| | |].
  - intros i [E|E]; cbn; rewrite E; pose proof (holding_pos _ _ _ E).
    + destruct (cmdSem s); [lia|]. eauto.
    + destruct (streamSem s); [lia|]. eauto.
  - intros Hall. assert (Ha : active (conns s) = 0).
    { apply active_none, forallb_forall. intros p Hp%list_elem_of_In. apply list_elem_of_lookup in Hp as [i Hi].
      by rewrite (Hall i p Hi). }
    unfold active in Ha. lia.
  - intros [? ?]%Hr. split; [by apply Hl|lia].
Qed.

(** A connection accepted just before [Stop] closes the listener is served
    after [Stop] returned. *)
Example late_handler :
  conn_run [Accept; CallStop; StopReturns; Dispatch] fresh_slots = Some (mkSlots 1 0 [InCommand] false false true true).
Proof. reflexivity. Qed.

Definition demo_conns : list conn_event := [Accept; Dispatch; BeginLogs 0; Accept; TryStream 0; Dispatch; Finish 1].
Definition demo_slots : slots := mkSlots 0 1 [Streaming; Closed] false true false false.

Lemma slot_bounds_witness : conn_run demo_conns fresh_slots = Some demo_slots ∧ holding Streaming (conns demo_slots) ≤ 16.
Proof.
  assert (H : conn_run demo_conns fresh_slots = Some demo_slots) by (vm_compute; reflexivity).
  split; [exact H|]. exact (proj1 (proj2 (slot_bounds demo_conns demo_slots H))).
Defined.

End Control.
