(* ===== verification/GoFloat.v ===== *)
(** * strconv.ParseFloat(s, 64)

    Decimal and hexadecimal numbers with exponents, underscores between digits,
    infinities and NaN, rounded to the nearest float64; a value out of range is
    an error. *)

From S2P Require Import Prelude GoStrings GoTime.
From Stdlib Require Import SpecFloat.

Open Scope string_scope.
Open Scope list_scope.
Open Scope Z_scope.

Module GoFloat.

Definition lower (a : ascii) : ascii := lower_byte a.

Definition hex_digit (a : ascii) : option Z :=
  let n := byte_val (lower a) in
  if is_digit a then Some (n - 48) else if (97 <=? n) && (n <=? 102) then Some (n - 87) else None.

Definition digit_in (hex : bool) (a : ascii) : option Z :=
  if hex then hex_digit a else if is_digit a then Some (byte_val a - 48) else None.

(** The last character seen by [underscoreOK]. *)
Inductive seen := SawStart | SawDigit | SawUnderscore | SawOther.

Fixpoint underscores_ok (hex : bool) (saw : seen) (s : string) : bool :=
  match s with
  | "" => match saw with SawUnderscore => false | _ => true end
  | String a s =>
      if digit_in hex a is Some _ then underscores_ok hex SawDigit s
      else if bool_decide (a = "_"%char) then match saw with SawDigit => underscores_ok hex SawUnderscore s | _ => false end
      else match saw with SawUnderscore => false | _ => underscores_ok hex SawOther s end
  end.

Record mantissa := mkMantissa {
  m_val : Z;
  m_frac : Z;
  m_dot : bool;
  m_digits : bool;
}.

(** The digit loop of [readFloat]: it stops at the first other byte or at a
    second point. *)
Fixpoint read_mantissa (hex : bool) (m : mantissa) (s : string) : mantissa * string :=
  match s with
  | "" => (m, "")
  | String a s' =>
      if bool_decide (a = "_"%char) then read_mantissa hex m s'
      else if bool_decide (a = "."%char) then
        if m_dot m then (m, s) else read_mantissa hex (mkMantissa (m_val m) (m_frac m) true (m_digits m)) s'
      else match digit_in hex a with
      | Some d =>
          read_mantissa hex (mkMantissa (m_val m * (if hex then 16 else 10) + d)
            (if m_dot m then m_frac m + 1 else m_frac m) (m_dot m) true) s'
      | None => (m, s)
      end
  end.

(** The digits of an exponent, which stops growing at five digits. *)
Fixpoint read_exponent (e : Z) (s : string) : Z * string :=
  match s with
  | "" => (e, "")
  | String a s' =>
      if bool_decide (a = "_"%char) then read_exponent e s'
      else if is_digit a then read_exponent (if e <? 10000 then e * 10 + (byte_val a - 48) else e) s'
      else (e, s)
  end.

Definition sign_of (s : string) : bool * string :=
  match s with
  | String a s' => if bool_decide (a = "-"%char) then (true, s') else if bool_decide (a = "+"%char) then (false, s') else (false, s)
  | "" => (false, s)
  end.

Definition exponent_of (expChar : ascii) (s : string) : option (option Z * string) :=
  match s with
  | String a s' =>
      if bool_decide (lower a = expChar) then
        let '(neg, s'') := sign_of s' in
        match s'' with
        | String d _ => if is_digit d then let '(e, r) := read_exponent 0 s'' in Some (Some (if neg then - e else e), r) else None
        | "" => None
        end
      else Some (None, s)
  | "" => Some (None, s)
  end.

(** [n / d] rounded to nearest, ties to even *)
Definition quotient (n : Z) (d : positive) : float64 :=
  match n with
  | Zpos p => SFdiv 53 1024 (S754_finite false p 0) (S754_finite false d 0)
  | _ => S754_zero false
  end.

Definition scale10 (n e : Z) : float64 :=
  if 0 <=? e then f64_of_Z (n * 10 ^ e) else quotient n (Z.to_pos (10 ^ (- e))).

Definition negate (neg : bool) (x : float64) : float64 := if neg then SFopp x else x.

Definition read_number (s : string) : option float64 :=
  let '(neg, s1) := sign_of s in
  let hex := match s1 with
    | String "0" (String x (String _ _)) => bool_decide (lower x = "x"%char) | _ => false end in
  let body := if hex then drop_str 2 s1 else s1 in
  let '(m, s2) := read_mantissa hex (mkMantissa 0 0 false false) body in
  if negb (m_digits m) then None
  else
    '(e, s3) ← exponent_of (if hex then "p"%char else "e"%char) s2;
    if negb (bool_decide (s3 = "")) then None
    else if hex && negb (bool_decide (is_Some e)) then None
    else if negb (underscores_ok hex (if hex then SawDigit else SawStart) body) then None
    else
      let e := default 0 e in
      let x := if hex then binary_normalize 53 1024 (m_val m) (e - 4 * m_frac m) false
               else scale10 (m_val m) (e - m_frac m) in
      if f64_is_inf x then None else Some (negate neg x).

Definition special (s : string) : option float64 :=
  let '(neg, s1) := sign_of s in
  if bool_decide (ToLower s1 = "inf") || bool_decide (ToLower s1 = "infinity") then Some (S754_infinity neg)
  else if bool_decide (ToLower s = "nan") then Some S754_nan
  else None.

Definition ParseFloat (s : string) : option float64 :=
  match special s with Some x => Some x | None => read_number s end.

Example parse_float_ex :
  ParseFloat "1.5" = ParseFloat "0x1.8p0" ∧ ParseFloat "+1_5e-1" = ParseFloat "1.5" ∧
  ParseFloat "1.5" = Some (S754_finite false 6755399441055744 (-52)) ∧
  ParseFloat "1e999" = None ∧ ParseFloat "1__0" = None ∧ ParseFloat "0x1" = None ∧ ParseFloat "." = None ∧
  ParseFloat "-inf" = Some (S754_infinity true) ∧ ParseFloat "+nan" = None.
Proof. vm_compute. repeat split. Qed.

End GoFloat.
