(* ===== verification/GoRegexp.v ===== *)
(** * Regular expressions of the Go standard library

    A backtracking matcher with the leftmost-first preference of package
    [regexp], on bytes.  The patterns of the program use ASCII classes and
    negated ASCII classes only, for which matching bytes and matching runes
    agree: no byte of a longer rune is an ASCII byte. *)

From S2P Require Import Prelude GoStrings.

Open Scope string_scope.
Open Scope list_scope.
Open Scope nat_scope.

Module GoRegexp.

Inductive re :=
  | REps
  | RChr (p : ascii → bool)
  | RCat (a b : re)
  | RAlt (a b : re)
  | RStar (greedy : bool) (a : re)
  | RGrp (n : nat) (a : re)
  | REnd.

(** Start and end of the groups, the latest first. *)
Definition caps : Type := list (nat * (nat * nat)).

(** The rounds of a star, at most one per byte left; a round that consumes
    nothing is not taken. *)
Fixpoint star_loop {R} (greedy : bool) (body : string → nat → caps → (string → nat → caps → option R) → option R)
    (k : string → nat → caps → option R) (n : nat) (s : string) (pos : nat) (c : caps) : option R :=
  match n with
  | O => k s pos c
  | S n =>
      let more := body s pos c (λ s' pos' c', if pos' =? pos then None else star_loop greedy body k n s' pos' c') in
      if greedy then match more with Some x => Some x | None => k s pos c end
      else match k s pos c with Some x => Some x | None => more end
  end.

Fixpoint mt {R} (r : re) (s : string) (pos : nat) (c : caps) (k : string → nat → caps → option R) : option R :=
  match r with
  | REps => k s pos c
  | RChr p =>
      match s with
      | "" => None
      | String a s' => if p a then k s' (S pos) c else None
      end
  | RCat a b => mt a s pos c (λ s pos c, mt b s pos c k)
  | RAlt a b => match mt a s pos c k with Some x => Some x | None => mt b s pos c k end
  | RStar greedy a => star_loop greedy (mt a) k (String.length s) s pos c
  | RGrp i a => mt a s pos c (λ s' pos' c', k s' pos' ((i, (pos, pos')) :: c'))
  | REnd => if bool_decide (s = "") then k s pos c else None
  end.

(** ** Derived forms *)

Definition is_chr (a b : ascii) : bool := bool_decide (b = a).
Definition not_chr (a b : ascii) : bool := negb (bool_decide (b = a)).
Definition any_but_newline (b : ascii) : bool := not_chr "010" b.

(** [\s], [\w], [\d] *)
Definition re_space (a : ascii) : bool := let n := byte_val a in ((n =? 9) || (n =? 10) || (n =? 12) || (n =? 13) || (n =? 32))%Z.
Definition re_word (a : ascii) : bool :=
  let n := byte_val a in
  is_digit a || (n =? 95)%Z || ((65 <=? n) && (n <=? 90))%Z || ((97 <=? n) && (n <=? 122))%Z.

Fixpoint lit (s : string) : re :=
  match s with
  | "" => REps
  | String a s => RCat (RChr (is_chr a)) (lit s)
  end.

Definition star (r : re) : re := RStar true r.
Definition plus (r : re) : re := RCat r (RStar true r).
Definition plus_lazy (r : re) : re := RCat r (RStar false r).
Definition opt (r : re) : re := RAlt r REps.
Definition spaces : re := star (RChr re_space).

Fixpoint cat (l : list re) : re :=
  match l with
  | [] => REps
  | [r] => r
  | r :: l => RCat r (cat l)
  end.

(** ** Searching *)

Record rmatch := mkMatch {
  m_start : nat;
  m_end : nat;
  m_caps : caps;
}.

Definition match_at (r : re) (s : string) (pos : nat) : option rmatch :=
  mt r s pos [] (λ _ e c, Some (mkMatch pos e c)).

(** [FindAllStringSubmatchIndex(s, -1)] for a pattern that matches no empty
    string; [skip] bytes belong to the previous match. *)
Fixpoint find_from (r : re) (skip : nat) (s : string) (pos : nat) : list rmatch :=
  match s with
  | "" => []
  | String _ s' =>
      match skip with
      | S skip => find_from r skip s' (S pos)
      | O =>
          match match_at r s pos with
          | Some m => m :: find_from r (m_end m - S pos) s' (S pos)
          | None => find_from r 0 s' (S pos)
          end
      end
  end.

Definition FindAll (r : re) (s : string) : list rmatch := find_from r 0 s 0.

(** [FindStringSubmatch] of a pattern anchored at the start. *)
Definition FindAnchored (r : re) (s : string) : option rmatch := match_at r s 0.

Definition substr (s : string) (a b : nat) : string := take_str (b - a) (drop_str a s).
#[global] Arguments substr : simpl never.

Definition group (m : rmatch) (i : nat) : option (nat * nat) :=
  snd <$> List.find (λ g, g.1 =? i) (m_caps m).

(** The text of a group, [None] when it took no part. *)
Definition group_text (s : string) (m : rmatch) (i : nat) : option string :=
  (λ g, substr s g.1 g.2) <$> group m i.

(** ** Matching along a known path *)

Lemma mt_lit {R} (w rest : string) pos c (k : string → nat → caps → option R) :
  mt (lit w) (w +:+ rest) pos c k = k rest (pos + String.length w) c.
Proof.
  revert pos. induction w as [|a w IH]; intros pos; cbn [lit String.append String.length]; [cbn; by rewrite Nat.add_0_r|].
  cbn [mt]. unfold is_chr. rewrite bool_decide_true by done. rewrite IH. f_equal. lia.
Qed.

Definition stops (p : ascii → bool) (s : string) : Prop := match s with "" => True | String a _ => p a = false end.

Section star.
Context {R : Type} (body : string → nat → caps → (string → nat → caps → option R) → option R).
Context (k : string → nat → caps → option R) (n : nat) (s : string) (pos : nat) (c : caps) (x : R).

Lemma star_more :
  body s pos c (λ s' pos' c', if pos' =? pos then None else star_loop true body k n s' pos' c') = Some x →
  star_loop true body k (S n) s pos c = Some x.
Proof. intros H. cbn [star_loop]. by rewrite H. Qed.

Lemma star_stop : (∀ k', body s pos c k' = None) → k s pos c = Some x → star_loop true body k n s pos c = Some x.
Proof. intros H Hk. destruct n; [done|]. cbn [star_loop]. by rewrite H. Qed.
End star.

(** A greedy class star takes the longest run when what follows then matches. *)
Lemma mt_star {R} p (w rest : string) pos c (k : string → nat → caps → option R) x :
  str_all p w = true → stops p rest → k rest (pos + String.length w) c = Some x →
  mt (star (RChr p)) (w +:+ rest) pos c k = Some x.
Proof.
  intros Hw Hs Hk. unfold star. cbn [mt]. rewrite length_app_str.
  generalize (String.length rest) as m. revert pos Hk. induction w as [|a w IH]; intros pos Hk m.
  - cbn [String.length String.append Nat.add] in *. rewrite Nat.add_0_r in Hk. apply star_stop; [|done].
    intros k'. destruct rest as [|b rest]; [done|]. cbn in Hs |- *. by rewrite Hs.
  - cbn [str_all] in Hw. apply andb_true_iff in Hw as [Ha Hw]. cbn [String.length String.append Nat.add].
    apply star_more. cbn [mt]. rewrite Ha. destruct (Nat.eqb_spec (S pos) pos); [lia|].
    apply (IH Hw (S pos)). rewrite <- Hk. f_equal. cbn [String.length]. lia.
Qed.

Lemma mt_plus {R} p (w rest : string) pos c (k : string → nat → caps → option R) x :
  w ≠ "" → str_all p w = true → stops p rest → k rest (pos + String.length w) c = Some x →
  mt (plus (RChr p)) (w +:+ rest) pos c k = Some x.
Proof.
  intros Hne Hw Hs Hk. destruct w as [|a w]; [done|]. cbn [str_all] in Hw. apply andb_true_iff in Hw as [Ha Hw].
  unfold plus. cbn [mt String.append]. rewrite Ha. apply mt_star; [done|done|]. rewrite <- Hk. f_equal. cbn [String.length]. lia.
Qed.

(** No match where the first byte does not fit. *)
Lemma find_skip r skip s1 s2 pos :
  String.length s1 = skip → find_from r skip (s1 +:+ s2) pos = find_from r 0 s2 (pos + skip).
Proof.
  revert skip pos. induction s1 as [|a s1 IH]; intros skip pos <-; cbn [String.append String.length]; [by rewrite Nat.add_0_r|].
  cbn [find_from]. rewrite IH by done. f_equal. lia.
Qed.

End GoRegexp.
