(* ===== verification/Limits.v ===== *)
(** * Memory and CPU expressions: src/internal/memory/expr.go, src/internal/cpu/expr.go

    The size expressions of [{{mem ...}}] and [{{cpu ...}}] templates, on IEEE
    double precision. *)

From Stdlib Require Import SpecFloat.
From S2P Require Import Prelude GoStrings GoTime GoRegexp.

Open Scope string_scope.
Open Scope list_scope.
Open Scope nat_scope.

Module Limits.
Import GoRegexp.

(** ** Numbers *)

(** The double nearest to [n / d]. *)
Definition f64_ratio (n : Z) (d : positive) : float64 :=
  match n with
  | Zpos p => SFdiv 53 1024 (S754_finite false p 0) (S754_finite false d 0)
  | _ => S754_zero false
  end.

(** [strconv.ParseFloat] of digits with an optional fraction; [None] when the
    value is out of range. *)
Definition parse_decimal (s : string) : option float64 :=
  let '(a, b, _) := Cut s "." in
  n ← parse_nat 10 (a +:+ b);
  let x := f64_ratio n (Pos.pow 10 (Pos.of_nat (String.length b))) in
  let x := if bool_decide (b = "") then f64_ratio n 1 else x in
  if f64_is_inf x then None else Some x.

(** [math.Round] (halves away from zero) and [math.Ceil] as integers; [None] for
    NaN and the infinities. *)
Definition f64_round (x : float64) : option Z :=
  match x with
  | S754_zero _ => Some 0%Z
  | S754_finite sg m e =>
      let a := if (0 <=? e)%Z then (Z.pos m * 2 ^ e)%Z
               else ((2 * Z.pos m + 2 ^ (- e)) / 2 ^ (- e + 1))%Z in
      Some (if sg then - a else a)%Z
  | _ => None
  end.

Definition f64_ceil (x : float64) : option Z :=
  match x with
  | S754_zero _ => Some 0%Z
  | S754_finite sg m e =>
      let v := if sg then (- Z.pos m)%Z else Z.pos m in
      Some (if (0 <=? e)%Z then (v * 2 ^ e)%Z else (- ((- v) / 2 ^ (- e)))%Z)
  | _ => None
  end.

Definition hundred : float64 := f64_of_Z 100.

Definition bad_percentage (pct : float64) : bool := f64_leb pct (f64_of_Z 0) || f64_ltb hundred pct.

(** ** Patterns *)

Definition number : re :=
  RCat (plus (RChr is_digit)) (opt (RCat (lit ".") (plus (RChr is_digit)))).

Definition unit_re : re := RAlt (lit "MB") (RAlt (lit "MiB") (RAlt (lit "GB") (lit "GiB"))).

Definition mem_exprRe : re :=
  cat [spaces;
       RAlt (cat [RGrp 1 number; spaces; lit "%"; spaces;
                  opt (cat [lit "-"; spaces; RGrp 2 number; spaces; RGrp 3 unit_re]); spaces])
            (cat [RGrp 4 number; spaces; RGrp 5 unit_re]);
       spaces; REnd].

Definition cpu_exprRe : re :=
  cat [spaces; RGrp 1 number; spaces; lit "%"; spaces;
       opt (cat [lit "-"; spaces; RGrp 2 (plus (RChr is_digit)); spaces]); spaces; REnd].

(** ** Memory *)

Inductive limit_err :=
  | EExpr (expr : string)
  | EPercentage (expr : string)
  | EOverflow (expr : string)
  | ENotPositive (expr : string).

Definition mib : Z := 1048576.

Definition toMiB (val : float64) (u : string) : option Z :=
  let x := if bool_decide (u = "MB") then f64_div (f64_mul val (f64_of_Z 1000000)) (f64_of_Z mib)
           else if bool_decide (u = "GB") then f64_div (f64_mul val (f64_of_Z 1000000000)) (f64_of_Z mib)
           else if bool_decide (u = "GiB") then f64_mul val (f64_of_Z 1024)
           else val in
  v ← f64_round x;
  if (two63 <? v)%Z then None else Some (wrap64 v).

Definition quantity (expr text u : string) : result limit_err Z :=
  match parse_decimal text with
  | None => Err (EExpr expr)
  | Some val => match toMiB val u with None => Err (EOverflow expr) | Some v => Ok v end
  end.

Definition percentage (expr text : string) : result limit_err float64 :=
  match parse_decimal text with
  | None => Err (EExpr expr)
  | Some pct => if bad_percentage pct then Err (EPercentage expr) else Ok pct
  end.

Definition mem_Eval (expr : string) (totalMiB : Z) : result limit_err Z :=
  match FindAnchored mem_exprRe expr with
  | None => Err (EExpr expr)
  | Some g =>
      match group_text expr g 4 with
      | Some text =>
          v ← quantity expr text (default "" (group_text expr g 5));
          if (v <=? 0)%Z then Err (ENotPositive expr) else Ok v
      | None =>
          pct ← percentage expr (default "" (group_text expr g 1));
          let resF := f64_div (f64_mul (f64_of_Z totalMiB) pct) hundred in
          match f64_trunc resF with
          | None => Err (EOverflow expr)
          | Some res =>
              if f64_ltb (f64_of_Z MaxInt64) resF then Err (EOverflow expr)
              else
                sub ← match group_text expr g 2 with
                      | Some text => quantity expr text (default "" (group_text expr g 3))
                      | None => Ok 0%Z
                      end;
                let result := wrap64 (wrap64 res - sub) in
                if (result <=? 0)%Z then Err (ENotPositive expr) else Ok result
          end
      end
  end.

(** ** CPUs *)

Definition trimSpace (s : string) : string := TrimRight (TrimLeft s " ") " ".

Definition cpu_Eval (expr : string) (totalCPUs : Z) : result limit_err Z :=
  let expr := trimSpace expr in
  if bool_decide (expr = "") then Ok (if (totalCPUs <? 1)%Z then 1%Z else totalCPUs)
  else match FindAnchored cpu_exprRe expr with
  | None => Err (EExpr expr)
  | Some g =>
      pct ← percentage expr (default "" (group_text expr g 1));
      match f64_ceil (f64_div (f64_mul (f64_of_Z totalCPUs) pct) hundred) with
      | None => Err (EOverflow expr)
      | Some res =>
          sub ← match group_text expr g 2 with
                | Some text => match Atoi text with Some n => Ok n | None => Err (EExpr expr) end
                | None => Ok 0%Z
                end;
          let result := wrap64 (wrap64 res - sub) in
          Ok (if (result <? 1)%Z then 1%Z else result)
      end
  end.

Example limits_ex :
  mem_Eval "66%" 1000 = Ok 660%Z ∧ mem_Eval "100% - 200MB" 1000 = Ok 809%Z ∧ mem_Eval "1GiB" 0 = Ok 1024%Z ∧
  mem_Eval " 512 MB " 0 = Ok 488%Z ∧ mem_Eval "101%" 1000 = Err (EPercentage "101%") ∧
  cpu_Eval "50%" 3 = Ok 2%Z ∧ cpu_Eval "50% - 1" 3 = Ok 1%Z ∧ cpu_Eval "" 0 = Ok 1%Z ∧ cpu_Eval "10% - 5" 4 = Ok 1%Z ∧
  cpu_Eval "12.5%" 8 = Ok 1%Z ∧ cpu_Eval "x" 8 = Err (EExpr "x").
Proof. vm_compute. done. Qed.

End Limits.
