(* ===== verification/HostLimits.v ===== *)
(** * Host limits: src/internal/cgroup, src/internal/cpu/cpu.go, src/internal/memory/memory.go

    The number of CPUs and the MiB of memory a configuration's {{cpu}} and
    {{memory}} references stand for.  The file system is an argument: the text
    of a file under /proc, and for each mount point the files an [os.Root]
    handle on it opens.  [None] is any error of opening or reading. *)

From S2P Require Import Prelude GoStrings GoPath.

Open Scope string_scope.
Open Scope list_scope.
Open Scope Z_scope.

Module HostLimits.

Import GoPath.

(** ** package cgroup *)

Definition maxCgroupFileSize : nat := Z.to_nat 65536.

(** A handle on a directory: the contents of the files below it. *)
Definition root_fs : Type := string → option string.

(** [io.ReadAll] of an [io.LimitReader]. *)
Definition read_capped (data : option string) : option string := take_str maxCgroupFileSize <$> data.

(** The path of one v1 line "N:controllers:path", if it lists [prefix]. *)
Definition v1_line (prefix line : string) : option string :=
  let '(_, rest, ok1) := Cut line ":" in
  let '(ctrls, path, ok2) := Cut rest ":" in
  if ok1 && ok2 && existsb (λ ctrl, bool_decide (ctrl = prefix)) (Split "," ctrls) then Some path else None.

Fixpoint self_lines (prefix : string) (lines : list string) : string :=
  match lines with
  | [] => ""
  | line :: lines =>
      match if bool_decide (prefix = "0::") then CutPrefix line "0::" else v1_line prefix line with
      | Some path => path
      | None => self_lines prefix lines
      end
  end.

Definition SelfPath (procSelfCgroup : option string) (prefix : string) : string :=
  match read_capped procSelfCgroup with
  | None => ""
  | Some data => self_lines prefix (Split "010" (TrimSpace data))
  end.

Definition ReadRootFile (root : root_fs) (name : string) : option string :=
  let name := TrimPrefix name "/" in
  if bool_decide (name = "") then None else read_capped (root name).

Definition top (rel : string) : bool := bool_decide (rel = "/") || bool_decide (rel = ".") || bool_decide (rel = "").

(** The limit one directory sets; not positive when it sets none. *)
Definition level_limit (root : root_fs) (filename : string) (parse : string → Z) (rel : string) : Z :=
  match ReadRootFile root (join2 rel filename) with Some data => parse data | None => 0 end.

Fixpoint walk_up (root : root_fs) (filename : string) (parse : string → Z) (fuel : nat) (rel : string) : option Z :=
  match fuel with
  | O => None
  | S fuel =>
      let v := level_limit root filename parse rel in
      if 0 <? v then Some v
      else if top rel then Some 0
      else walk_up root filename parse fuel (Dir rel)
  end.

Definition walk_fuel (cgPath : string) : nat := String.length cgPath + 3.

Definition WalkUpLimit (root : root_fs) (cgPath filename : string) (parse : string → Z) : Z :=
  default 0 (walk_up root filename parse (walk_fuel cgPath) cgPath).

(** ** package cpu *)

(** ceil(quota / period) in 64-bit arithmetic. *)
Definition ceil_div (quota period : Z) : Z := Z.quot (wrap64 (wrap64 (quota + period) - 1)) period.

Definition parseCPUMax (data : string) : Z :=
  match Fields (TrimSpace data) with
  | [max; per] =>
      if bool_decide (max = "max") then 0
      else match ParseInt max with
           | Some quota =>
               if quota <=? 0 then 0
               else match ParseInt per with
                    | Some period => if period <=? 0 then 0 else ceil_div quota period
                    | None => 0
                    end
           | None => 0
           end
  | _ => 0
  end.

Definition parseV1Int (data : string) : Z :=
  match ParseInt (TrimSpace data) with
  | Some v => if v <=? 0 then 0 else v
  | None => 0
  end.

(** What one part of a list adds to the count; [None]: the part is skipped. *)
Definition list_part (part : string) : option Z :=
  let '(lo, hi, ok) := Cut part "-" in
  if ok : bool then
    loN ← Atoi lo; hiN ← Atoi hi;
    if hiN <? loN then None else Some (wrap64 (wrap64 (hiN - loN) + 1))
  else _ ← Atoi part; Some 1.

Fixpoint count_parts (maxCPUCount count : Z) (parts : list string) : Z :=
  match parts with
  | [] => count
  | part :: parts =>
      let part := TrimSpace part in
      if bool_decide (part = "") then count_parts maxCPUCount count parts
      else match list_part part with
           | None => count_parts maxCPUCount count parts
           | Some n =>
               let count := wrap64 (count + n) in
               if maxCPUCount <=? count then maxCPUCount else count_parts maxCPUCount count parts
           end
  end.

Definition parseCPUList (maxCPUCount : Z) (data : string) : Z :=
  let s := TrimSpace data in
  if bool_decide (s = "") then 0 else count_parts maxCPUCount 0 (Split "," s).

(** The host: processors, the two /proc files, and the mount points that can be
    opened. *)
Inductive meminfo :=
  | MemOpenErr
  | MemText (text : string) (read_err : bool).

Record host := mkHost {
  numCPU : Z;
  self_cgroup : option string;
  meminfo_file : meminfo;
  mount : string → option root_fs;
}.

Section host.
Context (h : host).

Definition maxCPUCount : Z := wrap64 (numCPU h * 64).

Definition cg_path (prefix : string) : string :=
  let p := SelfPath (self_cgroup h) prefix in if bool_decide (p = "") then "/" else p.

(** [os.OpenRoot] on a mount point, the walk below it, and 0 when it cannot be
    opened. *)
Definition walk_mount (rootPath prefix filename : string) (parse : string → Z) : Z :=
  match mount h rootPath with
  | None => 0
  | Some root => WalkUpLimit root (cg_path prefix) filename parse
  end.

Definition cgroupV2CFSCPUs : Z := walk_mount "/sys/fs/cgroup" "0::" "cpu.max" parseCPUMax.

Definition v1CFSFromRoot (root : root_fs) (cgPath : string) : Z :=
  let quota := WalkUpLimit root cgPath "cpu.cfs_quota_us" parseV1Int in
  if quota <=? 0 then 0
  else
    let period := WalkUpLimit root cgPath "cpu.cfs_period_us" parseV1Int in
    if period <=? 0 then 0 else ceil_div quota period.

Fixpoint v1_roots (cgPath : string) (roots : list string) : Z :=
  match roots with
  | [] => 0
  | r :: roots =>
      match mount h r with
      | None => v1_roots cgPath roots
      | Some root => let cpus := v1CFSFromRoot root cgPath in if 0 <? cpus then cpus else v1_roots cgPath roots
      end
  end.

Definition cgroupV1CFSCPUs : Z := v1_roots (cg_path "cpu") ["/sys/fs/cgroup/cpu"; "/sys/fs/cgroup/cpu,cpuacct"].

Definition cgroupV2CpusetCPUs : Z := walk_mount "/sys/fs/cgroup" "0::" "cpuset.cpus.effective" (parseCPUList maxCPUCount).
Definition cgroupV1CpusetCPUs : Z := walk_mount "/sys/fs/cgroup/cpuset" "cpuset" "cpuset.cpus" (parseCPUList maxCPUCount).

Definition cgroupCFSCPUs : Z := if 0 <? cgroupV2CFSCPUs then cgroupV2CFSCPUs else cgroupV1CFSCPUs.
Definition cgroupCpusetCPUs : Z := if 0 <? cgroupV2CpusetCPUs then cgroupV2CpusetCPUs else cgroupV1CpusetCPUs.

(** The body both limits share: a positive limit below the best replaces it. *)
Definition lower (best limit : Z) : Z := if (0 <? limit) && (limit <? best) then limit else best.

Definition cpu_available : Z :=
  let best := lower (lower (numCPU h) cgroupCFSCPUs) cgroupCpusetCPUs in
  if best <? 1 then 1 else best.

(** ** package memory *)

Definition cgroupV1NoLimit : Z := 9223372036854771712.

Definition parseV2Limit (data : string) : Z :=
  let s := TrimSpace data in
  if bool_decide (s = "max") || bool_decide (s = "") then 0
  else match ParseInt s with
       | Some bytes => if bytes <=? 0 then 0 else Z.quot bytes 1048576
       | None => 0
       end.

Definition parseV1Limit (data : string) : Z :=
  match ParseInt (TrimSpace data) with
  | Some bytes => if bytes <=? 0 then 0 else if cgroupV1NoLimit <=? bytes then 0 else Z.quot bytes 1048576
  | None => 0
  end.

Definition cgroupV2MemMiB : Z := walk_mount "/sys/fs/cgroup" "0::" "memory.max" parseV2Limit.
Definition cgroupV1MemMiB : Z := walk_mount "/sys/fs/cgroup/memory" "memory" "memory.limit_in_bytes" parseV1Limit.
Definition cgroupMemMiB : Z := if 0 <? cgroupV2MemMiB then cgroupV2MemMiB else cgroupV1MemMiB.

Inductive mem_err :=
  | EMemOpen
  | EMemParse (field : string)
  | EMemScan
  | EMemMissing.

(** [bufio.Scanner]: lines without their line end; a line that does not fit the
    64 KiB buffer ends the scan with an error. *)
Definition scan_lines (text : string) : list string :=
  let parts := Split "010" text in
  if bool_decide (last parts = Some "") then take (pred (length parts)) parts else parts.

Definition drop_cr (line : string) : string := if HasSuffix line (str1 "013") then take_str (String.length line - 1) line else line.

Fixpoint scan_meminfo (read_err : bool) (lines : list string) : result mem_err Z :=
  match lines with
  | [] => Err (if read_err then EMemScan else EMemMissing)
  | raw :: lines =>
      if 65536 <=? Z.of_nat (String.length raw) then Err EMemScan
      else
        let line := drop_cr raw in
        if negb (HasPrefix line "MemTotal:") then scan_meminfo read_err lines
        else match Fields line with
             | _ :: field :: _ =>
                 match ParseInt field with
                 | None => Err (EMemParse field)
                 | Some kb => Ok (Z.quot (wrap64 (kb + 512)) 1024)
                 end
             | _ => scan_meminfo read_err lines
             end
  end.

Definition systemMemMiB : result mem_err Z :=
  match meminfo_file h with
  | MemOpenErr => Err EMemOpen
  | MemText text read_err => scan_meminfo read_err (scan_lines text)
  end.

Definition mem_available : result mem_err Z :=
  sys ← systemMemMiB;
  Ok (lower sys cgroupMemMiB).

End host.

(** [Available]: the first call computes, later calls repeat its answer. *)
Definition Available {A} (cache : option A) (compute : A) : A * option A :=
  match cache with Some c => (c, cache) | None => (compute, Some compute) end.

(** ** Where a limit is found *)

(** The lists [cs] starts with, longest first. *)
Definition up (cs : list string) : list (list string) := (λ k, take (length cs - k) cs) <$> seq 0 (S (length cs)).

(** The directories of a walk: the path itself, then, unless it is the top, its
    directory and every one above it. *)
Definition levels (p : string) : list string :=
  p :: if top p then [] else let d := Dir p in let r := HasPrefix d "/" in render r <$> up (components r d).

Definition first_positive (l : list Z) : Z := default 0 (head (filter (λ v, 0 < v) l)).

Example levels_ex :
  levels "/a/b" = ["/a/b"; "/a"; "/"] ∧ levels "/" = ["/"] ∧ levels "a/b" = ["a/b"; "a"; "."] ∧
  levels "/../x/" = ["/../x/"; "/x"; "/"].
Proof. vm_compute. repeat split. Qed.

Lemma first_positive_cons v l : first_positive (v :: l) = if 0 <? v then v else first_positive l.
Proof.
  unfold first_positive. destruct (Z.ltb_spec 0 v) as [H|H]; [by rewrite filter_cons_True|].
  rewrite filter_cons_False by lia. done.
Qed.

Lemma up_snoc cs c : up (cs ++ [c]) = (cs ++ [c]) :: up cs.
Proof.
  unfold up. rewrite length_app. cbn [length]. rewrite Nat.add_1_r. cbn [seq]. rewrite fmap_cons, Nat.sub_0_r. f_equal.
  - apply take_ge. rewrite length_app. cbn. lia.
  - change (0%nat :: seq 1 (length cs)) with (seq 0 (S (length cs))). change (1%nat :: seq 2 (length cs)) with (seq 1 (S (length cs))).
    rewrite <- seq_shift, <- list_fmap_compose. apply list_fmap_ext. intros i k Hk. cbn. rewrite take_app_le; [done|lia].
Qed.

Lemma top_render r cs : clean_list r cs → top (render r cs) = true ↔ cs = [].
Proof.
  intros H. split; [|by intros ->; destruct r]. intros Ht. destruct cs as [|c cs]; [done|exfalso]. pose proof (clean_list_dots _ _ H) as Hd.
  destruct H as [Hok _]. inversion Hok as [|? ? [Hc Hs] _]; subst. inversion Hd as [|? ? Hdot _]; subst.
  destruct c as [|a c]; [done|]. cbn in Hs. apply orb_false_iff in Hs as [Ha%bool_decide_eq_false _].
  unfold top in Ht. destruct r.
  - revert Ht. rewrite !bool_decide_false; [done|..]; by destruct cs.
  - revert Ht. rewrite !bool_decide_false; [done|..]; destruct cs; try done; try (by intros [= -> _]).
    cbn. intros [= -> Hx]. destruct c; done.
Qed.

Section nearest.
Context (root : root_fs) (filename : string) (parse : string → Z).
Let lvl := level_limit root filename parse.

Lemma walk_render r cs : ∀ fuel, clean_list r cs → (length cs < fuel)%nat →
  walk_up root filename parse fuel (render r cs) = Some (first_positive (lvl <$> (render r <$> up cs))).
Proof.
  induction cs as [|c cs IH] using rev_ind; intros [|fuel] Hcl Hlt; [lia| |lia|]; cbn [walk_up].
  - rewrite (proj2 (top_render r [] Hcl) eq_refl). change (up []) with [@nil string]. rewrite !fmap_cons, first_positive_cons.
    fold (lvl (render r [])). by destruct (0 <? lvl (render r [])).
  - rewrite up_snoc, !fmap_cons, first_positive_cons. fold (lvl (render r (cs ++ [c]))). destruct (0 <? lvl (render r (cs ++ [c]))); [done|].
    destruct (top (render r (cs ++ [c]))) eqn:Et; [apply top_render in Et; [by destruct cs|done]|].
    rewrite Dir_clean by done. rewrite length_app in Hlt. cbn in Hlt. apply IH; [by eapply clean_prefix|lia].
Qed.

(** The walk always ends, and with the nearest positive limit. *)
Lemma walk_nearest (p : string) (fuel : nat) :
  (walk_fuel p ≤ fuel)%nat → walk_up root filename parse fuel p = Some (first_positive (lvl <$> levels p)).
Proof.
  unfold walk_fuel. intros Hf. destruct fuel as [|fuel]; [lia|]. cbn [walk_up]. unfold levels.
  rewrite fmap_cons, first_positive_cons. fold (lvl p). destruct (0 <? lvl p); [done|]. destruct (top p); [done|].
  destruct (Dir_render p) as (r & cs & Hd & Hcl & Hlen). rewrite Hd. rewrite walk_render by (done || lia).
  cbn zeta. by rewrite prefix_abs, components_render.
Qed.

End nearest.

(** ** What the daemon reports *)

(** The nearest positive limit of a file below a mount point; 0 for none. *)
Definition nearest (h : host) (rootPath prefix filename : string) (parse : string → Z) : Z :=
  match mount h rootPath with
  | None => 0
  | Some root => first_positive (level_limit root filename parse <$> levels (cg_path h prefix))
  end.

(** The v1 bandwidth of one mount: quota and period, each the nearest one. *)
Definition v1_bandwidth (h : host) (rootPath : string) : Z :=
  let quota := nearest h rootPath "cpu" "cpu.cfs_quota_us" parseV1Int in
  let period := nearest h rootPath "cpu" "cpu.cfs_period_us" parseV1Int in
  if (0 <? quota) && (0 <? period) then ceil_div quota period else 0.

(** The least of the processors and the positive limits. *)
Definition least (sys : Z) (limits : list Z) : Z := foldr Z.min sys (filter (λ v, 0 < v) limits).

Lemma WalkUpLimit_nearest root p filename parse :
  WalkUpLimit root p filename parse = first_positive (level_limit root filename parse <$> levels p).
Proof. unfold WalkUpLimit. by rewrite walk_nearest. Qed.

Lemma first_positive_nonneg l : 0 ≤ first_positive l.
Proof. induction l as [|v l IH]; [done|]. rewrite first_positive_cons. destruct (Z.ltb_spec 0 v); lia. Qed.

Lemma walk_mount_nearest h rootPath prefix filename parse :
  walk_mount h rootPath prefix filename parse = nearest h rootPath prefix filename parse.
Proof. unfold walk_mount, nearest. destruct (mount h rootPath); [|done]. apply WalkUpLimit_nearest. Qed.

Lemma nearest_nonneg h rootPath prefix filename parse : 0 ≤ nearest h rootPath prefix filename parse.
Proof. unfold nearest. destruct (mount h rootPath); [apply first_positive_nonneg|done]. Qed.

Lemma v1_roots_first h roots : v1_roots h (cg_path h "cpu") roots = first_positive (v1_bandwidth h <$> roots).
Proof.
  induction roots as [|r roots IH]; [done|]. cbn [v1_roots]. rewrite fmap_cons, first_positive_cons, IH.
  assert (H : match mount h r with Some root => v1CFSFromRoot root (cg_path h "cpu") | None => 0 end = v1_bandwidth h r).
  { unfold v1CFSFromRoot, v1_bandwidth, nearest. destruct (mount h r) as [root|]; [|done]. rewrite !WalkUpLimit_nearest.
    rewrite !Z.leb_antisym. destruct (0 <? _); [|done]. cbn [andb negb]. by destruct (0 <? _). }
  rewrite <- H. by destruct (mount h r).
Qed.

Lemma first_positive_two a b : 0 ≤ b → (if 0 <? a then a else b) = first_positive [a; b].
Proof. intros H. rewrite !first_positive_cons. destruct (0 <? a); [done|]. destruct (Z.ltb_spec 0 b); [done|]. cbn. lia. Qed.

Lemma lower_least sys a l : least (lower sys a) l = least sys (a :: l).
Proof.
  unfold least, lower. destruct (Z.ltb_spec 0 a) as [Ha|Ha]; [|by rewrite filter_cons_False by lia].
  rewrite filter_cons_True by done. cbn [foldr andb].
  assert (H : ∀ ks b, foldr Z.min (Z.min a b) ks = Z.min a (foldr Z.min b ks)) by (induction ks as [|k ks IH]; intros b; cbn; [done|rewrite IH; lia]).
  rewrite <- H. f_equal. destruct (Z.ltb_spec a sys); lia.
Qed.

(** C30: what the host offers.  The number of CPUs is the least of the processors
    and the positive cgroup limits, and at least one; the memory is the least of
    MemTotal and the positive cgroup limit.  Each cgroup limit is that of the
    unified hierarchy if it has one, else of v1, and within a hierarchy the
    nearest positive one on the way from the process's own directory to the
    root: the walk ends on every path, however it is written. *)
Theorem host_limits (h : host) :
  (∀ root filename parse p fuel, (walk_fuel p ≤ fuel)%nat →
     walk_up root filename parse fuel p = Some (first_positive (level_limit root filename parse <$> levels p))) ∧
  cpu_available h = Z.max 1 (least (numCPU h)
    [first_positive [nearest h "/sys/fs/cgroup" "0::" "cpu.max" parseCPUMax;
                     v1_bandwidth h "/sys/fs/cgroup/cpu"; v1_bandwidth h "/sys/fs/cgroup/cpu,cpuacct"];
     first_positive [nearest h "/sys/fs/cgroup" "0::" "cpuset.cpus.effective" (parseCPUList (maxCPUCount h));
                     nearest h "/sys/fs/cgroup/cpuset" "cpuset" "cpuset.cpus" (parseCPUList (maxCPUCount h))]]) ∧
  mem_available h = (sys ← systemMemMiB h;
    Ok (least sys [first_positive [nearest h "/sys/fs/cgroup" "0::" "memory.max" parseV2Limit;
                                   nearest h "/sys/fs/cgroup/memory" "memory" "memory.limit_in_bytes" parseV1Limit]])).
Proof.
  split; [intros; by apply walk_nearest|]. split.
  - unfold cpu_available, cgroupCFSCPUs, cgroupCpusetCPUs, cgroupV2CFSCPUs, cgroupV1CFSCPUs, cgroupV2CpusetCPUs, cgroupV1CpusetCPUs.
    rewrite !walk_mount_nearest, v1_roots_first. rewrite (first_positive_two _ (nearest _ _ _ _ _)) by apply nearest_nonneg.
    cbv zeta. rewrite <- first_positive_cons. rewrite <- !lower_least. change (least ?x []) with x.
    change (?a :: (v1_bandwidth h <$> [?b; ?c])) with [a; v1_bandwidth h b; v1_bandwidth h c].
    match goal with |- (if ?b <? 1 then _ else _) = _ => destruct (Z.ltb_spec b 1) end; lia.
  - unfold mem_available, cgroupMemMiB, cgroupV2MemMiB, cgroupV1MemMiB. rewrite !walk_mount_nearest.
    rewrite first_positive_two by apply nearest_nonneg. destruct (systemMemMiB h) as [sys|]; [|done]. cbn [mbind result_bind].
    by rewrite <- lower_least.
Qed.

(** A pod with a v2 hierarchy: a quota of 1.5 CPUs on the pod, 1 GiB on the
    container, and a tighter 512 MiB on the pod. *)
Definition pod_files (name : string) : option string :=
  list_to_map (M := gmap string string)
    [("kubepods/pod-a/c-1/cpu.max", "max 100000" +:+ str1 "010"); ("kubepods/pod-a/cpu.max", "150000 100000" +:+ str1 "010");
     ("kubepods/pod-a/c-1/memory.max", "1073741824" +:+ str1 "010"); ("kubepods/pod-a/memory.max", "536870912" +:+ str1 "010");
     ("kubepods/cpuset.cpus.effective", "0-3,x,8" +:+ str1 "010")] !! name.

Definition pod : host :=
  mkHost 16 (Some ("12:cpuset:/x" +:+ str1 "010" +:+ "0::/kubepods/pod-a/c-1" +:+ str1 "010"))
    (MemText ("MemTotal:       16384000 kB" +:+ str1 "010") false)
    (λ m, if bool_decide (m = "/sys/fs/cgroup") then Some pod_files else None).

Lemma host_limits_witness :
  walk_up pod_files "cpu.max" parseCPUMax (walk_fuel "/kubepods/pod-a/c-1") "/kubepods/pod-a/c-1" = Some 2 ∧
  cpu_available pod = 2 ∧ mem_available pod = Ok 1024.
Proof.
  destruct (host_limits pod) as (Hw & Hc & Hm). split; [|split].
  - rewrite (Hw pod_files "cpu.max" parseCPUMax _ _ (le_n _)). vm_compute. reflexivity.
  - rewrite Hc. vm_compute. reflexivity.
  - rewrite Hm. vm_compute. reflexivity.
Defined.

(** The nearest limit is not the tightest: the pod's 512 MiB bind the container
    too, and 1024 MiB are reported. *)
Example nearest_not_tightest :
  mem_available pod = Ok 1024 ∧ level_limit pod_files "memory.max" parseV2Limit "/kubepods/pod-a" = 512.
Proof. by vm_compute. Qed.

(** A limit below one MiB reads as no limit, like a malformed file. *)
Example small_limit_ignored : parseV2Limit "1048575" = 0 ∧ parseV1Limit "1048575" = 0.
Proof. by vm_compute. Qed.

(** A malformed part of a list is skipped, not refused; a range as wide as an
    int64 wraps past the clamp, and what comes after it counts again. *)
Example cpu_list_corners :
  parseCPUList 1024 "0-3,x,8" = 5 ∧ parseCPUList 1024 "0-9999999999" = 1024 ∧
  parseCPUList 1024 "0-9223372036854775807" = - two63 ∧
  parseCPUList 1024 "0-9223372036854775807,0-9223372036854775807,0-3" = 4.
Proof. vm_compute. repeat split. Qed.

(** ** Reading the kernel's files *)

Lemma ceil_div_exact q p : 0 < q → 0 < p → q + p ≤ two63 → p * (ceil_div q p - 1) < q ≤ p * ceil_div q p.
Proof.
  intros Hq Hp Hs. unfold ceil_div.
  assert (Hw : wrap64 (wrap64 (q + p) - 1) = q + p - 1).
  { destruct (decide (q + p = two63)) as [->|Hn]; [by vm_compute|]. rewrite (wrap64_id (q + p)); [apply wrap64_id|];
      unfold in_int64, MinInt64, MaxInt64 in *; lia. }
  rewrite Hw, Z.quot_div_nonneg by lia. pose proof (Z.div_mod (q + p - 1) p ltac:(lia)).
  pose proof (Z.mod_pos_bound (q + p - 1) p ltac:(lia)). nia.
Qed.

(** An entry of a CPU list as the kernel writes it, and how many CPUs it has. *)
Inductive cpu_item :=
  | One (n : Z)
  | Range (lo hi : Z).

Definition item_text (i : cpu_item) : string :=
  match i with One n => fmt_d n | Range lo hi => fmt_d lo +:+ "-" +:+ fmt_d hi end.
Definition item_size (i : cpu_item) : Z := match i with One _ => 1 | Range lo hi => hi - lo + 1 end.
Definition item_ok (i : cpu_item) : Prop :=
  match i with One n => 0 ≤ n < two63 | Range lo hi => 0 ≤ lo ≤ hi ∧ hi < two63 - 1 end.
Definition sizes (items : list cpu_item) : Z := foldr (λ i n, item_size i + n) 0 items.

Lemma digits_no a s : is_digit a = false → str_all is_digit s = true → str_in a s = false.
Proof.
  intros Ha. induction s as [|b s IH]; [done|]. cbn. intros [Hb Hs]%andb_true_iff. rewrite IH, orb_false_r by done.
  apply bool_decide_false. by intros ->; rewrite Hb in Ha.
Qed.

Lemma item_word i : item_ok i → word (item_text i).
Proof.
  destruct i as [n|lo hi]; cbn; intros H; [apply fmt_d_word; lia|]. destruct (fmt_d_word lo ltac:(lia)) as [H1 H2].
  destruct (fmt_d_word hi ltac:(lia)) as [_ H3]. split; [by destruct (fmt_d lo)|]. rewrite !str_all_app, H2. exact H3.
Qed.

Lemma cpu_item_no_comma i : item_ok i → str_in "," (item_text i) = false.
Proof.
  destruct i as [n|lo hi]; cbn [item_ok item_text]; intros H; [apply digits_no; [done|apply fmt_d_digits; lia]|].
  rewrite !str_in_app. rewrite (digits_no "," (fmt_d lo)), (digits_no "," (fmt_d hi)); [done|done|apply fmt_d_digits; lia|done|apply fmt_d_digits; lia].
Qed.

Lemma list_part_item i : item_ok i → list_part (item_text i) = Some (item_size i).
Proof.
  unfold list_part. destruct i as [n|lo hi]; cbn [item_ok item_text item_size]; intros H.
  - change "-" with (str1 "-"). rewrite Cut_none by (apply digits_no; [done|apply fmt_d_digits; lia]).
    rewrite Atoi_fmt_d by (unfold in_int64, MinInt64, MaxInt64; lia). done.
  - change "-" with (str1 "-"). change (str1 "-" +:+ fmt_d hi) with (String "-" (fmt_d hi)).
    rewrite Cut_app by (apply digits_no; [done|apply fmt_d_digits; lia]).
    rewrite !Atoi_fmt_d by (unfold in_int64, MinInt64, MaxInt64; lia). cbn [mbind option_bind].
    destruct (Z.ltb_spec hi lo); [lia|]. rewrite !wrap64_id; [done|..]; unfold in_int64, MinInt64, MaxInt64; rewrite ?wrap64_id;
      unfold in_int64, MinInt64, MaxInt64; lia.
Qed.

Lemma item_size_pos i : item_ok i → 0 < item_size i.
Proof. destruct i; cbn; lia. Qed.

Lemma count_items max items : ∀ count, Forall item_ok items → 0 ≤ count < max → count + sizes items < two63 →
  count_parts max count (item_text <$> items) = Z.min max (count + sizes items).
Proof.
  induction items as [|i items IH]; intros count Hok Hc Hs; [cbn; lia|]. apply Forall_cons in Hok as [Hi Hok].
  rewrite fmap_cons. cbn [count_parts sizes foldr] in *. fold (sizes items) in *. pose proof (item_word i Hi) as Hw.
  rewrite (TrimSpace_solid _ (word_ends _ Hw)). rewrite bool_decide_false by apply Hw. rewrite list_part_item by done.
  pose proof (item_size_pos i Hi).
  assert (Hn : 0 ≤ sizes items) by (clear -Hok; induction Hok as [|j l Hj _ IHl]; cbn; [lia|pose proof (item_size_pos j Hj); unfold sizes in IHl; lia]).
  rewrite wrap64_id by (unfold in_int64, MinInt64, MaxInt64; lia).
  destruct (Z.leb_spec max (count + item_size i)); [lia|]. rewrite IH by (done || lia). lia.
Qed.

Lemma items_ends items : Forall item_ok items → items ≠ [] → solid_ends (Join (item_text <$> items) ",").
Proof.
  intros Hok Hne. induction items as [|i items IH]; [done|]. apply Forall_cons in Hok as [Hi Hok].
  pose proof (word_ends _ (item_word i Hi)) as [Hfirst Hlast]. destruct items as [|j items]; [by split|].
  destruct (IH Hok) as [_ (r & b & Hr & Hb)]; [done|]. rewrite !fmap_cons in *.
  change (Join (item_text i :: item_text j :: (item_text <$> items)) ",") with (item_text i +:+ "," +:+ Join (item_text j :: (item_text <$> items)) ",").
  apply solid_ends_app; [done|]. rewrite Hr. exists ("," +:+ r), b. by rewrite app_assoc_str.
Qed.

(** The kernel's files are read exactly.  "quota period" of cpu.max gives
    quota/period rounded up, whenever their sum fits an int64; a CPU list of
    numbers and ranges gives the number of CPUs in it, or the clamp when it is
    smaller. *)
Theorem limit_files_read (q p : Z) (items : list cpu_item) (max : Z) :
  0 < q → 0 < p → q + p ≤ two63 → Forall item_ok items → items ≠ [] → 0 < max → sizes items < two63 →
  (let v := parseCPUMax (fmt_d q +:+ " " +:+ fmt_d p +:+ str1 "010") in p * (v - 1) < q ≤ p * v) ∧
  parseCPUList max (Join (item_text <$> items) "," +:+ str1 "010") = Z.min max (sizes items).
Proof.
  intros Hq Hp Hs Hok Hne Hmax Hsum. split.
  - assert (Hws : Forall word [fmt_d q; fmt_d p]) by (repeat constructor; apply fmt_d_word; lia).
    unfold parseCPUMax. rewrite <- !app_assoc_str. rewrite !app_assoc_str. rewrite <- (app_assoc_str (fmt_d q)), <- app_assoc_str.
    rewrite TrimSpace_newline.
    2:{ rewrite app_assoc_str. exact (Join_ends _ _ Hws). }
    rewrite app_assoc_str. change (fmt_d q +:+ " " +:+ fmt_d p) with (Join [fmt_d q; fmt_d p] " "). rewrite Fields_words by done.
    rewrite bool_decide_false.
    2:{ intros E. pose proof (fmt_d_digits q ltac:(lia)) as Hd. by rewrite E in Hd. }
    change ParseInt with Atoi. rewrite !Atoi_fmt_d by (unfold in_int64, MinInt64, MaxInt64; lia).
    destruct (Z.leb_spec q 0); [lia|]. destruct (Z.leb_spec p 0); [lia|]. by apply ceil_div_exact.
  - unfold parseCPUList. assert (Hends : solid_ends (Join (item_text <$> items) ",")) by (by apply items_ends).
    rewrite TrimSpace_newline by done. rewrite bool_decide_false by (destruct Hends as [(a & s' & -> & _) _]; done).
    change "," with (str1 ","). rewrite Split_Join; [|by destruct items|].
    + by rewrite count_items by (done || lia).
    + apply Forall_fmap. eapply Forall_impl; [exact Hok|]. intros i Hi. by apply cpu_item_no_comma.
Qed.

Lemma limit_files_read_witness :
  parseCPUMax ("150000 100000" +:+ str1 "010") = 2 ∧ parseCPUList 1024 ("0-3,8" +:+ str1 "010") = 5.
Proof.
  assert (Hok : Forall item_ok [Range 0 3; One 8]) by (repeat constructor; cbn; unfold two63; lia).
  destruct (limit_files_read 150000 100000 [Range 0 3; One 8] 1024 eq_refl eq_refl ltac:(unfold two63; lia) Hok ltac:(done) eq_refl eq_refl)
    as [H1 H2].
  change (fmt_d 150000 +:+ " " +:+ fmt_d 100000 +:+ str1 "010") with ("150000 100000" +:+ str1 "010") in H1.
  cbv zeta in H1. split; [lia|]. exact H2.
Defined.

End HostLimits.
