(* ===== verification/Templates.v ===== *)
(** * Templates: src/service/env.go, src/service/file_template.go, expandTemplates of src/service/service.go

    [{{.VAR}}], [{{file "..."}}], [{{mem ...}}] and [{{cpu ...}}] placeholders
    in arguments, environment values and the startup setting. *)

From S2P Require Import Prelude GoStrings GoTime GoRegexp Limits.

Open Scope string_scope.
Open Scope list_scope.
Open Scope nat_scope.

Module Templates.
Import GoRegexp.

Definition dquote : ascii := "034".

(** ** Patterns *)

Definition default_re (g : nat) : re := opt (RCat (lit ":-") (RGrp g (star (RChr (not_chr "}"))))).

Definition templateRe : re :=
  cat [lit "{{"; spaces; lit "."; RGrp 1 (plus (RChr re_word)); spaces; default_re 2; spaces; lit "}}"].

Definition fileRe : re :=
  cat [lit "{{"; spaces; lit "file"; plus (RChr re_space); lit (str1 dquote); RGrp 1 (plus (RChr (not_chr dquote)));
       lit (str1 dquote); RGrp 2 (star (RCat (plus (RChr re_space)) (RAlt (lit "trim") (lit "follow"))));
       default_re 3; spaces; lit "}}"].

Definition memRe : re :=
  cat [lit "{{"; spaces; lit "mem"; plus (RChr re_space); RGrp 1 (plus_lazy (RChr any_but_newline)); spaces; lit "}}"].

Definition cpuRe : re :=
  cat [lit "{{"; spaces; lit "cpu"; opt (RCat (plus (RChr re_space)) (RGrp 1 (plus_lazy (RChr any_but_newline))));
       spaces; lit "}}"].

(** ** Files *)

(** What opening a cleaned path gives, with or without following symbolic links:
    whether it is a regular file, and its content unless reading fails. *)
Inductive open_result :=
  | FOpened (regular : bool) (data : option string)
  | FNotExist
  | FSymlink
  | FOther.

Inductive tmpl_err :=
  | ERelative (path : string)
  | EOpen (path : string)
  | ENotRegular (path : string)
  | ERead (path : string)
  | ETooBig (path : string)
  | ENul (path : string)
  | ELimit (e : Limits.limit_err).

Definition maxFileSize : Z := 1048576.

Section expand.
Context (open_file : string → bool → open_result).

Definition readFileTemplate (path : string) (doTrim follow : bool) (dflt : option string) : result tmpl_err string :=
  if negb (HasPrefix path "/") then Err (ERelative path)
  else match open_file path follow with
  | FNotExist => match dflt with Some v => Ok v | None => Err (EOpen path) end
  | FSymlink | FOther => Err (EOpen path)
  | FOpened regular data =>
      if negb regular then Err (ENotRegular path)
      else match data with
      | None => Err (ERead path)
      | Some data =>
          if (maxFileSize <? Z.of_nat (String.length data))%Z then Err (ETooBig path)
          else if str_in zero data then Err (ENul path)
          else Ok (if doTrim then TrimRight data (" " +:+ String "009" (String "013" (str1 "010"))) else data)
      end
  end.

Definition fileRefValue (s : string) (m : rmatch) : result tmpl_err string :=
  let mods := default "" (group_text s m 2) in
  readFileTemplate (default "" (group_text s m 1)) (Contains mods "trim") (Contains mods "follow") (group_text s m 3).

(** ** References *)

(** The value, and the name when it is reported missing. *)
Definition varValue (s : string) (env : gmap string string) (m : rmatch) : string * list string :=
  let name := default "" (group_text s m 1) in
  let v := env !! name in
  match group_text s m 2 with
  | Some d => (if bool_decide (default "" v = "") then d else default "" v, [])
  | None => (default "" v, match v with None => [name] | Some _ => [] end)
  end.

(** A reference: whether it is a file, and where. *)
Definition ref : Type := bool * rmatch.

Definition ref_start (r : ref) : nat := m_start r.2.

(** [slices.SortFunc] by start. *)
Fixpoint insert_ref (r : ref) (l : list ref) : list ref :=
  match l with
  | [] => [r]
  | r' :: l' => if ref_start r <=? ref_start r' then r :: l else r' :: insert_ref r l'
  end.

Definition sort_refs (l : list ref) : list ref := foldr insert_ref [] l.

Fixpoint expand_refs (s : string) (env : gmap string string) (refs : list ref) (prev : nat)
    : result tmpl_err (string * list string) :=
  match refs with
  | [] => Ok (drop_str prev s, [])
  | (file, m) :: refs =>
      if m_start m <? prev then expand_refs s env refs prev
      else
        '(v, missing) ← (if (file : bool) then v ← fileRefValue s m; Ok (v, []) else Ok (varValue s env m));
        '(rest, missing') ← expand_refs s env refs (m_end m);
        Ok (substr s prev (m_start m) +:+ v +:+ rest, missing ++ missing')
  end.

(** The expansion and the unset bare variables, in order. *)
Definition ExpandRefs (s : string) (env : gmap string string) : result tmpl_err (string * list string) :=
  if negb (Contains s "{{") then Ok (s, [])
  else expand_refs s env (sort_refs ((pair true <$> FindAll fileRe s) ++ (pair false <$> FindAll templateRe s))) 0.

(** ** Limits and whole values *)

(** One pass that replaces the matches of a pattern by integers. *)
Fixpoint replace_limits (s : string) (eval : rmatch → result Limits.limit_err Z) (ms : list rmatch) (prev : nat)
    : result tmpl_err string :=
  match ms with
  | [] => Ok (drop_str prev s)
  | m :: ms =>
      match eval m with
      | Err e => Err (ELimit e)
      | Ok n => rest ← replace_limits s eval ms (m_end m); Ok (substr s prev (m_start m) +:+ fmt_d n +:+ rest)
      end
  end.

Definition expand_value (env : gmap string string) (totalMiB totalCPUs : Z) (s : string)
    : result tmpl_err (string * list string) :=
  if negb (Contains s "{{") then Ok (s, [])
  else
    s ← replace_limits s (λ m, Limits.mem_Eval (default "" (group_text s m 1)) totalMiB) (FindAll memRe s) 0;
    s ← replace_limits s (λ m, Limits.cpu_Eval (default "" (group_text s m 1)) totalCPUs) (FindAll cpuRe s) 0;
    ExpandRefs s env.

(** The values and the names warned about, each once. *)
Definition expandTemplates (values : list string) (env : gmap string string) (totalMiB totalCPUs : Z)
    : result tmpl_err (list string * list string) :=
  foldM (λ acc s,
    '(v, missing) ← expand_value env totalMiB totalCPUs s;
    Ok (acc.1 ++ [v], foldl (λ w n, if bool_decide (n ∈ w) then w else w ++ [n]) acc.2 missing)) ([], []) values.
End expand.

Definition no_files : string → bool → open_result := λ _ _, FNotExist.
Definition secret : string → bool → open_result := λ p _, if bool_decide (p = "/s") then FOpened true (Some ("a{{.X}} " +:+ str1 "010")) else FNotExist.

Example expand_ex :
  ExpandRefs no_files "x{{.A}}y{{ .B :-d}}z{{.C:-e}}" {["A" := "1"; "C" := ""]} = Ok ("x1ydze", []) ∧
  ExpandRefs secret ("{{file " +:+ str1 dquote +:+ "/s" +:+ str1 dquote +:+ " trim}}/{{.X}}") {["X" := "{{.Y}}"]} = Ok ("a{{.X}}/{{.Y}}", []) ∧
  ExpandRefs no_files "{{.A}" ∅ = Ok ("{{.A}", []) ∧ ExpandRefs no_files "{{.A}}" ∅ = Ok ("", ["A"]) ∧
  expand_value no_files ∅ 1000 4 "-m {{mem 50%}} -c {{cpu}} {{cpu 50%}} {{cpus}}" = Ok ("-m 500 -c 4 2 {{cpus}}", []).
Proof. vm_compute. done. Qed.

(** ** Texts as pieces *)

Inductive piece :=
  | Lit (w : string)
  | Var (name : string) (dflt : option string)
  | File (path : string) (trim follow : bool) (dflt : option string).

(** The end of a placeholder. *)
Definition tail (d : option string) : string := match d with None => "}}" | Some d => ":-" +:+ d +:+ "}}" end.

Definition mods (trim follow : bool) : string := (if trim then " trim" else "") +:+ (if follow then " follow" else "").

Definition render (p : piece) : string :=
  match p with
  | Lit w => w
  | Var n d => "{{." +:+ n +:+ tail d
  | File path t f d => "{{file " +:+ str1 dquote +:+ path +:+ str1 dquote +:+ mods t f +:+ tail d
  end.

Definition text_of (ps : list piece) : string := foldr (λ p s, render p +:+ s) "" ps.

Definition no_brace (a : ascii) : bool := not_chr "{" a && not_chr "}" a.

Definition dflt_ok (d : option string) : Prop := match d with None => True | Some d => str_all no_brace d = true end.

Definition piece_ok (p : piece) : Prop :=
  match p with
  | Lit w => str_all (not_chr "{") w = true
  | Var n d => n ≠ "" ∧ str_all re_word n = true ∧ dflt_ok d
  | File path _ _ d =>
      path ≠ "" ∧ str_all (λ a, not_chr dquote a && not_chr "{" a) path = true ∧ dflt_ok d
  end.

(** *** Paths of the matcher *)

Lemma mt_cat {R} r l s pos c (k : string → nat → caps → option R) :
  l ≠ [] → mt (cat (r :: l)) s pos c k = mt r s pos c (λ s pos c, mt (cat l) s pos c k).
Proof. by destruct l. Qed.

Lemma stops_tail p d s : p "}"%char = false → p ":"%char = false → stops p (tail d +:+ s).
Proof. intros H1 H2. by destruct d. Qed.

Lemma mt_no_spaces {R} s pos c (k : string → nat → caps → option R) x :
  stops re_space s → k s pos c = Some x → mt spaces s pos c k = Some x.
Proof. intros Hs Hk. apply (mt_star re_space "" s); [done|done|]. cbn. by rewrite Nat.add_0_r. Qed.

(** The group of the default, if there is one, in front of [c]. *)
Definition tail_caps (g : nat) (d : option string) (pos : nat) (c : caps) : caps :=
  match d with None => c | Some d => (g, (pos + 2, pos + 2 + String.length d)) :: c end.

Lemma mt_tail {R} g d s pos c (k : string → nat → caps → option R) x :
  dflt_ok d → k s (pos + String.length (tail d)) (tail_caps g d pos c) = Some x →
  mt (cat [default_re g; spaces; lit "}}"]) (tail d +:+ s) pos c k = Some x.
Proof.
  intros Hd Hk. rewrite mt_cat by done. unfold default_re, opt. destruct d as [d|]; cbn [tail tail_caps] in *.
  - cbn [mt]. assert (E : mt (RCat (lit ":-") (RGrp g (star (RChr (not_chr "}"))))) ((":-" +:+ d +:+ "}}") +:+ s) pos c
      (λ s pos c, mt (cat [spaces; lit "}}"]) s pos c k) = Some x).
    { cbn [mt]. rewrite !app_assoc_str, (mt_lit ":-"). apply mt_star.
      - eapply str_all_impl; [|exact Hd]. intros a Ha. by apply andb_true_iff in Ha as [_ ?].
      - done.
      - rewrite mt_cat by done. apply mt_no_spaces; [done|]. cbn [cat]. rewrite (mt_lit "}}"). rewrite <- Hk.
        rewrite !length_app_str. cbn [String.length]. f_equal. lia. }
    cbn [mt] in E. by rewrite E.
  - assert (E : mt (RCat (lit ":-") (RGrp g (star (RChr (not_chr "}"))))) ("}}" +:+ s) pos c
      (λ s pos c, mt (cat [spaces; lit "}}"]) s pos c k) = None) by reflexivity.
    cbn [mt] in *. rewrite E. rewrite mt_cat by done. apply mt_no_spaces; [done|]. cbn [cat]. rewrite (mt_lit "}}"). exact Hk.
Qed.

Definition mod_re : re := RCat (plus (RChr re_space)) (RAlt (lit "trim") (lit "follow")).

Lemma mod_round {R} (trim : bool) rest pos c (k : string → nat → caps → option R) x :
  k rest (pos + (if trim then 5 else 7)) c = Some x →
  mt mod_re ((if trim then " trim" else " follow") +:+ rest) pos c k = Some x.
Proof.
  intros Hk. unfold mod_re. cbn [mt]. destruct trim.
  - apply (mt_plus re_space " " ("trim" +:+ rest)); [done|done|done|]. cbn [mt]. rewrite (mt_lit "trim"). cbn [String.length]. replace (pos + 1 + 4) with (pos + 5) by lia. by rewrite Hk.
  - apply (mt_plus re_space " " ("follow" +:+ rest)); [done|done|done|]. cbn [mt].
    change (mt (lit "trim") ("follow" +:+ rest) (pos + String.length " ") c k) with (@None R).
    rewrite (mt_lit "follow"). cbn [String.length]. replace (pos + 1 + 6) with (pos + 7) by lia. done.
Qed.

Lemma mods_loop {R} t f rest pos c (k : string → nat → caps → option R) x n :
  stops re_space rest → k rest (pos + String.length (mods t f)) c = Some x →
  star_loop true (mt mod_re) k (String.length (mods t f) + n) (mods t f +:+ rest) pos c = Some x.
Proof.
  intros Hs Hk.
  assert (Hend : ∀ m pos', k rest pos' c = Some x → star_loop true (mt mod_re) k m rest pos' c = Some x).
  { intros m pos' H. apply star_stop; [|done]. intros k'. destruct rest as [|a rest]; [done|]. cbn in Hs |- *. by rewrite Hs. }
  assert (Hf : ∀ m pos', k rest (pos' + 7) c = Some x → star_loop true (mt mod_re) k (S m) (" follow" +:+ rest) pos' c = Some x).
  { intros m pos' H. apply star_more. apply (mod_round false). destruct (Nat.eqb_spec (pos' + 7) pos'); [lia|]. by apply Hend. }
  destruct t, f; cbn [mods String.append String.length Nat.add] in *.
  - apply star_more. apply (mod_round true (" follow" +:+ rest)). destruct (Nat.eqb_spec (pos + 5) pos); [lia|].
    apply Hf. by replace (pos + 5 + 7) with (pos + 12) by lia.
  - apply star_more. apply (mod_round true rest). destruct (Nat.eqb_spec (pos + 5) pos); [lia|]. by apply Hend.
  - by apply Hf.
  - apply Hend. by rewrite Nat.add_0_r in Hk.
Qed.

(** *** The match of a piece *)

Definition var_match (pos : nat) (n : string) (d : option string) : rmatch :=
  let e := pos + 3 + String.length n in
  mkMatch pos (e + String.length (tail d)) (tail_caps 2 d e [(1, (pos + 3, e))]).

Definition file_match (pos : nat) (path : string) (t f : bool) (d : option string) : rmatch :=
  let e := pos + 8 + String.length path in
  let e' := e + 1 + String.length (mods t f) in
  mkMatch pos (e' + String.length (tail d)) (tail_caps 3 d e' [(2, (e + 1, e')); (1, (pos + 8, e))]).

Lemma match_var n d s pos : piece_ok (Var n d) → match_at templateRe (render (Var n d) +:+ s) pos = Some (var_match pos n d).
Proof.
  intros (Hne & Hn & Hd). unfold match_at, templateRe. cbn [render]. rewrite !app_assoc_str.
  change ("{{." +:+ n +:+ tail d +:+ s) with ("{{" +:+ "." +:+ n +:+ tail d +:+ s).
  rewrite mt_cat, mt_lit, mt_cat by done. apply mt_no_spaces; [done|].
  rewrite mt_cat, mt_lit, mt_cat by done. cbn [mt]. apply mt_plus; [done|done|by apply stops_tail|].
  rewrite mt_cat by done. apply mt_no_spaces; [by apply stops_tail|]. apply mt_tail; [done|].
  unfold var_match. cbn [String.length]. by replace (pos + 2 + 1) with (pos + 3) by lia.
Qed.

Lemma match_file path t f d s pos : piece_ok (File path t f d) →
  match_at fileRe (render (File path t f d) +:+ s) pos = Some (file_match pos path t f d).
Proof.
  intros (Hne & Hp & Hd). unfold match_at, fileRe. cbn [render]. rewrite !app_assoc_str.
  set (rest := path +:+ str1 dquote +:+ mods t f +:+ tail d +:+ s).
  change ("{{file " +:+ str1 dquote +:+ rest) with ("{{" +:+ "file" +:+ " " +:+ str1 dquote +:+ rest).
  rewrite mt_cat, mt_lit, mt_cat by done. apply mt_no_spaces; [done|].
  rewrite mt_cat, mt_lit, mt_cat by done. apply mt_plus; [done|done|done|]. rewrite mt_cat, mt_lit, mt_cat by done.
  cbn [mt]. unfold rest. apply mt_plus; [done| |done|].
  { eapply str_all_impl; [|exact Hp]. intros a Ha. by apply andb_true_iff in Ha as [? _]. }
  rewrite mt_cat, mt_lit, mt_cat by done. cbn [mt]. unfold star. cbn [mt]. fold mod_re.
  change (mt (RCat (plus (RChr re_space)) (RAlt (lit "trim") (lit "follow")))) with (mt (R := rmatch) mod_re).
  rewrite length_app_str. apply mods_loop; [by apply stops_tail|]. apply mt_tail; [done|].
  unfold file_match. change (String.length (str1 dquote)) with 1. cbn [String.length].
  by replace (pos + 2 + 4 + 1 + 1) with (pos + 8) by lia.
Qed.

(** *** Where no match starts *)

Definition braced (r : re) : Prop := ∃ r', r = RCat (lit "{{") r'.

Lemma find_lit r w s pos : braced r → str_all (not_chr "{") w = true →
  find_from r 0 (w +:+ s) pos = find_from r 0 s (pos + String.length w).
Proof.
  intros [r' ->]. rename r' into r.
  revert pos. induction w as [|a w IH]; intros pos H; [cbn; by rewrite Nat.add_0_r|].
  cbn [str_all] in H. apply andb_true_iff in H as [Ha H]. cbn [String.append String.length find_from].
  assert (E : match_at (RCat (lit "{{") r) (String a (w +:+ s)) pos = None).
  { unfold match_at. cbn [mt lit]. unfold is_chr. unfold not_chr in Ha. apply negb_true_iff in Ha. by rewrite Ha. }
  rewrite E, IH by done. f_equal. lia.
Qed.

(** A placeholder of the other kind: two braces and then no brace. *)
Lemma find_other r w s pos : braced r →
  match_at r ("{{" +:+ w +:+ s) pos = None → w ≠ "" → str_all (not_chr "{") w = true →
  find_from r 0 ("{{" +:+ w +:+ s) pos = find_from r 0 s (pos + 2 + String.length w).
Proof.
  intros [r' ->] H0 Hne Hw. rename r' into r. cbn [String.append find_from]. cbn [String.append] in H0. rewrite H0.
  assert (E : match_at (RCat (lit "{{") r) (String "{" (w +:+ s)) (S pos) = None).
  { destruct w as [|a w]; [done|]. unfold match_at. cbn [mt lit String.append].
    cbn [str_all] in Hw. apply andb_true_iff in Hw as [Ha _]. unfold is_chr. rewrite bool_decide_true by done. unfold not_chr in Ha. apply negb_true_iff in Ha. by rewrite Ha. }
  rewrite E, find_lit by (done || by exists r). f_equal. lia.
Qed.

Lemma find_match r w s pos m :
  match_at r (w +:+ s) pos = Some m → m_end m = pos + String.length w → w ≠ "" →
  find_from r 0 (w +:+ s) pos = m :: find_from r 0 s (pos + String.length w).
Proof.
  intros Hm He Hne. destruct w as [|a w]; [done|]. cbn [String.append find_from] in *. rewrite Hm. f_equal.
  rewrite He. cbn [String.length]. rewrite find_skip by lia. f_equal. lia.
Qed.

(** *** All references of a text *)

Fixpoint locate (ps : list piece) (pos : nat) : list ref :=
  match ps with
  | [] => []
  | p :: ps =>
      match p with
      | Lit _ => []
      | Var n d => [(false, var_match pos n d)]
      | File path t f d => [(true, file_match pos path t f d)]
      end ++ locate ps (pos + String.length (render p))
  end.

Lemma no_open_tail d : dflt_ok d → str_all (not_chr "{") (tail d) = true.
Proof.
  destruct d as [d|]; [|done]. intros H. unfold tail. rewrite !str_all_app. cbn [str_all].
  assert (E : str_all (not_chr "{") d = true); [|by rewrite E].
  eapply str_all_impl; [|exact H]. intros a Ha. by apply andb_true_iff in Ha as [? _].
Qed.

Lemma word_no_open n : str_all re_word n = true → str_all (not_chr "{") n = true.
Proof. apply str_all_impl. intros a Ha. unfold not_chr. apply negb_true_iff, bool_decide_eq_false. by intros ->. Qed.

Lemma file_braced : braced fileRe. Proof. by eexists. Qed.
Lemma template_braced : braced templateRe. Proof. by eexists. Qed.

Lemma find_piece_file p s pos : piece_ok p →
  find_from fileRe 0 (render p +:+ s) pos =
  match p with File path t f d => [file_match pos path t f d] | _ => [] end ++ find_from fileRe 0 s (pos + String.length (render p)).
Proof.
  intros Hp. destruct p as [w|n d|path t f d].
  - by apply (find_lit _ _ _ _ file_braced).
  - destruct Hp as (Hne & Hn & Hd). set (w := "." +:+ n +:+ tail d).
    change (render (Var n d)) with ("{{" +:+ w). rewrite app_assoc_str, (find_other fileRe w s pos file_braced); [| reflexivity | done |].
    + cbn [app]. f_equal. rewrite length_app_str. cbn [String.length]. lia.
    + unfold w. rewrite !str_all_app, (word_no_open n Hn), (no_open_tail d Hd). done.
  - cbn [app]. apply find_match; [by apply match_file| |done]. unfold file_match. cbn [m_end render].
    rewrite !length_app_str. change (String.length (str1 dquote)) with 1. cbn [String.length]. lia.
Qed.

Lemma find_piece_var p s pos : piece_ok p →
  find_from templateRe 0 (render p +:+ s) pos =
  match p with Var n d => [var_match pos n d] | _ => [] end ++ find_from templateRe 0 s (pos + String.length (render p)).
Proof.
  intros Hp. destruct p as [w|n d|path t f d].
  - by apply (find_lit _ _ _ _ template_braced).
  - cbn [app]. apply find_match; [by apply match_var| |done]. unfold var_match. cbn [m_end render].
    rewrite !length_app_str. cbn [String.length]. lia.
  - destruct Hp as (Hne & Hpath & Hd). set (w := "file " +:+ str1 dquote +:+ path +:+ str1 dquote +:+ mods t f +:+ tail d).
    change (render (File path t f d)) with ("{{" +:+ w).
    rewrite app_assoc_str, (find_other templateRe w s pos template_braced); [| reflexivity | done |].
    + cbn [app]. f_equal. rewrite length_app_str. cbn [String.length]. lia.
    + unfold w. rewrite !str_all_app, (no_open_tail d Hd).
      assert (E : str_all (not_chr "{") path = true).
      { eapply str_all_impl; [|exact Hpath]. intros a Ha. by apply andb_true_iff in Ha as [_ ?]. }
      rewrite E. by destruct t, f.
Qed.

Lemma find_files ps : ∀ pos, Forall piece_ok ps →
  pair true <$> find_from fileRe 0 (text_of ps) pos = List.filter fst (locate ps pos).
Proof.
  induction ps as [|p ps IH]; intros pos H; [done|]. apply Forall_cons in H as [Hp H]. cbn [text_of foldr locate].
  fold (text_of ps). rewrite (find_piece_file p _ pos Hp), fmap_app, (IH _ H), List.filter_app. by destruct p.
Qed.

Lemma find_vars ps : ∀ pos, Forall piece_ok ps →
  pair false <$> find_from templateRe 0 (text_of ps) pos = List.filter (λ r, negb r.1) (locate ps pos).
Proof.
  induction ps as [|p ps IH]; intros pos H; [done|]. apply Forall_cons in H as [Hp H]. cbn [text_of foldr locate].
  fold (text_of ps). rewrite (find_piece_var p _ pos Hp), fmap_app, (IH _ H), List.filter_app. by destruct p.
Qed.

(** *** Sorting *)

Definition ref_le (r r' : ref) : Prop := ref_start r ≤ ref_start r'.

Lemma insert_ref_perm r l : insert_ref r l ≡ₚ r :: l.
Proof. induction l as [|x l IH]; [done|]. cbn. destruct (_ <=? _); [done|]. rewrite IH. apply Permutation_swap. Qed.

Lemma sort_refs_perm l : sort_refs l ≡ₚ l.
Proof. induction l as [|r l IH]; [done|]. cbn. rewrite insert_ref_perm. by constructor. Qed.

Lemma insert_ref_sorted r l : StronglySorted ref_le l → StronglySorted ref_le (insert_ref r l).
Proof.
  induction 1 as [|x l H IH Hx]; cbn; [by repeat constructor|]. destruct (Nat.leb_spec (ref_start r) (ref_start x)) as [Hle|Hlt].
  - constructor; [by constructor|]. constructor; [done|]. eapply Forall_impl; [exact Hx|]. unfold ref_le. lia.
  - constructor; [done|]. rewrite (insert_ref_perm r l). constructor; [unfold ref_le; lia|done].
Qed.

Lemma sort_refs_sorted l : StronglySorted ref_le (sort_refs l).
Proof. induction l as [|r l IH]; [constructor|]. by apply insert_ref_sorted. Qed.

Lemma locate_bounds ps pos : Forall (λ r, pos ≤ ref_start r) (locate ps pos).
Proof.
  revert pos. induction ps as [|p ps IH]; intros pos; [constructor|]. cbn [locate]. apply Forall_app. split.
  - destruct p; repeat constructor; cbn; lia.
  - eapply Forall_impl; [apply IH|]. cbn. lia.
Qed.

Lemma locate_sorted ps : ∀ pos, Forall piece_ok ps → StronglySorted (λ r r', ref_start r < ref_start r') (locate ps pos).
Proof.
  induction ps as [|p ps IH]; intros pos H; [constructor|]. apply Forall_cons in H as [Hp H]. cbn [locate].
  pose proof (IH (pos + String.length (render p)) H) as Hs. pose proof (locate_bounds ps (pos + String.length (render p))) as Hb.
  destruct p as [w|n d|path t f d]; [done| |]; (constructor; [done|]; eapply Forall_impl; [exact Hb|]; cbn; lia).
Qed.

Lemma split_perm (l : list ref) : List.filter fst l ++ List.filter (λ r, negb r.1) l ≡ₚ l.
Proof.
  induction l as [|[[] m] l IH]; [done|cbn; by rewrite IH|]. cbn. rewrite <- IH at 3. symmetry. apply Permutation_middle.
Qed.

Lemma strict_inj (l : list ref) r r' :
  StronglySorted (λ r r', ref_start r < ref_start r') l → r ∈ l → r' ∈ l → ref_start r = ref_start r' → r = r'.
Proof.
  induction 1 as [|x l H IH Hx]; [by intros ?%not_elem_of_nil|]. rewrite Forall_forall in Hx.
  intros [->|Hr]%elem_of_cons [->|Hr']%elem_of_cons E; [done|specialize (Hx _ Hr'); lia|specialize (Hx _ Hr); lia|by apply IH].
Qed.

Lemma sort_locate ps pos : Forall piece_ok ps →
  sort_refs (List.filter fst (locate ps pos) ++ List.filter (λ r, negb r.1) (locate ps pos)) = locate ps pos.
Proof.
  intros H. pose proof (locate_sorted ps pos H) as Hs. set (l := locate ps pos) in *.
  assert (Hp : sort_refs (List.filter fst l ++ List.filter (λ r, negb r.1) l) ≡ₚ l) by (rewrite sort_refs_perm; apply split_perm).
  apply (StronglySorted_unique_strong ref_le); [|apply sort_refs_sorted| |exact Hp].
  - intros r r' Hr Hr' H1 H2. rewrite Hp in Hr. apply (strict_inj l); try done. unfold ref_le in *. lia.
  - clear -Hs. induction Hs as [|x l H IH Hx]; constructor; [done|]. eapply Forall_impl; [exact Hx|]. unfold ref_le. cbn. lia.
Qed.

(** *** Values *)

Section single_pass.
Context (open_file : string → bool → open_result) (env : gmap string string).

Definition piece_value (p : piece) : result tmpl_err (string * list string) :=
  match p with
  | Lit w => Ok (w, [])
  | Var n (Some d) => Ok (if bool_decide (default "" (env !! n) = "") then d else default "" (env !! n), [])
  | Var n None => Ok (default "" (env !! n), match env !! n with None => [n] | Some _ => [] end)
  | File path t f d => v ← readFileTemplate open_file path t f d; Ok (v, [])
  end.

(** The values in order; the first error ends it. *)
Fixpoint expand_pieces (ps : list piece) : result tmpl_err (string * list string) :=
  match ps with
  | [] => Ok ("", [])
  | p :: ps =>
      '(v, missing) ← piece_value p;
      '(rest, missing') ← expand_pieces ps;
      Ok (v +:+ rest, missing ++ missing')
  end.

Lemma substr_app pre w post a b : String.length pre = a → b = a + String.length w → substr (pre +:+ w +:+ post) a b = w.
Proof.
  intros <- ->. unfold substr. rewrite drop_app_str. replace (_ - _) with (String.length w) by lia. apply take_app_str.
Qed.

Lemma tail_group total pre d post g c pos m0 m1 :
  total = pre +:+ tail d +:+ post → String.length pre = pos → List.find (λ x, x.1 =? g) c = None →
  group_text total (mkMatch m0 m1 (tail_caps g d pos c)) g = d.
Proof.
  intros -> <- Hc. unfold group_text, group. cbn [m_caps]. destruct d as [d|]; cbn [tail_caps].
  - cbn [List.find]. rewrite Nat.eqb_refl. cbn. f_equal.
    transitivity (substr ((pre +:+ ":-") +:+ d +:+ ("}}" +:+ post)) (String.length pre + 2) (String.length pre + 2 + String.length d)).
    { f_equal. cbn [tail]. by rewrite !app_assoc_str. }
    apply substr_app; [by rewrite length_app_str|done].
  - by rewrite Hc.
Qed.

Lemma var_value pre n d post :
  varValue (pre +:+ render (Var n d) +:+ post) env (var_match (String.length pre) n d) =
  match d with
  | Some dv => (if bool_decide (default "" (env !! n) = "") then dv else default "" (env !! n), [])
  | None => (default "" (env !! n), match env !! n with None => [n] | Some _ => [] end)
  end.
Proof.
  set (total := pre +:+ _). set (pos := String.length pre).
  assert (E1 : group_text total (var_match pos n d) 1 = Some n).
  { unfold group_text, group, var_match. cbn [m_caps].
    replace (List.find _ (tail_caps _ _ _ _)) with (Some (1, (pos + 3, pos + 3 + String.length n))) by (by destruct d).
    cbn. f_equal. unfold total. cbn [render].
    transitivity (substr ((pre +:+ "{{.") +:+ n +:+ (tail d +:+ post)) (pos + 3) (pos + 3 + String.length n)).
    { f_equal. by rewrite !app_assoc_str. }
    apply substr_app; [rewrite length_app_str; cbn; unfold pos; lia|done]. }
  assert (E2 : group_text total (var_match pos n d) 2 = d).
  { apply (tail_group total (pre +:+ "{{." +:+ n) d post); [|rewrite !length_app_str; cbn; unfold pos; lia|done].
    unfold total. cbn [render]. by rewrite !app_assoc_str. }
  unfold varValue. rewrite E1, E2. cbn [default from_option]. by destruct d.
Qed.

Lemma file_value pre path t f d post :
  fileRefValue open_file (pre +:+ render (File path t f d) +:+ post) (file_match (String.length pre) path t f d) =
  readFileTemplate open_file path t f d.
Proof.
  set (total := pre +:+ _). set (pos := String.length pre). set (q := str1 dquote).
  assert (E1 : group_text total (file_match pos path t f d) 1 = Some path).
  { unfold group_text, group, file_match. cbn [m_caps].
    replace (List.find _ (tail_caps _ _ _ _)) with (Some (1, (pos + 8, pos + 8 + String.length path))) by (by destruct d).
    cbn. f_equal. unfold total. cbn [render]. fold q.
    transitivity (substr ((pre +:+ "{{file " +:+ q) +:+ path +:+ q +:+ mods t f +:+ tail d +:+ post) (pos + 8) (pos + 8 + String.length path)).
    { f_equal. by rewrite !app_assoc_str. }
    apply substr_app; [rewrite !length_app_str; cbn; unfold pos; lia|done]. }
  assert (E2 : group_text total (file_match pos path t f d) 2 = Some (mods t f)).
  { unfold group_text, group, file_match. cbn [m_caps]. set (e := pos + 8 + String.length path).
    replace (List.find _ (tail_caps _ _ _ _)) with (Some (2, (e + 1, e + 1 + String.length (mods t f)))) by (by destruct d).
    cbn. f_equal. unfold total. cbn [render]. fold q.
    transitivity (substr ((pre +:+ "{{file " +:+ q +:+ path +:+ q) +:+ mods t f +:+ tail d +:+ post) (e + 1) (e + 1 + String.length (mods t f))).
    { f_equal. by rewrite !app_assoc_str. }
    apply substr_app; [rewrite !length_app_str; cbn; unfold e, pos; lia|done]. }
  assert (E3 : group_text total (file_match pos path t f d) 3 = d).
  { apply (tail_group total (pre +:+ "{{file " +:+ q +:+ path +:+ q +:+ mods t f) d post); [| |done].
    - unfold total. cbn [render]. fold q. by rewrite !app_assoc_str.
    - rewrite !length_app_str. cbn. unfold pos. lia. }
  unfold fileRefValue. rewrite E1, E2, E3. cbn [default from_option]. by destruct t, f.
Qed.

Lemma expand_located ps : ∀ pre mid, Forall piece_ok ps →
  expand_refs open_file (pre +:+ mid +:+ text_of ps) env (locate ps (String.length pre + String.length mid)) (String.length pre) =
  '(r, missing) ← expand_pieces ps; Ok (mid +:+ r, missing).
Proof.
  induction ps as [|p ps IH]; intros pre mid H; cbn [text_of foldr locate expand_pieces].
  { cbn [expand_refs mbind result_bind]. by rewrite drop_app_str. }
  apply Forall_cons in H as [Hp H]. fold (text_of ps).
  assert (Hgo : expand_refs open_file (pre +:+ mid +:+ render p +:+ text_of ps) env
      (locate ps (String.length pre + String.length mid + String.length (render p))) (String.length pre + String.length mid + String.length (render p)) =
      expand_pieces ps).
  { specialize (IH (pre +:+ mid +:+ render p) "" H). rewrite !app_assoc_str, !length_app_str in IH. cbn [String.length String.append] in IH.
    rewrite Nat.add_0_r, Nat.add_assoc in IH. rewrite IH. destruct (expand_pieces ps) as [[r m]|]; done. }
  assert (Hmid : substr (pre +:+ mid +:+ render p +:+ text_of ps) (String.length pre) (String.length pre + String.length mid) = mid)
    by (by apply substr_app).
  destruct p as [w|n d|path t f d]; cbn [app].
  - specialize (IH pre (mid +:+ w) H). rewrite app_assoc_str, length_app_str, Nat.add_assoc in IH. cbn [render]. rewrite IH.
    cbn [piece_value mbind result_bind]. destruct (expand_pieces ps) as [[r m]|]; [|done]. cbn. by rewrite app_assoc_str.
  - cbn [expand_refs]. rewrite (proj2 (Nat.ltb_ge _ _)) by (cbn; lia).
    rewrite <- app_assoc_str, <- (length_app_str pre mid), var_value, (length_app_str pre mid), app_assoc_str. cbn [m_start m_end var_match].
    assert (Hend : String.length pre + String.length mid + 3 + String.length n + String.length (tail d) =
      String.length pre + String.length mid + String.length (render (Var n d))) by (cbn [render]; rewrite !length_app_str; cbn; lia).
    rewrite Hend, Hmid. destruct d as [dv|]; cbn [piece_value mbind result_bind] in *; rewrite Hgo;
      destruct (expand_pieces ps) as [[r m]|]; cbn; by rewrite ?app_assoc_str.
  - cbn [expand_refs]. rewrite (proj2 (Nat.ltb_ge _ _)) by (cbn; lia).
    rewrite <- app_assoc_str, <- (length_app_str pre mid), file_value, (length_app_str pre mid), app_assoc_str. cbn [m_start m_end file_match].
    assert (Hend : String.length pre + String.length mid + 8 + String.length path + 1 + String.length (mods t f) + String.length (tail d) =
      String.length pre + String.length mid + String.length (render (File path t f d)))
      by (cbn [render]; rewrite !length_app_str; cbn; lia).
    rewrite Hend, Hmid. cbn [piece_value]. destruct (readFileTemplate open_file path t f d) as [v|]; [|done].
    cbn [mbind result_bind]. rewrite Hgo. destruct (expand_pieces ps) as [[r m]|]; cbn; by rewrite ?app_assoc_str.
Qed.
End single_pass.

Lemma prefix_app (w s : string) : String.prefix w (w +:+ s) = true.
Proof. induction w as [|a w IH]; [by destruct s|]. cbn. destruct (ascii_dec a a); [done|done]. Qed.

Lemma index_found sub w s : String.index 0 sub (w +:+ sub +:+ s) ≠ None.
Proof.
  induction w as [|a w IH].
  - change ("" +:+ sub +:+ s) with (sub +:+ s). destruct (sub +:+ s) as [|b t] eqn:E.
    + destruct sub; [done|done].
    + cbn [String.index]. rewrite <- E, prefix_app. done.
  - cbn [String.append String.index]. destruct (String.prefix _ _); [done|]. by destruct (String.index 0 sub (w +:+ sub +:+ s)).
Qed.

Lemma text_braces ps : Contains (text_of ps) "{{" = false → ∀ p, p ∈ ps → ∃ w, p = Lit w.
Proof.
  intros H p Hp. assert (Hsplit : ∃ a b, text_of ps = a +:+ render p +:+ b).
  { clear H. induction ps as [|q ps IH]; [by apply not_elem_of_nil in Hp|]. apply elem_of_cons in Hp as [->|Hp].
    - by exists "", (text_of ps).
    - destruct (IH Hp) as (a & b & E). exists (render q +:+ a), b. cbn [text_of foldr]. fold (text_of ps). by rewrite E, app_assoc_str. }
  destruct Hsplit as (a & b & E). destruct p as [w|n d|path t f d]; [by exists w|exfalso..]; rewrite E in H; cbn [render] in H.
  - pose proof (index_found "{{" a (String "." (n +:+ tail d) +:+ b)) as Hi. revert H. unfold Contains.
    change ("{{" +:+ String "." (n +:+ tail d) +:+ b) with (("{{." +:+ n +:+ tail d) +:+ b) in Hi. by destruct (String.index _ _ _).
  - set (r := "file " +:+ str1 dquote +:+ path +:+ str1 dquote +:+ mods t f +:+ tail d) in *.
    pose proof (index_found "{{" a (r +:+ b)) as Hi. revert H. unfold Contains.
    change ("{{file " +:+ str1 dquote +:+ path +:+ str1 dquote +:+ mods t f +:+ tail d) with ("{{" +:+ r).
    rewrite app_assoc_str. by destruct (String.index _ _ _).
Qed.

Lemma expand_literals open_file env ps : (∀ p, p ∈ ps → ∃ w, p = Lit w) → expand_pieces open_file env ps = Ok (text_of ps, []).
Proof.
  induction ps as [|p ps IH]; intros H; [done|]. destruct (H p) as [w ->]; [apply elem_of_cons; by left|].
  cbn [expand_pieces piece_value mbind result_bind]. rewrite IH; [done|]. intros q Hq. apply H, elem_of_cons. by right.
Qed.

(** C17: single-pass templates.  A text made of literal parts and placeholders
    expands to the literal parts with each placeholder replaced by its value,
    left to right, stopping at the first error: a variable by its environment
    value or, when that is unset or empty, by its default; a file by its
    content.  Values are copied as they are: nothing inside an environment
    value, a default or a file is ever expanded again.  The names reported
    missing are exactly those of the bare variables that are unset. *)
Theorem expand_single_pass (open_file : string → bool → open_result) (env : gmap string string) (ps : list piece) :
  Forall piece_ok ps → ExpandRefs open_file (text_of ps) env = expand_pieces open_file env ps.
Proof.
  intros H. unfold ExpandRefs. destruct (Contains (text_of ps) "{{") eqn:E; cbn [negb].
  - unfold FindAll. pose proof (sort_locate ps 0 H) as Hs. rewrite <- (find_files ps 0 H), <- (find_vars ps 0 H) in Hs.
    etransitivity; [by apply (f_equal (λ l, expand_refs open_file (text_of ps) env l 0) Hs)|].
    etransitivity; [exact (expand_located open_file env ps "" "" H)|]. by destruct (expand_pieces open_file env ps) as [[r m]|].
  - symmetry. apply expand_literals. by apply text_braces.
Qed.

Lemma expand_single_pass_witness :
  ExpandRefs secret (text_of [Lit "--key="; File "/s" true false None; Lit ":"; Var "HOME" (Some "/root"); Var "X" None]) {["X" := "{{.X}}"]} =
  Ok ("--key=a{{.X}}:/root{{.X}}", []).
Proof.
  rewrite (expand_single_pass secret {["X" := "{{.X}}"]}
    [Lit "--key="; File "/s" true false None; Lit ":"; Var "HOME" (Some "/root"); Var "X" None]); [vm_compute; reflexivity|].
  repeat (apply Forall_cons_2; [repeat split; try done; vm_compute; reflexivity|]). apply Forall_nil_2.
Defined.

End Templates.
