(* ===== verification/Config.v ===== *)
(** * The configuration: src/internal/yml/config.go

    A parsed document becomes a [Config]: every process, check and log target
    is read from its node and validated, processes whose environment condition
    does not hold are dropped with the references to them, and so are the
    checks only they used. *)

From S2P Require Import Prelude GoStrings GoTime GoFloat Cron Check Yml Service GoRegexp Templates.
From Stdlib Require Import SpecFloat.

Open Scope string_scope.
Open Scope list_scope.
Open Scope nat_scope.

Module Config.
Import Yml Service GoRegexp.

(** ** Data *)

Record TargetConfig := mkTargetConfig {
  tLabels : gmap string string;
  tType : string;
  tLocation : string;
  tMaxSize : string;
  tServices : list string;
  tMaxFiles : Z;
  tCompress : bool;
}.

(** Why an entry was dropped: the first variable, in name order, that does not
    have its expected value; or the excluded processes that alone used a check. *)
Inductive reason :=
  | EnvMismatch (key expected : string)
  | OnlyUsedBy (procs : list string).

Record Exclusion := mkExclusion {
  xName : string;
  xReason : reason;
}.

Record Config := mkConfig {
  Checks : gmap string Check.Config;
  LogTargets : gmap string TargetConfig;
  Excluded : list Exclusion;
  ExcludedChecks : list Exclusion;
  Prefix : string;
  PassEnv : option bool;
  LogCapture : option bool;
  ExportSocket : option bool;
  ShutdownOrder : string;
  InitStopSignal : list string;
  SocketPath : string;
  SocketMode : Z;
  Processes : list Process;
  NoLogo : bool;
  Subreaper : bool;
}.

Inductive exit_code_err :=
  | EmptyCode
  | NotCode (e : string).

Inductive check_cfg_err :=
  | BadThreshold (raw : string)
  | BadPort (raw : string).

Inductive sched_err :=
  | NoSchedule
  | BadSchedule (e : Cron.cron_err)
  | SchedOnSuccess
  | SchedOnFailure
  | SchedBackoff
  | SchedOrdering
  | SchedTimeout (text : string)
  | StraySchedule
  | OrderedOnScheduled (dep : string).

Inductive cfg_err :=
  | EReadConfig (path : string)
  | EParse (e : yml_err)
  | EInitStop (name e : string)
  | EUncatchable (name : string)
  | EShutdownOrder (s : string)
  | ESocketMode (s : string)
  | EStartupExpand (name : string) (e : Templates.tmpl_err)
  | EStartupTemplate (name raw : string)
  | EStartup (name startup : string)
  | ERelative (name key path : string)
  | ESamePath (name path : string)
  | ENotMapping (name key : string) (got : option string)
  | EConditionKey (name key : string)
  | EExitCodeKey (name key : string) (e : exit_code_err)
  | EExitCodeValue (name key value : string) (e : exit_code_err)
  | ERewriteFrom (name key e : string)
  | ERewriteTo (name value e : string)
  | EUmask (name umask : string)
  | EParentDeath (name sig e : string)
  | ESDNotifyTimeout (name text : string)
  | EBackoffFactor (name raw : string)
  | ECheck (name : string) (e : check_cfg_err)
  | ENoProcesses
  | ECommand (name : string)
  | EWhitespace (name : string)
  | EOnSuccess (name action : string)
  | EOnFailure (name action : string)
  | EStopSignal (name e : string)
  | EOnCheckFailure (name check action : string)
  | EReserved (name key : string) (shutdown : bool)
  | EScheduled (name : string) (e : sched_err).

(** Go walks a map in an arbitrary order: the key says which loop asks. *)
Definition walk : Type := string → gmap string string → list (string * string).
Definition fair_walk (w : walk) : Prop := ∀ site m, w site m ≡ₚ map_to_list m.

(** ** Small readers *)

(** [envFromOS] on the strings of [os.Environ]. *)
Definition envFromOS (environ : list string) : gmap string string :=
  foldl (λ m e, let '(k, v, ok) := Cut e "=" in if ok then <[k := v]> m else m) ∅ environ.

Definition node_Float (n : option Node) : option float64 :=
  match node_String n with "" => None | s => GoFloat.ParseFloat s end.

Definition node_IntPtr (n : option Node) : option Z := node_Int n.

Definition procName (p : Process) : string := process_name p.

Definition requireMapping (n : Node) (key pname command : string) : result cfg_err unit :=
  match Get n key with
  | None | Some (Mapping _) => Ok tt
  | v =>
      Err (ENotMapping (if bool_decide (pname = "") then command else pname) key
             (match v with Some (Sequence _) => None | _ => Some (node_String v) end))
  end.

Definition parseExitCode (s : string) : result exit_code_err Z :=
  let s := TrimSpace s in
  if bool_decide (s = "") then Err EmptyCode
  else match Atoi s with
  | Some v => Ok v
  | None => match ParseSignal s with Ok sig => Ok (128 + sig)%Z | Err e => Err (NotCode e) end
  end.

Definition check_int (n : option Node) (e : string → check_cfg_err) : result check_cfg_err Z :=
  match node_String n with
  | "" => Ok 0%Z
  | raw => match Atoi raw with Some v => Ok v | None => Err (e raw) end
  end.

Definition parseCheck (n : Node) : result check_cfg_err Check.Config :=
  threshold ← check_int (Get n "threshold") BadThreshold;
  let http := (λ h, Check.mkHTTP (node_String (Get h "url")) (node_String (Get h "socket"))) <$> Get n "http" in
  tcp ← match Get n "tcp" with
        | None => Ok None
        | Some t => port ← check_int (Get t "port") BadPort; Ok (Some (Check.mkTCP (node_String (Get t "host")) port))
        end;
  let exec := (λ e, Check.mkExec (node_String (Get e "command")) (node_Strings (Get e "args"))) <$> Get n "exec" in
  Ok (Check.mkConfig http tcp exec (node_String (Get n "period")) (node_String (Get n "timeout"))
        (node_String (Get n "initial-delay")) threshold).

Definition parseLogTarget (n : Node) : TargetConfig :=
  mkTargetConfig (node_StringMap (Get n "labels")) (node_String (Get n "type")) (node_String (Get n "location"))
    (node_String (Get n "max-size")) (node_Strings (Get n "services"))
    (default 0%Z (node_Int (Get n "max-files"))) (node_Bool (Get n "compress")).

(** ** One process *)

Section process.
(** What opening a file for a template answers. *)
Context (open_file : string → bool → Templates.open_result).
Context (w : walk) (env : gmap string string).

Definition label (n : Node) : string :=
  match node_String (Get n "name"), node_String (Get n "command") with
  | "", "" => "(unnamed)"
  | "", c => c
  | nm, _ => nm
  end.

Definition startup_values : list string := [""; "enabled"; "disabled"; "oneshot"; "scheduled"].

(** The [startup] setting: templates expanded, blanks trimmed; a reference that
    expands to nothing means disabled. *)
Definition read_startup (n : Node) : result cfg_err string :=
  let rawStartup := node_String (Get n "startup") in
  match Templates.ExpandRefs open_file rawStartup env with
  | Err e => Err (EStartupExpand (label n) e)
  | Ok (expanded, _) =>
      let startup := TrimSpace expanded in
      let startup := if bool_decide (startup = "") && Contains rawStartup "{{" then "disabled" else startup in
      if bool_decide (startup ∈ startup_values) then Ok startup
      else if negb (bool_decide (rawStartup = startup)) then Err (EStartupTemplate (label n) rawStartup)
      else Err (EStartup (label n) startup)
  end.

Definition condition_paths (name exists_ missing : string) : result cfg_err unit :=
  _ ← foldM (λ (_ : unit) '(key, path),
        if negb (bool_decide (path = "")) && negb (HasPrefix path "/") then Err (ERelative name key path) else Ok tt)
      tt (w "condition-paths" (<["condition-file-exists" := exists_]> {["condition-file-missing" := missing]}));
  if negb (bool_decide (exists_ = "")) && bool_decide (exists_ = missing) then Err (ESamePath name exists_) else Ok tt.

Definition condition_keys (name : string) (m : gmap string string) : result cfg_err unit :=
  foldM (λ (_ : unit) '(k, _), if IsValidEnvKey k then Ok tt else Err (EConditionKey name k)) tt
    (w "condition-env-equals" m).

Definition exit_code_map (name : string) (raw : gmap string string) : result cfg_err (gmap Z Z) :=
  foldM (λ codes '(k, v),
    keyInt ← err_map (EExitCodeKey name k) (parseExitCode k);
    valInt ← err_map (EExitCodeValue name k v) (parseExitCode v);
    Ok (<[keyInt := valInt]> codes)) ∅ (w "exit-code-map" raw).

Definition signal_rewrite (name : string) (raw : gmap string string) : result cfg_err (gmap string string) :=
  foldM (λ canon '(k, v),
    fromSig ← err_map (ERewriteFrom name k) (ParseSignal k);
    toSig ← err_map (ERewriteTo name v) (ParseSignal v);
    Ok (<[SignalName fromSig := SignalName toSig]> canon)) ∅ (w "signal-rewrite" raw).

Definition backoff_factor (name raw : string) : result cfg_err float64 :=
  if bool_decide (raw = "") then Ok (S754_zero false)
  else match GoFloat.ParseFloat raw with
  | Some v => if f64_is_nan v || f64_is_inf v || f64_leb v (S754_zero false) then Err (EBackoffFactor name raw) else Ok v
  | None => Err (EBackoffFactor name raw)
  end.

(** A field that is only validated: nothing when empty. *)
Definition validate (text : string) (r : result cfg_err unit) : result cfg_err unit :=
  if bool_decide (text = "") then Ok tt else r.

Definition word_boundary : re := RAlt REnd (RChr (λ a, negb (re_word a))).
Definition argSecretTemplateRe : re :=
  cat [lit "{{"; spaces; RAlt (RCat (lit "file") word_boundary) (lit ".")].
Definition MatchString (r : re) (s : string) : bool := negb (bool_decide (length (FindAll r s) = 0)).

(** The process, and whether a warning about secrets in its arguments is
    logged. *)
Definition parseProcess (n : Node) : result cfg_err (Process * bool) :=
  startup ← read_startup n;
  let str k := node_String (Get n k) in
  let name := if bool_decide (str "name" = "") then str "command" else str "name" in
  _ ← condition_paths name (str "condition-file-exists") (str "condition-file-missing");
  _ ← requireMapping n "condition-env-equals" (str "name") (str "command");
  _ ← condition_keys name (node_StringMap (Get n "condition-env-equals"));
  _ ← requireMapping n "exit-code-map" (str "name") (str "command");
  codes ← exit_code_map name (node_StringMap (Get n "exit-code-map"));
  rewrite ← signal_rewrite name (node_StringMap (Get n "signal-rewrite"));
  _ ← validate (str "umask") (match ParseUmask (str "umask") with Some _ => Ok tt | None => Err (EUmask name (str "umask")) end);
  _ ← validate (str "parent-death-signal")
        (_ ← err_map (EParentDeath name (str "parent-death-signal")) (ParseSignal (str "parent-death-signal")); Ok tt);
  _ ← validate (str "sd-notify-timeout")
        (match ParseDuration (str "sd-notify-timeout") with
         | Some _ => Ok tt | None => Err (ESDNotifyTimeout name (str "sd-notify-timeout")) end);
  factor ← backoff_factor name (str "backoff-factor");
  let args := node_Strings (Get n "args") in
  Ok (mkProcess (node_IntPtr (Get n "user-id")) (node_IntPtr (Get n "group-id"))
        (node_StringMap (Get n "environment")) (node_StringMap (Get n "on-check-failure"))
        (node_BoolPtr (Get n "pass-env")) (node_BoolPtr (Get n "log-capture")) (node_BoolPtr (Get n "export-socket"))
        (str "name") (str "command") (str "working-dir") (str "user") (str "group") startup
        (str "stop-signal") (str "kill-delay") (str "on-success") (str "on-failure")
        (str "backoff-delay") (str "backoff-limit") (str "ready-check") (str "ready-timeout")
        (str "startup-timeout") (str "schedule") (str "condition-file-exists") (str "condition-file-missing")
        (str "umask") (str "dotenv") (str "prefix") (str "sd-notify-timeout") (str "parent-death-signal")
        codes rewrite args (node_Strings (Get n "after")) (node_Strings (Get n "before"))
        (node_Strings (Get n "requires")) (node_Strings (Get n "remove-env")) factor
        (node_Bool (Get n "use-entrypoint-args")) (node_Bool (Get n "sd-notify")) (node_Bool (Get n "strict-groups"))
        (node_Bool (Get n "dotenv-follow")) (node_Bool (Get n "restart-with-dependents")),
      existsb (MatchString argSecretTemplateRe) args).

End process.

(** ** Validation of the whole *)

Definition set_flags (pass capture export_ : option bool) (p : Process) : Process :=
  mkProcess (pUserID p) (pGroupID p) (pEnvironment p) (pOnCheckFailure p) pass
    capture export_ (pName p) (pCommand p) (pWorkingDir p) (pUser p) (pGroup
    p) (pStartup p) (pStopSignal p) (pKillDelay p) (pOnSuccess p) (pOnFailure p) (pBackoffDelay
    p) (pBackoffLimit p) (pReadyCheck p) (pReadyTimeout p) (pStartupTimeout p) (pSchedule p)
    (pConditionFileExists p) (pConditionFileMissing p) (pUmask p) (pDotEnv p) (pPrefix p)
    (pSDNotifyTimeout p) (pParentDeathSignal p) (pExitCodeMap p) (pSignalRewrite p) (pArgs p)
    (pAfter p) (pBefore p) (pRequires p) (pRemoveEnv p) (pBackoffFactor p) (pUseEntrypointArgs
    p) (pSDNotify p) (pStrictGroups p) (pDotEnvFollow p) (pRestartWithDependents p).

Definition set_deps (after before requires : list string) (p : Process) : Process :=
  mkProcess (pUserID p) (pGroupID p) (pEnvironment p) (pOnCheckFailure p) (pPassEnv p)
    (pLogCapture p) (pExportSocket p) (pName p) (pCommand p) (pWorkingDir p) (pUser p) (pGroup
    p) (pStartup p) (pStopSignal p) (pKillDelay p) (pOnSuccess p) (pOnFailure p) (pBackoffDelay
    p) (pBackoffLimit p) (pReadyCheck p) (pReadyTimeout p) (pStartupTimeout p) (pSchedule p)
    (pConditionFileExists p) (pConditionFileMissing p) (pUmask p) (pDotEnv p) (pPrefix p)
    (pSDNotifyTimeout p) (pParentDeathSignal p) (pExitCodeMap p) (pSignalRewrite p) (pArgs p)
    after before requires (pRemoveEnv p) (pBackoffFactor p) (pUseEntrypointArgs
    p) (pSDNotify p) (pStrictGroups p) (pDotEnvFollow p) (pRestartWithDependents p).

Definition or_else {A} (o d : option A) : option A := match o with Some _ => o | None => d end.

(** Unset flags of a process take the global default. *)
Definition inherit (cfg : Config) (p : Process) : Process :=
  set_flags (or_else (pPassEnv p) (PassEnv cfg)) (or_else (pLogCapture p) (LogCapture cfg))
    (or_else (pExportSocket p) (ExportSocket cfg)) p.

Definition SIGINT : Z := 2.
Definition SIGSTOP : Z := 19.

(** [ShutdownSignals], as the set of signals. *)
Definition ShutdownSignals (initStop : list string) : gset Z :=
  match initStop with
  | [] => {[ SIGTERM; SIGINT ]}
  | names => foldl (λ out name, match ParseSignal name with Ok sig => {[ sig ]} ∪ out | Err _ => out end) ∅ names
  end.

Definition init_stop (names : list string) : result cfg_err unit :=
  foldM (λ (_ : unit) name,
    match ParseSignal name with
    | Err e => Err (EInitStop name e)
    | Ok sig => if bool_decide (sig = SIGKILL) || bool_decide (sig = SIGSTOP) then Err (EUncatchable name) else Ok tt
    end) tt names.

Definition conditionEnvUnmet (n : Node) (env : gmap string string) : option reason :=
  let envEquals := node_StringMap (Get n "condition-env-equals") in
  k ← find (λ k, negb (bool_decide (default "" (env !! k) = default "" (envEquals !! k))))
        (sort_strings (elements (dom envEquals)));
  Some (EnvMismatch k (default "" (envEquals !! k))).

Definition strip (excluded : gset string) (deps : list string) : list string := filter (λ d, d ∉ excluded) deps.

Definition excludeProcesses (procs : list Process) (excluded : gset string) : list Process :=
  (λ p, set_deps (strip excluded (pAfter p)) (strip excluded (pBefore p)) (strip excluded (pRequires p)) p) <$>
    filter (λ p, procName p ∉ excluded) procs.

Definition add_user (p : string) (users : gmap string (list string)) (check : string) : gmap string (list string) :=
  <[check := default [] (users !! check) ++ [p]]> users.

(** Check -> referencing processes.  The walk over one on-check-failure map may
    take any order: its keys are distinct. *)
Definition check_users (procs : list Process) : gmap string (list string) :=
  foldl (λ users p,
    let users := foldl (add_user (procName p)) users (map_to_list (pOnCheckFailure p)).*1 in
    if bool_decide (pReadyCheck p = "") then users else add_user (procName p) users (pReadyCheck p)) ∅ procs.

(** [slices.Compact] *)
Fixpoint Compact (l : list string) : list string :=
  match l with
  | a :: (b :: _) as l' => if bool_decide (a = b) then Compact l' else a :: Compact l'
  | _ => l
  end.

Definition excludeOrphanedChecks (procs : list Process) (checks : gmap string Check.Config) (excluded : gset string)
    : gmap string Check.Config * list Exclusion :=
  let users := check_users procs in
  foldl (λ '(checks, dropped) name,
    match checks !! name with
    | None => (checks, dropped)
    | Some _ =>
        let ps := Compact (sort_strings (default [] (users !! name))) in
        if existsb (λ p, bool_decide (p ∉ excluded)) ps then (checks, dropped)
        else (delete name checks, dropped ++ [mkExclusion name (OnlyUsedBy ps)])
    end) (checks, []) (sort_strings (elements (dom users))).

Definition under_schedule (p : Process) : bool :=
  bool_decide (pStartup p = "scheduled") || (bool_decide (pStartup p = "disabled") && negb (bool_decide (pSchedule p = ""))).

Definition check_order (scheduledSet : gset string) (deps : list string) : result sched_err unit :=
  foldM (λ (_ : unit) dep, if bool_decide (dep ∈ scheduledSet) then Err (OrderedOnScheduled dep) else Ok tt) tt deps.

Definition check_scheduled (p : Process) : result sched_err unit :=
  if bool_decide (pSchedule p = "") then Err NoSchedule
  else match Cron.Parse (pSchedule p) with
  | Err e => Err (BadSchedule e)
  | Ok _ =>
      if negb (bool_decide (pOnSuccess p = "")) then Err SchedOnSuccess
      else if negb (bool_decide (pOnFailure p = "")) then Err SchedOnFailure
      else if negb (bool_decide (pBackoffDelay p = "")) || negb (bool_decide (pBackoffLimit p = "")) then Err SchedBackoff
      else if negb (bool_decide (pAfter p = [])) || negb (bool_decide (pBefore p = [])) || negb (bool_decide (pRequires p = []))
      then Err SchedOrdering
      else if negb (bool_decide (pStartupTimeout p = "")) && negb (bool_decide (is_Some (ParseDuration (pStartupTimeout p))))
      then Err (SchedTimeout (pStartupTimeout p))
      else Ok tt
  end.

Definition validateScheduled (p : Process) (scheduledSet : gset string) : result sched_err unit :=
  _ ← (if under_schedule p then check_scheduled p
       else if negb (bool_decide (pSchedule p = "")) then Err StraySchedule else Ok tt);
  check_order scheduledSet (pAfter p ++ pBefore p ++ pRequires p).

Definition validateSignalRewrite (w : walk) (name : string) (rewrite : gmap string string) (shutdownSet : gset Z)
    : result cfg_err unit :=
  let shutdownNames : gset string := list_to_set (SignalName <$> elements shutdownSet) in
  foldM (λ (_ : unit) '(key, _),
    if bool_decide (key ∈ shutdownNames) then Err (EReserved name key true)
    else if bool_decide (key = "SIGHUP") then Err (EReserved name key false)
    else Ok tt) tt (w "reserved" rewrite).

Definition whitespace (a : ascii) : bool := str_in a (String "032" (String "009" (String "013" (String "010" (String "011" (str1 "012")))))).

Definition check_actions (w : walk) (name : string) (m : gmap string string) : result cfg_err unit :=
  foldM (λ (_ : unit) '(check, action),
    if ValidateExitAction action then Ok tt else Err (EOnCheckFailure name check action)) tt (w "on-check-failure" m).

Definition guard_ok {E} (b : bool) (e : E) : result E unit := if b then Ok tt else Err e.

Definition validate_process (w : walk) (shutdownSet : gset Z) (scheduledSet : gset string) (p : Process)
    : result cfg_err unit :=
  let name := procName p in
  _ ← guard_ok (negb (bool_decide (pCommand p = ""))) (ECommand (if bool_decide (name = "") then "(unnamed)" else name));
  _ ← guard_ok (str_all (λ a, negb (whitespace a)) name) (EWhitespace name);
  _ ← guard_ok (ValidateExitAction (pOnSuccess p)) (EOnSuccess name (pOnSuccess p));
  _ ← guard_ok (ValidateExitAction (pOnFailure p)) (EOnFailure name (pOnFailure p));
  _ ← validate (pStopSignal p) (_ ← err_map (EStopSignal name) (ParseSignal (pStopSignal p)); Ok tt);
  _ ← check_actions w name (pOnCheckFailure p);
  _ ← validateSignalRewrite w name (pSignalRewrite p) shutdownSet;
  err_map (EScheduled name) (validateScheduled p scheduledSet).

(** ** Unmarshal *)

Definition shutdown_orders : list string := [""; "reverse-dep"; "dep"; "simultaneous"].

Definition parse_control (root : Node) : result cfg_err (string * Z) :=
  match Get root "control" with
  | None => Ok ("", 0%Z)
  | Some n =>
      match node_String (Get n "socket-mode") with
      | "" => Ok (node_String (Get n "socket"), 0%Z)
      | modeStr =>
          match ParseUint modeStr 8 32 with
          | Some m => Ok (node_String (Get n "socket"), m)
          | None => Err (ESocketMode modeStr)
          end
      end
  end.

(** The settings before the processes. *)
Definition parse_globals (root : Node) : result cfg_err Config :=
  let initStop := node_Strings (Get root "init-stop-signal") in
  let shutdownOrder := node_String (Get root "shutdown-order") in
  _ ← init_stop initStop;
  _ ← guard_ok (bool_decide (shutdownOrder ∈ shutdown_orders)) (EShutdownOrder shutdownOrder);
  '(socket, mode) ← parse_control root;
  Ok (mkConfig ∅ ∅ [] [] (node_String (Get root "prefix")) (node_BoolPtr (Get root "pass-env"))
        (node_BoolPtr (Get root "log-capture")) (node_BoolPtr (Get root "export-socket")) shutdownOrder initStop
        socket mode [] (node_Bool (Get root "no-logo")) (node_Bool (Get root "subreaper"))).

(** What the loop over the processes collects: the processes in order, the
    excluded ones, and the names of those warned about. *)
Record loaded := mkLoaded {
  l_procs : list Process;
  l_excluded : list Exclusion;
  l_warned : list string;
}.

Section unmarshal.
Context (open_file : string → bool → Templates.open_result).
Context (ws : nat → walk) (env : gmap string string).

Definition load_one (cfg : Config) (acc : loaded) (item : Node) : result cfg_err loaded :=
  match parseProcess open_file (ws (length (l_procs acc))) env item with
  | Err e => Err e
  | Ok (p, warn) =>
      Ok (mkLoaded (l_procs acc ++ [inherit cfg p])
            (match conditionEnvUnmet item env with
             | Some reason => l_excluded acc ++ [mkExclusion (procName p) reason]
             | None => l_excluded acc
             end)
            (if warn then l_warned acc ++ [procName p] else l_warned acc))
  end.

Definition load_processes (cfg : Config) (items : list Node) : result cfg_err loaded :=
  foldM (load_one cfg) (mkLoaded [] [] []) items.

Definition load_checks (entries : list (string * Node)) : result cfg_err (gmap string Check.Config) :=
  foldM (λ checks e, let '(key, val) := e in c ← err_map (ECheck key) (parseCheck val); Ok (<[key := c]> checks)) ∅ entries.

Definition load_targets (entries : list (string * Node)) : gmap string TargetConfig :=
  foldl (λ m '(key, val), <[key := parseLogTarget val]> m) ∅ entries.

Definition scheduled_set (procs : list Process) : gset string :=
  list_to_set (procName <$> filter (λ p, under_schedule p) procs).

Fixpoint validate_all (i : nat) (shutdownSet : gset Z) (scheduledSet : gset string) (procs : list Process) : result cfg_err unit :=
  match procs with
  | [] => Ok tt
  | p :: procs => _ ← validate_process (ws i) shutdownSet scheduledSet p; validate_all (S i) shutdownSet scheduledSet procs
  end.

Definition finish (g : Config) (l : loaded) (checks : gmap string Check.Config) (targets : gmap string TargetConfig) : Config :=
  let excluded : gset string := list_to_set (xName <$> l_excluded l) in
  let '(checks', dropped) :=
    if bool_decide (length (l_excluded l) = 0) then (checks, []) else excludeOrphanedChecks (l_procs l) checks excluded in
  let procs := if bool_decide (length (l_excluded l) = 0) then l_procs l else excludeProcesses (l_procs l) excluded in
  mkConfig checks' targets (l_excluded l) dropped (Prefix g) (PassEnv g) (LogCapture g) (ExportSocket g)
    (ShutdownOrder g) (InitStopSignal g) (SocketPath g) (SocketMode g) procs (NoLogo g) (Subreaper g).

(** The part of [Unmarshal] after [Parse]. *)
Definition build (root : Node) : result cfg_err (Config * list string) :=
  g ← parse_globals root;
  l ← load_processes g (node_Items (Get root "processes"));
  checks ← load_checks (node_Entries (Get root "checks"));
  let targets := load_targets (node_Entries (Get root "log-targets")) in
  _ ← guard_ok (negb (bool_decide (length (l_procs l) = 0))) ENoProcesses;
  _ ← validate_all 0 (ShutdownSignals (InitStopSignal g)) (scheduled_set (l_procs l)) (l_procs l);
  Ok (finish g l checks targets, l_warned l).

Definition Unmarshal (data : string) : outcome cfg_err (Config * list string) :=
  match Parse data with
  | Ret root => lift_result (build root)
  | Fail e => Fail (EParse e)
  | NoFuel => NoFuel
  end.

Definition Load (path : string) (read : option string) : outcome cfg_err (Config * list string) :=
  match read with Some data => Unmarshal data | None => Fail (EReadConfig path) end.

End unmarshal.

End Config.
