(* ===== verification/ConfigTheorems.v ===== *)
(** * What a loaded configuration guarantees

    Theorems about [Unmarshal] (Config.v) and its composition with the service
    constructor, the dependency ordering and the validation of a reload. *)

From S2P Require Import Prelude GoStrings GoTime GoFloat Cron Check Yml Service Order Conc DaemonState Daemon Templates Config.
From Stdlib Require Import SpecFloat.

Open Scope string_scope.
Open Scope list_scope.
Open Scope nat_scope.

Module ConfigTheorems.
Import Yml Service Config.

(** ** Loops of checks *)

Lemma fair_elem (w : walk) site m k v : fair_walk w → m !! k = Some v → (k, v) ∈ w site m.
Proof. intros Hw Hm. rewrite (Hw site m). by apply elem_of_map_to_list. Qed.

(** A loop of checks over a map that passes has checked every entry. *)
Lemma walk_checked {E} (w : walk) site m (f : unit → string * string → result E unit) (P : string → string → Prop) u u' k v :
  fair_walk w → (∀ k v, f tt (k, v) = Ok tt → P k v) → foldM f u (w site m) = Ok u' → m !! k = Some v → P k v.
Proof.
  intros Hw Hf H Hm. refine (foldM_ok_all f (λ e, P e.1 e.2) u _ u' _ H (k, v) (fair_elem w site m k v Hw Hm)).
  intros [] [k' v'] [] Hs. by apply Hf.
Qed.

Lemma guard_true {E} b (e : E) u : guard_ok b e = Ok u → b = true.
Proof. by destruct b. Qed.

Lemma validate_passes text r u : validate text r = Ok u → text = "" ∨ r = Ok u.
Proof. unfold validate. case_bool_decide; auto. Qed.

(** ** Signals *)

Definition real_signal (s : string) : Prop := s ∈ signalMap.*1.

Lemma assoc_in {A} k (l : list (string * A)) v : assoc k l = Some v → (k, v) ∈ l.
Proof.
  induction l as [|[k' v'] l IH]; simpl; [done|]. case_bool_decide; [intros [= ->]; subst; left|].
  intros H'. right. auto.
Qed.

Lemma ParseSignal_table name sig : ParseSignal name = Ok sig → sig ∈ signalMap.*2.
Proof.
  unfold ParseSignal. case_bool_decide; [intros [= <-]; by vm_compute; repeat (try (left; reflexivity); right)|].
  intros H'. destruct (assoc _ _) as [v|] eqn:E; [|done]. injection H' as <-.
  apply assoc_in in E. apply list_elem_of_fmap. by eexists (_, _).
Qed.

Lemma table_name sig : sig ∈ signalMap.*2 → real_signal (SignalName sig).
Proof.
  intros H. pose proof (proj1 (forallb_True (λ s, bool_decide (SignalName s ∈ signalMap.*1)) signalMap.*2)) as Hall.
  assert (Hb : forallb (λ s, bool_decide (SignalName s ∈ signalMap.*1)) signalMap.*2) by (vm_compute; done).
  specialize (Hall Hb). rewrite Forall_forall in Hall. specialize (Hall _ H). by apply bool_decide_unpack in Hall.
Qed.

Lemma parsed_name name sig : ParseSignal name = Ok sig → real_signal (SignalName sig).
Proof. intros H. eapply table_name, ParseSignal_table, H. Qed.

(** ** One process *)

Definition abs_or_empty (path : string) : Prop := path = "" ∨ HasPrefix path "/" = true.

(** Positive and finite, or unset. *)
Definition factor_ok (x : float64) : Prop :=
  x = S754_zero false ∨ (f64_is_nan x = false ∧ f64_is_inf x = false ∧ f64_leb x (S754_zero false) = false).

(** What reading one process establishes. *)
Record parsed_wf (p : Process) : Prop := {
  pw_startup : pStartup p ∈ startup_values;
  pw_exists : abs_or_empty (pConditionFileExists p);
  pw_missing : abs_or_empty (pConditionFileMissing p);
  pw_paths : pConditionFileExists p = "" ∨ pConditionFileExists p ≠ pConditionFileMissing p;
  pw_rewrite : ∀ k v, pSignalRewrite p !! k = Some v → real_signal k ∧ real_signal v;
  pw_umask : pUmask p = "" ∨ is_Some (ParseUmask (pUmask p));
  pw_death : is_ok (ParseSignal (pParentDeathSignal p)) = true;
  pw_sdnotify : pSDNotifyTimeout p = "" ∨ is_Some (ParseDuration (pSDNotifyTimeout p));
  pw_factor : factor_ok (pBackoffFactor p);
}.

Section parse.
Context (open_file : string → bool → Templates.open_result) (w : walk) (env : gmap string string).
Hypothesis Hw : fair_walk w.

Lemma read_startup_value n s : read_startup open_file env n = Ok s → s ∈ startup_values.
Proof.
  unfold read_startup. destruct (Templates.ExpandRefs _ _ _) as [[x ms]|]; [|done].
  case_bool_decide; [|by destruct (negb _)]. by intros [= <-].
Qed.

Lemma condition_paths_ok name e m u :
  condition_paths w name e m = Ok u → abs_or_empty e ∧ abs_or_empty m ∧ (e = "" ∨ e ≠ m).
Proof.
  unfold condition_paths. intros H. set (mm := <["condition-file-exists" := e]> _) in H.
  destruct (foldM _ tt (w "condition-paths" mm)) as [[]|] eqn:E; [|done]. cbn [mbind result_bind] in H.
  assert (Habs : ∀ k path, mm !! k = Some path → abs_or_empty path).
  { intros k path Hk. refine (walk_checked w _ mm _ (λ _ path, abs_or_empty path) _ _ k path Hw _ E Hk).
    clear. intros k path. unfold abs_or_empty. repeat case_bool_decide; cbn [negb andb]; auto.
    destruct (HasPrefix path "/"); auto. done. }
  split; [|split].
  - apply (Habs "condition-file-exists"). unfold mm. by rewrite lookup_insert_eq.
  - apply (Habs "condition-file-missing"). unfold mm. rewrite lookup_insert_ne by done. by rewrite lookup_singleton_eq.
  - revert H. repeat case_bool_decide; auto.
Qed.

Lemma signal_rewrite_ok name raw canon :
  signal_rewrite w name raw = Ok canon → ∀ k v, canon !! k = Some v → real_signal k ∧ real_signal v.
Proof.
  unfold signal_rewrite. refine (foldM_ind _ (λ _ (c : gmap string string), ∀ k v, c !! k = Some v → real_signal k ∧ real_signal v) _ _ _ _ _).
  { intros k v. by rewrite lookup_empty. }
  intros l1 [k0 v0] c1 c2 _ IH H k v. bind_ok H. injection H as <-.
  intros [[<- <-]|[_ Hk]]%lookup_insert_Some; [|by apply IH]. eauto using parsed_name.
Qed.

Lemma backoff_factor_ok name raw x : backoff_factor name raw = Ok x → factor_ok x.
Proof.
  unfold backoff_factor, factor_ok. case_bool_decide; [intros [= <-]; auto|].
  destruct (GoFloat.ParseFloat raw) as [v|]; [|done].
  destruct (f64_is_nan v || f64_is_inf v || f64_leb v (S754_zero false)) eqn:E; [done|].
  intros [= <-]. apply orb_false_iff in E as [[? ?]%orb_false_iff ?]. auto.
Qed.

Lemma parseProcess_wf n p b : parseProcess open_file w env n = Ok (p, b) → parsed_wf p.
Proof.
  unfold parseProcess. intros H. bind_ok H. injection H as <- _.
  repeat match goal with
  | E : read_startup _ _ _ = Ok _ |- _ => apply read_startup_value in E
  | E : condition_paths _ _ _ _ = Ok _ |- _ => apply condition_paths_ok in E as (? & ? & ?)
  | E : signal_rewrite _ _ _ = Ok _ |- _ => pose proof (signal_rewrite_ok _ _ _ E); clear E
  | E : backoff_factor _ _ = Ok _ |- _ => apply backoff_factor_ok in E
  | E : validate _ _ = Ok _ |- _ => apply validate_passes in E
  end.
  constructor; cbn; auto.
  all: match goal with E : ?t = "" ∨ _ |- context [?t] => destruct E as [->|E]; [by auto|] end.
  - destruct (ParseUmask _); eauto. done.
  - destruct (ParseSignal _); done.
  - destruct (ParseDuration _); eauto. done.
Qed.
End parse.

(** What the validation of the whole establishes for one process. *)
Record validated_wf (shutdownSet : gset Z) (scheduledSet : gset string) (p : Process) : Prop := {
  vw_command : pCommand p ≠ "";
  vw_word : str_all (λ a, negb (whitespace a)) (procName p) = true;
  vw_success : ValidateExitAction (pOnSuccess p) = true;
  vw_failure : ValidateExitAction (pOnFailure p) = true;
  vw_stop : is_ok (ParseSignal (pStopSignal p)) = true;
  vw_checks : map_Forall (λ _ a, ValidateExitAction a = true) (pOnCheckFailure p);
  vw_reserved : ∀ k v sig, pSignalRewrite p !! k = Some v → k ≠ "SIGHUP" ∧ (sig ∈ shutdownSet → k ≠ SignalName sig);
  vw_scheduled : under_schedule p = true →
    is_ok (Cron.Parse (pSchedule p)) = true ∧ pOnSuccess p = "" ∧ pOnFailure p = "" ∧ pBackoffDelay p = "" ∧
    pBackoffLimit p = "" ∧ pAfter p = [] ∧ pBefore p = [] ∧ pRequires p = [] ∧
    (pStartupTimeout p = "" ∨ is_Some (ParseDuration (pStartupTimeout p)));
  vw_stray : under_schedule p = false → pSchedule p = "";
  vw_order : ∀ d, d ∈ pAfter p ++ pBefore p ++ pRequires p → d ∉ scheduledSet;
}.

Lemma check_scheduled_ok p u :
  check_scheduled p = Ok u →
  is_ok (Cron.Parse (pSchedule p)) = true ∧ pOnSuccess p = "" ∧ pOnFailure p = "" ∧ pBackoffDelay p = "" ∧
  pBackoffLimit p = "" ∧ pAfter p = [] ∧ pBefore p = [] ∧ pRequires p = [] ∧
  (pStartupTimeout p = "" ∨ is_Some (ParseDuration (pStartupTimeout p))).
Proof.
  unfold check_scheduled. case_bool_decide; [done|]. destruct (Cron.Parse _); [|done].
  repeat (case_bool_decide; cbn [negb andb orb]; try done); intros _; split_and!; auto.
Qed.

Lemma check_order_ok S deps u : check_order S deps = Ok u → ∀ d, d ∈ deps → d ∉ S.
Proof. intros H. refine (foldM_ok_all _ (λ d, d ∉ S) tt deps u _ H). intros ? a ?. by case_bool_decide. Qed.

Lemma validateScheduled_ok p S u :
  validateScheduled p S = Ok u →
  (under_schedule p = true → ∃ u', check_scheduled p = Ok u') ∧ (under_schedule p = false → pSchedule p = "") ∧
  ∀ d, d ∈ pAfter p ++ pBefore p ++ pRequires p → d ∉ S.
Proof.
  unfold validateScheduled. destruct (under_schedule p).
  - destruct (check_scheduled p) as [u'|]; [|done]. cbn [mbind result_bind]. intros H. split_and!; eauto using check_order_ok; done.
  - case_bool_decide; cbn [negb mbind result_bind]; [|done]. intros H'. split_and!; eauto using check_order_ok; done.
Qed.

Section validate.
Context (w : walk) (Hw : fair_walk w).

Lemma reserved_ok name rewrite S u :
  validateSignalRewrite w name rewrite S = Ok u →
  ∀ k v sig, rewrite !! k = Some v → k ≠ "SIGHUP" ∧ (sig ∈ S → k ≠ SignalName sig).
Proof.
  unfold validateSignalRewrite. intros H k v sig Hk.
  assert (Hc : k ≠ "SIGHUP" ∧ k ∉ (list_to_set (SignalName <$> elements S) : gset string)).
  { refine (walk_checked w _ rewrite _ (λ k _, k ≠ "SIGHUP" ∧ k ∉ (list_to_set (SignalName <$> elements S) : gset string)) _ _ k v Hw _ H Hk).
    clear. intros k v. repeat (case_bool_decide; try done). }
  destruct Hc as [H1 H2]. split; [done|]. intros Hs ->. apply H2, elem_of_list_to_set, list_elem_of_fmap.
  exists sig. by rewrite elem_of_elements.
Qed.

Lemma check_actions_ok name m u : check_actions w name m = Ok u → map_Forall (λ _ a, ValidateExitAction a = true) m.
Proof.
  intros H k a Hk. refine (walk_checked w _ m _ (λ _ a, ValidateExitAction a = true) _ _ k a Hw _ H Hk).
  clear. intros k a. by destruct (ValidateExitAction a).
Qed.

Lemma validate_process_wf S T p u : validate_process w S T p = Ok u → validated_wf S T p.
Proof.
  unfold validate_process. intros H. bind_ok H.
  repeat match goal with
  | E : guard_ok _ _ = Ok _ |- _ => apply guard_true in E
  | E : validate _ _ = Ok _ |- _ => apply validate_passes in E
  | E : check_actions _ _ _ = Ok _ |- _ => apply check_actions_ok in E
  | E : validateSignalRewrite _ _ _ _ = Ok _ |- _ => pose proof (reserved_ok _ _ _ _ E); clear E
  end.
  destruct (validateScheduled p T) as [[]|] eqn:E; [|done]. apply validateScheduled_ok in E as (E1 & E2 & E3).
  constructor; auto.
  - intros Hc. rewrite bool_decide_true in Heqr by done. done.
  - match goal with E : pStopSignal p = "" ∨ _ |- _ => destruct E as [->|E]; [done|] end. by destruct (ParseSignal _).
  - intros [[] Hs]%E1. by eapply check_scheduled_ok.
Qed.
End validate.

(** ** The whole configuration *)

Definition excluded_names (cfg : Config) : gset string := list_to_set (xName <$> Excluded cfg).
Definition deps (p : Process) : list string := pAfter p ++ pBefore p ++ pRequires p.

(** A flag is inherited when the global one is set. *)
Definition flag_set {A} (global own : option A) : Prop := is_Some global → is_Some own.

Record config_wf (cfg : Config) : Prop := {
  cw_shutdown : ShutdownOrder cfg ∈ shutdown_orders;
  cw_signals : ShutdownSignals (InitStopSignal cfg) ≠ ∅ ∧
    SIGKILL ∉ ShutdownSignals (InitStopSignal cfg) ∧ SIGSTOP ∉ ShutdownSignals (InitStopSignal cfg);
  cw_init : ∀ name, name ∈ InitStopSignal cfg → ∃ sig, ParseSignal name = Ok sig ∧ sig ≠ SIGKILL ∧ sig ≠ SIGSTOP;
  cw_mode : (0 ≤ SocketMode cfg < 2 ^ 32)%Z;
  cw_parsed : Forall parsed_wf (Processes cfg);
  cw_validated : Forall (validated_wf (ShutdownSignals (InitStopSignal cfg)) (scheduled_set (Processes cfg))) (Processes cfg);
  cw_flags : Forall (λ p, flag_set (PassEnv cfg) (pPassEnv p) ∧ flag_set (LogCapture cfg) (pLogCapture p) ∧
                          flag_set (ExportSocket cfg) (pExportSocket p)) (Processes cfg);
  cw_excluded : Forall (λ p, procName p ∉ excluded_names cfg ∧ ∀ d, d ∈ deps p → d ∉ excluded_names cfg) (Processes cfg);
}.

Lemma ParseUint_range s base bits v : (0 ≤ base)%Z → ParseUint s base bits = Some v → (0 ≤ v < 2 ^ bits)%Z.
Proof.
  intros Hb. unfold ParseUint, parse_nat. destruct s as [|a s]; [done|].
  destruct (digits_val base 0 (String a s)) as [n|] eqn:E; simpl; [|done].
  destruct (n <? 2 ^ bits)%Z eqn:El; [|done]. intros [= <-].
  split; [|by apply Z.ltb_lt]. by apply (digits_val_nonneg base _ 0 n Hb) in E.
Qed.

Lemma parse_control_mode root s m : parse_control root = Ok (s, m) → (0 ≤ m < 2 ^ 32)%Z.
Proof.
  unfold parse_control. destruct (Get root "control") as [n|]; [|intros [= _ <-]; lia].
  destruct (node_String (Get n "socket-mode")) as [|a t] eqn:E; [intros [= _ <-]; lia|].
  destruct (ParseUint _ 8 32) as [v|] eqn:Ep; [|done]. intros [= _ <-]. by eapply (ParseUint_range _ 8 32).
Qed.

Lemma init_stop_ok names u :
  init_stop names = Ok u → ∀ name, name ∈ names → ∃ sig, ParseSignal name = Ok sig ∧ sig ≠ SIGKILL ∧ sig ≠ SIGSTOP.
Proof.
  intros H. refine (foldM_ok_all _ (λ name, ∃ sig, ParseSignal name = Ok sig ∧ sig ≠ SIGKILL ∧ sig ≠ SIGSTOP) tt names u _ H).
  intros ? a ?. destruct (ParseSignal a) as [sig|]; [|done]. repeat (case_bool_decide; cbn [orb]; try done). eauto.
Qed.

Lemma fold_signals names : ∀ (out : gset Z) sig,
  sig ∈ foldl (λ out name, match ParseSignal name with Ok s => {[ s ]} ∪ out | Err _ => out end) out names ↔
  sig ∈ out ∨ ∃ name, name ∈ names ∧ ParseSignal name = Ok sig.
Proof.
  induction names as [|name names IH]; intros out sig; cbn [foldl].
  { split; [auto|]. intros [H|(? & H & _)]; [done|]. by apply elem_of_nil in H. }
  rewrite IH. setoid_rewrite elem_of_cons. destruct (ParseSignal name) as [s|] eqn:E.
  - rewrite elem_of_union, elem_of_singleton. split.
    + intros [[->|H]|(n & Hn & Hs)]; eauto.
    + intros [H|(n & [->|Hn] & Hs)]; [auto| |eauto]. rewrite E in Hs. injection Hs as ->. auto.
  - split.
    + intros [H|(n & Hn & Hs)]; eauto.
    + intros [H|(n & [->|Hn] & Hs)]; [auto|congruence|eauto].
Qed.

Lemma shutdown_signals_ok names u :
  init_stop names = Ok u →
  ShutdownSignals names ≠ ∅ ∧ SIGKILL ∉ ShutdownSignals names ∧ SIGSTOP ∉ ShutdownSignals names.
Proof.
  intros H. pose proof (init_stop_ok _ _ H) as Hok. destruct names as [|name names].
  { cbn [ShutdownSignals]. split; [|split].
    - intros He. assert (Hs : SIGTERM ∈ ({[SIGTERM; SIGINT]} : gset Z)) by set_solver. rewrite He in Hs. set_solver.
    - rewrite elem_of_union, !elem_of_singleton. by intros [?|?].
    - rewrite elem_of_union, !elem_of_singleton. by intros [?|?]. }
  unfold ShutdownSignals. split; [|split].
  - destruct (Hok name) as (sig & Hs & _); [left|]. intros He.
    assert (Hin : sig ∈ (∅ : gset Z)); [|by apply elem_of_empty in Hin].
    rewrite <- He, fold_signals. right. exists name. split; [left|done].
  - rewrite fold_signals. intros [[]%elem_of_empty|(n & Hn & Hs)]. destruct (Hok n Hn) as (s & Hs' & ? & ?). congruence.
  - rewrite fold_signals. intros [[]%elem_of_empty|(n & Hn & Hs)]. destruct (Hok n Hn) as (s & Hs' & ? & ?). congruence.
Qed.

(** The drop conditions of the items, in order. *)
Definition unmet (env : gmap string string) (items : list Node) (procs : list Process) : list Exclusion :=
  omap (λ ip, mkExclusion (procName ip.2) <$> conditionEnvUnmet ip.1 env) (zip items procs).

Section build.
Context (open_file : string → bool → Templates.open_result) (ws : nat → walk) (env : gmap string string).

(** The process an item stands for. *)
Definition read_as (g : Config) (item : Node) (p : Process) : Prop :=
  ∃ i p0 b, parseProcess open_file (ws i) env item = Ok (p0, b) ∧ p = inherit g p0.

Lemma load_processes_spec g items l :
  load_processes open_file ws env g items = Ok l →
  Forall2 (read_as g) items (l_procs l) ∧ l_excluded l = unmet env items (l_procs l).
Proof.
  unfold load_processes.
  refine (foldM_ind _ (λ its acc, Forall2 (read_as g) its (l_procs acc) ∧ l_excluded acc = unmet env its (l_procs acc)) _ _ _ _ _).
  { split; [constructor|done]. }
  intros its item acc acc' _ [HF HX]. unfold load_one.
  destruct (parseProcess _ _ _ item) as [[p b]|] eqn:E; [|done]. intros [= <-]. cbn [l_procs l_excluded]. split.
  - apply Forall2_app; [done|]. constructor; [|constructor]. by exists (length (l_procs acc)), p, b.
  - unfold unmet. rewrite zip_with_app by (eapply Forall2_length, HF). rewrite omap_app. fold (unmet env its (l_procs acc)).
    rewrite <- HX. cbn. change (procName (inherit g p)) with (procName p).
    destruct (conditionEnvUnmet item env); cbn; [done|by rewrite app_nil_r].
Qed.

Record built (root : Node) (cfg : Config) (g : Config) (l : loaded) (checks : gmap string Check.Config) : Prop := {
  b_globals : parse_globals root = Ok g;
  b_load : load_processes open_file ws env g (node_Items (Get root "processes")) = Ok l;
  b_checks : load_checks (node_Entries (Get root "checks")) = Ok checks;
  b_some : l_procs l ≠ [];
  b_valid : validate_all ws 0 (ShutdownSignals (InitStopSignal g)) (scheduled_set (l_procs l)) (l_procs l) = Ok tt;
  b_finish : cfg = finish g l checks (load_targets (node_Entries (Get root "log-targets")));
}.

Lemma build_inv root cfg warned :
  build open_file ws env root = Ok (cfg, warned) → ∃ g l checks, built root cfg g l checks.
Proof.
  unfold build. intros H.
  destruct (parse_globals root) as [g|] eqn:E1; [|done]. cbn [mbind result_bind] in H.
  destruct (load_processes open_file ws env g _) as [l|] eqn:E2; [|done]. cbn [mbind result_bind] in H.
  destruct (load_checks _) as [checks|] eqn:E3; [|done]. cbn [mbind result_bind] in H.
  destruct (guard_ok _ _) as [u|] eqn:E4; [|done]. cbn [mbind result_bind] in H.
  destruct (validate_all _ _ _ _ _) as [[]|] eqn:E5; [|done]. cbn [mbind result_bind] in H. injection H as <- <-.
  exists g, l, checks. constructor; auto. apply guard_true in E4. intros Hn. by rewrite Hn in E4.
Qed.

Lemma validate_all_wf S T procs : (∀ i, fair_walk (ws i)) → ∀ i,
  validate_all ws i S T procs = Ok tt → Forall (validated_wf S T) procs.
Proof.
  intros Hws. induction procs as [|p procs IH]; intros i; cbn [validate_all]; [constructor|].
  destruct (validate_process _ _ _ _) as [u|] eqn:E; [|done]. cbn [mbind result_bind]. intros H.
  constructor; [by eapply validate_process_wf|eauto].
Qed.

Lemma read_as_wf g item p : (∀ i, fair_walk (ws i)) → read_as g item p → parsed_wf p ∧
  flag_set (PassEnv g) (pPassEnv p) ∧ flag_set (LogCapture g) (pLogCapture p) ∧ flag_set (ExportSocket g) (pExportSocket p).
Proof.
  intros Hws (i & p0 & b & Hp & ->). apply parseProcess_wf in Hp; [|done]. split.
  - destruct Hp. by constructor.
  - unfold flag_set. cbn. split_and!; intros Hs; by destruct (_ p0).
Qed.

End build.

Lemma elem_of_strip X deps d : d ∈ strip X deps ↔ d ∉ X ∧ d ∈ deps.
Proof. unfold strip. by rewrite list_elem_of_filter. Qed.

(** Dropping references keeps what was validated. *)
Lemma set_deps_wf S T T' X p :
  T' ⊆ T → parsed_wf p → validated_wf S T p →
  let p' := set_deps (strip X (pAfter p)) (strip X (pBefore p)) (strip X (pRequires p)) p in
  parsed_wf p' ∧ validated_wf S T' p'.
Proof.
  intros HT Hp Hv p'. split; [destruct Hp; by constructor|]. destruct Hv. constructor; try done.
  - intros Hs. destruct (vw_scheduled0 Hs) as (? & ? & ? & ? & ? & Ha & Hb & Hr & ?). unfold p'. cbn.
    rewrite Ha, Hb, Hr. done.
  - intros d. cbn. rewrite !elem_of_app, !elem_of_strip. intros Hd HdT. apply (vw_order0 d); [|by apply HT].
    rewrite !elem_of_app. tauto.
Qed.
Lemma filter_all {A} (P : A → Prop) `{∀ x, Decision (P x)} (l : list A) : (∀ x, P x) → filter P l = l.
Proof. intros HP. induction l as [|a l IH]; [done|]. by rewrite filter_cons, decide_True, IH. Qed.

Lemma strip_none deps : strip ∅ deps = deps.
Proof. unfold strip. apply filter_all. intros d. apply not_elem_of_empty. Qed.

Lemma exclude_none procs : excludeProcesses procs ∅ = procs.
Proof.
  unfold excludeProcesses. rewrite (filter_all _ procs) by (intros; apply not_elem_of_empty).
  transitivity (id <$> procs); [|by apply list_fmap_id]. apply list_fmap_ext. intros _ p _.
  rewrite !strip_none. by destruct p.
Qed.

(** Excluding nothing is the same code path. *)
Lemma finish_procs g l checks targets :
  Processes (finish g l checks targets) = excludeProcesses (l_procs l) (list_to_set (xName <$> l_excluded l)).
Proof.
  unfold finish. case_bool_decide as Hx.
  - apply length_zero_iff_nil in Hx. by rewrite Hx, exclude_none.
  - by destruct (excludeOrphanedChecks _ _ _).
Qed.

Lemma finish_fields g l checks targets : let c := finish g l checks targets in
  Excluded c = l_excluded l ∧ ShutdownOrder c = ShutdownOrder g ∧ InitStopSignal c = InitStopSignal g ∧
  SocketMode c = SocketMode g ∧ PassEnv c = PassEnv g ∧ LogCapture c = LogCapture g ∧ ExportSocket c = ExportSocket g.
Proof. unfold finish. by destruct (if bool_decide (length (l_excluded l) = 0) then _ else _). Qed.

Lemma elem_of_excluded p procs X :
  p ∈ excludeProcesses procs X ↔ ∃ p0, p0 ∈ procs ∧ procName p0 ∉ X ∧
    p = set_deps (strip X (pAfter p0)) (strip X (pBefore p0)) (strip X (pRequires p0)) p0.
Proof.
  unfold excludeProcesses. rewrite list_elem_of_fmap. setoid_rewrite list_elem_of_filter. split.
  - intros (p0 & -> & HX & Hin). eauto.
  - intros (p0 & Hin & HX & ->). eauto.
Qed.

Lemma elem_of_scheduled_set procs n : n ∈ scheduled_set procs ↔ ∃ p, p ∈ procs ∧ under_schedule p ∧ n = procName p.
Proof.
  unfold scheduled_set. rewrite elem_of_list_to_set, list_elem_of_fmap. setoid_rewrite list_elem_of_filter.
  split; intros (p & ? & ? & ?) || intros (p & ? & []); eauto.
Qed.

Lemma scheduled_set_exclude procs X : scheduled_set (excludeProcesses procs X) ⊆ scheduled_set procs.
Proof.
  intros n (p & Hp & Hs & ->)%elem_of_scheduled_set. apply elem_of_excluded in Hp as (p0 & Hin & _ & ->).
  apply elem_of_scheduled_set. by exists p0.
Qed.

Lemma globals_ok root g : parse_globals root = Ok g →
  ShutdownOrder g ∈ shutdown_orders ∧ (0 ≤ SocketMode g < 2 ^ 32)%Z ∧ init_stop (InitStopSignal g) = Ok tt.
Proof.
  unfold parse_globals. intros H. destruct (init_stop _) as [[]|] eqn:E1; [|done]. cbn [mbind result_bind] in H.
  destruct (guard_ok _ _) as [u|] eqn:E2; [|done]. cbn [mbind result_bind] in H.
  destruct (parse_control root) as [[s m]|] eqn:E3; [|done]. cbn [mbind result_bind] in H. injection H as <-. cbn.
  apply guard_true, bool_decide_eq_true in E2. eauto using parse_control_mode.
Qed.

Section theorems.
Context (open_file : string → bool → Templates.open_result) (ws : nat → walk) (env : gmap string string).
Hypothesis Hws : ∀ i, fair_walk (ws i).

Lemma built_full root cfg g l checks : built open_file ws env root cfg g l checks →
  ∀ p, p ∈ l_procs l → parsed_wf p ∧ validated_wf (ShutdownSignals (InitStopSignal g)) (scheduled_set (l_procs l)) p ∧
    flag_set (PassEnv g) (pPassEnv p) ∧ flag_set (LogCapture g) (pLogCapture p) ∧ flag_set (ExportSocket g) (pExportSocket p).
Proof.
  intros [Hg Hl _ _ Hv _] p Hp. apply load_processes_spec in Hl as [HF _].
  pose proof (proj1 (Forall_forall _ _) (validate_all_wf ws _ _ _ Hws _ Hv) p Hp) as Hval.
  apply list_elem_of_lookup in Hp as [k Hk].
  destruct (Forall2_lookup_r _ _ _ _ _ HF Hk) as (item & _ & Hr). apply read_as_wf in Hr as (? & ? & ? & ?); auto.
Qed.

Lemma built_wf root cfg g l checks : built open_file ws env root cfg g l checks → config_wf cfg.
Proof.
  intros HB. pose proof (built_full _ _ _ _ _ HB) as Hfull. destruct HB as [Hg _ _ _ _ ->].
  destruct (globals_ok _ _ Hg) as (H1 & H2 & H3). set (c := finish _ _ _ _).
  destruct (finish_fields g l checks (load_targets (node_Entries (Get root "log-targets")))) as (Ex & So & Is & Sm & Pe & Lc & Es).
  fold c in Ex, So, Is, Sm, Pe, Lc, Es.
  pose proof (finish_procs g l checks (load_targets (node_Entries (Get root "log-targets")))) as Pr. fold c in Pr.
  set (X := list_to_set (xName <$> l_excluded l)) in Pr.
  assert (HX : excluded_names c = X) by (unfold excluded_names; by rewrite Ex).
  constructor; rewrite ?So, ?Is, ?Sm, ?Pe, ?Lc, ?Es, ?HX, ?Pr; auto; [by eapply shutdown_signals_ok|by eapply init_stop_ok| | | |].
  all: apply Forall_forall; intros p (p0 & Hin & HpX & ->)%elem_of_excluded;
    destruct (Hfull p0 Hin) as (Hp & Hv & Hf).
  - by destruct (set_deps_wf _ _ _ X p0 (scheduled_set_exclude (l_procs l) X) Hp Hv).
  - by destruct (set_deps_wf _ _ _ X p0 (scheduled_set_exclude (l_procs l) X) Hp Hv).
  - exact Hf.
  - split; [exact HpX|]. intros d. unfold deps. cbn. rewrite !elem_of_app, !elem_of_strip. tauto.
Qed.

(** What a configuration [Unmarshal] accepts has passed. *)
Lemma loaded_wf (data : string) (cfg : Config) (warned : list string) :
  Unmarshal open_file ws env data = Ret (cfg, warned) → config_wf cfg.
Proof.
  unfold Unmarshal. destruct (Parse data) as [root|e|]; try done. intros H.
  destruct (build open_file ws env root) as [[c ws']|] eqn:E; [|done]. injection H as -> ->.
  destruct (build_inv _ _ _ _ _ _ E) as (g & l & checks & HB). eapply built_wf, HB.
Qed.

End theorems.

(** ** Building services from a loaded configuration *)

(** The errors of the part after the parser. *)
Definition not_parse (e : cfg_err) : Prop := match e with EParse _ => False | _ => True end.

Definition clean {A} (r : result cfg_err A) : Prop := match r with Ok _ => True | Err e => not_parse e end.

Lemma clean_bind {A B} (r : result cfg_err A) (f : A → result cfg_err B) :
  clean r → (∀ a, clean (f a)) → clean (r ≫= f).
Proof. destruct r; cbn; auto. Qed.

Lemma clean_foldM {S A} (f : S → A → result cfg_err S) s l : (∀ s a, clean (f s a)) → clean (foldM f s l).
Proof. intros Hf. revert s. induction l as [|a l IH]; intros s; cbn; [done|]. specialize (Hf s a). by destruct (f s a). Qed.

Lemma clean_err_map {E A} (f : E → cfg_err) (r : result E A) : (∀ e, not_parse (f e)) → clean (err_map f r).
Proof. intros Hf. by destruct r; cbn. Qed.

Ltac clean :=
  repeat first
  [ done
  | apply clean_bind; [|intros ?]
  | apply clean_foldM; intros ? ?
  | apply clean_err_map; intros ?
  | match goal with
    | |- clean (match ?x with _ => _ end) => destruct x
    end ].

Lemma parseProcess_clean open_file w env n : clean (parseProcess open_file w env n).
Proof.
  unfold parseProcess, read_startup, condition_paths, requireMapping, condition_keys, exit_code_map, signal_rewrite, validate, backoff_factor.
  clean.
Qed.

Lemma load_one_clean open_file ws env g acc item : clean (load_one open_file ws env g acc item).
Proof.
  unfold load_one. generalize (parseProcess_clean open_file (ws (length (l_procs acc))) env item).
  by destruct (parseProcess _ _ _ _) as [[? ?]|].
Qed.

Lemma validate_process_clean w S T p : clean (validate_process w S T p).
Proof. unfold validate_process, guard_ok, validate, check_actions, validateSignalRewrite. clean. Qed.

Lemma build_clean open_file ws env root : clean (build open_file ws env root).
Proof.
  unfold build. apply clean_bind; [unfold parse_globals, init_stop, guard_ok, parse_control; clean|intros g].
  apply clean_bind; [apply clean_foldM, load_one_clean|intros l].
  apply clean_bind; [unfold load_checks; clean|intros checks]. apply clean_bind; [unfold guard_ok; clean|intros _].
  apply clean_bind; [|done]. generalize (scheduled_set (l_procs l)). intros T. generalize 0.
  induction (l_procs l) as [|p ps IH]; intros i; cbn [validate_all]; [done|].
  apply clean_bind; [apply validate_process_clean|auto].
Qed.

Definition daemon_config (c : Config) : DaemonState.Config :=
  DaemonState.mkConfig (Processes c) (Prefix c) (ShutdownOrder c) (Checks c) (Subreaper c).

Definition duration_err (e : new_err) : Prop :=
  match e with
  | ErrKillDelay _ _ | ErrKillDelayNegative _ _ | ErrBackoffDelay _ _ | ErrBackoffLimit _ _ => True
  | _ => False
  end.

Lemma validated_action s dflt : ValidateExitAction s = true → is_ok (ParseExitAction s dflt) = true.
Proof. unfold ValidateExitAction, ParseExitAction. destruct (assoc s exit_actions); [done|]. by case_bool_decide. Qed.

Lemma check_actions_never_fail name m order :
  map_Forall (λ _ a, ValidateExitAction a = true) m → is_ok (parse_check_actions name m order) = true.
Proof.
  intros Hm. unfold parse_check_actions. destruct (foldM _ _ _) as [x|e] eqn:E; [done|]. exfalso.
  apply foldM_err in E as (l1 & a & l2 & s1 & _ & _ & E). destruct (m !! a) as [act|] eqn:Ha; [|done].
  pose proof (validated_action act ActionRestart (Hm a act Ha)) as Hok. by destruct (ParseExitAction act _).
Qed.

Lemma new_duration_errors S T p order prefix e :
  validated_wf S T p → New_in order p prefix = Err e → duration_err e.
Proof.
  intros [_ _ Hs Hf Hsig Hc _ Hsched _ _]. unfold New_in. intros H.
  apply (validated_action _ ActionShutdown) in Hs, Hf. apply (check_actions_never_fail (process_name p) _ order) in Hc.
  assert (Hcron : bool_decide (pStartup p = "scheduled") = true → is_ok (Cron.Parse (pSchedule p)) = true).
  { intros Hd. apply Hsched. unfold under_schedule. by rewrite Hd. }
  destruct (ParseSignal (pStopSignal p)) as [sg|]; [|done].
  destruct (ParseExitAction (pOnSuccess p) _) as [a1|]; [|done]. destruct (ParseExitAction (pOnFailure p) _) as [a2|]; [|done].
  destruct (parse_check_actions _ _ _) as [cm|]; [|done].
  destruct (bool_decide (pStartup p = "scheduled")).
  1: destruct (Cron.Parse (pSchedule p)) as [sc|]; [|by specialize (Hcron eq_refl)].
  all: cbn [err_map mbind result_bind] in H.
  all: destruct (opt_duration (pKillDelay p) _) as [k|]; cbn [from_option_err mbind result_bind] in H; [|by injection H as <-].
  all: destruct (k <? 0)%Z; [by injection H as <-|].
  all: destruct (opt_duration (pBackoffDelay p) _) as [b1|]; cbn [from_option_err mbind result_bind] in H; [|by injection H as <-].
  all: destruct (opt_duration (pBackoffLimit p) _) as [b2|]; cbn [from_option_err mbind result_bind] in H; [|by injection H as <-].
  all: done.
Qed.

(** How loading can fail.  [Unmarshal] returns on every input, with a parse
    error exactly when the document does not parse.  A configuration it accepts
    can afterwards be refused (by a reload, which makes the same checks as the
    start) only for two services with use-entrypoint-args, for its dependencies
    (the error of the ordering), or for a kill or backoff duration that does not
    parse or is negative: no signal, schedule or exit action of a loaded
    configuration makes the construction of a service fail. *)
Theorem loaded_config_errors (open_file : string → bool → Templates.open_result) (ws : nat → walk)
    (env : gmap string string) (data : string) : (∀ i, fair_walk (ws i)) →
  match Unmarshal open_file ws env data with
  | NoFuel => False
  | Fail (EParse e) => Parse data = Fail e
  | Fail _ => ∃ root, Parse data = Ret root
  | Ret (cfg, _) =>
      ∀ e, Daemon.reload_validate (daemon_config cfg) = Err e →
        e = Daemon.REntrypoint ∨
        (∃ oe, e = Daemon.RDependencies oe ∧ Order.TopoSort (Daemon.buildOrderServices (daemon_config cfg)) = Prelude.Done (Err oe)) ∨
        (∃ ne, e = Daemon.RService ne ∧ duration_err ne)
  end.
Proof.
  intros Hws. unfold Unmarshal. pose proof (Parse_returns data) as Hret.
  destruct (Parse data) as [root|e|]; [|done|done]. clear Hret.
  destruct (build open_file ws env root) as [[cfg warned]|e] eqn:E; cbn [lift_result].
  2: { destruct e; eauto. pose proof (build_clean open_file ws env root) as Hc. by rewrite E in Hc. }
  destruct (build_inv _ _ _ _ _ _ E) as (g & l & checks & HB). apply (built_wf _ _ _ Hws) in HB.
  intros e. unfold Daemon.reload_validate. destruct (1 <? _); [intros [= <-]; auto|].
  destruct (Order.toposort_returns (Daemon.buildOrderServices (daemon_config cfg))) as [[ord|oe] Ho]; rewrite Ho; [|intros [= <-]; eauto].
  destruct (foldM _ tt _) as [u|ne] eqn:Ef; [done|]. intros [= <-]. right. right. exists ne. split; [done|].
  apply foldM_err in Ef as (l1 & p & l2 & s1 & Hl & _ & Hn). cbn in Hl.
  assert (Hp : p ∈ Processes cfg) by (rewrite Hl, elem_of_app; right; left).
  pose proof (proj1 (Forall_forall _ _) (cw_validated _ HB) p Hp) as Hv.
  unfold New in Hn. destruct (New_in _ p _) as [svc|ne'] eqn:En; [done|]. injection Hn as <-. by eapply new_duration_errors.
Qed.

(** ** Exclusions *)

(** The condition of an item: every listed variable has the listed value, an
    unset one being empty. *)
Definition met (env : gmap string string) (item : Node) : Prop :=
  ∀ k v, node_StringMap (Get item "condition-env-equals") !! k = Some v → default "" (env !! k) = v.

Lemma find_none {A} (f : A → bool) l : List.find f l = None ↔ ∀ x, x ∈ l → f x = false.
Proof.
  induction l as [|a l IH]; cbn [List.find].
  { split; [|done]. intros _ x Hx. by apply elem_of_nil in Hx. }
  setoid_rewrite elem_of_cons. destruct (f a) eqn:E; [|rewrite IH].
  - split; [done|]. intros H. specialize (H a). rewrite H in E by auto. done.
  - split; [intros H x [->|Hx]|]; auto.
Qed.

Lemma condition_met env item : conditionEnvUnmet item env = None ↔ met env item.
Proof.
  unfold conditionEnvUnmet, met. set (m := node_StringMap _).
  destruct (List.find _ _) as [k|] eqn:E; cbn [mbind option_bind]; [|split; [intros _|done]].
  - split; [done|]. intros H. apply List.find_some in E as [Hin Hk]. apply list_elem_of_In in Hin.
    rewrite sort_strings_perm, elem_of_elements, elem_of_dom in Hin. destruct Hin as [v Hv].
    rewrite Hv in Hk. cbn in Hk. rewrite (H k v Hv) in Hk. by rewrite bool_decide_true in Hk.
  - intros k v Hv. rewrite find_none in E. specialize (E k).
    rewrite sort_strings_perm, elem_of_elements, elem_of_dom in E. specialize (E ltac:(eauto)).
    rewrite Hv in E. apply negb_false_iff, bool_decide_eq_true in E. done.
Qed.

Definition uses (p : Process) (c : string) : Prop := is_Some (pOnCheckFailure p !! c) ∨ (pReadyCheck p = c ∧ c ≠ "").

(** [R c x]: process [x] refers to check [c]. *)
Definition users_ok (R : string → string → Prop) (users : gmap string (list string)) : Prop :=
  (∀ c x, x ∈ default [] (users !! c) ↔ R c x) ∧ ∀ c, is_Some (users !! c) ↔ ∃ x, R c x.

Lemma users_ok_ext R R' users : (∀ c x, R c x ↔ R' c x) → users_ok R users → users_ok R' users.
Proof. intros HR [H1 H2]. split; [intros; by rewrite H1|]. intros c. rewrite H2. by setoid_rewrite HR. Qed.

Lemma add_user_ok R users p k : users_ok R users → users_ok (λ c x, R c x ∨ (c = k ∧ x = p)) (add_user p users k).
Proof.
  intros [H1 H2]. unfold add_user. split; intros c.
  - intros x. destruct (decide (c = k)) as [->|Hne].
    + rewrite lookup_insert_eq. cbn. rewrite elem_of_app, H1, list_elem_of_singleton. tauto.
    + rewrite lookup_insert_ne, H1 by done. tauto.
  - destruct (decide (c = k)) as [->|Hne].
    + rewrite lookup_insert_eq. split; [|eauto]. intros _. exists p. auto.
    + rewrite lookup_insert_ne, H2 by done. split; intros [x Hx]; exists x; tauto.
Qed.

Lemma add_users_ok R users p ks : users_ok R users → users_ok (λ c x, R c x ∨ (c ∈ ks ∧ x = p)) (foldl (add_user p) users ks).
Proof.
  revert R users. induction ks as [|k ks IH]; intros R users H; cbn [foldl].
  { eapply users_ok_ext, H. intros c x. rewrite elem_of_nil. tauto. }
  eapply users_ok_ext, IH, add_user_ok, H. intros c x. rewrite elem_of_cons. tauto.
Qed.

Lemma check_users_ok procs : users_ok (λ c x, ∃ p, p ∈ procs ∧ uses p c ∧ x = procName p) (check_users procs).
Proof.
  unfold check_users. induction procs as [|p procs IH] using rev_ind; [|rewrite foldl_snoc].
  { split; intros c; [intros x|]; cbn; rewrite lookup_empty; cbn.
    - rewrite elem_of_nil. split; [done|]. by intros (? & []%elem_of_nil & _).
    - split; [by intros [? ?]|]. by intros (? & ? & []%elem_of_nil & _). }
  apply (add_users_ok _ _ (procName p) (map_to_list (pOnCheckFailure p)).*1) in IH.
  assert (Hk : ∀ c, c ∈ (map_to_list (pOnCheckFailure p)).*1 ↔ is_Some (pOnCheckFailure p !! c)).
  { intros c. rewrite list_elem_of_fmap. split.
    - intros ([k v] & -> & Hin). apply elem_of_map_to_list in Hin. eauto.
    - intros [v Hv]. exists (c, v). by rewrite elem_of_map_to_list. }
  case_bool_decide as Hr; [|apply (add_user_ok _ _ (procName p) (pReadyCheck p)) in IH].
  all: eapply users_ok_ext, IH; intros c x; cbn; setoid_rewrite elem_of_app; setoid_rewrite list_elem_of_singleton;
    rewrite Hk; unfold uses.
  - split; [intros [(q & Hq & Hu & ->)|[Hs ->]]; eauto 10|].
    intros (q & [Hq| ->] & [Hu|[Hu Hc]] & ->); eauto 10. congruence.
  - split; [intros [[(q & Hq & Hu & ->)|[Hs ->]]|[-> ->]]; eauto 10|].
    intros (q & [Hq| ->] & [Hu|[Hu Hc]] & ->); eauto 10.
Qed.

Lemma elem_of_Compact l x : x ∈ Compact l ↔ x ∈ l.
Proof.
  induction l as [|a l IH]; [done|]. destruct l as [|b l]; [done|].
  cbn [Compact]. case_bool_decide; [subst|]; rewrite ?elem_of_cons, IH, ?elem_of_cons; tauto.
Qed.

(** A check some process uses, but only excluded ones. *)
Definition orphaned (procs : list Process) (X : gset string) (c : string) : Prop :=
  (∃ p, p ∈ procs ∧ uses p c) ∧ ∀ p, p ∈ procs → uses p c → procName p ∈ X.

(** The loop over the referenced checks, [all] telling which are to go. *)
Lemma drop_loop (all : string → bool) (why : string → list string) ns : ∀ (checks : gmap string Check.Config) dropped,
  let r := foldl (λ '(checks, dropped) name,
    match checks !! name with
    | None => (checks, dropped)
    | Some _ => if all name then (checks, dropped)
                else (delete name checks, dropped ++ [mkExclusion name (OnlyUsedBy (why name))])
    end) (checks, dropped) ns in
  (∀ c k, r.1 !! c = Some k ↔ checks !! c = Some k ∧ (c ∈ ns → all c = true)) ∧
  (∀ c, c ∈ xName <$> r.2 ↔ c ∈ xName <$> dropped ∨ (c ∈ ns ∧ all c = false ∧ is_Some (checks !! c))).
Proof.
  induction ns as [|n ns IH]; intros checks dropped; cbn [foldl].
  { cbn. setoid_rewrite elem_of_nil. split; intros; tauto. }
  cbn zeta in IH. destruct (checks !! n) as [k0|] eqn:E; [|].
  2: { destruct (IH checks dropped) as [IH1 IH2]. split; intros c; [intros k|]; rewrite ?IH1, ?IH2; setoid_rewrite elem_of_cons.
       - split; [|tauto]. intros [H1 H2]. split; [done|]. intros [->|]; [congruence|auto].
       - split; [tauto|]. intros [?|([->|?] & ? & Hs)]; [auto| |auto]. rewrite E in Hs. by destruct Hs. }
  destruct (all n) eqn:Ea.
  { destruct (IH checks dropped) as [IH1 IH2]. split; intros c; [intros k|]; rewrite ?IH1, ?IH2; setoid_rewrite elem_of_cons.
    - split; [|tauto]. intros [H1 H2]. split; [done|]. intros [->|]; auto.
    - split; [tauto|]. intros [?|([->|?] & ? & Hs)]; [auto|congruence|auto]. }
  destruct (IH (delete n checks) (dropped ++ [mkExclusion n (OnlyUsedBy (why n))])) as [IH1 IH2].
  split; intros c; [intros k; rewrite IH1|rewrite IH2, fmap_app, elem_of_app]; setoid_rewrite elem_of_cons;
    destruct (decide (c = n)) as [->|Hne]; rewrite ?lookup_delete_eq, ?(lookup_delete_ne _ n c) by done.
  - split; [intros [? _]; congruence|]. intros [_ Hc]. rewrite Hc in Ea by auto. done.
  - split; [intros [? ?]; split; [done|]; intros [?|?]; [done|auto]|tauto].
  - cbn [xName]. split; [eauto 8|auto].
  - cbn [xName]. rewrite elem_of_nil. tauto.
Qed.

Lemma orphaned_users procs X c :
  c ∈ sort_strings (elements (dom (check_users procs))) ∧
  existsb (λ p, bool_decide (p ∉ X)) (Compact (sort_strings (default [] (check_users procs !! c)))) = false ↔ orphaned procs X c.
Proof.
  destruct (check_users_ok procs) as [H1 H2]. unfold orphaned.
  rewrite sort_strings_perm, elem_of_elements, elem_of_dom, H2, <- not_true_iff_false, existsb_exists.
  setoid_rewrite <- list_elem_of_In. setoid_rewrite elem_of_Compact. setoid_rewrite bool_decide_eq_true.
  setoid_rewrite sort_strings_perm. setoid_rewrite H1. split.
  - intros [(x & p & Hp & Hu & ->) Hall]. split; [eauto|]. intros q Hq Hqu.
    destruct (decide (procName q ∈ X)) as [?|Hn]; [done|]. exfalso. eauto 10.
  - intros [(p & Hp & Hu) Hall]. split; [eauto 6|]. intros (x & (q & Hq & Hqu & ->) & Hx). eauto.
Qed.

Lemma exclude_checks_spec procs checks X : let r := excludeOrphanedChecks procs checks X in
  (∀ c k, r.1 !! c = Some k ↔ checks !! c = Some k ∧ ¬ orphaned procs X c) ∧
  (∀ c, c ∈ xName <$> r.2 ↔ is_Some (checks !! c) ∧ orphaned procs X c).
Proof.
  pose proof (drop_loop (λ c, existsb (λ p, bool_decide (p ∉ X)) (Compact (sort_strings (default [] (check_users procs !! c)))))
    (λ c, Compact (sort_strings (default [] (check_users procs !! c))))
    (sort_strings (elements (dom (check_users procs)))) checks []) as [H1 H2].
  fold (excludeOrphanedChecks procs checks X) in H1, H2. intros r. split; [intros c k; unfold r; rewrite H1|intros c; unfold r; rewrite H2].
  - rewrite <- orphaned_users. split; intros [Hk Hn]; (split; [done|]).
    + intros [Hin He]. rewrite (Hn Hin) in He. done.
    + intros Hin. destruct (existsb _ _) eqn:E; [done|]. destruct Hn. auto.
  - rewrite <- orphaned_users. cbn. rewrite elem_of_nil. tauto.
Qed.

(** The ordering problem of a list of processes. *)
Definition ordering (procs : list Process) : list Order.Service :=
  Daemon.buildOrderServices (DaemonState.mkConfig procs "" "" ∅ false).

Lemma ordering_names procs : Order.Name <$> ordering procs = procName <$> procs.
Proof. unfold ordering, Daemon.buildOrderServices. by rewrite <- list_fmap_compose. Qed.

Lemma ordering_elem procs s : s ∈ ordering procs ↔
  ∃ p, p ∈ procs ∧ s = Order.mkService (procName p) (pAfter p) (pBefore p) (pRequires p).
Proof. unfold ordering, Daemon.buildOrderServices. rewrite list_elem_of_fmap. split; intros (p & ? & ?); eauto. Qed.

Lemma exclude_names procs X : procName <$> excludeProcesses procs X = filter (λ n, n ∉ X) (procName <$> procs).
Proof.
  unfold excludeProcesses. rewrite <- list_fmap_compose. induction procs as [|p procs IH]; [done|].
  rewrite fmap_cons, !filter_cons. repeat case_decide; try done. cbn. by rewrite <- IH.
Qed.

Lemma edge_exclude procs X a b :
  Order.edge (ordering (excludeProcesses procs X)) a b ↔ Order.edge (ordering procs) a b ∧ a ∉ X ∧ b ∉ X.
Proof.
  unfold Order.edge. setoid_rewrite ordering_elem. setoid_rewrite elem_of_excluded. split.
  - intros (s & (p & (p0 & Hin & HX & ->) & ->) & H). cbn in H. rewrite !elem_of_strip in H.
    change (procName (set_deps _ _ _ p0)) with (procName p0) in H.
    assert (a ∉ X ∧ b ∉ X) as HXX by (destruct H as [[-> [[? ?]|[? ?]]]|[-> [? ?]]]; auto).
    split; [|done]. eexists. split; [by exists p0|]. cbn. tauto.
  - intros ((s & (p & Hin & ->) & H) & Ha & Hb). cbn in H. eexists. split.
    { eexists. split; [|reflexivity]. exists p. split; [done|]. split; [|reflexivity]. by destruct H as [[-> _]|[-> _]]. }
    cbn. rewrite !elem_of_strip. change (procName (set_deps _ _ _ p)) with (procName p). tauto.
Qed.

Lemma exclude_order procs X :
  (∃ l, Order.TopoSort (ordering procs) = Prelude.Done (Ok l)) →
  ∃ l, Order.TopoSort (ordering (excludeProcesses procs X)) = Prelude.Done (Ok l).
Proof.
  rewrite !Order.toposort_ok_iff, !ordering_names, exclude_names. intros (Hn & Hr & Ha). split_and!.
  - by apply NoDup_filter.
  - intros s d Hs Hd. rewrite ordering_names, exclude_names, list_elem_of_filter.
    apply ordering_elem in Hs as (p & Hp & ->). apply elem_of_excluded in Hp as (p0 & Hin & HX & ->). cbn in Hd.
    rewrite !elem_of_app, !elem_of_strip in Hd. split; [tauto|]. rewrite <- ordering_names.
    eapply Hr; [apply ordering_elem; exists p0; split; [done|reflexivity]|]. cbn. rewrite !elem_of_app. tauto.
  - intros n Hc. apply (Ha n). clear Hn Hr Ha. generalize Hc. generalize n at 2 4. intros m. clear Hc.
    induction 1 as [x y Hxy|x y z Hxy _ IH]; apply edge_exclude in Hxy as [? _]; [by apply tc_once|by eapply tc_l].
Qed.

Lemma unmet_names env items full n :
  n ∈ (list_to_set (xName <$> unmet env items full) : gset string) ↔
  ∃ i item p, items !! i = Some item ∧ full !! i = Some p ∧ n = procName p ∧ ¬ met env item.
Proof.
  rewrite elem_of_list_to_set, list_elem_of_fmap. unfold unmet. setoid_rewrite list_elem_of_omap. split.
  - intros (x & -> & [item p] & Hin & Hx). apply list_elem_of_lookup in Hin as [i Hi].
    apply lookup_zip_with_Some in Hi as (item' & p' & [= <- <-] & Hit & Hp). cbn in Hx.
    destruct (conditionEnvUnmet item env) as [r|] eqn:E; [|done]. injection Hx as <-.
    exists i, item, p. split_and!; auto. rewrite <- condition_met, E. done.
  - intros (i & item & p & Hit & Hp & -> & Hm). destruct (conditionEnvUnmet item env) as [r|] eqn:E.
    2: { by apply condition_met in E. }
    exists (mkExclusion (procName p) r). split; [done|]. exists (item, p). cbn. rewrite E. split; [|done].
    apply list_elem_of_lookup. exists i. apply lookup_zip_with_Some. eauto.
Qed.

Lemma finish_checks g l checks targets c k :
  Checks (finish g l checks targets) !! c = Some k ↔
  checks !! c = Some k ∧ ¬ orphaned (l_procs l) (list_to_set (xName <$> l_excluded l)) c.
Proof.
  unfold finish. case_bool_decide as Hx.
  - apply length_zero_iff_nil in Hx. rewrite Hx. cbn. split; [|tauto]. intros Hk. split; [done|].
    intros [(p & Hp & Hu) Hall]. by apply Hall, elem_of_empty in Hp.
  - destruct (exclude_checks_spec (l_procs l) checks (list_to_set (xName <$> l_excluded l))) as [H1 _].
    rewrite <- H1. by destruct (excludeOrphanedChecks _ _ _).
Qed.

(** What became of the processes of a document, in terms of the code. *)
Lemma exclusion_parts (open_file : string → bool → Templates.open_result) (ws : nat → walk)
    (env : gmap string string) (data : string) (root : Node) (cfg : Config) (warned : list string) :
  Parse data = Ret root → Unmarshal open_file ws env data = Ret (cfg, warned) →
  let items := node_Items (Get root "processes") in
  ∃ g full checks,
    Forall2 (read_as open_file ws env g) items full ∧ load_checks (node_Entries (Get root "checks")) = Ok checks ∧
    Excluded cfg = unmet env items full ∧
    (∀ n, n ∈ excluded_names cfg ↔
       ∃ i item p, items !! i = Some item ∧ full !! i = Some p ∧ n = procName p ∧ ¬ met env item) ∧
    Processes cfg = excludeProcesses full (excluded_names cfg) ∧
    (∀ c k, Checks cfg !! c = Some k ↔ checks !! c = Some k ∧ ¬ orphaned full (excluded_names cfg) c) ∧
    (∀ a b, Order.edge (ordering (Processes cfg)) a b ↔
       Order.edge (ordering full) a b ∧ a ∉ excluded_names cfg ∧ b ∉ excluded_names cfg) ∧
    ((∃ l, Order.TopoSort (ordering full) = Prelude.Done (Ok l)) →
     ∃ l, Order.TopoSort (ordering (Processes cfg)) = Prelude.Done (Ok l)).
Proof.
  intros HP HU items. unfold Unmarshal in HU. rewrite HP in HU.
  destruct (build open_file ws env root) as [[c ws']|] eqn:E; [|done]. injection HU as -> ->.
  destruct (build_inv _ _ _ _ _ _ E) as (g & l & checks & [Hg Hl Hc _ _ ->]).
  apply load_processes_spec in Hl as [HF HX]. exists g, (l_procs l), checks. set (cfg := finish _ _ _ _).
  destruct (finish_fields g l checks (load_targets (node_Entries (Get root "log-targets")))) as (Ex & _). fold cfg in Ex.
  pose proof (finish_procs g l checks (load_targets (node_Entries (Get root "log-targets")))) as Pr. fold cfg in Pr.
  assert (HN : excluded_names cfg = list_to_set (xName <$> l_excluded l)) by (unfold excluded_names; by rewrite Ex).
  rewrite <- HN in Pr. rewrite Ex, Pr. split_and!; auto using edge_exclude, exclude_order.
  - intros n. rewrite HN, HX. apply unmet_names.
  - rewrite HN. apply finish_checks.
Qed.

(** ** A document *)

Definition demo_doc : string := "prefix: service
processes:
  - name: db
    command: /bin/db
    signal-rewrite: {TERM: QUIT}
  - name: web
    command: /bin/web
    requires: [db]
    ready-check: up
    condition-env-equals: {ROLE: web}
  - command: /bin/proxy
    after: [web, db]
    backoff-factor: 1.5
  - name: nightly
    command: /bin/job
    startup: scheduled
    schedule: 30 4 * * *
init-stop-signal: [INT]
checks:
  up:
    tcp: {port: 80}
".

Definition no_files (path : string) (follow : bool) : Templates.open_result := Templates.FNotExist.
Definition map_walk : walk := λ _ m, map_to_list m.
Definition back_walk : walk := λ _ m, rev (map_to_list m).

Lemma map_walk_fair : fair_walk map_walk.
Proof. by intros site m. Qed.

Lemma back_walk_fair : fair_walk back_walk.
Proof. intros site m. unfold back_walk. symmetry. rewrite <- Permutation_rev. done. Qed.

Definition load_with (w : walk) (env : gmap string string) (data : string) := Unmarshal no_files (λ _, w) env data.
Definition config_of (o : outcome cfg_err (Config * list string)) : Config :=
  match o with Ret (c, _) => c | _ => mkConfig ∅ ∅ [] [] "" None None None "" [] "" 0 [] false false end.

Definition demo_env : gmap string string := {["ROLE" := "db"]}.
Definition demo_cfg : Config := config_of (load_with map_walk demo_env demo_doc).

Definition soon_doc : string := "processes:
  - name: a
    command: /a
    kill-delay: soon
    on-failure: restart
".

Lemma loaded_config_errors_witness :
  Daemon.reload_validate (daemon_config (config_of (load_with map_walk demo_env
    soon_doc))) =
    Err (Daemon.RService (ErrKillDelay "a" "soon")) ∧ duration_err (ErrKillDelay "a" "soon").
Proof.
  assert (H : Daemon.reload_validate (daemon_config (config_of (load_with map_walk demo_env soon_doc))) =
    Err (Daemon.RService (ErrKillDelay "a" "soon"))) by (vm_compute; reflexivity).
  split; [exact H|].
  pose proof (loaded_config_errors no_files (λ _, map_walk) demo_env soon_doc (λ _, map_walk_fair)) as HE.
  unfold load_with in H. destruct (Unmarshal _ _ _ soon_doc) as [[cfg ?]|e|] eqn:E; [| |done].
  - destruct (HE _ H) as [?|[(? & ? & _)|(ne & [= <-] & Hd)]]; [done|done|exact Hd].
  - exfalso. vm_compute in E. discriminate E.
Defined.

(** ** Corners of the format *)

(** Two spellings of one exit code: which mapping wins depends on the order the
    map is walked in. *)
Example exit_code_map_ambiguous :
  let doc := "processes:
  - name: a
    command: /a
    exit-code-map: {143: 0, SIGTERM: 1}
" in
  (pExitCodeMap <$> Processes (config_of (load_with map_walk ∅ doc))) ≠
  (pExitCodeMap <$> Processes (config_of (load_with back_walk ∅ doc))).
Proof. vm_compute. discriminate. Qed.

(** A bare key is a scalar, not an absent value. *)
Example bare_exit_code_map_refused :
  load_with map_walk ∅ "processes:
  - name: a
    command: /a
    exit-code-map:
" = Fail (ENotMapping "a" "exit-code-map" (Some "")).
Proof. vm_compute. reflexivity. Qed.

(** Two variants of one service gated by opposite conditions are both dropped. *)
Example variants_both_dropped :
  procName <$> Processes (config_of (load_with map_walk demo_env
    "processes:
  - name: a
    command: /a1
    condition-env-equals: {ROLE: db}
  - name: a
    command: /a2
    condition-env-equals: {ROLE: web}
  - name: b
    command: /b
")) = ["b"].
Proof. vm_compute. reflexivity. Qed.

(** A nested value under condition-env-equals is ignored, which opens the gate. *)
Example nested_condition_ignored :
  procName <$> Processes (config_of (load_with map_walk demo_env
    "processes:
  - name: a
    command: /a
    condition-env-equals: {ROLE: [web]}
")) = ["a"].
Proof. vm_compute. reflexivity. Qed.

End ConfigTheorems.
