(* ===== verification/ConfigSpec.v ===== *)
(** * What a loaded configuration promises

    Well-formedness and the dropping of processes (src/internal/yml/config.go),
    said with the words of the format and not with the checks of the loader
    (Config.v, ConfigTheorems.v). *)

From Stdlib Require Import SpecFloat.
From S2P Require Import Prelude GoStrings GoTime GoFloat Order Check Cron Service Yml Templates Config ConfigTheorems.

Open Scope string_scope.
Open Scope list_scope.
Open Scope nat_scope.

Module ConfigSpec.
Import Service Yml Config ConfigTheorems.

(** ** The words of the format *)

(** [s] names the signal [g]: any case, blanks around it, the SIG left out;
    nothing means SIGTERM. *)
Definition signal_word (s : string) (g : Z) : Prop :=
  let u := TrimSpace (ToUpper s) in (u = "" ∧ g = 15%Z) ∨ (u, g) ∈ signalMap ∨ ("SIG" +:+ u, g) ∈ signalMap.

Definition exit_word (s : string) : Prop :=
  s ∈ [""; "restart"; "shutdown"; "success-shutdown"; "failure-shutdown"; "ignore"].

Definition duration_or_empty (s : string) : Prop := s = "" ∨ is_Some (ParseDuration s).

(** The signals that end the daemon: those configured, or TERM and INT. *)
Definition ends_daemon (cfg : Config) (g : Z) : Prop :=
  match InitStopSignal cfg with [] => g = 15%Z ∨ g = 2%Z | names => ∃ s, s ∈ names ∧ signal_word s g end.

(** Scheduled, or disabled with a schedule. *)
Definition has_schedule (p : Process) : Prop := pStartup p = "scheduled" ∨ (pStartup p = "disabled" ∧ pSchedule p ≠ "").

(** ** Well-formedness *)

Record process_spec (cfg : Config) (p : Process) : Prop := {
  ps_command : pCommand p ≠ "";
  ps_name : ∀ a, a ∈ [" "%char; "009"%char; "010"%char; "011"%char; "012"%char; "013"%char] → str_in a (procName p) = false;
  ps_startup : pStartup p ∈ [""; "enabled"; "disabled"; "oneshot"; "scheduled"];
  ps_exits : exit_word (pOnSuccess p) ∧ exit_word (pOnFailure p) ∧ map_Forall (λ _, exit_word) (pOnCheckFailure p);
  ps_signals : (∃ g, signal_word (pStopSignal p) g) ∧ ∃ g, signal_word (pParentDeathSignal p) g;
  ps_sdnotify : duration_or_empty (pSDNotifyTimeout p);
  ps_umask : pUmask p = "" ∨ ∃ n, ParseUint (pUmask p) 8 32 = Some n ∧ (n ≤ 0x1ff)%Z;
  ps_factor : factor_ok (pBackoffFactor p);
  ps_conditions : abs_or_empty (pConditionFileExists p) ∧ abs_or_empty (pConditionFileMissing p) ∧
    (pConditionFileExists p = "" ∨ pConditionFileExists p ≠ pConditionFileMissing p);
  (* a rewrite is between canonical names, and not of a signal the daemon acts on *)
  ps_rewrite : ∀ k v, pSignalRewrite p !! k = Some v → ∃ g h, (k, g) ∈ signalMap ∧ (v, h) ∈ signalMap ∧ g ≠ 1%Z ∧ ¬ ends_daemon cfg g;
  ps_scheduled : has_schedule p → is_ok (Cron.Parse (pSchedule p)) = true ∧ pOnSuccess p = "" ∧ pOnFailure p = "" ∧
    pBackoffDelay p = "" ∧ pBackoffLimit p = "" ∧ deps p = [] ∧ duration_or_empty (pStartupTimeout p);
  ps_stray : ¬ has_schedule p → pSchedule p = "";
  (* nothing is ordered against a scheduled process or a dropped one *)
  ps_order : ∀ d q, d ∈ deps p → q ∈ Processes cfg → procName q = d → ¬ has_schedule q;
  ps_dropped : (procName p ∉ excluded_names cfg) ∧ ∀ d, d ∈ deps p → d ∉ excluded_names cfg;
  ps_flags : flag_set (PassEnv cfg) (pPassEnv p) ∧ flag_set (LogCapture cfg) (pLogCapture p) ∧ flag_set (ExportSocket cfg) (pExportSocket p);
}.

Record config_spec (cfg : Config) : Prop := {
  cs_shutdown : ShutdownOrder cfg ∈ [""; "reverse-dep"; "dep"; "simultaneous"];
  cs_signals : ∀ s, s ∈ InitStopSignal cfg → ∃ g, signal_word s g ∧ g ≠ 9%Z ∧ g ≠ 19%Z;
  cs_mode : (0 ≤ SocketMode cfg < 2 ^ 32)%Z;
  cs_processes : ∀ p, p ∈ Processes cfg → process_spec cfg p;
}.

(** *** The checks of the loader *)

Lemma signal_parsed s g : ParseSignal s = Ok g → signal_word s g.
Proof.
  unfold ParseSignal, signal_word. cbv zeta. case_bool_decide as Hu; [intros [= <-]; by left|].
  destruct (assoc _ _) as [v|] eqn:E; [|done]. intros [= <-]. apply assoc_in in E. right. destruct (HasPrefix _ _); auto.
Qed.

Lemma signal_parsed_ok s : is_ok (ParseSignal s) = true → ∃ g, signal_word s g.
Proof. destruct (ParseSignal s) as [g|] eqn:E; [|done]. intros _. exists g. by apply signal_parsed. Qed.

Lemma exit_validated a : ValidateExitAction a = true → exit_word a.
Proof.
  unfold ValidateExitAction, exit_word, exit_actions. cbn [assoc].
  repeat (case_bool_decide as Ha; [intros _; subst; set_solver|clear Ha]). done.
Qed.

Lemma scheduled_iff p : under_schedule p = true ↔ has_schedule p.
Proof.
  unfold under_schedule, has_schedule. rewrite orb_true_iff, andb_true_iff, negb_true_iff, !bool_decide_eq_true, bool_decide_eq_false. done.
Qed.

(** The entry [(n, g)] is found by its name, with and without the SIG. *)
Definition entry_ok (e : string * Z) : bool :=
  let '(n, g) := e in
  HasPrefix n "SIG" && bool_decide (assoc n signalMap = Some g) && bool_decide (SignalName g = n) &&
  negb (bool_decide (n = "")) && negb (bool_decide (drop_str 3 n = "")) && negb (HasPrefix (drop_str 3 n) "SIG").

Lemma entries_ok n g : (n, g) ∈ signalMap → entry_ok (n, g) = true.
Proof.
  intros H. assert (Hall : forallb entry_ok signalMap = true) by (by vm_compute).
  eapply forallb_forall; [exact Hall|]. by apply list_elem_of_In.
Qed.

Lemma word_parsed s g : signal_word s g → ParseSignal s = Ok g.
Proof.
  unfold signal_word, ParseSignal. cbv zeta. generalize (TrimSpace (ToUpper s)) as u. intros u [[-> ->]|[H|H]]; [done| |].
  all: apply entries_ok in H; unfold entry_ok in H; rewrite !andb_true_iff, !negb_true_iff, !bool_decide_eq_true, !bool_decide_eq_false in H.
  - destruct H as (((((Hp & Ha) & _) & Hne) & _) & _). by rewrite bool_decide_false, Hp, Ha.
  - change (drop_str 3 ("SIG" +:+ u)) with u in H. destruct H as (((((_ & Ha) & _) & _) & Hne) & Hp).
    by rewrite bool_decide_false, Hp, Ha.
Qed.

Lemma shutdown_ends cfg g : ends_daemon cfg g → g ∈ ShutdownSignals (InitStopSignal cfg).
Proof.
  unfold ends_daemon. destruct (InitStopSignal cfg) as [|n ns]; [|].
  { cbn [ShutdownSignals]. rewrite elem_of_union, !elem_of_singleton. intros [-> | ->]; auto. }
  intros (s & Hs & Hg). unfold ShutdownSignals. rewrite fold_signals. right. exists s. split; [done|by apply word_parsed].
Qed.

Lemma rewrite_spec cfg p k v :
  parsed_wf p → validated_wf (ShutdownSignals (InitStopSignal cfg)) (scheduled_set (Processes cfg)) p →
  pSignalRewrite p !! k = Some v → ∃ g h, (k, g) ∈ signalMap ∧ (v, h) ∈ signalMap ∧ g ≠ 1%Z ∧ ¬ ends_daemon cfg g.
Proof.
  intros Hp Hv Hk. destruct (pw_rewrite p Hp k v Hk) as [Hk' Hv']. unfold real_signal in Hk', Hv'.
  apply list_elem_of_fmap in Hk' as ([k' g] & -> & Hg), Hv' as ([v' h] & -> & Hh). cbn [fst] in *. exists g, h.
  pose proof (entries_ok _ _ Hg) as He. unfold entry_ok in He. rewrite !andb_true_iff, !bool_decide_eq_true in He.
  destruct He as (((((_ & _) & Hn) & _) & _) & _). split_and!; auto.
  - intros ->. destruct (vw_reserved _ _ _ Hv k' v' 1%Z Hk) as [H _]. by apply H.
  - intros He%shutdown_ends. destruct (vw_reserved _ _ _ Hv k' v' g Hk) as [_ H]. by apply (H He).
Qed.

Lemma umask_spec s : is_Some (ParseUmask s) → ∃ n, ParseUint s 8 32 = Some n ∧ (n ≤ 0x1ff)%Z.
Proof.
  intros [z Hz]. unfold ParseUmask in Hz. destruct (ParseUint s 8 32) as [n|] eqn:E; [|done]. exists n. split; [done|].
  cbn in Hz. destruct (511 <? n)%Z eqn:El; [done|]. by apply Z.ltb_ge in El.
Qed.

Lemma word_spec n a :
  str_all (λ a, negb (whitespace a)) n = true →
  a ∈ [" "%char; "009"%char; "010"%char; "011"%char; "012"%char; "013"%char] → str_in a n = false.
Proof.
  intros H Ha. eapply str_all_in; [exact H|]. apply negb_false_iff.
  repeat (apply elem_of_cons in Ha as [-> |Ha]; [by vm_compute|]). by apply elem_of_nil in Ha.
Qed.

Lemma process_wf_spec cfg p : config_wf cfg → p ∈ Processes cfg → process_spec cfg p.
Proof.
  intros HW Hin.
  pose proof (proj1 (Forall_forall _ _) (cw_parsed _ HW) p Hin) as Hp.
  pose proof (proj1 (Forall_forall _ _) (cw_validated _ HW) p Hin) as Hv.
  pose proof (proj1 (Forall_forall _ _) (cw_flags _ HW) p Hin) as Hf.
  pose proof (proj1 (Forall_forall _ _) (cw_excluded _ HW) p Hin) as Hx.
  constructor; try apply Hv; try apply Hp; auto.
  - intros a. apply word_spec, Hv.
  - split_and!; [apply exit_validated, Hv..|]. intros c a Hc. apply exit_validated. by apply (vw_checks _ _ _ Hv c).
  - split; apply signal_parsed_ok; [apply Hv|apply Hp].
  - destruct (pw_umask _ Hp); [by left|right; by apply umask_spec].
  - split_and!; apply Hp.
  - intros k v. by apply rewrite_spec.
  - intros Hs%scheduled_iff. destruct (vw_scheduled _ _ _ Hv Hs) as (? & ? & ? & ? & ? & Ha & Hb & Hr & ?).
    split_and!; auto. unfold deps. by rewrite Ha, Hb, Hr.
  - intros Hs. apply (vw_stray _ _ _ Hv). rewrite <- scheduled_iff in Hs. by apply not_true_is_false.
  - intros d q Hd Hq <- Hs%scheduled_iff. apply (vw_order _ _ _ Hv _ Hd).
    unfold scheduled_set. apply elem_of_list_to_set, list_elem_of_fmap. exists q. split; [done|].
    apply list_elem_of_filter. split; [by rewrite Hs|done].
Qed.

(** C10: a loaded configuration is well formed.  Every configuration [Unmarshal]
    accepts, in whatever order the maps are walked, has a known shutdown order,
    shutdown signals that name signals which can be caught, and a socket mode of
    32 bits; every process has a command, a name without white space, a known
    startup kind, known exit actions, stop and parent-death signals that name
    signals, a umask of at most 0777, a finite positive backoff factor or none,
    absolute condition paths that differ; its signal rewrites are between
    canonical names and never of SIGHUP or of a signal that ends the daemon; a
    scheduled one has a schedule that parses and no exit policy, backoff or
    dependency, another one no schedule; nothing is ordered against a scheduled
    or a dropped process; a global pass-env, log-capture or export-socket leaves
    none unset.  Of the durations only sd-notify-timeout, and
    startup-timeout of a scheduled process, are known to parse: kill-delay, the
    backoff and the ready durations are not looked at by the loader. *)
Theorem loaded_config_wf (open_file : string → bool → Templates.open_result) (ws : nat → walk)
    (env : gmap string string) (data : string) (cfg : Config) (warned : list string) :
  (∀ i, fair_walk (ws i)) → Unmarshal open_file ws env data = Ret (cfg, warned) → config_spec cfg.
Proof.
  intros Hws H. pose proof (loaded_wf open_file ws env Hws data cfg warned H) as HW. constructor.
  - apply HW.
  - intros s Hs. destruct (cw_init _ HW s Hs) as (g & Hg & ? & ?). exists g. split_and!; auto using signal_parsed.
  - apply HW.
  - intros p. by apply process_wf_spec.
Qed.

Lemma loaded_config_wf_witness :
  length (Processes demo_cfg) = 3 ∧ InitStopSignal demo_cfg = ["INT"] ∧ config_spec demo_cfg.
Proof.
  assert (H : ∃ warned, load_with map_walk demo_env demo_doc = Ret (demo_cfg, warned)).
  { eexists. unfold demo_cfg, config_of. vm_compute. reflexivity. }
  split_and!; [by vm_compute..|]. destruct H as [warned H].
  exact (loaded_config_wf no_files (λ _, map_walk) demo_env demo_doc demo_cfg warned (λ _, map_walk_fair) H).
Defined.

(** ** Dropped processes *)

(** The names reported: one for each item whose condition is not met, in the
    order of the document. *)
Inductive reported (env : gmap string string) : list Node → list Process → list string → Prop :=
  | reported_nil : reported env [] [] []
  | reported_met item items p ps ns :
      met env item → reported env items ps ns → reported env (item :: items) (p :: ps) ns
  | reported_unmet item items p ps ns :
      ¬ met env item → reported env items ps ns → reported env (item :: items) (p :: ps) (procName p :: ns).

(** [l'] is [l] less the names of [X]. *)
Inductive less (X : gset string) : list string → list string → Prop :=
  | less_nil : less X [] []
  | less_drop n l l' : n ∈ X → less X l l' → less X (n :: l) l'
  | less_keep n l l' : n ∉ X → less X l l' → less X (n :: l) (n :: l').

(** [q] is [p] but for the dependencies. *)
Definition same_but_deps (p q : Process) : Prop :=
  p = mkProcess (pUserID q) (pGroupID q) (pEnvironment q) (pOnCheckFailure q) (pPassEnv q)
    (pLogCapture q) (pExportSocket q) (pName q) (pCommand q) (pWorkingDir q) (pUser q) (pGroup q)
    (pStartup q) (pStopSignal q) (pKillDelay q) (pOnSuccess q) (pOnFailure q) (pBackoffDelay q)
    (pBackoffLimit q) (pReadyCheck q) (pReadyTimeout q) (pStartupTimeout q) (pSchedule q)
    (pConditionFileExists q) (pConditionFileMissing q) (pUmask q) (pDotEnv q) (pPrefix q)
    (pSDNotifyTimeout q) (pParentDeathSignal q) (pExitCodeMap q) (pSignalRewrite q) (pArgs q)
    (pAfter p) (pBefore p) (pRequires p) (pRemoveEnv q) (pBackoffFactor q) (pUseEntrypointArgs q)
    (pSDNotify q) (pStrictGroups q) (pDotEnvFollow q) (pRestartWithDependents q).

(** [rest] is [full] less the processes whose name is in [X], the others, in
    their order, having lost their references to those. *)
Inductive left_of (X : gset string) : list Process → list Process → Prop :=
  | left_nil : left_of X [] []
  | left_drop p ps qs : procName p ∈ X → left_of X ps qs → left_of X (p :: ps) qs
  | left_keep p q ps qs :
      procName p ∉ X → same_but_deps p q → less X (pAfter p) (pAfter q) → less X (pBefore p) (pBefore q) →
      less X (pRequires p) (pRequires q) → left_of X ps qs → left_of X (p :: ps) (q :: qs).

Lemma strip_less X l : less X l (strip X l).
Proof.
  induction l as [|n l IH]; [constructor|]. unfold strip. rewrite filter_cons. case_decide as H; [by constructor|].
  by apply less_drop.
Qed.

Lemma exclude_left X full : left_of X full (excludeProcesses full X).
Proof.
  unfold excludeProcesses. induction full as [|p ps IH]; [constructor|]. rewrite filter_cons. case_decide as H.
  - rewrite fmap_cons. apply left_keep; [done|by destruct p|apply strip_less..|done].
  - by apply left_drop.
Qed.

Lemma unmet_reported env items full : length items = length full → reported env items full (xName <$> unmet env items full).
Proof.
  revert full. induction items as [|item items IH]; intros [|p ps] Hl; try done; [constructor|].
  unfold unmet. cbn [zip_with omap list_omap fst snd]. fold (unmet env items ps). injection Hl as Hl.
  destruct (conditionEnvUnmet item env) as [r|] eqn:E; cbn [fmap option_fmap option_map].
  - rewrite fmap_cons. apply reported_unmet; [|by apply IH]. rewrite <- condition_met, E. done.
  - apply reported_met; [by apply condition_met|by apply IH].
Qed.

(** C11: conditions drop processes consistently.  Let [full] be the processes the
    entries of the document stand for.  The names reported as excluded are, in
    order, those of the entries with an unmet environment condition.  Every
    process that bears a reported name is dropped, also one whose own condition
    is met; the others stay in their order and change in nothing but the
    references to dropped names, which they lose, and only those.  A check goes
    exactly when some process uses it and all that do were dropped.  The
    ordering constraints left are exactly those between processes left, and if
    the whole document could be ordered then what is left can. *)
Theorem exclusion_consistent (open_file : string → bool → Templates.open_result) (ws : nat → walk)
    (env : gmap string string) (data : string) (root : Node) (cfg : Config) (warned : list string) :
  Parse data = Ret root → Unmarshal open_file ws env data = Ret (cfg, warned) →
  let items := node_Items (Get root "processes") in
  let dropped := excluded_names cfg in
  ∃ g full checks,
    Forall2 (read_as open_file ws env g) items full ∧ load_checks (node_Entries (Get root "checks")) = Ok checks ∧
    reported env items full (xName <$> Excluded cfg) ∧
    left_of dropped full (Processes cfg) ∧
    (∀ c k, Checks cfg !! c = Some k ↔
       checks !! c = Some k ∧ ¬ ((∃ p, p ∈ full ∧ uses p c) ∧ ∀ p, p ∈ full → uses p c → procName p ∈ dropped)) ∧
    (∀ a b, Order.edge (ordering (Processes cfg)) a b ↔ Order.edge (ordering full) a b ∧ (a ∉ dropped) ∧ (b ∉ dropped)) ∧
    ((∃ l, Order.TopoSort (ordering full) = Prelude.Done (Ok l)) →
     ∃ l, Order.TopoSort (ordering (Processes cfg)) = Prelude.Done (Ok l)).
Proof.
  intros HP HU items dropped.
  destruct (exclusion_parts open_file ws env data root cfg warned HP HU) as (g & full & checks & HF & Hc & HX & _ & Hl & Hk & He & Ho).
  exists g, full, checks. split_and!; auto.
  - rewrite HX. apply unmet_reported. by eapply Forall2_length.
  - rewrite Hl. apply exclude_left.
Qed.

Definition demo_root : Node := match Parse demo_doc with Ret root => root | _ => Scalar "" end.

Lemma exclusion_consistent_witness :
  (xName <$> Excluded demo_cfg) = ["web"] ∧ Checks demo_cfg = ∅ ∧
  ∃ full, length full = 4 ∧ reported demo_env (node_Items (Get demo_root "processes")) full ["web"] ∧
    left_of {["web"]} full (Processes demo_cfg) ∧ procName <$> Processes demo_cfg = ["db"; "/bin/proxy"; "nightly"].
Proof.
  assert (HR : Parse demo_doc = Ret demo_root) by (vm_compute; reflexivity).
  assert (HU : ∃ warned, load_with map_walk demo_env demo_doc = Ret (demo_cfg, warned)).
  { eexists. unfold demo_cfg, config_of. vm_compute. reflexivity. }
  assert (HX : (xName <$> Excluded demo_cfg) = ["web"]) by (vm_compute; reflexivity).
  assert (HN : length (node_Items (Get demo_root "processes")) = 4) by (vm_compute; reflexivity).
  assert (HE : excluded_names demo_cfg = {["web"]}) by (unfold excluded_names; rewrite HX; reflexivity).
  destruct HU as [warned HU]. split_and!; [exact HX|by vm_compute|].
  destruct (exclusion_consistent no_files (λ _, map_walk) demo_env demo_doc demo_root demo_cfg warned HR HU) as
    (g & full & checks & HF & _ & Hr & Hl & _).
  exists full. rewrite HX in Hr. rewrite HE in Hl. split_and!; [|exact Hr|exact Hl|by vm_compute].
  rewrite <- HN. symmetry. by eapply Forall2_length.
Defined.

End ConfigSpec.
