(* ===== verification/Rotate.v ===== *)
(** * Log files and their rotation: src/internal/logger/rotate.go

    The log directory is a table from names to inodes, as the system has it:
    the open descriptor of the writer is an inode, and renaming or removing a
    name leaves it alone.  Each system call may fail; what the calls of one
    [Write] answer is its environment [env].  [rotatingFileWriter] serialises
    its calls with a mutex, so a [Write] is one step. *)

From S2P Require Import Prelude GoStrings GoTime GoFloat Sanitize.

Open Scope string_scope.
Open Scope list_scope.
Open Scope Z_scope.

Module Rotate.

Abbreviation bytes := (list Z).

(** ** Sizes *)

Definition defaultMaxFiles : Z := 5.

Inductive size_err :=
  | MissingNumber
  | BadNumber
  | UnknownUnit (unit : string)
  | NotPositive
  | TooLarge.

(** The length of the leading digits with at most one point. *)
Fixpoint number_end (sawDot : bool) (s : string) : nat :=
  match s with
  | String c s' =>
      if is_digit c then S (number_end sawDot s')
      else if bool_decide (c = "."%char) && negb sawDot then S (number_end true s')
      else O
  | "" => O
  end.

Definition size_unit (unit : string) : option Z :=
  if bool_decide (unit = "") || bool_decide (unit = "B") then Some 1
  else if bool_decide (unit = "KB") then Some 1000
  else if bool_decide (unit = "KiB") then Some 1024
  else if bool_decide (unit = "MB") then Some 1000000
  else if bool_decide (unit = "MiB") then Some (1024 * 1024)
  else if bool_decide (unit = "GB") then Some 1000000000
  else if bool_decide (unit = "GiB") then Some (1024 * 1024 * 1024)
  else None.

Definition parseByteSize (s : string) : result size_err Z :=
  let s := TrimSpace s in
  if bool_decide (s = "") then Ok 0
  else
    let end_ := number_end false s in
    if Nat.eqb end_ 0 then Err MissingNumber
    else match GoFloat.ParseFloat (take_str end_ s) with
    | None => Err BadNumber
    | Some num =>
        let unit := TrimSpace (drop_str end_ s) in
        match size_unit unit with
        | None => Err (UnknownUnit unit)
        | Some mul =>
            let v := f64_mul num (f64_of_Z mul) in
            if f64_leb v (f64_of_Z 0) then Err NotPositive
            else if f64_leb (f64_of_Z two63) v then Err TooLarge
            else match f64_trunc v with Some n => Ok n | None => Err TooLarge end
        end
    end.

Example sizes_ex :
  parseByteSize "10MiB" = Ok 10485760 ∧ parseByteSize " 1.5 KB" = Ok 1500 ∧ parseByteSize "" = Ok 0 ∧
  parseByteSize "9223372036854775808" = Err TooLarge ∧ parseByteSize "0" = Err NotPositive ∧
  parseByteSize "1.2.3" = Err (UnknownUnit ".3") ∧ parseByteSize "." = Err BadNumber ∧
  (* accepted, and turns rotation off *) parseByteSize "0.5" = Ok 0.
Proof. vm_compute. repeat split. Qed.

(** ** The directory *)

Record file := mkFile { gzipped : bool; content : bytes }.

Record fs := mkFs {
  entries : gmap string nat;
  inodes : gmap nat file;
  nextInode : nat;
}.

(** Which calls succeed: the walk over the ancestors, renames and removals by
    source name, the compression, the reopening, and the write itself ([Some n]
    is an error after [n] bytes). *)
Record env := mkEnv {
  e_ancestors : bool;
  e_rename : string → bool;
  e_remove : string → bool;
  e_gzip : bool;
  e_open : bool;
  e_short : option nat;
}.

Record writer := mkWriter {
  fd : option nat;
  path : string;
  size : Z;
  maxSize : Z;
  maxFiles : Z;
  compress : bool;
}.

Inductive rotate_err := RAncestor | RRename | RReopen.
Inductive write_err := NotOpen | IOError.

Definition plain (path : string) (i : Z) : string := path +:+ "." +:+ fmt_d i.
Definition gz (path : string) (i : Z) : string := plain path i +:+ ".gz".

Definition Remove (e : env) (name : string) (s : fs) : fs :=
  if e_remove e name then mkFs (delete name (entries s)) (inodes s) (nextInode s) else s.

Definition Rename (e : env) (src dst : string) (s : fs) : option fs :=
  match entries s !! src with
  | Some i =>
      if e_rename e src then Some (mkFs (<[dst := i]> (delete src (entries s))) (inodes s) (nextInode s)) else None
  | None => None
  end.

(** A new file under a name that must be free ([O_EXCL]). *)
Definition Create (name : string) (f : file) (s : fs) : option (nat * fs) :=
  match entries s !! name with
  | Some _ => None
  | None => Some (nextInode s, mkFs (<[name := nextInode s]> (entries s)) (<[nextInode s := f]> (inodes s)) (S (nextInode s)))
  end.

Definition append (i : nat) (data : bytes) (s : fs) : fs :=
  match inodes s !! i with
  | Some f => mkFs (entries s) (<[i := mkFile (gzipped f) (content f ++ data)]> (inodes s)) (nextInode s)
  | None => s
  end.

Definition gzipFile (e : env) (src dst : string) (s : fs) : option fs :=
  i ← entries s !! src;
  f ← inodes s !! i;
  if e_gzip e then snd <$> Create dst (mkFile true (content f)) s else None.

(** ** Rotation *)

(** One rename of the shift: an error is logged and the loop goes on. *)
Definition shift_name (e : env) (path src : string) (i : Z) (s : fs) : fs :=
  match entries s !! src with
  | None => s
  | Some _ =>
      let dst := if HasSuffix src ".gz" then gz path (i + 1) else plain path (i + 1) in
      default s (Rename e src dst s)
  end.

Definition shift_slot (e : env) (path : string) (i : Z) (s : fs) : fs :=
  shift_name e path (plain path i) i (shift_name e path (gz path i) i s).

(** Slots [n], [n - 1], ..., 1. *)
Fixpoint shift (e : env) (path : string) (n : nat) (s : fs) : fs :=
  match n with
  | O => s
  | S n' => shift e path n' (shift_slot e path (Z.of_nat n) s)
  end.

Definition set_fd (f : option nat) (w : writer) : writer := mkWriter f (path w) (size w) (maxSize w) (maxFiles w) (compress w).
Definition set_size (n : Z) (w : writer) : writer := mkWriter (fd w) (path w) n (maxSize w) (maxFiles w) (compress w).

Definition compress_rotated (e : env) (w : writer) (s : fs) : fs :=
  if compress w then
    match gzipFile e (plain (path w) 1) (gz (path w) 1) s with
    | None => s
    | Some s => Remove e (plain (path w) 1) s
    end
  else s.

Definition rotate (e : env) (w : writer) (s : fs) : option rotate_err * writer * fs :=
  if negb (e_ancestors e) then (Some RAncestor, w, s)
  else
    let w := set_fd None w in
    let s := Remove e (plain (path w) (maxFiles w)) s in
    let s := Remove e (gz (path w) (maxFiles w)) s in
    let s := shift e (path w) (Z.to_nat (maxFiles w - 1)) s in
    match Rename e (path w) (plain (path w) 1) s with
    | None => (Some RRename, w, s)
    | Some s =>
        let s := compress_rotated e w s in
        if e_open e then
          match Create (path w) (mkFile false []) s with
          | Some (i, s) => (None, set_size 0 (set_fd (Some i) w), s)
          | None => (Some RReopen, w, s)
          end
        else (Some RReopen, w, s)
    end.

Definition sanitize (p : bytes) : bytes :=
  match Sanitize.sanitizeSeq p false with Done r => r | OutOfFuel => [] end.

Definition len (p : bytes) : Z := Z.of_nat (length p).

Definition Write (e : env) (w : writer) (s : fs) (p : bytes) : result write_err Z * writer * fs :=
  let clean := sanitize p in
  let '(w, s) :=
    if (0 <? maxSize w) && (0 <? size w) && (maxSize w <? wrap64 (size w + len clean))
    then let '(_, w, s) := rotate e w s in (w, s) else (w, s) in
  match fd w with
  | None => (Err NotOpen, w, s)
  | Some i =>
      let written := match e_short e with Some n => take n clean | None => clean end in
      let w := set_size (wrap64 (size w + len written)) w in
      ((match e_short e with Some _ => Err IOError | None => Ok (len p) end), w, append i written s)
  end.

Definition Close (w : writer) : writer := set_fd None w.

(** ** Names *)

Definition nm (p : string) (b : bool) (i : Z) : string := if b then gz p i else plain p i.

Lemma rev_last_digit i : 0 ≤ i → ∃ a r, str_rev (fmt_d i) = String a r ∧ is_digit a = true.
Proof.
  intros Hi. pose proof (fmt_d_digits i Hi) as Hd. destruct (snoc_str (fmt_d i)) as [He|(r & a & He)].
  { by destruct (fmt_d_not_nil i). }
  rewrite He in *. rewrite str_all_app in Hd. exists a, (str_rev r). split; [by rewrite str_rev_app|].
  apply andb_true_iff in Hd as [_ Hd]. cbn in Hd. by destruct (is_digit a).
Qed.

Lemma suffix_gz p i : HasSuffix (gz p i) ".gz" = true.
Proof. unfold HasSuffix, gz. rewrite str_rev_app. apply (HasPrefix_empty). Qed.

Lemma suffix_plain p i : 0 ≤ i → HasSuffix (plain p i) ".gz" = false.
Proof.
  intros Hi. destruct (rev_last_digit i Hi) as (a & r & Hr & Ha). unfold HasSuffix, plain.
  rewrite str_rev_app, str_rev_app, Hr. change (HasPrefix (String a ((r +:+ str_rev ".") +:+ str_rev p)) "zg." = false).
  rewrite HasPrefix_cons, bool_decide_false; [done|]. by intros ->.
Qed.

Lemma suffix_nm p b i : 0 ≤ i → HasSuffix (nm p b i) ".gz" = b.
Proof. destruct b; intros; [apply suffix_gz|by apply suffix_plain]. Qed.

Lemma plain_inj p i j : plain p i = plain p j → i = j.
Proof. unfold plain. intros H. apply (inj (String.append p)), (inj (String.append ".")) in H. by apply (inj pretty). Qed.

Lemma nm_inj p b b' i j : 0 ≤ i → 0 ≤ j → nm p b i = nm p b' j → b = b' ∧ i = j.
Proof.
  intros Hi Hj H. assert (b = b') as <- by (by rewrite <- (suffix_nm p b i Hi), H, suffix_nm). split; [done|].
  destruct b; cbn in H; [|by apply (plain_inj p)]. apply (plain_inj p). unfold gz in H.
  apply (f_equal str_rev) in H. rewrite !str_rev_app in H. apply (inj (String.append _)), (f_equal str_rev) in H.
  by rewrite !str_rev_involutive in H.
Qed.

Lemma nm_not_path p b i : nm p b i ≠ p.
Proof.
  intros H. apply (f_equal String.length) in H. destruct b; cbn in H; unfold gz, plain in H;
    rewrite ?length_app_str in H; cbn in H; lia.
Qed.

(** ** The shift *)

(** No call fails. *)
Definition calm (e : env) : Prop :=
  e_ancestors e = true ∧ (∀ n, e_rename e n = true) ∧ (∀ n, e_remove e n = true) ∧ e_gzip e = true ∧ e_open e = true ∧ e_short e = None.

(** The directory after slots 1 to [n] moved up by one. *)
Definition slid (p : string) (n : Z) (E E' : gmap string nat) : Prop :=
  (∀ b k, 1 ≤ k ≤ n → E' !! nm p b (k + 1) = E !! nm p b k) ∧
  (∀ b, E' !! nm p b 1 = None) ∧
  (∀ x, (∀ b k, 1 ≤ k ≤ n + 1 → x ≠ nm p b k) → E' !! x = E !! x).

Definition same_store (s s' : fs) : Prop := inodes s' = inodes s ∧ nextInode s' = nextInode s.

Section shift.
Context (e : env) (p : string) (Hren : ∀ n, e_rename e n = true).

Lemma shift_name_spec b i s :
  0 ≤ i → entries s !! nm p b (i + 1) = None →
  let s' := shift_name e p (nm p b i) i s in
  same_store s s' ∧
  ∀ x, entries s' !! x = if decide (x = nm p b i) then None
                         else if decide (x = nm p b (i + 1)) then entries s !! nm p b i else entries s !! x.
Proof.
  intros Hi Hnone. unfold shift_name. destruct (entries s !! nm p b i) as [j|] eqn:E.
  2: { split; [done|]. intros x. repeat case_decide; subst; done. }
  rewrite suffix_nm by done. unfold Rename. rewrite E, Hren. split; [done|]. intros x. cbn.
  change (if b then gz p (i + 1) else plain p (i + 1)) with (nm p b (i + 1)). case_decide as H1; [subst x|].
  - rewrite lookup_insert_ne; [apply lookup_delete_eq|]. intros [_ ?]%nm_inj; lia.
  - case_decide as H2; [subst x; apply lookup_insert_eq|]. by rewrite lookup_insert_ne, lookup_delete_ne by done.
Qed.

Lemma shift_slot_spec i s :
  1 ≤ i → (∀ b, entries s !! nm p b (i + 1) = None) →
  let s' := shift_slot e p i s in
  same_store s s' ∧ (∀ b, entries s' !! nm p b (i + 1) = entries s !! nm p b i) ∧ (∀ b, entries s' !! nm p b i = None) ∧
  ∀ x, (∀ b, x ≠ nm p b i ∧ x ≠ nm p b (i + 1)) → entries s' !! x = entries s !! x.
Proof.
  intros Hi Hnone. unfold shift_slot.
  destruct (shift_name_spec true i s ltac:(lia) (Hnone true)) as [[Hs1 Hn1] H1]. cbn [nm] in Hs1, Hn1, H1.
  set (s1 := shift_name e p (gz p i) i s) in *.
  assert (Hne : ∀ b b' k k', 0 ≤ k → 0 ≤ k' → (b ≠ b' ∨ k ≠ k') → nm p b k ≠ nm p b' k').
  { intros b b' k k' ? ? Hd He. apply nm_inj in He as [? ?]; [|done..]. naive_solver. }
  assert (Hp1 : entries s1 !! nm p false (i + 1) = None).
  { rewrite H1, !decide_False; [apply Hnone|apply (Hne false true); naive_solver lia|apply (Hne false true); naive_solver lia]. }
  destruct (shift_name_spec false i s1 ltac:(lia) Hp1) as [[Hs2 Hn2] H2]. cbn [nm] in Hs2, Hn2, H2.
  split; [split; congruence|]. split_and!.
  - intros b. rewrite H2. destruct b; cbn [nm].
    + rewrite !decide_False by (apply (Hne true false); naive_solver lia).
      rewrite H1, decide_False, decide_True by (done || (apply (Hne true true); naive_solver lia)). done.
    + rewrite decide_False, decide_True by (done || (apply (Hne false false); naive_solver lia)).
      rewrite H1, !decide_False by (apply (Hne false true); naive_solver lia). done.
  - intros b. rewrite H2. destruct b; cbn [nm]; [|by rewrite decide_True].
    rewrite !decide_False by (apply (Hne true false); naive_solver lia). by rewrite H1, decide_True.
  - intros x Hx. destruct (Hx true) as [? ?]. destruct (Hx false) as [? ?]. cbn [nm] in *.
    rewrite H2, !decide_False, H1, !decide_False by done. done.
Qed.

Lemma shift_spec n : ∀ s,
  (∀ b, entries s !! nm p b (Z.of_nat n + 1) = None) →
  let s' := shift e p n s in same_store s s' ∧ slid p (Z.of_nat n) (entries s) (entries s').
Proof.
  induction n as [|n IH]; intros s Hnone; cbn [shift].
  { split; [done|]. split_and!; [intros; lia|exact Hnone|done]. }
  destruct (shift_slot_spec (Z.of_nat (S n)) s ltac:(lia) Hnone) as (Hst & Hup & Hfree & Hrest).
  set (s1 := shift_slot e p (Z.of_nat (S n)) s) in *.
  destruct (IH s1) as (Hst' & Hs1 & Hs2 & Hs3).
  { intros b. replace (Z.of_nat n + 1) with (Z.of_nat (S n)) by lia. apply Hfree. }
  assert (Hk : ∀ b k, 0 ≤ k → k ≠ Z.of_nat (S n) → k ≠ Z.of_nat (S n) + 1 → ∀ b', nm p b k ≠ nm p b' (Z.of_nat (S n)) ∧ nm p b k ≠ nm p b' (Z.of_nat (S n) + 1)).
  { intros b k Hk H1 H2 b'. split; intros [_ ?]%nm_inj; lia. }
  split; [destruct Hst, Hst'; split; congruence|]. split_and!; [|done|].
  - intros b k Hkn. destruct (decide (k = Z.of_nat (S n))) as [->|Hne].
    + rewrite Hs3; [apply Hup|]. intros b' k' ? [_ ?]%nm_inj; lia.
    + rewrite Hs1 by lia. apply Hrest. apply Hk; lia.
  - intros x Hx. rewrite Hs3 by (intros b k ?; apply Hx; lia). apply Hrest. intros b. split; apply Hx; lia.
Qed.
End shift.

(** ** What a directory holds *)

Definition named (s : fs) (n : string) : option bytes := i ← entries s !! n; content <$> inodes s !! i.

(** The text of slot [i], compressed or not. *)
Definition slot (p : string) (s : fs) (i : Z) : option bytes :=
  match named s (plain p i) with Some c => Some c | None => named s (gz p i) end.

(** Names lead to files, each file has one name. *)
Record store_ok (s : fs) : Prop := {
  st_file : ∀ n i, entries s !! n = Some i → is_Some (inodes s !! i);
  st_next : ∀ i, is_Some (inodes s !! i) → (i < nextInode s)%nat;
  st_inj : ∀ n n' i, entries s !! n = Some i → entries s !! n' = Some i → n = n';
}.

(** The writer is open on the file its path names, and knows its size; no slot
    is taken twice. *)
Record wf (w : writer) (s : fs) : Prop := {
  wf_store : store_ok s;
  wf_files : 0 < maxFiles w;
  wf_one : ∀ k, 1 ≤ k ≤ maxFiles w → entries s !! plain (path w) k = None ∨ entries s !! gz (path w) k = None;
  wf_open : ∃ i f, fd w = Some i ∧ entries s !! path w = Some i ∧ inodes s !! i = Some f ∧ size w = len (content f);
}.

(** The files of [s] are still there. *)
Definition ext (s s' : fs) : Prop := ∀ i f, inodes s !! i = Some f → inodes s' !! i = Some f.

Lemma named_move s s' n n' : store_ok s → ext s s' → entries s' !! n = entries s !! n' → named s' n = named s n'.
Proof.
  intros Hs He Hn. unfold named. rewrite Hn. destruct (entries s !! n') as [i|] eqn:E; [|done]. cbn.
  destruct (st_file _ Hs _ _ E) as [f Hf]. by rewrite Hf, (He _ _ Hf).
Qed.

Lemma slot_move p s s' k k' :
  store_ok s → ext s s' → (∀ b, entries s' !! nm p b k = entries s !! nm p b k') → slot p s' k = slot p s k'.
Proof.
  intros Hs He Hn. pose proof (named_move s s' _ _ Hs He (Hn false)) as H1. pose proof (named_move s s' _ _ Hs He (Hn true)) as H2.
  cbn [nm] in H1, H2. unfold slot. by rewrite H1, H2.
Qed.

Lemma remove_store e n s : store_ok s → store_ok (Remove e n s).
Proof.
  intros [H1 H2 H3]. unfold Remove. destruct (e_remove e n); [|done]. split; cbn; [|done|].
  - intros n' i [_ H]%lookup_delete_Some. eauto.
  - intros n' n'' i [_ H]%lookup_delete_Some [_ H']%lookup_delete_Some. eauto.
Qed.

Lemma rename_store e src dst s s' : store_ok s → Rename e src dst s = Some s' → store_ok s'.
Proof.
  intros [H1 H2 H3]. unfold Rename. destruct (entries s !! src) as [i|] eqn:E; [|done].
  destruct (e_rename e src); [|done]. intros [= <-]. split; cbn; [|done|].
  - intros n j [[<- <-]|[_ [_ H]%lookup_delete_Some]]%lookup_insert_Some; eauto.
  - intros n n' j [[<- <-]|[Hn [Hs H]%lookup_delete_Some]]%lookup_insert_Some
      [[<- Hj]|[Hn' [Hs' H']%lookup_delete_Some]]%lookup_insert_Some; [done| | |eauto].
    + destruct Hs'. eauto.
    + subst j. destruct Hs. eauto.
Qed.

Lemma shift_store e p n : ∀ s, store_ok s → store_ok (shift e p n s).
Proof.
  assert (Hn : ∀ src i s, store_ok s → store_ok (shift_name e p src i s)).
  { intros src i s Hs. unfold shift_name. destruct (entries s !! src); [|done].
    destruct (Rename e src _ s) as [s'|] eqn:E; [|done]. by eapply rename_store. }
  induction n as [|n IH]; intros s Hs; [done|]. cbn [shift]. apply IH. unfold shift_slot. auto.
Qed.

Lemma create_store n f s i s' : store_ok s → Create n f s = Some (i, s') →
  store_ok s' ∧ ext s s' ∧ entries s !! n = None ∧ i = nextInode s ∧ inodes s' !! i = Some f ∧
  entries s' = <[n := i]> (entries s).
Proof.
  intros [H1 H2 H3]. unfold Create. destruct (entries s !! n) eqn:E; [done|]. intros [= <- <-].
  assert (Hfresh : inodes s !! nextInode s = None).
  { destruct (inodes s !! nextInode s) eqn:E'; [|done]. assert (nextInode s < nextInode s)%nat by eauto. lia. }
  split_and!; try done; cbn; [|intros j g Hg; cbn; rewrite lookup_insert_ne; [done|congruence]|by rewrite lookup_insert_eq].
  split; cbn.
  - intros n' j [[<- <-]|[_ H]]%lookup_insert_Some; [rewrite lookup_insert_eq; eauto|].
    destruct (H1 _ _ H) as [g Hg]. rewrite lookup_insert_ne; [eauto|congruence].
  - intros j [g [[<- _]|[_ Hg]]%lookup_insert_Some]; [lia|]. assert (j < nextInode s)%nat by eauto. lia.
  - intros n1 n2 j [[<- <-]|[Hne H]]%lookup_insert_Some [[<- Hj]|[Hne' H']]%lookup_insert_Some; [done| | |eauto].
    + destruct (H1 _ _ H') as [g Hg]. congruence.
    + subst j. destruct (H1 _ _ H) as [g Hg]. congruence.
Qed.

(** ** A rotation without faults *)

Section rotation.
Context (e : env) (He : calm e).

Lemma prep_spec p n s :
  0 < n → store_ok s →
  let s' := shift e p (Z.to_nat (n - 1)) (Remove e (gz p n) (Remove e (plain p n) s)) in
  store_ok s' ∧ same_store s s' ∧ (∀ b k, 1 ≤ k < n → entries s' !! nm p b (k + 1) = entries s !! nm p b k) ∧
  (∀ b, entries s' !! nm p b 1 = None) ∧ entries s' !! p = entries s !! p.
Proof.
  intros Hn Hs. destruct He as (_ & Hren & Hrem & _).
  set (s2 := Remove e (gz p n) (Remove e (plain p n) s)).
  assert (Hs2 : store_ok s2) by (unfold s2; auto using remove_store).
  assert (He2 : entries s2 = delete (gz p n) (delete (plain p n) (entries s)))
    by (unfold s2, Remove; by rewrite !Hrem).
  assert (Hsame : same_store s s2) by (unfold s2, Remove; by rewrite !Hrem).
  assert (Hkeep : ∀ x, x ≠ plain p n → x ≠ gz p n → entries s2 !! x = entries s !! x)
    by (intros x ? ?; by rewrite He2, !lookup_delete_ne by done).
  assert (Hnone : ∀ b, entries s2 !! nm p b (Z.of_nat (Z.to_nat (n - 1)) + 1) = None).
  { intros b. replace (Z.of_nat (Z.to_nat (n - 1)) + 1) with n by lia. rewrite He2. destruct b; cbn [nm].
    - apply lookup_delete_eq.
    - rewrite lookup_delete_ne, lookup_delete_eq; [done|]. intros Hx. apply (nm_inj p true false n n) in Hx as [? ?]; [done|lia..]. }
  destruct (shift_spec e p Hren _ s2 Hnone) as (Hst & H1 & H2 & H3). rewrite Z2Nat.id in H1, H3 by lia.
  intros s'. fold s' in Hst, H1, H2, H3. split_and!; [by apply shift_store|destruct Hsame, Hst; split; congruence| |exact H2|].
  - intros b k Hk. rewrite H1 by lia. apply Hkeep; intros Hx.
    + apply (nm_inj p b false k n) in Hx as [_ ?]; lia.
    + apply (nm_inj p b true k n) in Hx as [_ ?]; lia.
  - rewrite H3; [|intros b k _ Hx; by destruct (nm_not_path p b k)]. apply Hkeep; intros Hx.
    + by destruct (nm_not_path p false n).
    + by destruct (nm_not_path p true n).
Qed.

(** The rotated file ends up in slot 1, under one of its names. *)
Lemma compress_spec w s i f :
  store_ok s → entries s !! plain (path w) 1 = Some i → inodes s !! i = Some f → entries s !! gz (path w) 1 = None →
  let s' := compress_rotated e w s in
  store_ok s' ∧ ext s s' ∧ slot (path w) s' 1 = Some (content f) ∧
  (entries s' !! plain (path w) 1 = None ∨ entries s' !! gz (path w) 1 = None) ∧
  ∀ x, (∀ b, x ≠ nm (path w) b 1) → entries s' !! x = entries s !! x.
Proof.
  intros Hs Hp Hi Hg. unfold compress_rotated. destruct He as (_ & _ & Hrem & Hgz & _).
  assert (Hslot : slot (path w) s 1 = Some (content f)) by (unfold slot, named; by rewrite Hp; cbn; rewrite Hi).
  destruct (compress w); [|split_and!; auto; by intros ?]. unfold gzipFile. rewrite Hp. cbn. rewrite Hi, Hgz. cbn.
  destruct (Create (gz (path w) 1) _ s) as [[j s1]|] eqn:E; [|unfold Create in E; by rewrite Hg in E].
  destruct (create_store _ _ _ _ _ Hs E) as (Hs1 & Hext & _ & _ & Hj & Hent). cbn. unfold Remove. rewrite Hrem.
  assert (Hne : plain (path w) 1 ≠ gz (path w) 1).
  { intros Hx. apply (nm_inj (path w) false true 1 1) in Hx as [? ?]; [done|lia..]. }
  split_and!; cbn.
  - pose proof (remove_store e (plain (path w) 1) s1 Hs1) as H. unfold Remove in H. by rewrite Hrem in H.
  - exact Hext.
  - unfold slot, named. cbn. rewrite Hent, lookup_delete_eq. cbn. rewrite lookup_delete_ne, lookup_insert_eq by done. cbn. by rewrite Hj.
  - left. apply lookup_delete_eq.
  - intros x Hx. rewrite Hent, lookup_delete_ne, lookup_insert_ne; [done| |]; intros <-.
    + by destruct (Hx true).
    + by destruct (Hx false).
Qed.

Lemma rotate_spec w s :
  wf w s → ∃ w' s', rotate e w s = (None, w', s') ∧ wf w' s' ∧
    (path w' = path w ∧ maxSize w' = maxSize w ∧ maxFiles w' = maxFiles w ∧ compress w' = compress w ∧ size w' = 0) ∧
    named s' (path w) = Some [] ∧ slot (path w) s' 1 = named s (path w) ∧
    ∀ k, 1 ≤ k < maxFiles w → slot (path w) s' (k + 1) = slot (path w) s k.
Proof.
  intros [Hs Hn Hone (i & f & Hfd & Hent & Hino & Hsz)]. unfold rotate.
  destruct (prep_spec (path w) (maxFiles w) s Hn Hs) as (Hs3 & [Hin3 Hnx3] & Hup & Hfree & Hpath). rewrite Hent in Hpath.
  assert (Hren : ∀ n, e_rename e n = true) by apply He. assert (Hop : e_open e = true) by apply He. assert (Hanc : e_ancestors e = true) by apply He.
  rewrite Hanc. cbn [negb path set_fd maxFiles]. set (s3 := shift e _ _ _) in *.
  destruct (Rename e (path w) (plain (path w) 1) s3) as [s4|] eqn:E4; [|unfold Rename in E4; by rewrite Hpath, Hren in E4].
  pose proof (rename_store _ _ _ _ _ Hs3 E4) as Hs4. unfold Rename in E4. rewrite Hpath, Hren in E4. injection E4 as <-.
  set (s4 := mkFs _ _ _) in *.
  assert (Hnm : ∀ b k, nm (path w) b k ≠ path w) by (intros; apply nm_not_path).
  assert (H4 : ∀ x, x ≠ plain (path w) 1 → x ≠ path w → entries s4 !! x = entries s3 !! x)
    by (intros x ? ?; cbn; by rewrite lookup_insert_ne, lookup_delete_ne by done).
  destruct (compress_spec (set_fd None w) s4 i f Hs4) as (Hs5 & Hext5 & Hslot5 & Hone5 & H5).
  { apply lookup_insert_eq. }
  { cbn. by rewrite Hin3. }
  { rewrite H4; [apply (Hfree true)| |apply (Hnm true)]. intros Hx. apply (nm_inj _ true false 1 1) in Hx as [? ?]; [done|lia..]. }
  cbn [path set_fd] in Hslot5, Hone5, H5. set (s5 := compress_rotated e (set_fd None w) s4) in *. rewrite Hop.
  assert (Hp5 : entries s5 !! path w = None).
  { rewrite H5 by (intros b Hx; by destruct (Hnm b 1)). cbn. rewrite lookup_insert_ne, lookup_delete_eq; [done|apply (Hnm false)]. }
  destruct (Create (path w) (mkFile false []) s5) as [[j s6]|] eqn:E6; [|unfold Create in E6; by rewrite Hp5 in E6].
  destruct (create_store _ _ _ _ _ Hs5 E6) as (Hs6 & Hext6 & _ & _ & Hj & Hent6).
  assert (H6 : ∀ b k, entries s6 !! nm (path w) b k = entries s5 !! nm (path w) b k)
    by (intros b k; rewrite Hent6, lookup_insert_ne; [done|by intros Hx; destruct (Hnm b k)]).
  assert (Hmv : ∀ b k, 1 ≤ k < maxFiles w → entries s6 !! nm (path w) b (k + 1) = entries s !! nm (path w) b k).
  { intros b k Hk. rewrite H6, H5, H4; [by apply Hup| |apply Hnm|].
    - intros Hx. apply (nm_inj _ b false (k + 1) 1) in Hx as [_ ?]; lia.
    - intros b' Hx. apply nm_inj in Hx as [_ ?]; lia. }
  exists (set_size 0 (set_fd (Some j) (set_fd None w))), s6. split; [done|]. split; [|split; [done|split_and!]].
  - split; cbn [path maxFiles fd size set_size set_fd]; [done|done| |exists j, (mkFile false []); split_and!; [done|by rewrite Hent6, lookup_insert_eq|done|done]].
    intros k Hk. destruct (decide (k = 1)) as [->|Hk1].
    + pose proof (H6 false 1) as Ha. pose proof (H6 true 1) as Hb. cbn [nm] in Ha, Hb. by rewrite Ha, Hb.
    + pose proof (Hmv false (k - 1) ltac:(lia)) as Ha. pose proof (Hmv true (k - 1) ltac:(lia)) as Hb. cbn [nm] in Ha, Hb.
      replace (k - 1 + 1) with k in Ha, Hb by lia. rewrite Ha, Hb. apply Hone. lia.
  - unfold named. rewrite Hent6, lookup_insert_eq. cbn. by rewrite Hj.
  - rewrite (slot_move _ s5 s6 1 1 Hs5 Hext6) by (intros b; apply H6). rewrite Hslot5. unfold named. rewrite Hent. cbn. by rewrite Hino.
  - intros k Hk. apply slot_move; [done| |by intros b; apply Hmv]. intros i' f' Hf. apply Hext6, Hext5. cbn. by rewrite Hin3.
Qed.

End rotation.

(** ** The stream *)

(** The current file holds [cur], the slots hold [rot], the newest first. *)
Record log_state (w : writer) (s : fs) (cur : bytes) (rot : list bytes) : Prop := {
  ls_wf : wf w s;
  ls_cur : named s (path w) = Some cur;
  ls_rot : ∀ k : nat, Z.of_nat k < maxFiles w → slot (path w) s (Z.of_nat k + 1) = rot !! k;
}.

Lemma ls_size w s cur rot : log_state w s cur rot → size w = len cur ∧ ∃ i, fd w = Some i.
Proof.
  intros [[_ _ _ (i & f & Hfd & Hent & Hino & Hsz)] Hcur _]. split; [|eauto]. rewrite Hsz. f_equal.
  unfold named in Hcur. rewrite Hent in Hcur. cbn in Hcur. rewrite Hino in Hcur. by injection Hcur as <-.
Qed.

Lemma append_state w s cur rot i data n :
  log_state w s cur rot → fd w = Some i → n = len (cur ++ data) →
  log_state (set_size n w) (append i data s) (cur ++ data) rot.
Proof.
  intros [[Hs Hn Hone (j & f & Hfd & Hent & Hino & Hsz)] Hcur Hrot] Hi ->. rewrite Hfd in Hi. injection Hi as ->.
  assert (Hc : content f = cur) by (unfold named in Hcur; rewrite Hent in Hcur; cbn in Hcur; rewrite Hino in Hcur; by injection Hcur).
  unfold append. rewrite Hino, Hc. set (s' := mkFs _ _ _).
  assert (Hs' : store_ok s').
  { destruct Hs as [H1 H2 H3]. split; cbn; [| |exact H3].
    - intros m k Hm. destruct (decide (k = i)) as [->|]; [rewrite lookup_insert_eq; eauto|rewrite lookup_insert_ne by done; eauto].
    - intros k [g [[<- _]|[_ Hg]]%lookup_insert_Some]; eauto. }
  assert (Hcur' : named s' (path w) = Some (cur ++ data)) by (unfold named; cbn; rewrite Hent; cbn; by rewrite lookup_insert_eq).
  assert (Hnm : ∀ m, m ≠ path w → named s' m = named s m).
  { intros m Hm. unfold named. cbn. destruct (entries s !! m) as [k|] eqn:E; [|done]. cbn.
    rewrite lookup_insert_ne; [done|]. intros <-. apply Hm. by apply (st_inj _ Hs m (path w) i). }
  split; [split|exact Hcur'|].
  - done.
  - done.
  - exact Hone.
  - exists i, (mkFile (gzipped f) (cur ++ data)). split_and!; [done..| |done]. apply lookup_insert_eq.
  - intros k Hk. cbn [path set_size]. rewrite <- (Hrot k Hk). unfold slot.
    rewrite (Hnm (plain _ _)) by apply (nm_not_path _ false). by rewrite (Hnm (gz _ _)) by apply (nm_not_path _ true).
Qed.

Definition crosses (w : writer) (cur c : bytes) : bool := (0 <? len cur) && (maxSize w <? len cur + len c).

Definition settings (w : writer) := (path w, maxSize w, maxFiles w, compress w).

Lemma write_state e w s cur rot p :
  calm e → log_state w s cur rot → 0 < maxSize w → len cur + len (sanitize p) ≤ MaxInt64 →
  ∃ w' s', Write e w s p = (Ok (len p), w', s') ∧ settings w' = settings w ∧
    (if crosses w cur (sanitize p) then log_state w' s' (sanitize p) (cur :: rot) else log_state w' s' (cur ++ sanitize p) rot).
Proof.
  intros He HL Hmax Hbound. destruct (ls_size _ _ _ _ HL) as [Hsz [i Hfd]]. unfold Write, crosses.
  assert (Hpos : ∀ l : bytes, 0 ≤ len l) by (intros; unfold len; lia).
  assert (Hw : wrap64 (len cur + len (sanitize p)) = len cur + len (sanitize p)).
  { apply wrap64_id. pose proof (Hpos cur). pose proof (Hpos (sanitize p)). unfold in_int64, MinInt64, MaxInt64 in *. lia. }
  rewrite Hsz, Hw. rewrite (proj2 (Z.ltb_lt 0 (maxSize w)) Hmax). cbn [andb].
  assert (Hshort : e_short e = None) by apply He. rewrite Hshort.
  assert (Hap : ∀ x y : bytes, len (x ++ y) = len x + len y) by (intros; unfold len; rewrite length_app; lia).
  destruct ((0 <? len cur) && _) eqn:E.
  - destruct (rotate_spec e He w s (ls_wf _ _ _ _ HL)) as (w1 & s1 & Hr & Hwf & (Hp & Hms & Hmf & Hcm & Hs0) & Hcur & Hslot1 & Hslots).
    rewrite Hr. assert (HL1 : log_state w1 s1 [] (cur :: rot)).
    { split; [done|by rewrite Hp|]. rewrite Hp, Hmf. intros [|k] Hk.
      - change (slot (path w) s1 1 = Some cur). by rewrite Hslot1, (ls_cur _ _ _ _ HL).
      - replace (Z.of_nat (S k) + 1) with (Z.of_nat k + 1 + 1) by lia. rewrite Hslots by lia. apply (ls_rot _ _ _ _ HL). lia. }
    destruct (ls_size _ _ _ _ HL1) as [_ [j Hj]]. rewrite Hj, Hs0, Z.add_0_l.
    exists (set_size (wrap64 (len (sanitize p))) w1), (append j (sanitize p) s1). split; [done|]. split; [unfold settings; cbn; congruence|].
    eapply append_state in HL1; [exact HL1|done|]. cbn [app]. apply wrap64_id.
    pose proof (Hpos cur). pose proof (Hpos (sanitize p)). unfold in_int64, MinInt64, MaxInt64 in *. lia.
  - rewrite Hfd, Hsz, Hw. eexists _, _. split; [done|]. split; [done|].
    eapply append_state; [done|done|]. by rewrite Hap.
Qed.

(** A run of writes with the answers they gave. *)
Fixpoint writes (evs : list (env * bytes)) (w : writer) (s : fs) : list (result write_err Z) * writer * fs :=
  match evs with
  | [] => ([], w, s)
  | (e, p) :: evs =>
      let '(r, w, s) := Write e w s p in
      let '(rs, w, s) := writes evs w s in (r :: rs, w, s)
  end.

Definition total (evs : list (env * bytes)) : Z := len (concat ((sanitize ∘ snd) <$> evs)).

(** Files as groups of whole writes, the newest first: a file exceeds the limit
    only when one write alone does, and a new file was begun only because the
    next write would have crossed the limit. *)
Definition packed (m : Z) (groups : list (list bytes)) : Prop :=
  (∀ h, h ∈ groups → len (concat h) ≤ m ∨ ∃ c, c ∈ h ∧ concat h = c) ∧
  (∀ k newer older, groups !! k = Some newer → groups !! S k = Some older →
     ∃ c r, newer = c :: r ∧ m < len (concat older) + len c).

Lemma len_app (x y : bytes) : len (x ++ y) = len x + len y.
Proof. unfold len. rewrite length_app. lia. Qed.

Lemma packed_new m g gs c : packed m (g :: gs) → m < len (concat g) + len c → packed m ([c] :: g :: gs).
Proof.
  intros [H1 H2] Hc. split.
  - intros h [->|Hh]%elem_of_cons; [|auto]. right. exists c. split; [left|cbn; apply app_nil_r].
  - intros [|k] newer older; cbn; [|apply H2]. intros [= <-] [= <-]. eauto.
Qed.

Lemma packed_more m g gs c :
  g ≠ [] → packed m (g :: gs) → len (concat g) ≤ 0 ∨ len (concat g) + len c ≤ m → packed m ((g ++ [c]) :: gs).
Proof.
  intros Hg [H1 H2] Hc. assert (Hcat : concat (g ++ [c]) = concat g ++ c) by (rewrite concat_app; cbn; by rewrite app_nil_r). split.
  - intros h [->|Hh]%elem_of_cons; [|apply H1; by right]. rewrite Hcat, len_app. destruct Hc as [Hc|Hc]; [|auto].
    right. exists c. split; [rewrite elem_of_app; right; left|]. destruct (concat g); [done|]. unfold len in Hc. cbn in Hc. lia.
  - intros [|k] newer older; cbn; intros Hn Ho; [|exact (H2 (S k) newer older Hn Ho)]. injection Hn as <-.
    destruct (H2 0%nat g older eq_refl Ho) as (c0 & r & -> & Hlt). by exists c0, (r ++ [c]).
Qed.

Lemma stream_run evs : ∀ w s g gs rot,
  Forall (calm ∘ fst) evs → 0 < maxSize w → g ≠ [] → packed (maxSize w) (g :: gs) → len (concat g) + total evs ≤ MaxInt64 →
  log_state w s (concat g) ((@concat Z <$> gs) ++ rot) →
  ∃ w' s' g' gs', writes evs w s = ((λ ep, Ok (len ep.2)) <$> evs, w', s') ∧ settings w' = settings w ∧
    packed (maxSize w) (g' :: gs') ∧ concat (reverse (g' :: gs')) = concat (reverse (g :: gs)) ++ ((sanitize ∘ snd) <$> evs) ∧
    log_state w' s' (concat g') ((@concat Z <$> gs') ++ rot).
Proof.
  induction evs as [|[e p] evs IH]; intros w s g gs rot Hev Hmax Hg Hp Hb HL.
  { exists w, s, g, gs. split_and!; try done. cbn. by rewrite app_nil_r. }
  apply Forall_cons in Hev as [He Hev]. cbn [writes fmap list_fmap]. unfold total in Hb. cbn [fmap list_fmap concat compose snd] in Hb.
  rewrite len_app in Hb. assert (Hpos : ∀ l : bytes, 0 ≤ len l) by (intros; unfold len; lia).
  pose proof (Hpos (concat ((sanitize ∘ snd) <$> evs))) as Hrest. pose proof (Hpos (sanitize p)). pose proof (Hpos (concat g)).
  destruct (write_state e w s (concat g) ((@concat Z <$> gs) ++ rot) p He HL Hmax ltac:(lia)) as (w1 & s1 & HW & Hset & HL1). rewrite HW.
  assert (Hm1 : maxSize w1 = maxSize w) by (unfold settings in Hset; congruence).
  assert (Hstep : ∃ g1 gs1, g1 ≠ [] ∧ packed (maxSize w1) (g1 :: gs1) ∧ len (concat g1) + total evs ≤ MaxInt64 ∧
    log_state w1 s1 (concat g1) ((@concat Z <$> gs1) ++ rot) ∧ concat (reverse (g1 :: gs1)) = concat (reverse (g :: gs)) ++ [sanitize p]).
  { rewrite Hm1. unfold total. destruct (crosses w (concat g) (sanitize p)) eqn:E; unfold crosses in E.
    - apply andb_true_iff in E as [_ E%Z.ltb_lt]. exists [sanitize p], (g :: gs). cbn [concat]. rewrite app_nil_r.
      split_and!; [done|by apply packed_new|lia|exact HL1|]. rewrite reverse_cons, concat_app. cbn. by rewrite ?app_nil_r.
    - exists (g ++ [sanitize p]), gs. rewrite concat_app. cbn [concat]. rewrite app_nil_r, len_app.
      split_and!; [by destruct g|apply packed_more; [done|done|]|lia|exact HL1|].
      + apply andb_false_iff in E as [E%Z.ltb_ge|E%Z.ltb_ge]; auto.
      + rewrite !reverse_cons, !concat_app. cbn. by rewrite !app_nil_r, app_assoc. }
  destruct Hstep as (g1 & gs1 & Hg1 & Hp1 & Hb1 & HL1' & Hcat).
  destruct (IH w1 s1 g1 gs1 rot Hev ltac:(lia) Hg1 Hp1 Hb1 HL1') as (w' & s' & g' & gs' & -> & Hset' & Hp' & Hcat' & HL').
  exists w', s', g', gs'. rewrite Hm1 in Hp'. split_and!; [done|congruence|done| |done]. rewrite Hcat', Hcat, <- app_assoc. done.
Qed.

(** C15: rotation keeps the stream.  As long as no system call fails, every write
    to a log file is accepted in full, and the files together hold exactly what
    was written, in order: the current file and the slots .1 to .N (each under
    its plain or its compressed name) are the newest of a sequence of files that
    splits the stream between writes, never inside one.  A file is larger than
    max-size only if a single write is, and a new file is begun only when the
    next write would have crossed max-size. *)
Theorem rotation_keeps_stream (evs : list (env * bytes)) (w : writer) (s : fs) (cur : bytes) (rot : list bytes) :
  Forall (calm ∘ fst) evs → 0 < maxSize w → len cur + total evs ≤ MaxInt64 → log_state w s cur rot →
  ∃ w' s' current older,
    writes evs w s = ((λ ep, Ok (len ep.2)) <$> evs, w', s') ∧
    packed (maxSize w) (current :: older) ∧
    concat (reverse (current :: older)) = cur :: ((sanitize ∘ snd) <$> evs) ∧
    log_state w' s' (concat current) ((@concat Z <$> older) ++ rot).
Proof.
  intros Hev Hmax Hb HL. assert (Hc : concat [cur] = cur) by (cbn; apply app_nil_r).
  destruct (stream_run evs w s [cur] [] rot Hev Hmax) as (w' & s' & g & gs & HW & _ & Hp & Hcat & HL').
  - done.
  - split; [intros h ->%list_elem_of_singleton; right; exists cur; split; [left|done]|]. intros [|k] ? ? _ Ho; done.
  - by rewrite Hc.
  - by rewrite Hc.
  - eexists w', s', g, gs. done.
Qed.

(** A directory with one empty log file, as [openFile] leaves it. *)
Definition fresh_fs (p : string) : fs := mkFs {[p := 0%nat]} {[0%nat := mkFile false []]} 1.
Definition fresh_writer (p : string) (maxSize maxFiles : Z) (compress : bool) : writer :=
  mkWriter (Some 0%nat) p 0 maxSize maxFiles compress.

Lemma fresh_state p ms mf c : 0 < mf → log_state (fresh_writer p ms mf c) (fresh_fs p) [] [].
Proof.
  intros Hmf. assert (Hnone : ∀ b k, entries (fresh_fs p) !! nm p b k = None).
  { intros b k. cbn. rewrite lookup_singleton_ne; [done|]. intros Hx. by destruct (nm_not_path p b k). }
  split; [split|by unfold named; cbn; rewrite lookup_singleton_eq|].
  - split; cbn.
    + intros n i [<- <-]%lookup_singleton_Some. rewrite lookup_singleton_eq. eauto.
    + intros i [f [<- _]%lookup_singleton_Some]. lia.
    + by intros n n' i [<- _]%lookup_singleton_Some [<- _]%lookup_singleton_Some.
  - done.
  - intros k _. left. apply (Hnone false).
  - exists 0%nat, (mkFile false []). cbn. by rewrite !lookup_singleton_eq.
  - intros k _. unfold slot, named. pose proof (Hnone false (Z.of_nat k + 1)) as Ha. pose proof (Hnone true (Z.of_nat k + 1)) as Hb.
    cbn [nm] in Ha, Hb. cbn [path fresh_writer]. by rewrite Ha, Hb.
Qed.

Definition quiet_env : env := mkEnv true (λ _, true) (λ _, true) true true None.

Lemma quiet_env_calm : calm quiet_env.
Proof. done. Qed.

Definition demo_writes : list (env * bytes) := (λ p, (quiet_env, p)) <$> [[97; 98]; [99; 100]; [101; 102; 103]; [104; 105; 106; 107; 108; 109]; [110]].

(** Two-byte lines in a file of four bytes, three compressed slots. *)
Lemma rotation_keeps_stream_witness :
  let '(_, w, s) := writes demo_writes (fresh_writer "/log/a" 4 3 true) (fresh_fs "/log/a") in
  named s "/log/a" = Some [110] ∧ slot "/log/a" s 1 = Some [104; 105; 106; 107; 108; 109] ∧
  slot "/log/a" s 3 = Some [97; 98; 99; 100] ∧ ∃ cur rot, log_state w s cur rot.
Proof.
  destruct (rotation_keeps_stream demo_writes (fresh_writer "/log/a" 4 3 true) (fresh_fs "/log/a") [] [])
    as (w' & s' & c & o & HW & _ & _ & HL).
  - repeat (constructor; [exact quiet_env_calm|]). constructor.
  - vm_compute. reflexivity.
  - vm_compute. discriminate.
  - apply fresh_state. vm_compute. reflexivity.
  - destruct (writes demo_writes _ _) as [[rs w] s] eqn:E. injection HW as -> -> ->.
    vm_compute in E. injection E as <- <-. split; [vm_compute; reflexivity|]. split; [vm_compute; reflexivity|].
    split; [vm_compute; reflexivity|]. eexists _, _. exact HL.
Defined.

(** ** A lost file *)

Section lost.
Context (w : writer) (Hmax : 0 < maxSize w) (Hn : 0 < maxFiles w) (Hsize : 0 < size w).

(** The name of the current file is gone, and the first [m] slots are empty. *)
Definition emptied (m : Z) (s : fs) : Prop :=
  store_ok s ∧ entries s !! path w = None ∧ ∀ b k, 1 ≤ k ≤ m → k ≤ maxFiles w → entries s !! nm (path w) b k = None.

Lemma lost_rotate e s m : calm e → 0 ≤ m → emptied m s → ∃ s',
  rotate e w s = (Some RRename, set_fd None w, s') ∧ emptied (m + 1) s'.
Proof.
  intros He Hm (Hs & Hp & Hm0). destruct (prep_spec e He (path w) (maxFiles w) s Hn Hs) as (Hs3 & _ & Hup & Hfree & Hpath).
  unfold rotate. assert (Hanc : e_ancestors e = true) by apply He. rewrite Hanc. cbn [negb path maxFiles set_fd].
  set (s3 := shift _ _ _ _) in *. rewrite Hp in Hpath. unfold Rename. rewrite Hpath. exists s3. split; [done|].
  split_and!; [done|done|]. intros b k Hk Hkm. destruct (decide (k = 1)) as [->|Hne]; [apply Hfree|].
  replace k with (k - 1 + 1) by lia. rewrite Hup by lia. apply Hm0; lia.
Qed.
End lost.

(** A lost log file takes the rotated ones with it.  Once the name of the
    current file is gone (an operator or another tool removed or moved it), every
    write that would cross max-size fails, and each one still shifts the slots
    and drops the oldest: after as many such writes as slots are kept nothing
    remains of the rotated logs, although nothing was written meanwhile. *)
Theorem lost_file_erases_history (evs : list (env * bytes)) (w : writer) (s : fs) :
  0 < maxSize w → 0 < maxFiles w → 0 < size w → store_ok s → entries s !! path w = None →
  Forall (λ ep, calm ep.1 ∧ maxSize w < wrap64 (size w + len (sanitize ep.2))) evs → maxFiles w ≤ Z.of_nat (length evs) →
  ∃ w' s', writes evs w s = ((λ _, Err NotOpen) <$> evs, w', s') ∧ ∀ k, 1 ≤ k ≤ maxFiles w → slot (path w) s' k = None.
Proof.
  intros Hmax Hn Hsize Hs Hp Hev Hlen.
  assert (Hgen : ∀ m f s, 0 ≤ m → emptied w m s → ∃ f' s',
    writes evs (set_fd f w) s = ((λ _, Err NotOpen) <$> evs, set_fd f' w, s') ∧ emptied w (m + Z.of_nat (length evs)) s').
  { clear Hlen Hs Hp s. induction Hev as [|[e p] evs [He Hc] _ IH]; intros m f s Hm Hs.
    { exists f, s. cbn [writes fmap list_fmap length]. by replace (m + Z.of_nat 0) with m by lia. }
    cbn [writes fmap list_fmap]. unfold Write. cbn [maxSize size set_fd]. cbn [snd] in Hc.
    rewrite (proj2 (Z.ltb_lt _ _) Hmax), (proj2 (Z.ltb_lt _ _) Hsize), (proj2 (Z.ltb_lt _ _) Hc). cbn [andb].
    destruct (lost_rotate (set_fd f w) Hn e s m He Hm Hs) as (s1 & -> & Hs1). cbn [fd set_fd].
    destruct (IH (m + 1) None s1 ltac:(lia) Hs1) as (f' & s' & HW & Hs').
    change (set_fd None (set_fd f w)) with (set_fd None w). rewrite HW. exists f', s'. split; [done|].
    cbn [length]. by replace (m + Z.of_nat (S (length evs))) with (m + 1 + Z.of_nat (length evs)) by lia. }
  destruct (Hgen 0 (fd w) s ltac:(lia)) as (f' & s' & HW & _ & _ & Hnone).
  { split_and!; [done|done|]. intros b k ? ?. lia. }
  exists (set_fd f' w), s'. split; [by destruct w|]. intros k Hk. unfold slot, named.
  pose proof (Hnone false k ltac:(lia) ltac:(lia)) as Ha. pose proof (Hnone true k ltac:(lia) ltac:(lia)) as Hb.
  cbn [nm] in Ha, Hb. by rewrite Ha, Hb.
Qed.

(** Two rotated files, then the current one is removed and two lines come. *)
Definition full_fs : fs := (writes demo_writes (fresh_writer "/log/a" 4 2 false) (fresh_fs "/log/a")).2.

Lemma full_store : store_ok full_fs.
Proof.
  unfold full_fs. destruct (stream_run demo_writes (fresh_writer "/log/a" 4 2 false) (fresh_fs "/log/a") [[]] [] [])
    as (w & s & g & gs & -> & _ & _ & _ & HL).
  - repeat (constructor; [exact quiet_env_calm|]). constructor.
  - done.
  - done.
  - split; [intros h ->%list_elem_of_singleton; right; exists []; split; [left|done]|]. by intros [|k].
  - vm_compute. discriminate.
  - by apply fresh_state.
  - apply HL.
Qed.

Lemma lost_file_erases_history_witness :
  slot "/log/a" full_fs 1 = Some [104; 105; 106; 107; 108; 109] ∧
  let lost := Remove quiet_env "/log/a" full_fs in
  ∃ w' s', writes [(quiet_env, [97; 98; 99; 100]); (quiet_env, [97; 98; 99; 100])] (mkWriter (Some 4%nat) "/log/a" 1 4 2 false) lost =
    ([Err NotOpen; Err NotOpen], w', s') ∧ ∀ k, 1 ≤ k ≤ 2 → slot "/log/a" s' k = None.
Proof.
  split; [vm_compute; reflexivity|]. intros lost.
  apply (lost_file_erases_history [(quiet_env, [97; 98; 99; 100]); (quiet_env, [97; 98; 99; 100])] (mkWriter (Some 4%nat) "/log/a" 1 4 2 false) lost).
  - vm_compute. reflexivity.
  - vm_compute. reflexivity.
  - vm_compute. reflexivity.
  - apply remove_store, full_store.
  - vm_compute. reflexivity.
  - repeat (constructor; [split; [exact quiet_env_calm|vm_compute; reflexivity]|]). constructor.
  - vm_compute. discriminate.
Defined.

End Rotate.
