(* ===== verification/Target.v ===== *)
(** * Log targets: src/internal/logger/target.go

    Which file a target opens and what it checks first.  The answers of the
    file system are arguments: [lstat] for a name, [leaf] for opening one. *)

From S2P Require Import Prelude GoStrings GoPath GoTime Service Config Rotate.
From Stdlib Require Import SpecFloat.

Open Scope string_scope.
Open Scope list_scope.
Open Scope Z_scope.

Module Target.

Import GoPath.

(** ** Opening a log file *)

Inductive lstat_result :=
  | LErr
  | LInfo (symlink dir : bool).

Record leaf_info := mkLeaf {
  regular : bool;
  uid : Z;
  perm : Z;
  fsize : Z;
}.

Inductive leaf_answer :=
  | LeafError
  | LeafNoStat
  | Leaf (i : leaf_info).

Inductive target_err :=
  | ENoPath
  | ERelativePath (p : string)
  | EAncestor (p : string)
  | ESymlink (p : string)
  | ENotDir (p : string)
  | EMaxSize (p : string) (e : Rotate.size_err)
  | EOpen (p : string)
  | EStat (p : string)
  | ENotRegular (p : string)
  | EOwner (p : string) (uid : Z)
  | EWorld (p : string) (perm : Z).

Section open.
Context (lstat : string → lstat_result) (leaf : string → leaf_answer) (euid : Z).

Fixpoint walk_ancestors (cur : string) (comps : list string) : result target_err unit :=
  match comps with
  | [] => Ok tt
  | comp :: comps =>
      let cur := join2 cur comp in
      match lstat cur with
      | LErr => Err (EAncestor cur)
      | LInfo symlink dir =>
          if symlink : bool then Err (ESymlink cur)
          else if negb dir then Err (ENotDir cur)
          else walk_ancestors cur comps
      end
  end.

Definition checkAncestorsNotSymlinked (path : string) : result target_err unit :=
  let rel := TrimPrefix (Dir path) "/" in
  if bool_decide (rel = "") then Ok tt else walk_ancestors "/" (Split slash rel).

Definition openLogLeaf (path : string) : result target_err leaf_info :=
  match leaf path with
  | LeafError => Err (EOpen path)
  | LeafNoStat => Err (EStat path)
  | Leaf i =>
      if negb (regular i) then Err (ENotRegular path)
      else if negb (uid i =? 0) && negb (uid i =? euid) then Err (EOwner path (uid i))
      else if negb (Z.land (perm i) 6 =? 0) then Err (EWorld path (perm i))
      else Ok i
  end.

(** The descriptor of the opened file is inode [fd] of the directory. *)
Definition openFile (fd : nat) (location : string) (cfg : Config.TargetConfig) : result target_err Rotate.writer :=
  let path := TrimPrefix location "file://" in
  if bool_decide (path = "") then Err ENoPath
  else if negb (HasPrefix path "/") then Err (ERelativePath path)
  else
    let path := Clean path in
    _ ← checkAncestorsNotSymlinked path;
    maxSize ← Service.err_map (EMaxSize path) (Rotate.parseByteSize (Config.tMaxSize cfg));
    let maxFiles := if (0 <? maxSize) && (Config.tMaxFiles cfg <=? 0) then Rotate.defaultMaxFiles else Config.tMaxFiles cfg in
    info ← openLogLeaf path;
    Ok (Rotate.mkWriter (Some fd) path (fsize info) maxSize maxFiles (Config.tCompress cfg)).

End open.

(** [AppliesTo]: no filter means every service. *)
Definition AppliesTo (cfg : Config.TargetConfig) (service : string) : bool :=
  let services : gset string := list_to_set (Config.tServices cfg) in
  bool_decide (services = ∅) || bool_decide (service ∈ services).

(** ** What the walk has seen *)

Definition real_dir (r : lstat_result) : Prop := r = LInfo false true.

Lemma walk_seen lstat comps : ∀ pre, clean_list true (pre ++ comps) →
  walk_ancestors lstat (abs pre) comps = Ok tt → ∀ cs1 cs2, comps = cs1 ++ cs2 → cs1 ≠ [] → real_dir (lstat (abs (pre ++ cs1))).
Proof.
  induction comps as [|c comps IH]; intros pre Hok H cs1 cs2 Heq Hne; [by destruct cs1|].
  destruct cs1 as [|c' cs1]; [done|]. injection Heq as <- ->. cbn [walk_ancestors] in H.
  rewrite join2_abs in H by (apply (clean_prefixes _ _ (cs1 ++ cs2)); by rewrite <- app_assoc).
  destruct (lstat (abs (pre ++ [c]))) as [|sl dir] eqn:E; [done|]. destruct sl; [done|]. destruct dir; [|done]. cbn [negb] in H.
  destruct cs1 as [|c1 cs1]; [exact E|].
  replace (pre ++ c :: c1 :: cs1) with ((pre ++ [c]) ++ (c1 :: cs1)) by (by rewrite <- app_assoc).
  eapply IH; [|exact H|reflexivity|done]. by rewrite <- app_assoc.
Qed.

Lemma first_slash c t x r : str_in slash c = false → c +:+ "/" +:+ t = x +:+ "/" +:+ r →
  x = c ∨ ∃ x', x = c +:+ "/" +:+ x' ∧ t = x' +:+ "/" +:+ r.
Proof.
  revert x. induction c as [|a c IH]; intros x Hc H.
  - destruct x as [|b x]; [by left|]. right. cbn in H. injection H as <- ->. by exists x.
  - cbn in Hc. apply orb_false_iff in Hc as [Ha%bool_decide_eq_false Hc]. destruct x as [|b x]; cbn in H.
    + injection H as -> _. done.
    + injection H as <- H. destruct (IH x Hc H) as [->|(x' & -> & ->)]; [by left|right; by exists x'].
Qed.

Lemma no_inner_slash c x r : str_in slash c = false → c ≠ x +:+ "/" +:+ r.
Proof. intros Hc ->. rewrite !str_in_app in Hc. cbn in Hc. rewrite orb_true_r in Hc. done. Qed.

Lemma ancestor_prefix cs : ∀ x r, Forall comp_ok cs → Join cs "/" = x +:+ "/" +:+ r →
  ∃ cs1 cs2, cs = cs1 ++ cs2 ∧ cs1 ≠ [] ∧ cs2 ≠ [] ∧ x = Join cs1 "/".
Proof.
  induction cs as [|c cs IH]; intros x r Hok H; [by destruct x|]. inversion Hok as [|? ? [_ Hc] Hok']; subst.
  destruct cs as [|c1 cs]; [by apply no_inner_slash in H|].
  change (c +:+ "/" +:+ Join (c1 :: cs) "/" = x +:+ "/" +:+ r) in H.
  apply first_slash in H as [->|(x' & -> & H)]; [by exists [c], (c1 :: cs)| |done].
  destruct (IH x' r Hok' H) as (cs1 & cs2 & -> & H1 & H2 & ->). exists (c :: cs1), cs2. split_and!; try done. by destruct cs1.
Qed.

Lemma ancestors_real lstat cs : clean_list true cs → checkAncestorsNotSymlinked lstat (abs cs) = Ok tt →
  ∀ anc r, anc ≠ "" → abs cs = anc +:+ "/" +:+ r → real_dir (lstat anc).
Proof.
  intros Hcl H anc r Hne Habs. destruct anc as [|a x]; [done|]. injection Habs as <- Habs.
  destruct (ancestor_prefix cs x r (proj1 Hcl) Habs) as (cs1 & cs2 & -> & H1 & H2 & ->).
  destruct (exists_last H2) as (cs3 & c & ->). rewrite app_assoc in Hcl, H.
  unfold checkAncestorsNotSymlinked, abs in H. rewrite Dir_clean in H by done. fold (abs (cs1 ++ cs3)) in H.
  apply clean_prefix in Hcl. pose proof (proj1 Hcl) as Hok.
  assert (Hrel : TrimPrefix (abs (cs1 ++ cs3)) "/" = Join (cs1 ++ cs3) "/").
  { unfold TrimPrefix, abs, render. change (HasPrefix ("/" +:+ ?x) "/") with (HasPrefix (String "/" x) (String "/" "")).
    rewrite HasPrefix_cons, bool_decide_true, HasPrefix_empty by done. done. }
  rewrite Hrel in H. assert (Hnn : cs1 ++ cs3 ≠ []) by (by destruct cs1).
  rewrite bool_decide_false in H.
  - change "/" with (str1 slash) in H at 2. rewrite Split_Join in H; [|done|eapply Forall_impl; [exact Hok|by intros ? [_ ?]]].
    change "/" with (abs []) in H. eapply (walk_seen lstat _ [] Hcl H); [reflexivity|done].
  - destruct cs1 as [|c1 cs1]; [done|]. inversion Hok as [|? ? [Hc1 _]]; subst. destruct c1; [done|]. cbn. by destruct (cs1 ++ cs3).
Qed.

Lemma size_nonneg text n : Rotate.parseByteSize text = Ok n → 0 ≤ n.
Proof.
  unfold Rotate.parseByteSize. case_bool_decide; [intros [= <-]; lia|]. destruct (Nat.eqb _ 0); [done|].
  destruct (GoFloat.GoFloat.ParseFloat _) as [x|]; [|done]. destruct (Rotate.size_unit _) as [mul|]; [|done].
  destruct (f64_leb _ (f64_of_Z 0)) eqn:E; [done|]. destruct (f64_leb (f64_of_Z two63) _); [done|].
  destruct (f64_trunc _) as [v|] eqn:Et; [|done]. intros [= <-]. revert E Et. generalize (f64_mul x (f64_of_Z mul)). intros y.
  destruct y as [sg|sg| |sg m e]; cbn; try done. destruct sg; [done|]. intros _ [= <-]. destruct (0 <=? e).
  - apply Z.mul_nonneg_nonneg; [lia|apply Z.pow_nonneg; lia].
  - destruct (Z.le_gt_cases 0 (- e)) as [He|He]; [apply Z.div_pos; [lia|apply Z.pow_pos_nonneg; lia]|].
    rewrite (Z.pow_neg_r 2 (- e)) by lia. by rewrite Z.div_0_r.
Qed.

Lemma open_fd lstat leaf euid fd location cfg w : openFile lstat leaf euid fd location cfg = Ok w → Rotate.fd w = Some fd.
Proof.
  unfold openFile. case_bool_decide; [done|]. destruct (negb _); [done|]. destruct (checkAncestorsNotSymlinked _ _); [|done].
  cbn [mbind result_bind]. destruct (Service.err_map _ _); [|done]. cbn [mbind result_bind]. destruct (openLogLeaf _ _ _); [|done]. by intros [= <-].
Qed.

(** C29: a log file gopherd writes to is trusted.  When [openFile] succeeds, the
    path it uses is absolute and clean; every proper ancestor of it (but the
    root) is a real directory, not a symbolic link; the file itself is regular,
    owned by root or by the daemon and not accessible to the world; the writer
    starts at the size of the file, and rotation, when on, keeps at least one
    file. *)
Theorem log_file_trusted (lstat : string → lstat_result) (leaf : string → leaf_answer) (euid : Z) (fd : nat)
    (location : string) (cfg : Config.TargetConfig) (w : Rotate.writer) :
  openFile lstat leaf euid fd location cfg = Ok w →
  HasPrefix (Rotate.path w) "/" = true ∧ Clean (Rotate.path w) = Rotate.path w ∧
  (∀ anc r, anc ≠ "" → Rotate.path w = anc +:+ "/" +:+ r → lstat anc = LInfo false true) ∧
  (∃ i, leaf (Rotate.path w) = Leaf i ∧ regular i = true ∧ (uid i = 0 ∨ uid i = euid) ∧ Z.land (perm i) 6 = 0 ∧
        Rotate.size w = fsize i) ∧
  0 ≤ Rotate.maxSize w ∧ (0 < Rotate.maxSize w → 0 < Rotate.maxFiles w).
Proof.
  unfold openFile. case_bool_decide; [done|]. set (p := TrimPrefix location "file://"). destruct (HasPrefix p "/") eqn:Hp; [|done]. cbn [negb].
  destruct (checkAncestorsNotSymlinked lstat (Clean p)) as [[]|] eqn:Ea; [|done]. cbn [mbind result_bind].
  destruct (Rotate.parseByteSize _) as [ms|] eqn:Es; [|done]. cbn [Service.err_map mbind result_bind].
  unfold openLogLeaf. destruct (leaf (Clean p)) as [| |i] eqn:El; [done..|].
  destruct (regular i) eqn:Er; [|done]. cbn [negb].
  destruct (negb (uid i =? 0) && negb (uid i =? euid)) eqn:Eu; [done|].
  destruct (Z.land (perm i) 6 =? 0) eqn:Ep; [|done]. cbn [negb mbind result_bind]. intros [= <-].
  cbn [Rotate.path Rotate.size Rotate.maxSize Rotate.maxFiles]. split_and!.
  - rewrite Clean_abs by done. unfold abs. rewrite <- (app_nil_r_str (render _ _)). apply prefix_render; [apply components_clean|done].
  - by apply Clean_idem.
  - rewrite Clean_abs in Ea |- * by done. exact (ancestors_real lstat _ (components_clean true p) Ea).
  - exists i. split_and!; auto; [|by apply Z.eqb_eq]. apply andb_false_iff in Eu as [Eu|Eu]; apply negb_false_iff, Z.eqb_eq in Eu; auto.
  - by eapply size_nonneg.
  - intros Hpos. rewrite (proj2 (Z.ltb_lt _ _) Hpos). cbn [andb]. unfold Rotate.defaultMaxFiles.
    destruct (Z.leb_spec (Config.tMaxFiles cfg) 0); lia.
Qed.

Definition demo_lstat (p : string) : lstat_result := if bool_decide (p ∈ ["/var"; "/var/log"]) then LInfo false true else LErr.
Definition demo_leaf (p : string) : leaf_answer := Leaf (mkLeaf true 0 416 12).
Definition demo_target : Config.TargetConfig := Config.mkTargetConfig ∅ "file" "file:///var/./log//app.log" "10MiB" [] 0 true.

Lemma log_file_trusted_witness : ∃ w,
  openFile demo_lstat demo_leaf 1000 7 (Config.tLocation demo_target) demo_target = Ok w ∧
  Rotate.path w = "/var/log/app.log" ∧ demo_lstat "/var" = LInfo false true ∧ 0 < Rotate.maxFiles w.
Proof.
  destruct (openFile demo_lstat demo_leaf 1000 7 (Config.tLocation demo_target) demo_target) as [w|] eqn:E;
    [|exfalso; vm_compute in E; discriminate E].
  exists w. destruct (log_file_trusted demo_lstat demo_leaf 1000 7 (Config.tLocation demo_target) demo_target w E)
    as (_ & _ & Hanc & _ & _ & Hfiles).
  vm_compute in E. injection E as <-. split; [done|]. split; [done|]. split.
  - apply (Hanc "/var" "log/app.log"); done.
  - apply Hfiles. vm_compute. reflexivity.
Defined.

End Target.
