(* ===== verification/Launch.v ===== *)
(** * Launching a child: src/service/service.go, src/service/file_template.go, src/main.go

    What happens between the decision to start a service and the fork: the
    dotenv file is read, credentials are resolved, templates expanded and the
    command built; and, with a umask, what the re-executed gopherd does before
    it becomes the command.  The file system, the databases and the host are
    arguments. *)

From S2P Require Import Prelude GoStrings GoPath Service Control Credential HostLimits Limits Templates Config Target.

Open Scope string_scope.
Open Scope list_scope.
Open Scope Z_scope.

Module Launch.

Import GoPath Service.

(** ** Reading files gopherd must be able to trust *)

(** What an open gives: nothing there, a bare ELOOP (the leaf is a symbolic
    link), another error, or the file's status ([None]: fstat fails) and its content
    ([None]: reading fails). *)
Record file_info := mkInfo {
  regular : bool;
  fuid : Z;
  mode : Z;
}.

Inductive opened :=
  | OFile (info : option file_info) (data : option string)
  | ONotExist
  | OLoop
  | OFailed.

(** The answers of the file system.  [f_root dir] is [os.OpenRoot]: what its
    handle opens, or the error that no such directory gives. *)
Record files := mkFiles {
  f_cwd : option string;
  f_lstat : string → Target.lstat_result;
  f_open : string → opened;
  f_root : string → opened + (string → opened);
}.

Section launch.
Context (fs : files) (euid : Z).

Definition checkAncestorsNotSymlinked (path : string) : result Target.target_err unit :=
  Target.checkAncestorsNotSymlinked (f_lstat fs) path.

(** An ancestor that cannot be used is not "does not exist": the error wraps
    the cause, and the callers test with [os.IsNotExist], which does not look
    inside. *)
Definition openConfined (clean : string) (follow : bool) : opened :=
  if follow then
    match f_root fs (Dir clean) with
    | inl e => e
    | inr root => root (Base clean)
    end
  else
    match checkAncestorsNotSymlinked clean with
    | Err _ => OFailed
    | Ok _ => f_open fs clean
    end.

(** [filepath.Abs]. *)
Definition Abs (path : string) : option string :=
  if IsAbs path then Some (Clean path) else cwd ← f_cwd fs; Some (join2 cwd path).

Definition maxDotEnvSize : Z := 1048576.
Definition maxConfigFileSize : Z := 4194304.

Inductive file_err :=
  | EAbs
  | ESymlink
  | EOpen
  | EStat
  | EIrregular (mode : Z)
  | EWorldWritable (mode owner : Z)
  | EOwner (owner : Z)
  | ERead
  | ESizeCap.

(** The checks both readers make on the open descriptor, and the capped read. *)
Definition checked_read (cap : Z) (info : option file_info) (data : option string) : result file_err string :=
  match info with
  | None => Err EStat
  | Some i =>
      if negb (regular i) then Err (EIrregular (mode i))
      else if negb (Z.land (mode i) 2 =? 0) then Err (EWorldWritable (mode i) (fuid i))
      else if negb (fuid i =? 0) && negb (fuid i =? euid) then Err (EOwner (fuid i))
      else match data with
           | None => Err ERead
           | Some d => if cap <? Z.of_nat (String.length d) then Err ESizeCap else Ok d
           end
  end.

Definition read_dotenv (path : string) (follow : bool) : result file_err string :=
  match Abs path with
  | None => Err EAbs
  | Some abs =>
      match openConfined (Clean abs) follow with
      | OLoop => Err ESymlink
      | OFile info data => checked_read maxDotEnvSize info data
      | _ => Err EOpen
      end
  end.

Definition openConfigFile (path : string) : result file_err (option file_info * option string) :=
  match f_open fs path with
  | OLoop => Err ESymlink
  | OFile info data => Ok (info, data)
  | _ => Err EOpen
  end.

Definition readConfigFile (path : string) : result file_err string :=
  '(info, data) ← openConfigFile path;
  checked_read maxConfigFileSize info data.

(** [openFileTemplate]: a symbolic link has an error of its own.  A failing
    fstat counts with the other errors of the open. *)
Definition openFileTemplate (clean : string) (follow : bool) : Templates.open_result :=
  match openConfined clean follow with
  | OFile (Some i) data => Templates.FOpened (regular i) data
  | OFile None _ => Templates.FOther
  | ONotExist => Templates.FNotExist
  | OLoop => Templates.FSymlink
  | OFailed => Templates.FOther
  end.

(** What the templates of a child read. *)
Definition template_file (path : string) (follow : bool) : Templates.open_result := openFileTemplate (Clean path) follow.

(** ** The plan *)

Record Cmd := mkCmd {
  Path : string;
  Args : list string;
  Dir' : string;
  Env : option (list string);
  Inherit : bool;
  Setsid : bool;
  Pdeathsig : option Z;
  Cred : option Credential.Cred;
}.

Record StartPlan := mkPlan {
  cmd : Cmd;
  allowedUID : Z;
  sdNotify : bool;
}.

Inductive prep_err :=
  | PDotEnv (e : file_err)
  | PDotEnvText (e : string)
  | PCredential (e : Credential.cred_err)
  | PTemplate (e : Templates.tmpl_err)
  | PSelfExe
  | PLookPath (name : string)
  | PDeathSignal (e : string).

(** The rest of the world: the environment, the databases, gopherd's own path,
    [exec.LookPath] and the limits of the host when they were first read. *)
Record world := mkWorld {
  w_environ : list string;
  w_Lookup : string → option Credential.User;
  w_LookupId : string → option Credential.User;
  w_LookupGroup : string → option string;
  w_getuid : Z;
  w_selfExe : option string;
  w_LookPath : string → option string;
  w_host : HostLimits.host;
}.

Context (w : world).

Definition totalMiB : Z := match HostLimits.mem_available (w_host w) with Ok n => n | Err _ => 0 end.
Definition totalCPUs : Z := HostLimits.cpu_available (w_host w).

Definition UmaskShimFlag : string := "--umask-shim".

(** [exec.Command]: the arguments begin with the name. *)
Definition command (name : string) (args : list string) : Cmd := mkCmd name (name :: args) "" None false false None None.

Definition buildCommand (p : Process) (args : list string) : result prep_err Cmd :=
  if bool_decide (pUmask p = "") then Ok (command (pCommand p) args)
  else match w_selfExe w with
  | None => Err PSelfExe
  | Some selfExe =>
      let name := pCommand p in
      let name := if Contains name "/" && negb (IsAbs name) && negb (bool_decide (pWorkingDir p = ""))
                  then join2 (pWorkingDir p) name else name in
      match w_LookPath w name with
      | None => Err (PLookPath name)
      | Some path => Ok (mkCmd selfExe ([selfExe; UmaskShimFlag; pUmask p; path; pCommand p] ++ args) "" None false false None None)
      end
  end.

Definition expand (env : gmap string string) (values : list string) : result prep_err (list string) :=
  match Templates.expandTemplates template_file values env totalMiB totalCPUs with
  | Ok (vs, _) => Ok vs
  | Err e => Err (PTemplate e)
  end.

(** Whether the value of a variable is expanded. *)
Definition is_user (userKeys : gset string) (kv : string * string) : bool :=
  bool_decide (kv.1 ∈ userKeys) && Contains kv.2 "{{".

(** The expanded values put back where they came from. *)
Fixpoint put_back (userKeys : gset string) (l : list (string * string)) (vs : list string) : list (string * string) :=
  match l with
  | [] => []
  | kv :: l =>
      if is_user userKeys kv then
        match vs with
        | v :: vs => (kv.1, v) :: put_back userKeys l vs
        | [] => kv :: put_back userKeys l []
        end
      else kv :: put_back userKeys l vs
  end.

(** Expansion of the values of the user's keys, in the order the map is walked. *)
Definition expand_user (env : gmap string string) (userKeys : gset string) (order : list (string * string))
    : result prep_err (list (string * string)) :=
  expanded ← expand env (map snd (filter (λ kv, is_user userKeys kv = true) order));
  Ok (put_back userKeys order expanded).

Definition explicit_env (s : Service) (exportSocket : bool) : bool :=
  let p := Proc s in
  negb (default false (pPassEnv p)) || negb (bool_decide (pDotEnv p = "")) || negb (bool_decide (pEnvironment p = ∅))
  || negb (bool_decide (pRemoveEnv p = [])) || pSDNotify p || exportSocket.

Definition exports (s : Service) : bool := default false (pExportSocket (Proc s)) && negb (bool_decide (ControlSocket s = "")).

(** The content of the dotenv file, if one is configured. *)
Definition dotenv_content (p : Process) : result prep_err (option string) :=
  if bool_decide (pDotEnv p = "") then Ok None
  else match read_dotenv (pDotEnv p) (pDotEnvFollow p) with Ok d => Ok (Some d) | Err e => Err (PDotEnv e) end.

Definition death_signal (p : Process) : result prep_err (option Z) :=
  if bool_decide (pParentDeathSignal p = "") then Ok None
  else match ParseSignal (pParentDeathSignal p) with Ok sig => Ok (Some sig) | Err e => Err (PDeathSignal e) end.

Definition kv_text (kv : string * string) : string := kv.1 +:+ "=" +:+ kv.2.

Definition cmd_env (s : Service) (env : gmap string string) (userKeys : gset string) (order : list (string * string))
    : result prep_err (option (list string)) :=
  if explicit_env s (exports s) then
    kvs ← expand_user env userKeys order;
    Ok (Some (map kv_text kvs))
  else Ok None.

Definition credential (p : Process) : result prep_err (option Credential.Cred) :=
  err_map PCredential
    (Credential.ResolveCredential (w_Lookup w) (w_LookupId w) (w_LookupGroup w) (w_getuid w)
       (pUser p) (pGroup p) (pUserID p) (pGroupID p) (pStrictGroups p)).

(** [order] is the walk over the environment map. *)
Definition PrepareStart (s : Service) (order : list (string * string)) : result prep_err StartPlan :=
  let p := Proc s in
  dotenv ← dotenv_content p;
  '(env, userKeys) ← err_map PDotEnvText (child_env (w_environ w) dotenv s);
  cred ← credential p;
  let allowedUID := match cred with Some c => Credential.cUid c | None => euid end in
  args ← expand env (pArgs p);
  c ← buildCommand p args;
  pdeath ← death_signal p;
  cmdEnv ← cmd_env s env userKeys order;
  Ok (mkPlan (mkCmd (Path c) (Args c) (pWorkingDir p) cmdEnv (negb (LogCapture s)) true pdeath cred) allowedUID (pSDNotify p)).

End launch.

(** ** The process that runs the plan *)

(** How gopherd's main goes on: what [execve] runs with which mask, the client,
    the daemon with its entrypoint arguments, or an end. *)
Inductive main_action :=
  | Exec (umask : option Z) (path : string) (argv : list string)
  | ShimFails
  | Client (args : list string)
  | PrintVersion
  | PrintTag
  | NotFound (name : string)
  | Daemon (entrypointArgs : list string).

(** [RunUmaskShim]: [None] unless the arguments are those of a shim. *)
Definition RunUmaskShim (argv : list string) : option main_action :=
  match argv with
  | _ :: flag :: rest =>
      if bool_decide (flag = UmaskShimFlag) then
        match rest with
        | mask :: path :: argv0 :: args =>
            match ParseUmask mask with
            | None => Some ShimFails
            | Some n => Some (Exec (Some n) path (argv0 :: args))
            end
        | _ => Some ShimFails
        end
      else None
  | _ => None
  end.

(** The arguments before and after the first "--". *)
Fixpoint split_dashes (args : list string) : list string * list string :=
  match args with
  | [] => ([], [])
  | a :: args => if bool_decide (a = "--") then ([], args) else let '(p, e) := split_dashes args in (a :: p, e)
  end.

Definition split_args (args : list string) : list string * list string :=
  match args with
  | a :: rest => if HasPrefix a "-" then ([], if bool_decide (a = "--") then rest else args) else split_dashes args
  | [] => ([], [])
  end.

Definition main (LookPath : string → option string) (argv : list string) : main_action :=
  match RunUmaskShim argv with
  | Some a => a
  | None =>
      let '(programArgs, entrypointArgs) := split_args (tail argv) in
      match programArgs with
      | [] => Daemon entrypointArgs
      | first :: _ =>
          if Control.IsClientCommand programArgs then Client programArgs
          else if bool_decide (first = "version") then PrintVersion
          else if bool_decide (first = "tag") then PrintTag
          else match LookPath first with
               | None => NotFound first
               | Some path => Exec None path (programArgs ++ entrypointArgs)
               end
      end
  end.

(** ** The argument vector *)

(** A umask changes nothing but the mask.  With a valid umask the command is
    gopherd's own binary, and gopherd started with the arguments of the plan
    sets the mask and becomes the resolved command with the very argument
    vector the command has without a umask; it never takes them for a client
    command or starts a second daemon. *)
Theorem umask_shim_transparent (w : world) (p : Process) (args : list string) (c : Cmd) (n : Z)
    (LookPath : string → option string) :
  buildCommand w p args = Ok c →
  (pUmask p = "" → Path c = pCommand p ∧ Args c = pCommand p :: args) ∧
  (ParseUmask (pUmask p) = Some n →
     0 ≤ n ≤ 511 ∧ w_selfExe w = Some (Path c) ∧
     ∃ name path, w_LookPath w name = Some path ∧
       (name = pCommand p ∨ name = join2 (pWorkingDir p) (pCommand p)) ∧
       main LookPath (Args c) = Exec (Some n) path (pCommand p :: args)).
Proof.
  unfold buildCommand. case_bool_decide as Hu.
  { intros [= <-]. split; [done|]. rewrite Hu. done. }
  destruct (w_selfExe w) as [self|]; [|done]. set (name := if _ && _ && _ then _ else _).
  destruct (w_LookPath w name) as [path|] eqn:El; [|done]. intros [= <-]. split; [done|]. intros Hn. split.
  - unfold ParseUmask in Hn. destruct (ParseUint (pUmask p) 8 32) as [m|] eqn:Em; [|done]. cbn in Hn.
    destruct (Z.ltb_spec 511 m); [done|]. injection Hn as <-. split; [|done]. unfold ParseUint in Em.
    destruct (parse_nat 8 (pUmask p)) as [v|] eqn:Ev; [|done]. cbn in Em. destruct (v <? 2 ^ 32); [|done]. injection Em as <-.
    unfold parse_nat in Ev. destruct (pUmask p); [done|]. eapply digits_val_nonneg; [..|exact Ev]; lia.
  - split; [done|]. exists name, path. split; [done|]. split; [subst name; destruct (_ && _ && _); auto|].
    unfold main, RunUmaskShim. cbn [Args app]. rewrite bool_decide_true by done. by rewrite Hn.
Qed.

(** ** The whole plan *)

Section plan.
Context (fs : files) (euid : Z) (w : world).

(** The value a template text stands for. *)
Definition expands (env : gmap string string) (v o : string) : Prop :=
  ∃ missing, Templates.expand_value (template_file fs) env (totalMiB w) (totalCPUs w) v = Ok (o, missing).

Lemma expandTemplates_each env vs : ∀ acc out,
  foldM (λ acc s,
    '(v, missing) ← Templates.expand_value (template_file fs) env (totalMiB w) (totalCPUs w) s;
    Ok (acc.1 ++ [v], foldl (λ w n, if bool_decide (n ∈ w) then w else w ++ [n]) acc.2 missing)) acc vs = Ok out →
  ∃ outs, out.1 = acc.1 ++ outs ∧ Forall2 (expands env) vs outs.
Proof.
  induction vs as [|v vs IH]; intros acc out; cbn [foldM]; [intros [= <-]; exists []; by rewrite app_nil_r|].
  destruct (Templates.expand_value _ env _ _ v) as [[o missing]|] eqn:E; [|done]. cbn [mbind result_bind].
  intros (outs & -> & H)%IH. exists (o :: outs). cbn. rewrite <- app_assoc. split; [done|]. constructor; [by exists missing|done].
Qed.

Lemma expand_each env vs outs : expand fs w env vs = Ok outs → Forall2 (expands env) vs outs.
Proof.
  unfold expand, Templates.expandTemplates. destruct (foldM _ _ vs) as [[o m]|] eqn:E; [|done]. intros [= <-].
  apply expandTemplates_each in E as (os & Ho & H). cbn in Ho. by subst.
Qed.

(** A text without a placeholder stands for itself. *)
Lemma expands_plain env v : Contains v "{{" = false → expands env v v.
Proof. intros H. unfold expands, Templates.expand_value. rewrite H. by eexists. Qed.

Lemma put_back_each env keys l : ∀ vs, Forall2 (expands env) (map snd (filter (λ kv, is_user keys kv = true) l)) vs →
  Forall2 (λ kv kv', kv'.1 = kv.1 ∧ if bool_decide (kv.1 ∈ keys) then expands env kv.2 kv'.2 else kv'.2 = kv.2) l (put_back keys l vs).
Proof.
  induction l as [|kv l IH]; intros vs H; [constructor|]. cbn [put_back]. destruct (is_user keys kv) eqn:Eu.
  - rewrite filter_cons_True in H by done. cbn [map] in H. inversion H as [|? v ? vs' Hv Hvs]; subst.
    constructor; [|by apply IH]. split; [done|]. unfold is_user in Eu. apply andb_true_iff in Eu as [-> _]. done.
  - rewrite filter_cons_False in H by (by rewrite Eu). constructor; [|by apply IH]. split; [done|].
    case_bool_decide as Hk; [|done]. apply expands_plain. unfold is_user in Eu. rewrite bool_decide_true in Eu by done. done.
Qed.

(** The list of variables as a map. *)
Lemma put_back_map (env : gmap string string) (keys : gset string) (order kvs : list (string * string)) : order ≡ₚ map_to_list env →
  Forall2 (λ kv kv', kv'.1 = kv.1 ∧ if bool_decide (kv.1 ∈ keys) then expands env kv.2 kv'.2 else kv'.2 = kv.2) order kvs →
  ∃ m : gmap string string, kvs ≡ₚ map_to_list m ∧
    ∀ k, match env !! k with
         | None => m !! k = None
         | Some v => ∃ v', m !! k = Some v' ∧ if bool_decide (k ∈ keys) then expands env v v' else v' = v
         end.
Proof.
  intros Hp Hf. assert (Hk : map fst kvs = map fst order) by (clear Hp; induction Hf as [|? ? ? ? [H _] _ IH]; cbn; [done|by rewrite H, IH]).
  assert (Hnd : NoDup (map fst order)).
  { change (NoDup (order.*1)). rewrite Hp. apply NoDup_fst_map_to_list. }
  assert (Hnd' : NoDup (kvs.*1)) by (change (NoDup (map fst kvs)); by rewrite Hk).
  exists (list_to_map kvs). split; [by rewrite map_to_list_to_map|]. intros k. destruct (env !! k) as [v|] eqn:E.
  - assert (Hin : (k, v) ∈ order) by (rewrite Hp; by apply elem_of_map_to_list).
    apply list_elem_of_lookup in Hin as [i Hi]. destruct (Forall2_lookup_l _ _ _ _ _ Hf Hi) as ([k' v'] & Hi' & Hk' & Hv). cbn in Hk', Hv. subst k'.
    exists v'. split; [|done]. apply elem_of_list_to_map; [done|]. apply list_elem_of_lookup. by exists i.
  - apply not_elem_of_list_to_map. change (k ∉ map fst kvs). rewrite Hk. intros ([k' v] & -> & Hin)%list_elem_of_fmap.
    rewrite Hp in Hin. apply elem_of_map_to_list in Hin. cbn in E. congruence.
Qed.

(** Without an explicit environment the child inherits gopherd's, which is then
    its environment. *)
Lemma inherited_env s dotenv env keys : explicit_env s (exports s) = false →
  dotenv_content fs euid (Proc s) = Ok dotenv → child_env (w_environ w) dotenv s = Ok (env, keys) →
  env = os_env (w_environ w) ∧ pSDNotify (Proc s) = false.
Proof.
  unfold explicit_env. rewrite !orb_false_iff, !negb_false_iff. intros (((((Hp & Hd) & He) & Hr) & Hs) & Hx).
  apply bool_decide_eq_true in Hd, He, Hr. unfold dotenv_content. rewrite bool_decide_true by done. intros [= <-].
  unfold child_env, buildEnvMap. rewrite Hp, He, Hr. fold (exports s). rewrite Hx. cbn [mbind result_bind foldr]. intros [= <- _].
  split; [|done]. unfold merge_env. by rewrite !(left_id_L ∅ (∪)).
Qed.

Lemma plan_credential s order plan : PrepareStart fs euid w s order = Ok plan → credential w (Proc s) = Ok (Cred (cmd plan)).
Proof.
  unfold PrepareStart. destruct (dotenv_content _ _ _); [|done]. cbn [mbind result_bind]. destruct (err_map _ _) as [[env keys]|]; [|done].
  cbn [mbind result_bind]. destruct (credential w (Proc s)) as [cred|]; [|done]. cbn [mbind result_bind].
  destruct (expand _ _ _ _); [|done]. cbn [mbind result_bind]. destruct (buildCommand _ _ _); [|done]. cbn [mbind result_bind].
  destruct (death_signal _); [|done]. cbn [mbind result_bind]. destruct (cmd_env _ _ _ _ _ _); [|done]. by intros [= <-].
Qed.

(** The parts of a plan PrepareStart returns, in terms of the code. *)
Lemma plan_parts (s : Service) (order : list (string * string)) (plan : StartPlan)
    (dotenv : option string) (env : gmap string string) (keys : gset string) :
  dotenv_content fs euid (Proc s) = Ok dotenv → child_env (w_environ w) dotenv s = Ok (env, keys) → order ≡ₚ map_to_list env →
  PrepareStart fs euid w s order = Ok plan →
  (∃ args c, Forall2 (expands env) (pArgs (Proc s)) args ∧ buildCommand w (Proc s) args = Ok c ∧
     Path (cmd plan) = Path c ∧ Args (cmd plan) = Args c) ∧
  match Env (cmd plan) with
  | None => env = os_env (w_environ w) ∧ sdNotify plan = false
  | Some kvs => ∃ m : gmap string string, kvs ≡ₚ map kv_text (map_to_list m) ∧
      ∀ k, match env !! k with
           | None => m !! k = None
           | Some v => ∃ v', m !! k = Some v' ∧ if bool_decide (k ∈ keys) then expands env v v' else v' = v
           end
  end ∧
  credential w (Proc s) = Ok (Cred (cmd plan)) ∧
  allowedUID plan = match Cred (cmd plan) with Some c => Credential.cUid c | None => euid end ∧
  Setsid (cmd plan) = true ∧ Dir' (cmd plan) = pWorkingDir (Proc s) ∧ sdNotify plan = pSDNotify (Proc s) ∧
  death_signal (Proc s) = Ok (Pdeathsig (cmd plan)) ∧ Inherit (cmd plan) = negb (LogCapture s).
Proof.
  intros Hd Hc Ho. unfold PrepareStart. rewrite Hd. cbn [mbind result_bind]. rewrite Hc. cbn [err_map mbind result_bind].
  destruct (credential w (Proc s)) as [cred|]; [|done]. cbn [mbind result_bind].
  destruct (expand fs w env (pArgs (Proc s))) as [args|] eqn:Ea; [|done]. cbn [mbind result_bind].
  destruct (buildCommand w (Proc s) args) as [c|] eqn:Eb; [|done]. cbn [mbind result_bind].
  destruct (death_signal (Proc s)) as [pd|] eqn:Epd; [|done]. cbn [mbind result_bind].
  destruct (cmd_env fs w s env keys order) as [ce|] eqn:Ee; [|done]. cbn [mbind result_bind]. intros [= <-].
  cbn [cmd allowedUID sdNotify Path Args Env Cred Setsid Dir' Pdeathsig Inherit]. split; [exists args, c; split; [by apply expand_each|done]|].
  split; [|done]. unfold cmd_env in Ee. destruct (explicit_env s (exports s)) eqn:Ex.
  - unfold expand_user in Ee. destruct (expand fs w env (map snd _)) as [vs|] eqn:Ev; [|done]. cbn [mbind result_bind] in Ee.
    injection Ee as <-.
    apply expand_each in Ev. destruct (put_back_map env keys order _ Ho (put_back_each env keys order vs Ev)) as (m & Hm & Hk).
    exists m. split; [by rewrite Hm|done].
  - injection Ee as <-. by eapply inherited_env.
Qed.

End plan.

(** ** Entrypoint arguments *)

(** What the command line means: the arguments before the first "--" choose what
    gopherd does, those after it go to the entrypoint service (or to the command
    gopherd becomes) unchanged; a line that starts with a dash has no command. *)
Lemma split_dashes_app prog entry : Forall (λ a, a ≠ "--") prog → split_dashes (prog ++ "--" :: entry) = (prog, entry).
Proof.
  induction prog as [|a prog IH]; [by cbn|]. intros [Ha Hl]%Forall_cons. cbn [app split_dashes]. rewrite bool_decide_false by done. by rewrite IH.
Qed.

Lemma split_args_app prog entry : Forall (λ a, a ≠ "--") prog → HasPrefix (default "" (head prog)) "-" = false →
  split_args (prog ++ "--" :: entry) = (prog, entry).
Proof.
  intros Hp Hd. destruct prog as [|a prog]; [by cbn|]. change (HasPrefix a "-" = false) in Hd.
  unfold split_args. cbn [app]. rewrite Hd. by apply (split_dashes_app (a :: prog)).
Qed.

(** ** Trusted files *)

Definition trusted_info (euid : Z) (i : file_info) : Prop :=
  regular i = true ∧ Z.land (mode i) 2 = 0 ∧ (fuid i = 0 ∨ fuid i = euid).

Lemma checked_read_ok euid cap info data d : checked_read euid cap info data = Ok d →
  data = Some d ∧ Z.of_nat (String.length d) ≤ cap ∧ ∃ i, info = Some i ∧ trusted_info euid i.
Proof.
  unfold checked_read. destruct info as [i|]; [|done]. destruct (regular i) eqn:Er; [|done]. cbn [negb].
  destruct (Z.eqb_spec (Z.land (mode i) 2) 0) as [Hm|]; [|done]. cbn [negb].
  destruct (negb (fuid i =? 0) && negb (fuid i =? euid)) eqn:Eu; [done|]. destruct data as [x|]; [|done].
  destruct (Z.ltb_spec cap (Z.of_nat (String.length x))); [done|]. intros [= <-]. split; [done|]. split; [done|]. exists i. split; [done|].
  split; [done|]. split; [done|]. apply andb_false_iff in Eu as [Eu|Eu]; apply negb_false_iff, Z.eqb_eq in Eu; auto.
Qed.

Lemma abs_clean fs path a : Abs fs path = Some a → (∀ d, f_cwd fs = Some d → IsAbs d = true) → IsAbs (Clean a) = true ∧ ∃ cs, Clean a = abs cs ∧ clean_list true cs.
Proof.
  intros Ha Hcwd. assert (Hp : ∃ q, IsAbs q = true ∧ a = Clean q).
  { unfold Abs in Ha. destruct (IsAbs path) eqn:Ep; [injection Ha as <-; by exists path|].
    destruct (f_cwd fs) as [d|] eqn:Ed; [|done]. cbn in Ha. injection Ha as <-. specialize (Hcwd d eq_refl).
    exists (d +:+ "/" +:+ path). unfold join2. rewrite bool_decide_false by (by intros ->). split; [|done].
    unfold IsAbs in *. destruct d as [|x d]; [done|]. change (HasPrefix (String x (d +:+ "/" +:+ path)) "/" = true).
    rewrite HasPrefix_cons in Hcwd |- *. case_bool_decide; [apply HasPrefix_empty|done]. }
  destruct Hp as (q & Hq & ->). rewrite Clean_idem by done. rewrite Clean_abs by done. split.
  - unfold IsAbs, abs. apply prefix_abs, components_clean.
  - eexists. split; [done|apply components_clean].
Qed.

(** Only trusted files reach a child or configure the daemon.  A dotenv file
    that is read without following links has an absolute clean path every proper
    ancestor of which (but the root) is a real directory; and a dotenv or
    configuration file that is read is a regular file of root or the daemon's
    user that the world cannot write, and fits its size cap: what is read is all
    of it. *)
Theorem trusted_files (fs : files) (euid : Z) (path : string) (data : string) :
  (∀ d, f_cwd fs = Some d → IsAbs d = true) →
  (∀ follow, read_dotenv fs euid path follow = Ok data →
     Z.of_nat (String.length data) ≤ maxDotEnvSize ∧
     ∃ clean i, Clean clean = clean ∧ IsAbs clean = true ∧ openConfined fs clean follow = OFile (Some i) (Some data) ∧
       trusted_info euid i ∧
       (follow = false → ∀ anc r, anc ≠ "" → clean = anc +:+ "/" +:+ r → f_lstat fs anc = Target.LInfo false true)) ∧
  (readConfigFile fs euid path = Ok data →
     Z.of_nat (String.length data) ≤ maxConfigFileSize ∧ ∃ i, f_open fs path = OFile (Some i) (Some data) ∧ trusted_info euid i).
Proof.
  intros Hcwd. split.
  - intros follow. unfold read_dotenv. destruct (Abs fs path) as [a|] eqn:Ea; [|done].
    destruct (abs_clean fs path a Ea Hcwd) as (Habs & cs & Hcs & Hcl).
    destruct (openConfined fs (Clean a) follow) as [info d| | |] eqn:Eo; try done. intros (-> & Hcap & i & -> & Hi)%checked_read_ok.
    split; [done|]. exists (Clean a), i. split; [rewrite Hcs; rewrite Clean_abs by (by apply prefix_abs); unfold abs; by rewrite components_render|].
    split; [done|]. split; [done|]. split; [done|]. intros -> anc r Hne Hsplit. unfold openConfined in Eo.
    destruct (checkAncestorsNotSymlinked fs (Clean a)) as [[]|] eqn:Ec; [|done]. rewrite Hcs in Ec, Hsplit.
    exact (Target.ancestors_real (f_lstat fs) cs Hcl Ec anc r Hne Hsplit).
  - unfold readConfigFile, openConfigFile. destruct (f_open fs path) as [info d| | |]; try done. cbn [mbind result_bind].
    intros (-> & Hcap & i & -> & Hi)%checked_read_ok. split; [done|]. by exists i.
Qed.

(** ** An example *)

Definition demo_files : files :=
  mkFiles (Some "/srv") (λ p, if bool_decide (p ∈ ["/etc"; "/srv"; "/srv/conf"]) then Target.LInfo false true else Target.LErr)
    (λ p, if bool_decide (p = "/srv/conf/app.env")
          then OFile (Some (mkInfo true 0 420)) (Some ("TOKEN=x{{.HOME}}" +:+ str1 "010")) else ONotExist)
    (λ d, if bool_decide (d = "/srv/conf") then inr (λ _, ONotExist) else inl ONotExist).

Definition demo_world : world :=
  mkWorld ["HOME=/root"; "LANG={{.C}}"] Credential.demo_user Credential.demo_user Credential.demo_group 0
    (Some "/usr/bin/gopherd") (λ n, if bool_decide (n = "web") then Some "/usr/bin/web" else None) HostLimits.pod.

Definition demo_process : Process :=
  mkProcess None None {["MODE" := "c{{cpu}}"]} ∅ (Some true) None None "web" "web" "" "app" "" "" "" "" "" "" "" "" "" "" "" "" "" ""
    "027" "conf/app.env" "" "" "SIGTERM" ∅ ∅ ["-n"; "{{cpu}}"; "{{.MODE}}"] [] [] [] ["LANG"] f64_two false true false false false.

Definition demo_service : Service :=
  mkService demo_process "web" true false false None 15 0 ActionShutdown ActionShutdown (backoff_New 0 f64_two 0) ∅ ∅ true "" "" None
    0 false false None 0 0 0 None.

Definition demo_order : list (string * string) := [("HOME", "/root"); ("TOKEN", "x{{.HOME}}"); ("MODE", "c{{cpu}}")].
Definition demo_env : gmap string string := list_to_map demo_order.
Definition demo_keys : gset string := {["TOKEN"; "MODE"]}.

Definition demo_plan : StartPlan :=
  mkPlan (mkCmd "/usr/bin/gopherd" ["/usr/bin/gopherd"; "--umask-shim"; "027"; "/usr/bin/web"; "web"; "-n"; "2"; "c{{cpu}}"] ""
            (Some ["HOME=/root"; "TOKEN=x/root"; "MODE=c2"]) false true (Some 15) (Some (Credential.mkCred 1000 1000 [1000; 998])))
    1000 true.

Lemma demo_dotenv : dotenv_content demo_files 0 demo_process = Ok (Some ("TOKEN=x{{.HOME}}" +:+ str1 "010")).
Proof. vm_compute. reflexivity. Qed.

Lemma demo_prepared : PrepareStart demo_files 0 demo_world demo_service demo_order = Ok demo_plan.
Proof. vm_compute. reflexivity. Qed.

Lemma umask_shim_transparent_witness :
  main (λ _, None) ["/usr/bin/gopherd"; "--umask-shim"; "027"; "/usr/bin/web"; "web"; "-n"; "2"] =
    Exec (Some 23) "/usr/bin/web" ["web"; "-n"; "2"].
Proof.
  destruct (buildCommand demo_world demo_process ["-n"; "2"]) as [c|] eqn:E; [|exfalso; vm_compute in E; discriminate E].
  destruct (umask_shim_transparent demo_world demo_process ["-n"; "2"] c 23 (λ _, None) E) as [_ H].
  destruct H as (_ & _ & name & path & Hl & Hname & Hm); [vm_compute; reflexivity|]. vm_compute in E. injection E as <-.
  cbn [Args] in Hm. destruct Hname as [-> | ->]; vm_compute in Hl; injection Hl as <-; exact Hm.
Defined.

Lemma trusted_files_witness :
  read_dotenv demo_files 0 "conf/app.env" false = Ok ("TOKEN=x{{.HOME}}" +:+ str1 "010") ∧
  f_lstat demo_files "/srv/conf" = Target.LInfo false true.
Proof.
  assert (Hr : read_dotenv demo_files 0 "conf/app.env" false = Ok ("TOKEN=x{{.HOME}}" +:+ str1 "010")) by (vm_compute; reflexivity).
  assert (Hcwd : ∀ d, f_cwd demo_files = Some d → IsAbs d = true) by (intros d [= <-]; reflexivity).
  destruct (trusted_files demo_files 0 "conf/app.env" ("TOKEN=x{{.HOME}}" +:+ str1 "010") Hcwd) as [H _].
  destruct (H false Hr) as (_ & clean & i & _ & _ & Hopen & _ & Hanc). split; [exact Hr|].
  assert (Hclean : clean = "/srv/conf/app.env").
  { unfold openConfined in Hopen. destruct (checkAncestorsNotSymlinked _ _); [|discriminate Hopen]. unfold demo_files in Hopen. cbn [f_open] in Hopen.
    destruct (bool_decide_reflect (clean = "/srv/conf/app.env")); [done|discriminate Hopen]. }
  subst clean. apply (Hanc eq_refl "/srv/conf" "app.env"); done.
Defined.

(** A {{file}} default stands in for a missing file, and, with [follow], for a
    missing directory; without [follow] a missing directory is an error. *)
Example default_needs_directory :
  Templates.readFileTemplate (template_file demo_files) "/srv/conf/pw" false false (Some "none") = Ok "none" ∧
  Templates.readFileTemplate (template_file demo_files) "/run/secrets/pw" false true (Some "none") = Ok "none" ∧
  Templates.readFileTemplate (template_file demo_files) "/run/secrets/pw" false false (Some "none") = Err (Templates.EOpen "/run/secrets/pw").
Proof. vm_compute. repeat split. Qed.

End Launch.
