(* ===== verification/LaunchSpec.v ===== *)
(** * What a child is launched with

    The plan of PrepareStart (src/service/service.go, Launch.v) said with the
    settings of the process: its command line, environment, credentials and
    session. *)

From S2P Require Import Prelude GoStrings GoPath Service Credential Templates Config ConfigTheorems ConfigSpec Launch.

Open Scope string_scope.
Open Scope list_scope.
Open Scope Z_scope.

Module LaunchSpec.
Import GoPath Service Launch.

(** ** The environment *)

Definition entry (k v : string) : string := k +:+ "=" +:+ v.

(** gopherd's own environment has [k] with value [v]: the last entry counts. *)
Definition inherits (environ : list string) (k v : string) : Prop :=
  k ≠ "" ∧ str_in "=" k = false ∧ ∃ l1 l2, environ = l1 ++ entry k v :: l2 ∧ ∀ u, entry k u ∉ l2.

(** The user sets [k] to the template text [v]: in the process, or else in the
    dotenv file [de]. *)
Definition configured (p : Process) (de : gmap string string) (k v : string) : Prop :=
  pEnvironment p !! k = Some v ∨ (pEnvironment p !! k = None ∧ de !! k = Some v).

(** Otherwise [k] comes from gopherd's environment, with pass-env, or is the
    exported control socket. *)
Definition handed_on (environ : list string) (s : Service) (k v : string) : Prop :=
  let inherited v := pPassEnv (Proc s) = Some true ∧ inherits environ k v in
  inherited v ∨
  ((¬ ∃ u, inherited u) ∧ k = "GOPHERD_SOCKET" ∧ pExportSocket (Proc s) = Some true ∧ v = ControlSocket s ∧ v ≠ "").

Definition variable (environ : list string) (s : Service) (de : gmap string string) (k v : string) : Prop :=
  (k ∉ pRemoveEnv (Proc s)) ∧
  (configured (Proc s) de k v ∨ ((¬ ∃ u, configured (Proc s) de k u) ∧ handed_on environ s k v)).

(** The variables of the dotenv file, if one is configured. *)
Definition dotenv_file (fs : files) (euid : Z) (p : Process) (de : gmap string string) : Prop :=
  (pDotEnv p = "" ∧ de = ∅) ∨
  (pDotEnv p ≠ "" ∧ ∃ data, read_dotenv fs euid (pDotEnv p) (pDotEnvFollow p) = Ok data ∧ parseDotEnv data = Ok de).

(** ** The command line *)

(** Where the command is looked up for a umask: a relative path with a slash
    starts in the working directory. *)
Definition looked_up (p : Process) (name : string) : Prop :=
  let relative := Contains (pCommand p) "/" = true ∧ IsAbs (pCommand p) = false ∧ pWorkingDir p ≠ "" in
  (relative → name = join2 (pWorkingDir p) (pCommand p)) ∧ (¬ relative → name = pCommand p).

(** Path and argument vector of [p] with arguments [args]: its own, or with a
    umask those of gopherd, which sets it and becomes the command. *)
Definition runs (w : world) (p : Process) (args : list string) (c : Cmd) : Prop :=
  (pUmask p = "" ∧ Path c = pCommand p ∧ Args c = pCommand p :: args) ∨
  (pUmask p ≠ "" ∧ ∃ name path, looked_up p name ∧ w_LookPath w name = Some path ∧ w_selfExe w = Some (Path c) ∧
     Args c = Path c :: "--umask-shim" :: pUmask p :: path :: pCommand p :: args ∧
     ∀ n LookPath, ParseUmask (pUmask p) = Some n → main LookPath (Args c) = Exec (Some n) path (pCommand p :: args)).

(** ** Credentials *)

Definition granted (w : world) (p : Process) (cred : option Credential.Cred) : Prop :=
  let user := Credential.asked (pUserID p) (pUser p) in
  let group := Credential.asked (pGroupID p) (pGroup p) in
  match cred with
  | None => user = Credential.Nobody ∧ group = Credential.Nobody
  | Some c => Credential.valid user ∧ Credential.valid group ∧
      Credential.grants (w_Lookup w) (w_LookupId w) (w_LookupGroup w) (w_getuid w) user group (pStrictGroups p) c
  end.

(** *** Lemmas *)

Lemma entry_cut k v : str_in "=" k = false → Cut (entry k v) "=" = (k, v, true).
Proof. apply Cut_app. Qed.

Lemma entry_inj k v k' v' : str_in "=" k = false → str_in "=" k' = false → entry k v = entry k' v' → k = k' ∧ v = v'.
Proof. intros H H' E. pose proof (entry_cut k v H) as E1. rewrite E, entry_cut in E1 by done. by injection E1 as -> ->. Qed.

Lemma entry_or_none e : str_in "=" e = false ∨ ∃ k v, str_in "=" k = false ∧ e = entry k v.
Proof.
  induction e as [|a e IH]; [by left|]. destruct (decide (a = "="%char)) as [->|Hne]; [right; by exists "", e|].
  assert (Ha : bool_decide ("="%char = a) = false) by (apply bool_decide_eq_false; congruence).
  destruct IH as [IH|(k & v & Hk & ->)]; [left|right; exists (String a k), v; split; [|done]]; cbn; by rewrite Ha.
Qed.

Lemma inherits_snoc l e k v : inherits (l ++ [e]) k v ↔
  (k ≠ "" ∧ str_in "=" k = false ∧ e = entry k v) ∨ (inherits l k v ∧ ∀ u, e ≠ entry k u).
Proof.
  unfold inherits. split.
  - intros (H1 & H2 & l1 & l2 & E & Hno). destruct l2 as [|e' l2 _] using rev_ind.
    + apply app_inj_tail in E as [-> ->]. by left.
    + rewrite app_comm_cons, app_assoc in E. apply app_inj_tail in E as [-> ->]. right. split_and!; auto.
      * exists l1, l2. split; [done|]. intros u Hu. apply (Hno u). rewrite elem_of_app. by left.
      * intros u ->. apply (Hno u). rewrite elem_of_app. right. left.
  - intros [(H1 & H2 & ->)|((H1 & H2 & l1 & l2 & -> & Hno) & He)]; split_and!; auto.
    + exists l, []. split; [done|]. intros u. apply not_elem_of_nil.
    + exists l1, (l2 ++ [e]). rewrite <- app_assoc. split; [done|]. intros u [Hu|Hu]%elem_of_app; [by apply (Hno u)|].
      apply list_elem_of_singleton in Hu. by destruct (He u).
Qed.

Lemma os_env_inherits environ k v : os_env environ !! k = Some v ↔ inherits environ k v.
Proof.
  induction environ as [|e l IH] using rev_ind.
  { cbn. rewrite lookup_empty. split; [done|]. intros (_ & _ & l1 & l2 & E & _). by destruct l1. }
  rewrite inherits_snoc. unfold os_env. rewrite foldl_app. fold (os_env l). cbn [foldl]. destruct (entry_or_none e) as [Hn|(k' & v' & Hk' & ->)].
  - rewrite (Cut_none "=" e Hn : Cut e "=" = _), IH.
    assert (He : ∀ k u, e ≠ entry k u) by (intros k0 u ->; unfold entry in Hn; rewrite str_in_app in Hn; by rewrite orb_true_r in Hn).
    split; [auto|]. intros [(_ & _ & E)|[? _]]; [by apply He in E|done].
  - rewrite entry_cut by done. case_bool_decide as Hke.
    + rewrite IH. split; [|intros [(H1 & H2 & E)|[? _]]; [|done]].
      * intros Hi. right. split; [done|]. intros u E. destruct Hi as (H1 & H2 & _). apply entry_inj in E as [? _]; [congruence|done|done].
      * apply entry_inj in E as [? _]; [congruence|done|done].
    + destruct (decide (k = k')) as [->|Hne].
      * rewrite lookup_insert_eq. split; [intros [= ->]; by left|]. intros [(_ & _ & E)|[_ E]]; [|by destruct (E v')].
        apply entry_inj in E as [_ ->]; done.
      * rewrite lookup_insert_ne, IH by done. split.
        -- intros Hi. right. split; [done|]. intros u E. apply entry_inj in E as [? _]; [congruence|done|apply Hi].
        -- intros [(_ & H2 & E)|[? _]]; [|done]. apply entry_inj in E as [? _]; [congruence|done|done].
Qed.

Lemma handed_on_iff environ s k v :
  ((if default false (pPassEnv (Proc s)) then os_env environ !! k else None) ∪
     (if default false (pExportSocket (Proc s)) && negb (bool_decide (ControlSocket s = ""))
         && bool_decide (k = "GOPHERD_SOCKET") then Some (ControlSocket s) else None)) = Some v ↔ handed_on environ s k v.
Proof.
  unfold handed_on. cbv zeta. setoid_rewrite <- os_env_inherits.
  assert (Ho : (if default false (pExportSocket (Proc s)) && negb (bool_decide (ControlSocket s = ""))
         && bool_decide (k = "GOPHERD_SOCKET") then Some (ControlSocket s) else None) = Some v ↔
    k = "GOPHERD_SOCKET" ∧ pExportSocket (Proc s) = Some true ∧ v = ControlSocket s ∧ v ≠ "").
  { destruct (pExportSocket (Proc s)) as [[]|]; cbn; [|naive_solver..]. repeat case_bool_decide; cbn; naive_solver. }
  match type of Ho with ?x = _ ↔ _ => revert Ho; generalize x as o; intros o Ho end.
  destruct (pPassEnv (Proc s)) as [[]|]; cbn [default from_option id].
  - destruct (os_env environ !! k) as [u|]; [|rewrite (left_id_L None (∪)), Ho; naive_solver].
    assert (Some u ∪ o = Some u) as -> by (by destruct o). split; [by left|]. intros [[_ ?]|[Hno _]]; [done|]. destruct Hno. eauto.
  - rewrite (left_id_L None (∪)), Ho. naive_solver.
  - rewrite (left_id_L None (∪)), Ho. naive_solver.
Qed.

Lemma env_source_iff environ de s k v : env_source environ de s k = Some v ↔
  configured (Proc s) de k v ∨ ((¬ ∃ u, configured (Proc s) de k u) ∧ handed_on environ s k v).
Proof.
  unfold env_source, configured. rewrite <- handed_on_iff.
  match goal with |- (_ ∪ (_ ∪ ?x)) = _ ↔ _ => generalize x as o; intros o end.
  destruct (pEnvironment (Proc s) !! k) as [u|], (de !! k) as [u'|]; rewrite ?(left_id_L None (∪)).
  - assert (Some u ∪ (Some u' ∪ o) = Some u) as -> by (by destruct o). naive_solver.
  - assert (Some u ∪ o = Some u) as -> by (by destruct o). naive_solver.
  - assert (Some u' ∪ o = Some u') as -> by (by destruct o). naive_solver.
  - naive_solver.
Qed.

(** The map PrepareStart builds is the environment described. *)
Lemma child_variables environ fs euid s dotenv env keys :
  dotenv_content fs euid (Proc s) = Ok dotenv → child_env environ dotenv s = Ok (env, keys) →
  ∃ de, dotenv_file fs euid (Proc s) de ∧ (∀ k v, env !! k = Some v ↔ variable environ s de k v) ∧
    ∀ k v, env !! k = Some v → k ∈ keys ↔ configured (Proc s) de k v.
Proof.
  intros Hd Hc. pose proof (child_env_sources environ dotenv s) as H. destruct (dotenv_vars dotenv) as [de|e] eqn:Ed; [|congruence].
  destruct H as (env' & keys' & E & H). rewrite Hc in E. injection E as <- <-. exists de. split; [|split].
  - unfold dotenv_content in Hd. unfold dotenv_file. case_bool_decide as Hp; [injection Hd as <-; injection Ed as <-; by left|].
    destruct (read_dotenv _ _ _ _) as [data|] eqn:Er; [|done]. injection Hd as <-. right. eauto.
  - intros k v. rewrite (proj1 (H k)). unfold variable. case_bool_decide; [naive_solver|]. rewrite env_source_iff. tauto.
  - intros k v Hv. rewrite (proj2 (H k)). rewrite (proj1 (H k)) in Hv. case_bool_decide; [done|]. unfold configured.
    rewrite env_source_iff in Hv. destruct Hv as [Hv|[Hno _]].
    + split; [by intros _|]. intros _. split; [done|]. destruct Hv as [->|[_ ->]]; eauto.
    + split; [|intros Hv; destruct Hno; eauto]. intros [_ Hs]. destruct Hno. unfold configured.
      destruct (pEnvironment (Proc s) !! k); destruct Hs as [[]|[]]; eauto.
Qed.

Lemma command_runs w p args c : buildCommand w p args = Ok c → runs w p args c.
Proof.
  unfold buildCommand, runs. case_bool_decide as Hu; [intros [= <-]; by left|]. destruct (w_selfExe w) as [self|]; [|done].
  set (name := if _ && _ && _ then _ else _). destruct (w_LookPath w name) as [path|] eqn:El; [|done]. intros [= <-]. right. split; [done|].
  exists name, path. split_and!; [|done|done|done|].
  - unfold looked_up. subst name. destruct (Contains (pCommand p) "/"), (IsAbs (pCommand p)); cbn; try naive_solver.
    case_bool_decide; cbn; naive_solver.
  - intros n LookPath Hn. unfold main, RunUmaskShim. cbn [Args app]. rewrite bool_decide_true by done. by rewrite Hn.
Qed.

Lemma credential_is w p cred : credential w p = Ok cred → granted w p cred.
Proof.
  unfold credential, granted. intros H. destruct (Credential.ResolveCredential _ _ _ _ _ _ _ _ _) as [r|] eqn:E; [|done]. injection H as ->.
  destruct (Credential.resolved_iff (w_Lookup w) (w_LookupId w) (w_LookupGroup w) (w_getuid w) (pUser p) (pGroup p) (pUserID p) (pGroupID p)
    (pStrictGroups p)) as [H1 H2]. cbv zeta. destruct cred as [c|]; [|by apply H1]. apply H2 in E. tauto.
Qed.

(** ** The plan *)

Section plan.
Context (fs : files) (euid : Z) (w : world).

(** [order] is a walk over the variables of the child. *)
Definition env_walk (s : Service) (order : list (string * string)) : Prop :=
  ∀ dotenv env keys, dotenv_content fs euid (Proc s) = Ok dotenv → child_env (w_environ w) dotenv s = Ok (env, keys) → order ≡ₚ map_to_list env.

(** [v'] is what the child gets for the variable [k], set to [v]. *)
Definition value_for (env : gmap string string) (p : Process) (de : gmap string string) (k v v' : string) : Prop :=
  (configured p de k v ∧ expands fs w env v v') ∨ (¬ configured p de k v ∧ v' = v).

Lemma value_map (env : gmap string string) (keys : gset string) p de (m : gmap string string) : (∀ k v, env !! k = Some v → k ∈ keys ↔ configured p de k v) →
  (∀ k, match env !! k with
        | None => m !! k = None
        | Some v => ∃ v', m !! k = Some v' ∧ if bool_decide (k ∈ keys) then expands fs w env v v' else v' = v
        end) →
  ∀ k v', m !! k = Some v' ↔ ∃ v, env !! k = Some v ∧ value_for env p de k v v'.
Proof.
  intros Hkeys Hm k v'. specialize (Hm k). destruct (env !! k) as [v|] eqn:E; [|rewrite Hm; naive_solver].
  destruct Hm as (u & -> & Hu). specialize (Hkeys k v E). unfold value_for, expands in *. case_bool_decide as Hk.
  - split; [intros [= ->]; exists v; split; [done|left; tauto]|]. intros (? & [= <-] & [[_ [ms He]]|[Hn _]]); [|tauto].
    destruct Hu as [ms' Hu]. congruence.
  - split; [intros [= ->]; exists v; split; [done|right; tauto]|]. intros (? & [= <-] & [[? _]|[_ ->]]); [tauto|congruence].
Qed.

(** C13: a child is launched with what its configuration says.  For a plan
    PrepareStart returns: the program is the configured command with the
    configured arguments, each expanded once; with a umask it is gopherd, which
    sets that mask and becomes the command, looked up, with the very same
    arguments.  The variables of the child are those of the process, then of
    the dotenv file, then, with pass-env, of gopherd, then the exported control
    socket, less those of remove-env: those the user set are expanded, once, the
    others passed as they are, none is lost, added or doubled; when nothing but
    gopherd's environment is asked for the child inherits it as it is.  The
    credentials are those of the table for the user and group asked for, the
    uid whose readiness messages are believed is that of the child, the child
    leads a session of its own in the configured directory, with the configured
    parent-death signal, and shares gopherd's output unless it is captured. *)
Theorem launch_plan (s : Service) (order : list (string * string)) (plan : StartPlan) :
  env_walk s order → PrepareStart fs euid w s order = Ok plan →
  let p := Proc s in
  ∃ (de env : gmap string string),
    dotenv_file fs euid p de ∧ (∀ k v, env !! k = Some v ↔ variable (w_environ w) s de k v) ∧
    (∃ args, Forall2 (expands fs w env) (pArgs p) args ∧ runs w p args (cmd plan)) ∧
    match Env (cmd plan) with
    | None => ∀ k v, env !! k = Some v ↔ inherits (w_environ w) k v
    | Some kvs => ∃ m : gmap string string, kvs ≡ₚ map (λ kv, entry kv.1 kv.2) (map_to_list m) ∧
        ∀ k v', m !! k = Some v' ↔ ∃ v, env !! k = Some v ∧ value_for env p de k v v'
    end ∧
    granted w p (Cred (cmd plan)) ∧
    allowedUID plan = match Cred (cmd plan) with Some c => Credential.cUid c | None => euid end ∧
    match Pdeathsig (cmd plan) with
    | None => pParentDeathSignal p = ""
    | Some g => pParentDeathSignal p ≠ "" ∧ ConfigSpec.signal_word (pParentDeathSignal p) g
    end ∧
    Setsid (cmd plan) = true ∧ Dir' (cmd plan) = pWorkingDir p ∧ sdNotify plan = pSDNotify p ∧ Inherit (cmd plan) = negb (LogCapture s).
Proof.
  intros Ho HP p.
  assert (Hd : ∃ dotenv env keys, dotenv_content fs euid p = Ok dotenv ∧ child_env (w_environ w) dotenv s = Ok (env, keys)).
  { unfold PrepareStart in HP. fold p in HP. destruct (dotenv_content fs euid p) as [dotenv|] eqn:Ed; [|done]. cbn [mbind result_bind] in HP.
    destruct (child_env (w_environ w) dotenv s) as [[env keys]|] eqn:Ee; [|done]. eauto. }
  destruct Hd as (dotenv & env & keys & Hd & Hc).
  destruct (child_variables (w_environ w) fs euid s dotenv env keys Hd Hc) as (de & Hde & Hv & Hkeys).
  destruct (plan_parts fs euid w s order plan dotenv env keys Hd Hc (Ho _ _ _ Hd Hc) HP) as
    ((args & c & Ha & Hb & Hp & Hargs) & He & Hcr & Hu & Hs & Hdir & Hn & Hds & Hin).
  exists de, env. split_and!; auto using credential_is.
  - exists args. split; [done|]. apply command_runs in Hb. unfold runs in *. by rewrite Hp, Hargs.
  - destruct (Env (cmd plan)) as [kvs|].
    + destruct He as (m & Hm & Hk). exists m. split; [exact Hm|]. by apply (value_map env keys).
    + destruct He as [-> _]. apply os_env_inherits.
  - unfold death_signal in Hds. fold p in Hds. case_bool_decide as Hp'; [injection Hds as <-; done|].
    destruct (ParseSignal (pParentDeathSignal p)) as [g|] eqn:Eg; [|done]. injection Hds as <-. split; [done|]. by apply ConfigSpec.signal_parsed.
Qed.

End plan.

(** The plan of the example: a umask, templates and a dotenv file. *)
Lemma launch_plan_witness :
  PrepareStart demo_files 0 demo_world demo_service demo_order = Ok demo_plan ∧
  ∃ args, Args (cmd demo_plan) = "/usr/bin/gopherd" :: "--umask-shim" :: "027" :: "/usr/bin/web" :: "web" :: args ∧
    main (λ _, None) (Args (cmd demo_plan)) = Exec (Some 23) "/usr/bin/web" ("web" :: args).
Proof.
  split; [exact demo_prepared|].
  destruct (launch_plan demo_files 0 demo_world demo_service demo_order demo_plan) as (de & env & _ & _ & (args & _ & Hr) & _).
  - intros dotenv env keys Hd Hc. pose proof demo_dotenv as Hdd. change (Proc demo_service) with demo_process in Hd.
    assert (dotenv = Some ("TOKEN=x{{.HOME}}" +:+ str1 "010")) as -> by congruence.
    assert (He : child_env (w_environ demo_world) (Some ("TOKEN=x{{.HOME}}" +:+ str1 "010")) demo_service = Ok (demo_env, demo_keys))
      by (vm_compute; reflexivity). rewrite He in Hc. assert (env = demo_env) as -> by congruence.
    symmetry. apply map_to_list_to_map. apply (bool_decide_unpack _). vm_compute. exact I.
  - exact demo_prepared.
  - destruct Hr as [[H _]|(_ & name & path & Hl & Hp & Hself & Hargs & Hmain)]; [discriminate H|]. exists args.
    assert (Hname : name = "web") by (apply (proj2 Hl); intros [H _]; discriminate H). subst name.
    vm_compute in Hp. injection Hp as <-. split; [exact Hargs|]. apply (Hmain 23 (λ _, None)). vm_compute. reflexivity.
Defined.

End LaunchSpec.
