(* ===== verification/Spawn.v ===== *)
(** * Spawning and its resources: src/service/service.go

    [FinishStart] and [MarkExited] with the handles they open and close: the
    readiness socket and the ends of the log pipes.  Each start answers the
    system calls one way or the other; copy goroutines and the grace timer run
    whenever they like.  A handle is a Go object (an [os.File] or a socket): its
    number is never used again, and closing it twice changes nothing. *)

From S2P Require Import Prelude GoStrings Service SdNotify Launch.

Open Scope string_scope.
Open Scope list_scope.
Open Scope Z_scope.

Module Spawn.

Import Launch.

(** The state: the run state of the service, its readiness socket, the read ends
    of its log pipes, the handles that are open, what the readiness sockets have
    been told, and the grace timers with the handles each will close. *)
Record state := mkState {
  svc : Service.Service;
  sdNotifyListener : option nat;
  capture : list nat;
  open : gset nat;
  next : nat;
  listeners : gmap nat SdNotify.Listener;
  copying : list nat;
  timers : list (list nat);
}.

Definition set_svc (v : Service.Service) (s : state) : state :=
  mkState v (sdNotifyListener s) (capture s) (open s) (next s) (listeners s) (copying s) (timers s).
Definition set_listener (v : option nat) (s : state) : state :=
  mkState (svc s) v (capture s) (open s) (next s) (listeners s) (copying s) (timers s).
Definition set_capture (v : list nat) (s : state) : state :=
  mkState (svc s) (sdNotifyListener s) v (open s) (next s) (listeners s) (copying s) (timers s).
Definition set_timers (v : list (list nat)) (s : state) : state :=
  mkState (svc s) (sdNotifyListener s) (capture s) (open s) (next s) (listeners s) (copying s) v.
Definition set_copying (v : list nat) (s : state) : state :=
  mkState (svc s) (sdNotifyListener s) (capture s) (open s) (next s) (listeners s) v (timers s).

(** A new handle, and closing some. *)
Definition new_handle (s : state) : nat * state :=
  (next s, mkState (svc s) (sdNotifyListener s) (capture s) ({[next s]} ∪ open s) (S (next s)) (listeners s) (copying s) (timers s)).
Definition close (hs : list nat) (s : state) : state :=
  mkState (svc s) (sdNotifyListener s) (capture s) (open s ∖ list_to_set hs) (next s) (listeners s) (copying s) (timers s).
Definition set_told (h : nat) (l : SdNotify.Listener) (s : state) : state :=
  mkState (svc s) (sdNotifyListener s) (capture s) (open s) (next s) (<[h := l]> (listeners s)) (copying s) (timers s).

(** What the system answers during a start. *)
Record answers := mkAnswers {
  a_nonce : option string;
  a_pipe1 : bool;
  a_pipe2 : bool;
  a_fork : option Z;
  a_chan : nat;
  a_now : Z;
  a_getpid : Z;
}.

Inductive spawn_err :=
  | ESdNotify
  | ELogCapture
  | ESpawn.

(** [sdnotify.Listener.Close]. *)
Definition close_listener (s : state) : state :=
  match sdNotifyListener s with
  | None => s
  | Some h =>
      set_listener None (set_told h (SdNotify.Close (default (SdNotify.Listen 0) (listeners s !! h))) (close [h] s))
  end.

(** The readiness socket of a start: its handle and its name. *)
Definition open_listener (plan : StartPlan) (a : answers) (s : state) : result spawn_err (list string) * state :=
  if negb (sdNotify plan) then (Ok [], s)
  else
    let s := close_listener s in
    match a_nonce a with
    | None => (Err ESdNotify, s)
    | Some nonce =>
        let '(h, s) := new_handle s in
        let s := set_listener (Some h) (set_told h (SdNotify.Listen (allowedUID plan)) s) in
        (Ok ["NOTIFY_SOCKET=" +:+ SdNotify.notify_path (a_getpid a) (Service.Name (svc s)) nonce], s)
    end.

(** [openCapture]: the read and the write ends; a pipe that cannot be made
    closes the one made before. *)
Definition openCapture (a : answers) (s : state) : option (list nat * list nat) * state :=
  if negb (a_pipe1 a) then (None, s)
  else
    let '(r1, s) := new_handle s in
    let '(w1, s) := new_handle s in
    if negb (a_pipe2 a) then (None, close [r1; w1] s)
    else
      let '(r2, s) := new_handle s in
      let '(w2, s) := new_handle s in
      (Some ([r1; r2], [w1; w2]), s).

Definition releaseCapture (s : state) : state :=
  match capture s with
  | [] => s
  | c => set_timers (c :: timers s) (set_capture [] s)
  end.

(** The listener goes when a start that made one fails. *)
Definition drop_listener (plan : StartPlan) (s : state) : state := if sdNotify plan then close_listener s else s.

Definition FinishStart (plan : StartPlan) (a : answers) (s : state) : result spawn_err (Z * Cmd) * state :=
  match open_listener plan a s with
  | (Err e, s) => (Err e, s)
  | (Ok extra, s) =>
      match (if Service.LogCapture (svc s) then openCapture a s else (Some ([], []), s)) with
      | (None, s) => (Err ELogCapture, drop_listener plan s)
      | (Some (readers, writers), s) =>
          let c := cmd plan in
          let c := mkCmd (Path c) (Args c) (Dir' c) (if sdNotify plan then Some (default [] (Env c) ++ extra) else Env c)
                     (Inherit c) (Setsid c) (Pdeathsig c) (Cred c) in
          let s := close writers s in
          match a_fork a with
          | None => (Err ESpawn, close readers (drop_listener plan s))
          | Some pid =>
              let s := releaseCapture s in
              let s := set_copying (readers ++ copying s) (set_capture readers s) in
              (Ok (pid, c), set_svc (Service.set_run (svc s) pid true false (Some (a_chan a)) (a_now a)) s)
          end
      end
  end.

(** The pidfd that [Process.Release] gives back is not among the handles. *)
Definition MarkExited (now : Z) (s : state) : state :=
  let s := set_svc (Service.MarkExited (svc s) now).1.1 s in
  releaseCapture (close_listener s).

(** [WaitSDNotifyReady]: [None] is "not enabled". *)
Definition WaitSDNotifyReady (ctxDone : bool) (s : state) : option (list SdNotify.wait_result) :=
  h ← sdNotifyListener s; l ← listeners s !! h; Some (SdNotify.WaitReady l ctxDone).

(** ** Runs *)

Inductive op :=
  | OStart (plan : StartPlan) (a : answers)
  | OExited (now : Z)
  | OCopied (h : nat)
  | OTimer (i : nat)
  | OTold (h : nat) (e : SdNotify.event).

(** [copyCapture] ends and closes its read end; a timer fires; something happens
    at a readiness socket. *)
Definition apply (o : op) (s : state) : state :=
  match o with
  | OStart plan a => (FinishStart plan a s).2
  | OExited now => MarkExited now s
  | OCopied h =>
      if bool_decide (h ∈ copying s) then set_copying (filter (λ x, x ≠ h) (copying s)) (close [h] s) else s
  | OTimer i =>
      match timers s !! i with
      | None => s
      | Some hs => set_timers (delete i (timers s)) (close hs s)
      end
  | OTold h e =>
      match listeners s !! h with
      | None => s
      | Some l => set_told h (SdNotify.step true l e) s
      end
  end.

Definition fresh (v : Service.Service) : state := mkState v None [] ∅ 0 ∅ [] [].

Definition run (ops : list op) (s : state) : state := foldl (λ s o, apply o s) s ops.

(** ** Who will close a handle *)

(** The handles the service holds or a timer will close. *)
Definition owned (s : state) : gset nat :=
  list_to_set (option_list (sdNotifyListener s) ++ capture s ++ concat (timers s)).

(** Every open handle is owned, but for those in hand. *)
Definition held (X : gset nat) (s : state) : Prop := open s ⊆ owned s ∪ X.

Ltac sets := unfold held, owned in *; cbn -[list_to_set] in *; rewrite ?list_to_set_app_L in *; cbn in *; set_solver.

Lemma held_new X s : held X s → held ({[(new_handle s).1]} ∪ X) (new_handle s).2.
Proof. sets. Qed.

Lemma held_close X hs s : held X s → held (X ∖ list_to_set hs) (close hs s).
Proof. sets. Qed.

Lemma held_listener X s : held X s → held X (close_listener s) ∧ sdNotifyListener (close_listener s) = None ∧
  capture (close_listener s) = capture s ∧ svc (close_listener s) = svc s ∧ timers (close_listener s) = timers s ∧ open (close_listener s) ⊆ open s.
Proof.
  unfold close_listener. destruct (sdNotifyListener s) as [h|] eqn:E; [|by auto 10]. intros H. split_and!; try done; [|sets].
  unfold held, owned in *. rewrite E in H. cbn in *. set_solver.
Qed.

Lemma held_release X s : held X s → held X (releaseCapture s) ∧ capture (releaseCapture s) = [] ∧
  sdNotifyListener (releaseCapture s) = sdNotifyListener s ∧ svc (releaseCapture s) = svc s ∧ open (releaseCapture s) = open s ∧
  listeners (releaseCapture s) = listeners s ∧ copying (releaseCapture s) = copying s.
Proof.
  unfold releaseCapture. destruct (capture s) as [|c cs] eqn:E; [by auto 10|]. intros H. split_and!; try done.
  unfold held, owned in *. rewrite E in H. cbn in *. rewrite ?list_to_set_app_L in *. cbn in *. rewrite ?list_to_set_app_L in *. set_solver.
Qed.

(** The fields a step on handles leaves alone. *)
Definition same (s s' : state) : Prop :=
  svc s' = svc s ∧ sdNotifyListener s' = sdNotifyListener s ∧ capture s' = capture s ∧ listeners s' = listeners s ∧ timers s' = timers s.

Lemma four_handles (r1 w1 r2 w2 : nat) :
  {[w2]} ∪ ({[r2]} ∪ ({[w1]} ∪ ({[r1]} ∪ ∅))) =@{gset nat} list_to_set ([r1; r2] ++ [w1; w2]).
Proof. cbn. set_solver. Qed.

Lemma four_more (a b c d : nat) (O : gset nat) :
  {[d]} ∪ ({[c]} ∪ ({[b]} ∪ ({[a]} ∪ O))) ⊆ O ∪ ({[d]} ∪ ({[c]} ∪ ({[b]} ∪ ({[a]} ∪ ∅)))).
Proof. set_solver. Qed.

Lemma two_more (a b : nat) (O : gset nat) : {[b]} ∪ ({[a]} ∪ O) ⊆ O ∪ ({[b]} ∪ ({[a]} ∪ ∅)).
Proof. set_solver. Qed.

Lemma reclosed (X O : gset nat) (r w : nat) : O ⊆ X ∪ ({[w]} ∪ ({[r]} ∪ ∅)) → O ∖ list_to_set [r; w] ⊆ X.
Proof. cbn. set_solver. Qed.

Lemma openCapture_held a s : held ∅ s →
  match openCapture a s with
  | (None, s') => held ∅ s' ∧ same s s' ∧ open s' ⊆ open s
  | (Some (rs, ws), s') => held (list_to_set (rs ++ ws)) s' ∧ same s s' ∧ open s' ⊆ open s ∪ list_to_set (rs ++ ws) ∧ length rs = 2%nat
  end.
Proof.
  intros H. unfold openCapture. destruct (a_pipe1 a); cbn [negb]; [|done].
  pose proof (held_new _ _ (held_new _ _ H)) as H2. destruct (a_pipe2 a); cbn [negb new_handle fst snd].
  - pose proof (held_new _ _ (held_new _ _ H2)) as H4. cbn [new_handle fst snd] in H4. rewrite four_handles in H4.
    split; [exact H4|]. split; [done|]. split; [|done]. cbn [open next]. rewrite <- four_handles.
    apply four_more.
  - cbn [new_handle fst snd] in H2. split; [|split; [done|]].
    + unfold held in *. cbn [open close next] in *. rewrite (union_empty_r_L (owned _)). apply reclosed. exact H2.
    + cbn [open close next]. apply reclosed. apply two_more.
Qed.

Lemma open_listener_held plan a s : held ∅ s →
  let r := open_listener plan a s in
  held ∅ r.2 ∧ svc r.2 = svc s ∧ capture r.2 = capture s ∧
  match r.1 with
  | Err _ => open r.2 ⊆ open s
  | Ok _ =>
      if sdNotify plan then
        ∃ h, sdNotifyListener r.2 = Some h ∧ listeners r.2 !! h = Some (SdNotify.Listen (allowedUID plan)) ∧ open r.2 ⊆ open s ∪ {[h]}
      else r.2 = s
  end.
Proof.
  intros H. unfold open_listener. destruct (sdNotify plan); cbn [negb]; [|done].
  destruct (held_listener ∅ s H) as (H1 & E1 & E2 & E3 & E4 & E5). destruct (a_nonce a) as [nonce|]; [|done].
  set (s1 := close_listener s) in *. clearbody s1. cbn [new_handle fst snd svc set_listener set_told capture]. split_and!; try done.
  - unfold held, owned in *. rewrite E1 in H1. cbn in *. clear -H1. set_solver.
  - exists (next s1). cbn. split_and!; [done|by rewrite lookup_insert_eq|]. clear -E5. set_solver.
Qed.

(** Dropping the listener of a failed start leaves only handles from before. *)
Lemma drop_listener_held plan X s0 s : held X s → svc s = svc s0 →
  (if sdNotify plan then ∃ h, sdNotifyListener s = Some h ∧ open s ⊆ open s0 ∪ {[h]} ∪ X else open s ⊆ open s0 ∪ X) →
  let s' := drop_listener plan s in held X s' ∧ svc s' = svc s0 ∧ capture s' = capture s ∧ open s' ⊆ open s0 ∪ X.
Proof.
  intros H Hs Ho. unfold drop_listener. destruct (sdNotify plan); [|done].
  destruct (held_listener X s H) as (H1 & _ & E2 & E3 & _). split_and!; [done|congruence|done|].
  destruct Ho as (h & Eh & Ho). unfold close_listener. rewrite Eh. cbn. clear -Ho. set_solver.
Qed.

Lemma finish_held plan a s : held ∅ s → (length (capture s) ≤ 2)%nat →
  let r := FinishStart plan a s in
  held ∅ r.2 ∧ (length (capture r.2) ≤ 2)%nat ∧
  match r.1 with
  | Err _ => open r.2 ⊆ open s ∧ svc r.2 = svc s
  | Ok (pid, c) =>
      Service.FinishStart (svc s) (a_fork a) (a_chan a) (a_now a) = Some (pid, svc r.2) ∧
      (sdNotify plan = true → WaitSDNotifyReady false r.2 = Some [SdNotify.WBlocks])
  end.
Proof.
  intros H Hlen. unfold FinishStart. pose proof (open_listener_held plan a s H) as Hl.
  destruct (open_listener plan a s) as [[extra|e] s1]; cbn [fst snd] in Hl; [|destruct Hl as (? & ? & Ec & ?); cbn [fst snd]; split_and!; [done|congruence|done|done]].
  destruct Hl as (H1 & Es1 & Ec1 & Hl).
  assert (Hc : match (if Service.LogCapture (svc s1) then openCapture a s1 else (Some ([], []), s1)) with
    | (None, s') => held ∅ s' ∧ same s1 s' ∧ open s' ⊆ open s1
    | (Some (rs, ws), s') => held (list_to_set (rs ++ ws)) s' ∧ same s1 s' ∧ open s' ⊆ open s1 ∪ list_to_set (rs ++ ws) ∧ (length rs ≤ 2)%nat
    end).
  { destruct (Service.LogCapture (svc s1)); [|split; [exact H1|]; split; [done|]; split; [cbn; clear; set_solver|cbn; lia]].
    - pose proof (openCapture_held a s1 H1) as Hc. destruct (openCapture a s1) as [[[rs ws]|] s2]; [|done].
      destruct Hc as (? & ? & ? & Hr). split_and!; [done..|lia]. }
  destruct (if Service.LogCapture (svc s1) then openCapture a s1 else _) as [[[rs ws]|] s2].
  - destruct Hc as (H2 & (Es2 & El2 & Ec2 & Elis & _) & Ho2 & Hrs). pose proof (held_close _ ws _ H2) as H3. set (s3 := close ws s2) in *.
    assert (H3' : held (list_to_set rs) s3) by (unfold held in *; clear -H3; rewrite list_to_set_app_L in H3; set_solver).
    assert (Hs3 : svc s3 = svc s ∧ sdNotifyListener s3 = sdNotifyListener s1 ∧ capture s3 = capture s ∧ listeners s3 = listeners s1 ∧
      open s3 ⊆ open s1 ∪ list_to_set rs).
    { split_and!; cbn; try congruence. clear -Ho2. rewrite list_to_set_app_L in Ho2. set_solver. }
    clearbody s3. destruct Hs3 as (E1 & E2 & E3 & E4 & E5). destruct (a_fork a) as [pid|]; cbn [fst snd].
    + destruct (held_release _ _ H3') as (H4 & F1 & F2 & F3 & F4 & F5 & F6). split_and!; [|done|cbn; by rewrite F3, E1|].
      * unfold held, owned in *. cbn. rewrite F1 in H4. cbn in H4. clear -H4. rewrite ?list_to_set_app_L in *. set_solver.
      * intros Hn. rewrite Hn in Hl. destruct Hl as (h & Eh & Elh & _). unfold WaitSDNotifyReady. cbn.
        rewrite F2, E2, Eh. cbn. by rewrite F5, E4, Elh.
    + destruct (drop_listener_held plan (list_to_set rs) s s3 H3') as (H4 & E6 & E7 & Ho4); [done| |].
      { destruct (sdNotify plan); [|subst s1; done]. destruct Hl as (h & Eh & _ & Ho). exists h. split; [congruence|].
        clear -E5 Ho. set_solver. }
      split_and!; [|cbn; congruence|cbn; clear -Ho4; set_solver|done]. apply (held_close _ rs) in H4. unfold held in *. clear -H4. set_solver.
  - destruct Hc as (H2 & (Es2 & El2 & Ec2 & _) & Ho2). cbn [fst snd].
    destruct (drop_listener_held plan ∅ s s2 H2) as (H3 & E3 & E4 & Ho3); [congruence| |].
    { destruct (sdNotify plan); [|subst s1; clear -Ho2; set_solver]. destruct Hl as (h & Eh & _ & Ho). exists h. split; [congruence|].
      clear -Ho Ho2. set_solver. }
    split_and!; [done|congruence|clear -Ho3; set_solver|done].
Qed.

Lemma exited_held now s : held ∅ s →
  held ∅ (MarkExited now s) ∧ svc (MarkExited now s) = (Service.MarkExited (svc s) now).1.1 ∧
  sdNotifyListener (MarkExited now s) = None ∧ capture (MarkExited now s) = [].
Proof.
  intros H. unfold MarkExited. set (s1 := set_svc _ s). assert (H1 : held ∅ s1) by exact H.
  destruct (held_listener ∅ s1 H1) as (H2 & E1 & E2 & E3 & _). destruct (held_release ∅ _ H2) as (H3 & F1 & F2 & F3 & _).
  split_and!; [done|by rewrite F3, E3|by rewrite F2|done].
Qed.

Lemma timer_held i hs s : held ∅ s → timers s !! i = Some hs → held ∅ (set_timers (delete i (timers s)) (close hs s)).
Proof.
  intros H Hi. unfold held, owned in *. cbn. rewrite <- (take_drop_middle _ _ _ Hi) in H. rewrite delete_take_drop.
  rewrite !concat_app in *. cbn [concat] in H. rewrite !list_to_set_app_L in *. clear -H. set_solver.
Qed.

Lemma apply_held o s : held ∅ s ∧ (length (capture s) ≤ 2)%nat → held ∅ (apply o s) ∧ (length (capture (apply o s)) ≤ 2)%nat.
Proof.
  intros [H Hlen]. destruct o as [plan a|now|h|i|h e]; cbn [apply].
  - destruct (finish_held plan a s H Hlen) as (H1 & H2 & _). done.
  - destruct (exited_held now s H) as (H1 & _ & _ & ->). split; [done|cbn; lia].
  - case_bool_decide; [|done]. split; [|done]. unfold held, owned in *. cbn. clear -H. set_solver.
  - destruct (timers s !! i) as [hs|] eqn:Ei; [|done]. split; [by apply timer_held|done].
  - destruct (listeners s !! h); done.
Qed.

Lemma run_held ops : ∀ s, held ∅ s ∧ (length (capture s) ≤ 2)%nat → held ∅ (run ops s) ∧ (length (capture (run ops s)) ≤ 2)%nat.
Proof. induction ops as [|o ops IH]; intros s H; [done|]. by apply IH, apply_held. Qed.

(** When all the timers have fired nothing they were to close is open. *)
Lemma timers_fire s : open s ⊆ list_to_set (concat (timers s)) → open (run (replicate (length (timers s)) (OTimer 0)) s) = ∅.
Proof.
  remember (timers s) as ts eqn:Et. revert s Et. induction ts as [|hs ts IH]; intros s Et H; [cbn in *; set_solver|].
  cbn [length replicate run foldl]. apply IH.
  - cbn [apply]. rewrite <- Et. done.
  - cbn [apply]. rewrite <- Et. cbn in *. rewrite list_to_set_app_L in H. clear -H. set_solver.
Qed.

(** C32: starting and ending instances leaks nothing.  After any sequence of
    starts (each failing at any point, or not), exits, ends of copying and grace
    timers, every open handle is the service's readiness socket, one of at most
    two read ends of its pipes, or due to be closed by a timer.  A start that
    fails leaves no handle open that was not and the service as it was; a start
    that succeeds changes the service as the daemon's model says, and with
    sd-notify nobody is told of a readiness from before.  After the exit all is
    closed once the timers have fired. *)
Theorem spawn_resources (v : Service.Service) (ops : list op) :
  let s := run ops (fresh v) in
  open s ⊆ owned s ∧ (length (capture s) ≤ 2)%nat ∧
  (∀ plan a e s', FinishStart plan a s = (Err e, s') → open s' ⊆ open s ∧ svc s' = svc s) ∧
  (∀ plan a pid c s', FinishStart plan a s = (Ok (pid, c), s') →
     Service.FinishStart (svc s) (a_fork a) (a_chan a) (a_now a) = Some (pid, svc s') ∧
     (sdNotify plan = true → WaitSDNotifyReady false s' = Some [SdNotify.WBlocks])) ∧
  (∀ now, let s' := MarkExited now s in
     svc s' = (Service.MarkExited (svc s) now).1.1 ∧ open (run (replicate (length (timers s')) (OTimer 0)) s') = ∅).
Proof.
  intros s. destruct (run_held ops (fresh v)) as [H Hlen]; [split; [done|cbn; lia]|]. fold s in H, Hlen. clearbody s. split_and!; [|done|..].
  - unfold held in H. clear -H. set_solver.
  - intros plan a e s' E. destruct (finish_held plan a s H Hlen) as (_ & _ & Hr). by rewrite E in Hr.
  - intros plan a pid c s' E. destruct (finish_held plan a s H Hlen) as (_ & _ & Hr). by rewrite E in Hr.
  - intros now. destruct (exited_held now s H) as (H1 & E1 & E2 & E3). split; [done|]. apply timers_fire.
    unfold held, owned in H1. rewrite E2, E3 in H1. cbn in H1. clear -H1. set_solver.
Qed.

(** [Start]: preparation and spawn in one. *)
Definition Start (fs : files) (euid : Z) (w : world) (order : list (string * string)) (a : answers) (s : state) : result (prep_err + spawn_err) (Z * Cmd) * state :=
  match PrepareStart fs euid w (svc s) order with
  | Err e => (Err (inl e), s)
  | Ok plan => let '(r, s) := FinishStart plan a s in (match r with Err e => Err (inr e) | Ok v => Ok v end, s)
  end.

(** ** The end of a process group *)

(** The rounds of the wait: the time each one reads and whether the group was
    still there when probed.  The result is the number of rounds that slept. *)
Fixpoint group_rounds (deadline : Z) (rounds : list (Z * bool)) : option nat :=
  match rounds with
  | [] => None
  | (now, alive) :: rounds =>
      if deadline <=? now then Some O
      else if negb alive then Some O
      else S <$> group_rounds deadline rounds
  end.

Definition groupGrace : Z := 500 * 1000000.
Definition groupSleep : Z := 20 * 1000000.

Definition WaitGroupExit (s : Service.Service) (rounds : list (Z * bool)) : option nat :=
  if Service.killPgid s <=? 0 then Some O else group_rounds (Service.killDeadline s + groupGrace) rounds.

(** A clock that the sleeps move on. *)
Fixpoint slept (from : Z) (rounds : list (Z * bool)) : Prop :=
  match rounds with
  | [] => True
  | (now, _) :: rounds => from ≤ now ∧ slept (now + groupSleep) rounds
  end.

Lemma group_rounds_end deadline rounds : ∀ from, slept from rounds →
  deadline - from ≤ groupSleep * (Z.of_nat (length rounds) - 1) → rounds ≠ [] → is_Some (group_rounds deadline rounds).
Proof.
  induction rounds as [|[now alive] rounds IH]; intros from Hs Hl Hne; [done|]. cbn [group_rounds]. destruct Hs as [Hf Hs].
  destruct (Z.leb_spec deadline now); [by eexists|]. destruct alive; cbn [negb]; [|by eexists]. cbn [length] in Hl. rewrite Nat2Z.inj_succ in Hl.
  unfold groupSleep in *. destruct (IH (now + 20 * 1000000) Hs) as [n ->]; [lia|intros ->; cbn in Hl; lia|]. by eexists.
Qed.

(** The wait for a stopped group ends: by the deadline of its SIGKILL and half a
    second, whatever the group does, so within so many rounds of 20 ms; and it
    ends before only when the group is gone. *)
Lemma group_wait_bounded (s : Service.Service) (from : Z) (rounds : list (Z * bool)) : slept from rounds → rounds ≠ [] →
  Service.killDeadline s + groupGrace - from ≤ groupSleep * (Z.of_nat (length rounds) - 1) →
  ∃ n, WaitGroupExit s rounds = Some n ∧
    (0 < Service.killPgid s → ∃ now alive, rounds !! n = Some (now, alive) ∧ (alive = false ∨ Service.killDeadline s + groupGrace ≤ now)).
Proof.
  intros Hs Hne Hl. unfold WaitGroupExit. destruct (Z.leb_spec (Service.killPgid s) 0); [exists O; split; [done|lia]|].
  destruct (group_rounds_end _ _ _ Hs Hl Hne) as [n Hn]. exists n. split; [done|]. intros _.
  clear Hs Hne Hl. revert n Hn. induction rounds as [|[now alive] rounds IH]; intros n Hn; [done|]. cbn [group_rounds] in Hn.
  destruct (Z.leb_spec (Service.killDeadline s + groupGrace) now); [injection Hn as <-; by exists now, alive; auto|].
  destruct alive; cbn [negb] in Hn; [|injection Hn as <-; by exists now, false; auto].
  destruct (group_rounds _ rounds) as [k|]; [|done]. injection Hn as <-. destruct (IH k eq_refl) as (x & b & Hk & Hx). by exists x, b.
Qed.

(** ** An example *)

Definition good (pid : Z) : answers := mkAnswers (Some "00ff") true true (Some pid) 4 100 1.
Definition no_second_pipe : answers := mkAnswers (Some "00ff") true false (Some 5) 4 100 1.
Definition demo_ops : list op := [OStart demo_plan (good 31); OTold 0 (SdNotify.Datagram (Some [SdNotify.ScmCredentials (Some 1000)]) "READY=1")].
Definition demo : state := run demo_ops (fresh demo_service).

Example spawn_ex :
  open demo = {[0%nat; 1%nat; 3%nat]} ∧ capture demo = [1%nat; 3%nat] ∧ WaitSDNotifyReady false demo = Some [SdNotify.WReady] ∧
  open (FinishStart demo_plan no_second_pipe demo).2 = {[1%nat; 3%nat]} ∧
  (λ r, Env r.2) <$> (match (FinishStart demo_plan (good 32) demo).1 with Ok r => Some r | Err _ => None end) =
    Some (Some ["HOME=/root"; "TOKEN=x/root"; "MODE=c2"; "NOTIFY_SOCKET=@gopherd-sd-notify-1-web-00ff"]).
Proof. vm_compute. repeat split. Qed.

Lemma spawn_resources_witness :
  (∀ s', FinishStart demo_plan no_second_pipe (run demo_ops (fresh demo_service)) = (Err ELogCapture, s') →
     open s' ⊆ open (run demo_ops (fresh demo_service))) ∧
  WaitSDNotifyReady false (FinishStart demo_plan (good 32) (run demo_ops (fresh demo_service))).2 = Some [SdNotify.WBlocks].
Proof.
  pose proof (spawn_resources demo_service demo_ops) as H. cbv zeta in H. destruct H as (_ & _ & Herr & Hok & _). split.
  - intros s' E. destruct (Herr demo_plan no_second_pipe ELogCapture s' E) as [H _]. exact H.
  - destruct (FinishStart demo_plan (good 32) (run demo_ops (fresh demo_service))) as [[[pid c]|e] s'] eqn:E.
    + destruct (Hok demo_plan (good 32) pid c s' E) as [_ H]. apply H. reflexivity.
    + exfalso. vm_compute in E. discriminate E.
Defined.

End Spawn.
