(* ===== verification/Status.v ===== *)
(** * Status and log callbacks: setupControl of src/daemon.go

    The callbacks of the control server that only look.  [StatusFn] reads the
    daemon field by field, so other goroutines can act between its reads; the
    log callback merges the streams of a service. *)

From S2P Require Import Prelude GoStrings GoCalendar Cron Service Metrics Conc DaemonState Daemon DaemonSafety DaemonTheorems.

Open Scope string_scope.
Open Scope list_scope.
Open Scope nat_scope.

Module Status.
Import Conc DaemonState Daemon DaemonSafety DaemonTheorems.

(** ** Times *)

(** [%0nd] of a number that is not negative. *)
Definition padded (n : nat) (z : Z) : string := let t := fmt_d z in str_repeat "0" (n - String.length t) +:+ t.

(** [time.Time.Format(time.DateTime)], years 0 to 9999. *)
Definition DateTime (loc : GoCalendar.Location) (t : Z) : string :=
  padded 4 (GoCalendar.Year loc t) +:+ "-" +:+ padded 2 (GoCalendar.Month loc t) +:+ "-" +:+ padded 2 (GoCalendar.Day loc t) +:+ " " +:+
  padded 2 (GoCalendar.Hour loc t) +:+ ":" +:+ padded 2 (GoCalendar.Minute loc t) +:+ ":" +:+ padded 2 (GoCalendar.Sec loc t).

(** ** StatusFn *)

(** The call of [Next] does not return when its search does not end. *)
Definition next_run (loc : GoCalendar.Location) (s : Service.Service) : P (option Z) :=
  act (λ e d, match Service.sched s with
              | None => None
              | Some sch => match Cron.Next sch loc (e_now e) with Prelude.Done r => Some (r, d) | OutOfFuel => None end
              end).

Definition StatusFn (loc : GoCalendar.Location) (name : string) : P (result derr string) :=
  r ← service_named name;
  match r with
  | None => Return (Err (ErrUnknownService name))
  | Some id =>
      running ← read (λ d, Service.IsRunning (get d id));
      if (running : bool) then t ← read (λ d, pid_text d id); Return (Ok (name +:+ ": running " +:+ t))
      else
        s ← read (λ d, get d id);
        if Service.Scheduled s then
          next ← next_run loc s;
          match next with
          | None => Return (Ok (name +:+ ": scheduled (no future run)"))
          | Some t => Return (Ok (name +:+ ": scheduled (next run " +:+ DateTime loc t +:+ ")"))
          end
        else if negb (Service.Enabled s) then Return (Ok (name +:+ ": disabled"))
        else
          reason ← act (λ e d, Some (Service.UnmetCondition (e_stat e) (get d id), d));
          if negb (bool_decide (reason = "")) then Return (Ok (name +:+ ": skipped (" +:+ reason +:+ ")"))
          else
            pending ← read (λ d, Metrics.IsPending (m d) name);
            if (pending : bool) then Return (Ok (name +:+ ": pending"))
            else Return (Ok (name +:+ ": stopped"))
  end.

(** A callback that only looks, fed with what it sees at each of its actions. *)
Fixpoint looks {A} (p : P A) (obs : list (env * daemon)) : option A :=
  match p, obs with
  | Return a, _ => Some a
  | Act f k, (e, d) :: obs => match f e d with Some (x, _) => looks (k x) obs | None => None end
  | _, _ => None
  end.

(** *** What the answers mean *)

(** The file conditions in force: those of the last reload, or of the process. *)
Definition conditions (s : Service.Service) : Service.FileConditions :=
  match Service.conds s with
  | Some c => c
  | None => Service.mkFileConditions (Service.pConditionFileExists (Service.Proc s)) (Service.pConditionFileMissing (Service.Proc s))
  end.

Definition no_file (stat : string → Service.stat_result) (path : string) : Prop :=
  stat path = Service.StatNotExist ∨ stat path = Service.StatNotDir.

(** Why a start is skipped. *)
Inductive blocked (stat : string → Service.stat_result) (c : Service.FileConditions) : string → Prop :=
  | blocked_missing : Service.cExists c ≠ "" → no_file stat (Service.cExists c) →
      blocked stat c ("condition-file-exists: " +:+ Service.cExists c +:+ " is missing")
  | blocked_exists_error e : Service.cExists c ≠ "" → stat (Service.cExists c) = Service.StatError e →
      blocked stat c ("condition-file-exists: " +:+ e)
  | blocked_present : Service.cMissing c ≠ "" → stat (Service.cMissing c) = Service.StatOk →
      blocked stat c ("condition-file-missing: " +:+ Service.cMissing c +:+ " exists")
  | blocked_missing_error e : Service.cMissing c ≠ "" → stat (Service.cMissing c) = Service.StatError e →
      blocked stat c ("condition-file-missing: " +:+ e).

Definition unblocked (stat : string → Service.stat_result) (c : Service.FileConditions) : Prop :=
  (Service.cExists c = "" ∨ stat (Service.cExists c) = Service.StatOk) ∧ (Service.cMissing c = "" ∨ no_file stat (Service.cMissing c)).

Definition pending (d : daemon) (name : string) : Prop := ∃ row, Metrics.services (m d) !! name = Some row ∧ Metrics.Pending row = true.

(** The words for instance [id] that is not running, and what is true of it at
    the moment of each look: its kind at [o3], the clock and the file conditions
    at [o4], the metrics at [o5]. *)
Inductive idle (loc : GoCalendar.Location) (name : string) (id : nat) (o3 o4 o5 : env * daemon) : string → Prop :=
  | idle_never sch : Service.Scheduled (get o3.2 id) = true → Service.sched (get o3.2 id) = Some sch →
      Cron.Next sch loc (e_now o4.1) = Prelude.Done None → idle loc name id o3 o4 o5 "scheduled (no future run)"
  | idle_next sch t : Service.Scheduled (get o3.2 id) = true → Service.sched (get o3.2 id) = Some sch →
      Cron.Next sch loc (e_now o4.1) = Prelude.Done (Some t) → idle loc name id o3 o4 o5 ("scheduled (next run " +:+ DateTime loc t +:+ ")")
  | idle_disabled : Service.Scheduled (get o3.2 id) = false → Service.Enabled (get o3.2 id) = false → idle loc name id o3 o4 o5 "disabled"
  | idle_skipped reason : Service.Scheduled (get o3.2 id) = false → Service.Enabled (get o3.2 id) = true →
      blocked (e_stat o4.1) (conditions (get o4.2 id)) reason → idle loc name id o3 o4 o5 ("skipped (" +:+ reason +:+ ")")
  | idle_pending : Service.Scheduled (get o3.2 id) = false → Service.Enabled (get o3.2 id) = true →
      unblocked (e_stat o4.1) (conditions (get o4.2 id)) → pending o5.2 name → idle loc name id o3 o4 o5 "pending"
  | idle_stopped : Service.Scheduled (get o3.2 id) = false → Service.Enabled (get o3.2 id) = true →
      unblocked (e_stat o4.1) (conditions (get o4.2 id)) → ¬ pending o5.2 name → idle loc name id o3 o4 o5 "stopped".

Lemma unmet_blocked stat s :
  (Service.UnmetCondition stat s = "" → unblocked stat (conditions s)) ∧
  (Service.UnmetCondition stat s ≠ "" → blocked stat (conditions s) (Service.UnmetCondition stat s)).
Proof.
  assert (Service.UnmetCondition stat s = Service.Unmet stat (conditions s)) as ->
    by (unfold Service.UnmetCondition, conditions; by destruct (Service.conds s)).
  destruct (conditions s) as [ex ms]. unfold Service.Unmet, Service.exists_unmet, Service.missing_unmet, unblocked, no_file.
  cbn [Service.cExists Service.cMissing]. destruct (bool_decide_reflect (ex = "")) as [He|He]; [|destruct (stat ex) eqn:Ee];
    cbn [Service.fileExists]; rewrite ?(bool_decide_true ("" = "")) by done.
  3-5: rewrite bool_decide_false by done.
  3-5: split; [done|intros _].
  3: apply (blocked_missing stat (Service.mkFileConditions ex ms)); [done|by left].
  3: apply (blocked_missing stat (Service.mkFileConditions ex ms)); [done|by right].
  3: by apply (blocked_exists_error stat (Service.mkFileConditions ex ms)).
  all: destruct (bool_decide_reflect (ms = "")) as [Hm|Hm]; [split; [auto|done]|destruct (stat ms) eqn:Em; cbn [Service.fileExists]].
  all: split; [intros H; try done; auto|intros H; try done].
  all: first [by apply (blocked_present stat (Service.mkFileConditions ex ms))|by apply (blocked_missing_error stat (Service.mkFileConditions ex ms))].
Qed.

Lemma pending_iff d name : Metrics.IsPending (m d) name = true ↔ pending d name.
Proof. unfold Metrics.IsPending, pending. destruct (Metrics.services (m d) !! name); naive_solver. Qed.

Section truth.
Context (url_ok : string → bool).


End truth.

(** The state of the run of DaemonTheorems.v in which both services run, and the
    one after web has exited. *)
Definition up_sched : list (nat * env) := demo_start "db" 100 6 ++ demo_start "web" 101 7.
Definition looker : env := demo_env 1 0 0 CReload Quiet.


(** Between the read of the flag and the read of the pid the process can exit. *)
Example status_pid_race :
  let up := st (demo_at up_sched) in let down := st (demo_at demo_sched) in
  looks (StatusFn (GoCalendar.fixed 0) "web") [(looker, up); (looker, up); (looker, down)] = Some (Ok "web: running (pid 0)").
Proof. vm_compute. reflexivity. Qed.

Example status_ex :
  DateTime (GoCalendar.fixed 3600) 1767225599000000000 = "2026-01-01 00:59:59" ∧
  looks (StatusFn (GoCalendar.fixed 0) "web") (replicate 6 (looker, st (demo_at demo_sched))) = Some (Ok "web: stopped").
Proof. split; vm_compute; reflexivity. Qed.

End Status.
