(* ===== verification/LogStream.v ===== *)
(** * Log streams: LogsFn of setupControl in src/daemon.go

    The lines a client gets for a service: those of the two rings, and with
    [follow] a channel into which two goroutines merge the subscriptions of
    stdout and stderr.  Nothing is copied on the way: what travels is the slot of
    the subscription (Writer.v), which the writer uses again 520 lines later, and
    the bytes are read when the handler writes them to the connection. *)

From S2P Require Import Prelude GoStrings Writer.

Open Scope string_scope.
Open Scope list_scope.
Open Scope nat_scope.

Module LogStream.

(** A byte slice. *)
Abbreviation bytes := (list Z).

Inductive logs_err :=
  | EUnknownService (name : string)
  | ECaptureDisabled (name : string).

(** The part of [LogsFn] before the merge: [svc] is the service's log-capture
    setting and its two writers. *)
Definition LogsFn (svc : option (bool * Writer.PrefixWriter * Writer.PrefixWriter)) (name : string) : result logs_err (list bytes) :=
  match svc with
  | None => Err (EUnknownService name)
  | Some (logCapture, out, err) =>
      if negb logCapture then Err (ECaptureDisabled name) else Ok (Writer.Recent out ++ Writer.Recent err)
  end.

(** ** The merge *)

Inductive pipe_state :=
  | Waiting
  | Holding (slot : nat)
  | Ended.

(** A subscription and the goroutine that empties it. *)
Record source := mkSource {
  run : Writer.sub_run;
  src_closed : bool;
  pipe : pipe_state;
}.

(** Streams are false (stdout) and true (stderr).  [handler] is the slot the
    connection handler has received, [written] what it has written. *)
Record merge := mkMerge {
  srcs : bool → source;
  merged : list (bool * nat);
  merged_closed : bool;
  stop : bool;
  handler : option (bool * nat);
  written : list (bool * bytes);
}.

Definition mergedCap : nat := 256.

Definition set_src (i : bool) (s : source) (g : merge) : merge :=
  mkMerge (λ j, if bool_decide (j = i) then s else srcs g j) (merged g) (merged_closed g) (stop g) (handler g) (written g).

Definition start : merge := mkMerge (λ _, mkSource Writer.sub_init false Waiting) [] false false None [].

Inductive event :=
  | Line (i : bool) (l : bytes)
  | SourceCloses (i : bool)
  | Takes (i : bool)
  | Sends (i : bool)
  | SeesClosed (i : bool)
  | SeesStop (i : bool)
  | BothEnded
  | Receives
  | Writes
  | Unsub.

Definition is_ended (s : source) : bool := match pipe s with Ended => true | _ => false end.
Definition waiting (s : source) : list nat := Writer.queue (Writer.sub (run s)).
Definition slot_text (s : source) (slot : nat) : bytes := default [] (Writer.bufs (Writer.sub (run s)) !! slot).

(** [None]: the event cannot happen now. *)
Definition step (e : event) (g : merge) : option merge :=
  match e with
  | Line i l =>
      let s := srcs g i in
      if src_closed s then None
      else Some (set_src i (mkSource (Writer.sub_step (run s) (Writer.SLine l)) false (pipe s)) g)
  | SourceCloses i => let s := srcs g i in Some (set_src i (mkSource (run s) true (pipe s)) g)
  | Takes i =>
      let s := srcs g i in
      match pipe s, waiting s with
      | Waiting, slot :: _ => Some (set_src i (mkSource (Writer.sub_step (run s) Writer.SReceive) (src_closed s) (Holding slot)) g)
      | _, _ => None
      end
  | Sends i =>
      let s := srcs g i in
      match pipe s with
      | Holding slot =>
          if length (merged g) <? mergedCap then
            Some (set_src i (mkSource (run s) (src_closed s) Waiting)
                    (mkMerge (srcs g) (merged g ++ [(i, slot)]) (merged_closed g) (stop g) (handler g) (written g)))
          else None
      | _ => None
      end
  | SeesClosed i =>
      let s := srcs g i in
      match pipe s, waiting s with
      | Waiting, [] => if src_closed s then Some (set_src i (mkSource (run s) true Ended) g) else None
      | _, _ => None
      end
  | SeesStop i =>
      let s := srcs g i in
      if stop g && negb (is_ended s) then Some (set_src i (mkSource (run s) (src_closed s) Ended) g) else None
  | BothEnded =>
      if is_ended (srcs g false) && is_ended (srcs g true) && negb (merged_closed g)
      then Some (mkMerge (srcs g) (merged g) true (stop g) (handler g) (written g)) else None
  | Receives =>
      match handler g, merged g with
      | None, x :: rest => Some (mkMerge (srcs g) rest (merged_closed g) (stop g) (Some x) (written g))
      | _, _ => None
      end
  | Writes =>
      match handler g with
      | Some (i, slot) =>
          Some (mkMerge (srcs g) (merged g) (merged_closed g) (stop g) None (written g ++ [(i, slot_text (srcs g i) slot)]))
      | None => None
      end
  | Unsub => if stop g then None else Some (mkMerge (srcs g) (merged g) (merged_closed g) true (handler g) (written g))
  end.

Fixpoint steps (evs : list event) (g : merge) : option merge :=
  match evs with
  | [] => Some g
  | e :: evs => g' ← step e g; steps evs g'
  end.

(** ** What is on its way *)

Definition from {A} (i : bool) (l : list (bool * A)) : list A := (filter (λ x, x.1 = i) l).*2.

Definition in_hand (s : source) : list nat := match pipe s with Holding b => [b] | _ => [] end.

(** The slots of a stream handed out are those written, the handler's, those of
    the channel and the one in hand; a goroutine that was stopped may have
    dropped one. *)
Definition stream_inv (i : bool) (g : merge) : Prop :=
  Writer.sub_inv (run (srcs g i)) ∧
  from i (written g) = take (length (from i (written g))) (Writer.sent (run (srcs g i))) ∧
  ∃ done lost, Writer.got (run (srcs g i)) =
      done ++ from i (option_list (handler g)) ++ from i (merged g) ++ in_hand (srcs g i) ++ lost ∧
    length done = length (from i (written g)) ∧
    (if is_ended (srcs g i) then length lost ≤ 1 else lost = []) ∧ (stop g = false → lost = []).

Definition inv (g : merge) : Prop :=
  (∀ i, stream_inv i g) ∧ length (merged g) ≤ mergedCap ∧
  (merged_closed g = true → ∀ i, is_ended (srcs g i) = true) ∧
  (stop g = false → ∀ i, is_ended (srcs g i) = true → src_closed (srcs g i) = true ∧ waiting (srcs g i) = []).

Lemma from_app {A} i (l1 l2 : list (bool * A)) : from i (l1 ++ l2) = from i l1 ++ from i l2.
Proof. unfold from. by rewrite filter_app, fmap_app. Qed.

Lemma from_one {A} i j (b : A) : from i [(j, b)] = if bool_decide (j = i) then [b] else [].
Proof. unfold from. rewrite filter_cons. cbn. by case_decide; case_bool_decide. Qed.

Lemma from_length {A} i (l : list (bool * A)) : length (from i l) ≤ length l.
Proof. unfold from. rewrite length_fmap. apply length_filter. Qed.

(** What an event does to a stream it is not about. *)
Lemma srcs_other i j s g : j ≠ i → srcs (set_src i s g) j = srcs g j.
Proof. intros H. cbn. by rewrite bool_decide_false. Qed.

Lemma srcs_same i s g : srcs (set_src i s g) i = s.
Proof. cbn. by rewrite bool_decide_true. Qed.

(** A step on one source that keeps the rest keeps the other stream. *)
Lemma stream_other i j s g : j ≠ i → stream_inv j g → stream_inv j (set_src i s g).
Proof. intros Hne H. unfold stream_inv in *. rewrite !srcs_other by done. exact H. Qed.

(** The slot the handler holds is still what was sent. *)
Lemma slot_intact i g slot : inv g → handler g = Some (i, slot) →
  Writer.sent (run (srcs g i)) !! length (from i (written g)) = Some (slot_text (srcs g i) slot).
Proof.
  intros (Hs & Hcap & _) Hh. destruct (Hs i) as ([H1 H2 H3 H4 H5] & _ & done & lost & Hg & Hlen & Hl & _). rewrite Hh in Hg.
  change (option_list (Some (i, slot))) with [(i, slot)] in Hg. rewrite from_one, bool_decide_true in Hg by reflexivity. set (r := run (srcs g i)) in *.
  set (n := length (from i (written g))) in *.
  assert (Hslot : (Writer.got r ++ Writer.queue (Writer.sub r)) !! n = Some slot).
  { rewrite Hg. rewrite <- app_assoc. rewrite lookup_app_r by lia. by rewrite Hlen, Nat.sub_diag. }
  rewrite H4 in Hslot. rewrite list_lookup_fmap in Hslot. apply fmap_Some in Hslot as (n' & Hn' & ->).
  apply lookup_seq in Hn' as [-> Hlt]. cbn [Nat.add] in *.
  assert (Htot : length (Writer.sent r) = length (Writer.got r) + length (Writer.queue (Writer.sub r))).
  { apply (f_equal length) in H4. rewrite length_app, length_fmap, length_seq in H4. lia. }
  pose proof (from_length i (merged g)) as Hm. unfold mergedCap in Hcap. unfold Writer.subChanCap in H3.
  assert (Hhand : length (in_hand (srcs g i)) + length lost ≤ 1).
  { unfold in_hand, is_ended in *. destruct (pipe (srcs g i)); [subst lost; cbn; lia|subst lost; cbn; lia|cbn in *; lia]. }
  apply (f_equal length) in Hg. rewrite !length_app in Hg. cbn [length] in Hg.
  unfold slot_text. fold r. rewrite H5; [|unfold Writer.subBufRingSize; lia|lia].
  destruct (Writer.sent r !! n) as [x|] eqn:Ex; [done|].
  apply lookup_ge_None in Ex. lia.
Qed.

Lemma stream_line i l g : stream_inv i g → src_closed (srcs g i) = false →
  stream_inv i (set_src i (mkSource (Writer.sub_step (run (srcs g i)) (Writer.SLine l)) false (pipe (srcs g i))) g).
Proof.
  intros (Hi & Hw & done & lost & Hg & Hr) Hc. unfold stream_inv. rewrite srcs_same. cbn [run merged handler written stop set_src].
  split; [by apply Writer.sub_inv_step|]. split.
  - cbn [Writer.sub_step Writer.sent]. destruct (_ <? _); [|exact Hw]. rewrite take_app_le; [exact Hw|].
    apply (f_equal length) in Hw. rewrite length_take in Hw. lia.
  - exists done, lost. unfold in_hand, is_ended in *. cbn [pipe]. exact (conj Hg Hr).
Qed.

Lemma stream_takes i slot q g : stream_inv i g → pipe (srcs g i) = Waiting → waiting (srcs g i) = slot :: q →
  stream_inv i (set_src i (mkSource (Writer.sub_step (run (srcs g i)) Writer.SReceive) (src_closed (srcs g i)) (Holding slot)) g).
Proof.
  intros (Hi & Hw & done & lost & Hg & Hlen & Hl & Hs) Hp Hq. unfold stream_inv. rewrite srcs_same. cbn [run merged handler written stop set_src].
  split; [by apply Writer.sub_inv_step|]. unfold waiting in Hq. cbn [Writer.sub_step]. unfold Writer.sub_recv. rewrite Hq. cbn [Writer.sent Writer.got].
  split; [exact Hw|]. exists done, []. unfold in_hand, is_ended in *. rewrite Hp in *. cbn [pipe]. subst lost.
  split; [|done]. rewrite Hg, !app_nil_r. by rewrite <- !app_assoc.
Qed.

(** A source changes and its stream keeps its invariant: so do all. *)
Lemma inv_set i s g : inv g → stream_inv i (set_src i s g) →
  (merged_closed g = true → is_ended s = true) →
  (stop g = false → is_ended s = true → src_closed s = true ∧ waiting s = []) → inv (set_src i s g).
Proof.
  intros (Hs & Hcap & Hcl & Hend) Hi H1 H2. split; [|split; [done|split]].
  - intros j. destruct (decide (j = i)) as [->|Hne]; [done|]. by apply stream_other.
  - intros Hc j. destruct (decide (j = i)) as [->|Hne]; [rewrite srcs_same; by apply H1|rewrite srcs_other by done; by apply Hcl].
  - intros Hst j. destruct (decide (j = i)) as [->|Hne]; [rewrite srcs_same; by apply H2|rewrite srcs_other by done; by apply Hend].
Qed.

Lemma inv_sends i slot g : inv g → pipe (srcs g i) = Holding slot → length (merged g) < mergedCap →
  inv (set_src i (mkSource (run (srcs g i)) (src_closed (srcs g i)) Waiting)
         (mkMerge (srcs g) (merged g ++ [(i, slot)]) (merged_closed g) (stop g) (handler g) (written g))).
Proof.
  intros (Hs & Hcap & Hcl & Hend) Hp Hlt. set (g1 := mkMerge _ _ _ _ _ _).
  assert (Hnot : merged_closed g = false).
  { destruct (merged_closed g) eqn:E; [|done]. specialize (Hcl eq_refl i). unfold is_ended in Hcl. by rewrite Hp in Hcl. }
  split; [|split; [cbn; rewrite length_app; cbn; lia|split]].
  - intros j. destruct (Hs j) as (Hi & Hw & done & lost & Hg & Hlen & Hl & Hst). unfold stream_inv. destruct (decide (j = i)) as [->|Hne].
    + rewrite srcs_same. cbn [run merged handler written stop set_src g1]. split; [done|]. split; [done|]. exists done, lost.
      rewrite from_app, from_one, bool_decide_true by done. unfold in_hand, is_ended in *. rewrite Hp in *. cbn [pipe app].
      split; [|done]. rewrite Hg. by rewrite <- !app_assoc.
    + rewrite srcs_other by done. cbn [run merged handler written stop set_src g1 srcs]. split; [done|]. split; [done|]. exists done, lost.
      rewrite from_app, from_one, bool_decide_false by done. rewrite app_nil_r. done.
  - cbn. congruence.
  - intros Hst j. destruct (decide (j = i)) as [->|Hne]; [rewrite srcs_same; done|rewrite srcs_other by done; by apply Hend].
Qed.

Lemma inv_receives x rest g : inv g → handler g = None → merged g = x :: rest →
  inv (mkMerge (srcs g) rest (merged_closed g) (stop g) (Some x) (written g)).
Proof.
  intros (Hs & Hcap & Hcl & Hend) Hh Hm. split; [|split; [cbn; rewrite Hm in Hcap; cbn in Hcap; lia|done]].
  intros j. destruct (Hs j) as (Hi & Hw & done & lost & Hg & Hr). split; [done|]. split; [done|]. exists done, lost.
  cbn [run merged handler written stop srcs]. split; [|done]. rewrite Hg, Hh, Hm.
  change (x :: rest) with ([x] ++ rest). rewrite from_app. change (option_list (Some x)) with [x]. cbn [option_list from_option]. by rewrite <- !app_assoc.
Qed.

Lemma inv_writes i slot g : inv g → handler g = Some (i, slot) →
  inv (mkMerge (srcs g) (merged g) (merged_closed g) (stop g) None (written g ++ [(i, slot_text (srcs g i) slot)])).
Proof.
  intros HI Hh. pose proof (slot_intact i g slot HI Hh) as Hslot. destruct HI as (Hs & Hcap & Hcl & Hend). split; [|done].
  intros j. destruct (Hs j) as (Hi & Hw & done & lost & Hg & Hlen & Hr). split; [done|]. cbn [run merged handler written stop srcs].
  rewrite from_app, from_one. rewrite Hh in Hg. change (option_list (Some (i, slot))) with [(i, slot)] in Hg. rewrite from_one in Hg.
  destruct (decide (i = j)) as [->|Hne].
  - rewrite bool_decide_true in Hg |- * by done. rewrite length_app. cbn [length]. split.
    + rewrite Nat.add_1_r. rewrite (take_S_r _ _ _ Hslot). by rewrite <- Hw.
    + exists (done ++ [slot]), lost. rewrite length_app. cbn [length]. split; [|split; [lia|done]]. rewrite Hg.
      change (from j (option_list None)) with (@nil nat). by rewrite <- !app_assoc.
  - rewrite bool_decide_false in Hg |- * by done. rewrite app_nil_r. split; [done|]. exists done, lost. done.
Qed.

Lemma stream_ends i g s : stream_inv i g → is_ended (srcs g i) = false → run s = run (srcs g i) → pipe s = Ended →
  (stop g = true ∨ in_hand (srcs g i) = []) → stream_inv i (set_src i s g).
Proof.
  intros (Hi & Hw & done & lost & Hg & Hlen & Hl & Hst) He Hrun Hp Hor. unfold stream_inv. rewrite srcs_same, Hrun.
  cbn [merged handler written stop set_src]. split; [done|]. split; [done|]. rewrite He in Hl. subst lost.
  exists done, (in_hand (srcs g i)). unfold is_ended, in_hand at 1. rewrite Hp. cbn [app]. split; [by rewrite Hg, app_nil_r|].
  split; [done|]. split; [unfold in_hand; destruct (pipe (srcs g i)); cbn; lia|]. destruct Hor as [->|E]; [done|by rewrite E].
Qed.

Lemma merge_step_inv e g g' : inv g → step e g = Some g' → inv g'.
Proof.
  intros HI. pose proof HI as (Hs & Hcap & Hcl & Hend). destruct e as [i l|i|i|i|i|i| | | |]; cbn [step].
  - destruct (src_closed (srcs g i)) eqn:Ec; [done|]. intros [= <-]. apply inv_set; [done|by apply stream_line|intros Hc; exact (Hcl Hc i)|].
    intros Hst He. destruct (Hend Hst i He). congruence.
  - intros [= <-]. apply inv_set; [done| |intros Hc; exact (Hcl Hc i)|intros Hst He; split; [done|]; by apply (Hend Hst i)].
    destruct (Hs i) as (Hi & Hw & Hex). unfold stream_inv. rewrite srcs_same. done.
  - destruct (pipe (srcs g i)) eqn:Ep; [|done..]. destruct (waiting (srcs g i)) as [|slot q] eqn:Eq; [done|]. intros [= <-].
    apply inv_set; [done|by eapply stream_takes| |done]. intros Hc. specialize (Hcl Hc i). unfold is_ended in Hcl. by rewrite Ep in Hcl.
  - destruct (pipe (srcs g i)) as [|slot|] eqn:Ep; [done| |done]. destruct (Nat.ltb_spec (length (merged g)) mergedCap); [|done].
    intros [= <-]. by apply inv_sends.
  - destruct (pipe (srcs g i)) eqn:Ep; [|done..]. destruct (waiting (srcs g i)) eqn:Eq; [|done]. destruct (src_closed (srcs g i)) eqn:Ec; [|done].
    intros [= <-]. apply inv_set; [done| |done|done]. apply stream_ends; try done; unfold is_ended, in_hand; rewrite Ep; auto.
  - destruct (stop g) eqn:Est; [|done]. destruct (is_ended (srcs g i)) eqn:Ee; [done|]. cbn. intros [= <-].
    apply inv_set; [done| |done|congruence]. apply stream_ends; auto.
  - destruct (is_ended (srcs g false)) eqn:E1; [|done]. destruct (is_ended (srcs g true)) eqn:E2; [|done]. destruct (merged_closed g); [done|].
    intros [= <-]. split; [done|]. split; [done|]. split; [|done]. intros _ []; done.
  - destruct (handler g) eqn:Eh; [done|]. destruct (merged g) as [|x rest] eqn:Em; [done|]. intros [= <-]. by apply inv_receives.
  - destruct (handler g) as [[i slot]|] eqn:Eh; [|done]. intros [= <-]. by apply inv_writes.
  - destruct (stop g) eqn:Est; [done|]. intros [= <-]. split; [|split; [done|split; [done|done]]].
    intros j. destruct (Hs j) as (Hi & Hw & done & lost & Hg & Hlen & Hl & _). split; [done|]. split; [done|]. exists done, lost. done.
Qed.

Lemma start_inv : inv start.
Proof.
  split; [|split; [cbn; lia|done]]. intros i. split; [apply Writer.sub_inv_init|]. split; [done|]. exists [], []. done.
Qed.

Lemma merge_steps_inv evs : ∀ g g', inv g → steps evs g = Some g' → inv g'.
Proof.
  induction evs as [|e evs IH]; intros g g' HI; cbn [steps]; [by intros [= <-]|].
  destruct (step e g) as [g1|] eqn:E; [|done]. cbn. apply IH. by eapply merge_step_inv.
Qed.

(** Once stopped, both goroutines can end and the channel is closed. *)
Lemma stop_releases g : stop g = true → ∃ evs g', steps evs g = Some g' ∧ length evs ≤ 3 ∧ merged_closed g' = true ∧
  Forall (λ e, e = SeesStop false ∨ e = SeesStop true ∨ e = BothEnded) evs.
Proof.
  intros Hst.
  assert (H1 : ∀ i g, stop g = true → ∃ evs g', steps evs g = Some g' ∧ length evs ≤ 1 ∧ stop g' = true ∧ is_ended (srcs g' i) = true ∧
    (∀ j, j ≠ i → srcs g' j = srcs g j) ∧ Forall (λ e, e = SeesStop false ∨ e = SeesStop true ∨ e = BothEnded) evs).
  { intros i g0 Hs. destruct (is_ended (srcs g0 i)) eqn:E.
    - exists [], g0. split_and!; try done. cbn; lia.
    - exists [SeesStop i]. eexists. cbn [steps step]. rewrite Hs, E. cbn [andb negb mbind option_bind].
      split; [reflexivity|]. split_and!; try done; [rewrite srcs_same; done|intros j Hj; by rewrite srcs_other|].
      constructor; [destruct i; auto|constructor]. }
  destruct (H1 false g Hst) as (ev1 & g1 & E1 & L1 & S1 & F1 & _ & A1). destruct (H1 true g1 S1) as (ev2 & g2 & E2 & L2 & S2 & F2 & O2 & A2).
  rewrite <- (O2 false) in F1 by done.
  assert (Happ : ∀ a b g0, steps (a ++ b) g0 = (g' ← steps a g0; steps b g')).
  { induction a as [|e a IH]; intros b g0; cbn [app steps]; [done|]. destruct (step e g0); cbn; [apply IH|done]. }
  destruct (merged_closed g2) eqn:Ec.
  - exists (ev1 ++ ev2), g2. rewrite Happ, E1. cbn. rewrite E2. split_and!; [done|rewrite length_app; lia|done|by apply Forall_app].
  - exists (ev1 ++ ev2 ++ [BothEnded]). eexists. rewrite Happ, E1. cbn. rewrite Happ, E2. cbn [mbind option_bind steps step].
    rewrite F1, F2, Ec. cbn. split; [reflexivity|]. split_and!; [rewrite !length_app; cbn; lia|done|]. repeat apply Forall_app_2; try done. auto.
Qed.

(** C34: a log stream shows what was logged.  Whatever the order in which lines
    arrive, the merging goroutines move, the client reads and the session ends,
    the bytes written to a client for each stream are the lines accepted by its
    subscription, in order, none missing and none overwritten meanwhile although
    no line is copied; the channel never holds more than 256 lines and is never
    sent to once closed.  A stream that ends by itself has shown every accepted
    line, and when the session is given up both goroutines can always end. *)
Theorem log_stream_faithful (evs : list event) (g : merge) :
  steps evs start = Some g →
  (∀ i, from i (written g) `prefix_of` Writer.sent (run (srcs g i))) ∧
  length (merged g) ≤ 256 ∧
  (∀ i slot, pipe (srcs g i) = Holding slot → merged_closed g = false) ∧
  (merged_closed g = true → stop g = false → merged g = [] → handler g = None →
     ∀ i, from i (written g) = Writer.sent (run (srcs g i))) ∧
  (stop g = true → ∃ evs' g', steps evs' g = Some g' ∧ length evs' ≤ 3 ∧ merged_closed g' = true ∧
     Forall (λ e, e = SeesStop false ∨ e = SeesStop true ∨ e = BothEnded) evs').
Proof.
  intros H. pose proof (merge_steps_inv _ _ _ start_inv H) as (Hs & Hcap & Hcl & Hend). split_and!; [|done|..].
  - intros i. destruct (Hs i) as (_ & Hw & _). rewrite Hw. apply prefix_take.
  - intros i slot Hp. destruct (merged_closed g) eqn:E; [|done]. specialize (Hcl eq_refl i). unfold is_ended in Hcl. by rewrite Hp in Hcl.
  - intros Hc Hst Hm Hh i. destruct (Hs i) as ([_ _ _ H4 _] & Hw & done & lost & Hg & Hlen & _ & Hl). rewrite (Hl Hst), Hm, Hh in Hg.
    destruct (Hend Hst i (Hcl Hc i)) as [_ Hq]. pose proof (Hcl Hc i) as He. unfold is_ended, in_hand, waiting in *.
    destruct (pipe (srcs g i)); [done|done|]. change (from i (option_list None)) with (@nil nat) in Hg. change (from i (@nil (bool * nat))) with (@nil nat) in Hg.
    rewrite !app_nil_r in Hg. rewrite Hw. apply take_ge. apply (f_equal length) in H4. rewrite Hg, Hq, app_nil_r, length_fmap, length_seq in H4. lia.
  - apply stop_releases.
Qed.

(** Two streams, one line of each written; the client leaves while a line is in
    hand. *)
Definition demo_events : list event :=
  [Line false [97%Z]; Line true [98%Z]; Line false [99%Z]; Takes true; Sends true; Takes false; Sends false; Receives; Writes; Receives; Writes;
   Takes false; Unsub].

Lemma log_stream_faithful_witness : ∃ g, steps demo_events start = Some g ∧ written g = [(true, [98%Z]); (false, [97%Z])] ∧
  ∃ evs' g', steps evs' g = Some g' ∧ merged_closed g' = true.
Proof.
  destruct (steps demo_events start) as [g|] eqn:E; [|exfalso; vm_compute in E; discriminate E]. exists g. split; [reflexivity|].
  destruct (log_stream_faithful demo_events g E) as (_ & _ & _ & _ & Hstop).
  assert (Hw : written g = [(true, [98%Z]); (false, [97%Z])] ∧ stop g = true) by (vm_compute in E; injection E as <-; split; reflexivity).
  destruct Hw as [Hw Hst]. split; [exact Hw|]. destruct (Hstop Hst) as (evs' & g' & H1 & _ & H2 & _). exists evs', g'. split; [exact H1|exact H2].
Defined.

End LogStream.
