(* ===== verification/LogTarget.v ===== *)
(** * Writers of log targets: src/internal/logger/target.go

    The writers a target is built from.  Go's interfaces [io.WriteCloser] and
    [syslogInfoer] are type classes; what a target promises to those that write
    to it is the class [Sink], proved for the syslog writer, for the rotating
    file and for the label writer over any sink. *)

From S2P Require Import Prelude GoStrings GoQuote Sanitize Config Rotate Target.

Open Scope string_scope.
Open Scope list_scope.
Open Scope Z_scope.

Module LogTarget.

Import GoQuote.

Abbreviation bytes := (list Z).

Definition to_bytes (s : string) : bytes := (λ a, byte_val a) <$> String.list_ascii_of_string s.

(** ** Interfaces *)

Inductive io_err :=
  | ESend
  | EFile (e : Rotate.write_err).

Class WriteCloser (W : Type) := {
  Write : W → bytes → result io_err Z * W;
  Close : W → option io_err * W;
}.

(** A message is handed over whole, or there is an error. *)
Class syslogInfoer (S : Type) := {
  Info : S → bytes → option io_err * S;
  infoer_Close : S → option io_err * S;
}.

(** ** Writers *)

Record syslogWriter (S : Type) := mkSyslog { conn : S }.
Arguments mkSyslog {S}.
Arguments conn {S}.

Definition syslog_Write {S} `{syslogInfoer S} (sw : syslogWriter S) (p : bytes) : result io_err Z * syslogWriter S :=
  let '(err, c) := Info (conn sw) (Rotate.sanitize p) in
  (match err with Some e => Err e | None => Ok (Rotate.len p) end, mkSyslog c).

#[export] Instance syslogWriter_wc {S} `{syslogInfoer S} : WriteCloser (syslogWriter S) := {
  Write := syslog_Write;
  Close sw := let '(err, c) := infoer_Close (conn sw) in (err, mkSyslog c);
}.

(** The rotating file with the directory it works in and the answers the system
    will give to its next writes. *)
Record fileWriter := mkFileWriter {
  fw : Rotate.writer;
  disk : Rotate.fs;
  answers : list Rotate.env;
}.

Definition all_well : Rotate.env := Rotate.mkEnv true (λ _, true) (λ _, true) true true None.

Definition file_Write (f : fileWriter) (p : bytes) : result io_err Z * fileWriter :=
  let '(r, w, s) := Rotate.Write (default all_well (head (answers f))) (fw f) (disk f) p in
  (match r with Ok n => Ok n | Err e => Err (EFile e) end, mkFileWriter w s (tail (answers f))).

#[export] Instance fileWriter_wc : WriteCloser fileWriter := {
  Write := file_Write;
  Close f := (None, mkFileWriter (Rotate.Close (fw f)) (disk f) (answers f));
}.

Record labelWriter (W : Type) := mkLabelWriter {
  lw : W;
  prefix : string;
}.
Arguments mkLabelWriter {W}.
Arguments lw {W}.
Arguments prefix {W}.

Definition label_Write {W} `{WriteCloser W} (l : labelWriter W) (p : bytes) : result io_err Z * labelWriter W :=
  let '(r, w) := Write (lw l) (to_bytes (prefix l) ++ p) in
  (match r with Err e => Err e | Ok _ => Ok (Rotate.len p) end, mkLabelWriter w (prefix l)).

#[export] Instance labelWriter_wc {W} `{WriteCloser W} : WriteCloser (labelWriter W) := {
  Write := label_Write;
  Close l := let '(err, w) := Close (lw l) in (err, mkLabelWriter w (prefix l));
}.

(** A value of an interface type that one of two types implements. *)
#[export] Instance sum_wc {A B} `{WriteCloser A, WriteCloser B} : WriteCloser (A + B) := {
  Write w p :=
    match w with
    | inl a => let '(r, a) := Write a p in (r, inl a)
    | inr b => let '(r, b) := Write b p in (r, inr b)
    end;
  Close w :=
    match w with
    | inl a => let '(r, a) := Close a in (r, inl a)
    | inr b => let '(r, b) := Close b in (r, inr b)
    end;
}.

(** ** Labels *)

Section labels.
Context (isPrint : Z → bool).

Definition ContainsAny (s chars : string) : bool := negb (str_all (λ a, negb (str_in a chars)) s).

Definition needs_quotes (v : string) : bool := ContainsAny v (String " " (String "009" (String quote_char "="))).

Definition logfmtValue (v : string) : string :=
  if bool_decide (v = "") then String quote_char (str1 quote_char)
  else if needs_quotes v then Quote isPrint v
  else v.

Definition label_text (kv : string * string) : string := kv.1 +:+ "=" +:+ logfmtValue kv.2 +:+ " ".

(** What the builder holds after the labels in this order. *)
Definition label_prefix (kvs : list (string * string)) : string := foldr (λ kv s, label_text kv +:+ s) "" kvs.

(** [keys] is the order in which the map of labels is walked. *)
Definition newLabelWriter {W} (w : W) (keys : list string) (labels : gmap string string) : labelWriter W :=
  mkLabelWriter w (label_prefix ((λ k, (k, default "" (labels !! k))) <$> sort_strings keys)).

(** ** Targets *)

Section target.
Context {S : Type} `{syslogInfoer S}.
Context (url_Parse : string → option (string * string)) (Dial : string → string → option S).

Inductive new_target_err :=
  | ELocation (location : string)
  | ELocationForm (location : string)
  | EDial (network addr : string)
  | EOpenFile (e : Target.target_err)
  | EType (t : string).

Definition openSyslog (location : string) : result new_target_err (syslogWriter S) :=
  match url_Parse location with
  | None => Err (ELocation location)
  | Some (network, addr) =>
      if bool_decide (network = "") || bool_decide (addr = "") then Err (ELocationForm location)
      else match Dial network addr with
      | None => Err (EDial network addr)
      | Some c => Ok (mkSyslog c)
      end
  end.

(** The plain writers, and with labels. *)
Definition plain_writer : Type := syslogWriter S + fileWriter.
Definition target_writer : Type := plain_writer + labelWriter plain_writer.

Record TargetRec := mkTarget {
  Writer : target_writer;
  services : gset string;
  tname : string;
  tcfg : Config.TargetConfig;
}.

(** What the file system answers to [openFile]: names, the file opened (inode
    [fd] of [dir]), and what later writes will meet. *)
Context (lstat : string → Target.lstat_result) (leaf : string → Target.leaf_answer) (euid : Z).
Context (fd : nat) (dir : Rotate.fs) (later : list Rotate.env).

Definition open_plain (cfg : Config.TargetConfig) : result new_target_err plain_writer :=
  if bool_decide (Config.tType cfg = "syslog") then w ← openSyslog (Config.tLocation cfg); Ok (inl w)
  else if bool_decide (Config.tType cfg = "file") then
    match Target.openFile lstat leaf euid fd (Config.tLocation cfg) cfg with
    | Err e => Err (EOpenFile e)
    | Ok w => Ok (inr (mkFileWriter w dir later))
    end
  else Err (EType (Config.tType cfg)).

Definition NewTarget (keys : list string) (name : string) (cfg : Config.TargetConfig) : result new_target_err TargetRec :=
  w ← open_plain cfg;
  let w : target_writer :=
    if Nat.ltb 0 (size (Config.tLabels cfg)) then inr (newLabelWriter w keys (Config.tLabels cfg)) else inl w in
  Ok (mkTarget w (list_to_set (Config.tServices cfg)) name cfg).

End target.
End labels.

(** ** What a sink promises *)

(** [took w m w']: going from [w] to [w'] the sink took the text [m]. *)
Class Sink (W : Type) `{WriteCloser W} := {
  ready : W → Prop;
  took : W → bytes → W → Prop;
  sink_write : ∀ w p r w', ready w → Write w p = (r, w') →
    ready w' ∧ ∀ n, r = Ok n → n = Rotate.len p ∧ took w (Rotate.sanitize p) w';
}.

(** What is relied on of a syslog connection: an accepted message is sent. *)
Class Recorder (S : Type) `{syslogInfoer S} := {
  sent : S → list bytes;
  info_sent : ∀ s m s', Info s m = (None, s') → sent s' = sent s ++ [m];
}.

#[export] Program Instance syslog_sink {S} `{Recorder S} : Sink (syslogWriter S) := {
  ready _ := True;
  took w m w' := sent (conn w') = sent (conn w) ++ [m];
}.
Next Obligation.
  intros S HS HR w p r w' _. cbn. unfold syslog_Write. destruct (Info (conn w) (Rotate.sanitize p)) as [err c] eqn:E. intros [= <- <-].
  split; [done|]. intros n. destruct err; [done|]. intros [= <-]. split; [done|]. by apply info_sent.
Qed.

(** *** The rotating file, whatever the system answers *)

Section file.
Import Rotate.

Lemma rename_ext e src dst s s' : Rename e src dst s = Some s' → inodes s' = inodes s.
Proof. unfold Rename. destruct (entries s !! src); [|done]. destruct (e_rename e src); [|done]. by intros [= <-]. Qed.

Lemma remove_ext e n s : inodes (Remove e n s) = inodes s.
Proof. unfold Remove. by destruct (e_remove e n). Qed.

Lemma shift_ext e p n : ∀ s, inodes (shift e p n s) = inodes s.
Proof.
  assert (Hn : ∀ src i s, inodes (shift_name e p src i s) = inodes s).
  { intros src i s. unfold shift_name. destruct (entries s !! src); [|done]. destruct (Rename e src _ s) as [s'|] eqn:E; [|done]. by eapply rename_ext. }
  induction n as [|n IH]; intros s; [done|]. cbn [shift]. rewrite IH. unfold shift_slot. by rewrite !Hn.
Qed.

Lemma compress_ext e w s : store_ok s → store_ok (compress_rotated e w s) ∧ ext s (compress_rotated e w s).
Proof.
  intros Hs. assert (H0 : store_ok s ∧ ext s s) by (split; [done|by intros ?]). unfold compress_rotated, gzipFile. destruct (compress w); [|exact H0].
  destruct (entries s !! plain (path w) 1) as [i|]; [|exact H0]. cbn. destruct (inodes s !! i) as [f|]; [|exact H0]. cbn.
  destruct (e_gzip e); [|exact H0]. destruct (Create _ _ s) as [[j s']|] eqn:E; [|exact H0]. cbn.
  destruct (create_store _ _ _ _ _ Hs E) as (Hs' & He & _). split; [by apply remove_store|]. intros k g Hg. rewrite remove_ext. auto.
Qed.

(** After a rotation the descriptor is as it was, gone, or on a new empty file. *)
Lemma rotate_any e w s err w' s' : store_ok s → rotate e w s = (err, w', s') → store_ok s' ∧ ext s s' ∧
  ((fd w' = fd w ∧ s' = s) ∨ fd w' = None ∨ ∃ i, fd w' = Some i ∧ inodes s !! i = None ∧ inodes s' !! i = Some (mkFile false [])).
Proof.
  intros Hs. unfold rotate. destruct (e_ancestors e); cbn [negb]; [|intros [= <- <- <-]; split_and!; [done|by intros ?|by left]].
  set (s1 := shift e _ _ _). assert (Hs1 : store_ok s1) by (by apply shift_store, remove_store, remove_store).
  assert (E1 : inodes s1 = inodes s) by (unfold s1; by rewrite shift_ext, !remove_ext). clearbody s1.
  assert (He1 : ext s s1) by (intros i f; by rewrite E1).
  destruct (Rename e _ _ s1) as [s2|] eqn:E2; [|intros [= <- <- <-]; split_and!; [done|done|by right; left]].
  pose proof (rename_store _ _ _ _ _ Hs1 E2) as Hs2. apply rename_ext in E2.
  destruct (compress_ext e (set_fd None w) s2 Hs2) as [Hs3 He3]. set (s3 := compress_rotated _ _ _) in *. clearbody s3.
  assert (He : ext s s3) by (intros i f Hf; apply He3; by rewrite E2, E1).
  destruct (e_open e); [|intros [= <- <- <-]; split_and!; [done|done|by right; left]].
  destruct (Create _ _ s3) as [[i s4]|] eqn:E4; intros [= <- <- <-]; [|split_and!; [done|done|by right; left]].
  destruct (create_store _ _ _ _ _ Hs3 E4) as (Hs4 & He4 & _ & -> & Hi & _). split_and!; [done|by intros j g ?; auto|].
  right. right. exists (nextInode s3). split_and!; [done| |done]. destruct (inodes s !! nextInode s3) eqn:E; [|done].
  apply He in E. assert (nextInode s3 < nextInode s3)%nat by (apply (st_next _ Hs3); eauto). lia.
Qed.

Definition file_ready (f : fileWriter) : Prop :=
  store_ok (disk f) ∧ ∀ i, fd (fw f) = Some i → is_Some (inodes (disk f) !! i).

(** The text is at the end of the file the writer is now on: the one from before
    or a new one. *)
Definition file_took (f : fileWriter) (m : bytes) (f' : fileWriter) : Prop :=
  ∃ i g', fd (fw f') = Some i ∧ inodes (disk f') !! i = Some g' ∧
    content g' = (if bool_decide (fd (fw f) = Some i) then from_option content [] (inodes (disk f) !! i) else []) ++ m.

Lemma append_store i d s : store_ok s → store_ok (append i d s).
Proof.
  intros [H1 H2 H3]. unfold append. destruct (inodes s !! i) as [f|] eqn:E; [|done]. split; cbn; [| |done].
  - intros n j Hn. destruct (decide (i = j)) as [<-|]; [rewrite lookup_insert_eq; eauto|rewrite lookup_insert_ne by done; eauto].
  - intros j [g [[<- _]|[_ Hg]]%lookup_insert_Some]; eauto.
Qed.

(** The file before the bytes are appended: ready, and the same or a new one. *)
Lemma rotated_ready e w s : store_ok s → (∀ i, fd w = Some i → is_Some (inodes s !! i)) →
  ∀ (b : bool) w' s', (if b then let '(_, w, s) := rotate e w s in (w, s) else (w, s)) = (w', s') →
  store_ok s' ∧ ∀ i, fd w' = Some i → ∃ f, inodes s' !! i = Some f ∧
    content f = if bool_decide (fd w = Some i) then from_option content [] (inodes s !! i) else [].
Proof.
  intros Hs Hfd b w' s'. destruct b.
  - destruct (rotate e w s) as [[err w1] s1] eqn:E. intros [= <- <-].
    destruct (rotate_any _ _ _ _ _ _ Hs E) as (H1 & H2 & [[H3 ->]|[H3|(i & H3 & H4 & H5)]]); (split; [done|]); intros j Hj.
    + rewrite H3 in Hj. destruct (Hfd j Hj) as [f Hf]. exists f. split; [done|]. rewrite Hj, bool_decide_true by done. by rewrite Hf.
    + congruence.
    + rewrite H3 in Hj. injection Hj as <-. eexists. split; [done|]. rewrite bool_decide_false; [done|]. intros Hi.
      destruct (Hfd i Hi). congruence.
  - intros [= <- <-]. split; [done|]. intros j Hj. destruct (Hfd j Hj) as [f Hf]. exists f. split; [done|].
    by rewrite Hj, bool_decide_true, Hf.
Qed.

Lemma file_sink_write f p r f' : file_ready f → file_Write f p = (r, f') →
  file_ready f' ∧ ∀ n, r = Ok n → n = len p ∧ file_took f (sanitize p) f'.
Proof.
  intros [Hs Hfd]. unfold file_Write, Rotate.Write. set (b := (0 <? maxSize (fw f)) && _ && _). set (e := default all_well _).
  destruct (if b then _ else (fw f, disk f)) as [w s] eqn:E. destruct (rotated_ready e _ _ Hs Hfd b w s E) as [Hs' Hfd'].
  destruct (fd w) as [i|] eqn:Ei.
  - destruct (Hfd' i eq_refl) as (g & Hg & Hc). intros [= <- <-]. unfold file_ready, file_took. cbn [disk fw fd set_size]. split; [split|].
    + by apply append_store.
    + intros j. rewrite Ei. intros [= <-]. unfold append. rewrite Hg. cbn. rewrite lookup_insert_eq. eauto.
    + intros n Hn. destruct (e_short e); [done|]. injection Hn as <-. split; [done|]. exists i. eexists. split_and!; [done| |].
      * unfold append. rewrite Hg. cbn. by rewrite lookup_insert_eq.
      * cbn. by rewrite Hc.
  - intros [= <- <-]. split; [|done]. split; [done|]. cbn. congruence.
Qed.

End file.

#[export] Instance file_sink : Sink fileWriter := {
  ready := file_ready;
  took := file_took;
  sink_write := file_sink_write;
}.

(** *** Labels over any sink, and a choice of two *)

Definition to_visible (s : string) : Prop := str_all visible s = true.

Lemma sanitize_more fuel : ∀ keep p r, Sanitize.sanitize_loop fuel keep p = Done r →
  ∀ fuel', (fuel ≤ fuel')%nat → Sanitize.sanitize_loop fuel' keep p = Done r.
Proof.
  induction fuel as [|fuel IH]; intros keep [|b p] r H fuel' Hle; cbn [Sanitize.sanitize_loop] in H; try done; [by destruct fuel'..|].
  destruct fuel' as [|fuel']; [lia|]. cbn [Sanitize.sanitize_loop].
  destruct (Sanitize.kept_byte b); [|destruct (b =? Sanitize.ESC); [destruct (Sanitize.ansiSeqLen (b :: p)) as [n sgr]|]];
    (destruct (Sanitize.sanitize_loop fuel keep _) as [r'|] eqn:E in H; [|done]; by rewrite (IH _ _ _ E) by lia).
Qed.

Lemma first_bad_app a : ∀ i p, forallb Sanitize.kept_byte a = true → Sanitize.first_bad i (a ++ p) = Sanitize.first_bad (i + length a) p.
Proof.
  induction a as [|b a IH]; intros i p H; [by rewrite Nat.add_0_r|]. cbn in H. apply andb_true_iff in H as [Hb H].
  cbn [app Sanitize.first_bad]. rewrite Sanitize.kept_byte_bad, Hb. cbn [negb]. rewrite IH by done. cbn. f_equal. lia.
Qed.

Lemma first_bad_shift p : ∀ i k, Sanitize.first_bad (i + k) p = (λ n, (n + k)%nat) <$> Sanitize.first_bad i p.
Proof. induction p as [|b p IH]; intros i k; [done|]. cbn [Sanitize.first_bad]. destruct (_ && _); [done|]. apply (IH (S i)). Qed.

Lemma sanitize_prefix a p : forallb Sanitize.kept_byte a = true → Rotate.sanitize (a ++ p) = a ++ Rotate.sanitize p.
Proof.
  intros Ha. unfold Rotate.sanitize, Sanitize.sanitizeSeq. rewrite first_bad_app by done. rewrite Nat.add_0_l, <- (Nat.add_0_l (length a)), first_bad_shift.
  destruct (Sanitize.first_bad 0 p) as [n|] eqn:E; [|done]. cbn [fmap option_fmap option_map].
  rewrite Nat.add_comm, drop_app_add, take_app_add.
  destruct (Sanitize.sanitize_loop_spec (length p) false (drop n p)) as (r & Hr & _); [rewrite length_drop; lia|].
  rewrite Hr, (sanitize_more _ _ _ _ Hr) by (rewrite length_app; lia). by rewrite app_assoc.
Qed.

Lemma visible_bytes s : str_all visible s = true → forallb Sanitize.kept_byte (to_bytes s) = true.
Proof.
  unfold to_bytes. induction s as [|a s IH]; [done|]. cbn [str_all String.list_ascii_of_string fmap list_fmap forallb].
  intros [Ha H]%andb_true_iff. rewrite IH by done. unfold visible, Sanitize.kept_byte in *. by rewrite Ha.
Qed.

#[export] Program Instance label_sink {W} `{Sink W} : Sink (labelWriter W) := {
  ready l := ready (lw l) ∧ str_all visible (prefix l) = true;
  took l m l' := took (lw l) (to_bytes (prefix l) ++ m) (lw l') ∧ prefix l' = prefix l;
}.
Next Obligation.
  intros W HW HS l p r l' [Hr Hv]. cbn. unfold label_Write. destruct (Write (lw l) _) as [r1 w1] eqn:E. intros [= <- <-].
  destruct (sink_write _ _ _ _ Hr E) as [Hr1 Hok]. split; [done|]. intros n. destruct r1 as [n1|]; [|done]. intros [= <-]. split; [done|].
  destruct (Hok n1 eq_refl) as [_ Ht]. rewrite sanitize_prefix in Ht by (by apply visible_bytes). done.
Qed.

Definition sum_ready {A B} `{Sink A, Sink B} (w : A + B) : Prop := match w with inl a => ready a | inr b => ready b end.
Definition sum_took {A B} `{Sink A, Sink B} (w : A + B) (m : bytes) (w' : A + B) : Prop :=
  match w, w' with inl a, inl a' => took a m a' | inr b, inr b' => took b m b' | _, _ => False end.

Lemma sum_sink_write {A B} `{Sink A, Sink B} (w : A + B) p r w' : sum_ready w → Write w p = (r, w') →
  sum_ready w' ∧ ∀ n, r = Ok n → n = Rotate.len p ∧ sum_took w (Rotate.sanitize p) w'.
Proof.
  intros Hr. destruct w as [a|b]; cbn.
  - destruct (Write a p) as [r1 a'] eqn:E. intros [= <- <-]. by apply (sink_write a).
  - destruct (Write b p) as [r1 b'] eqn:E. intros [= <- <-]. by apply (sink_write b).
Qed.

#[export] Instance sum_sink {A B} `{Sink A, Sink B} : Sink (A + B) := {
  ready := sum_ready;
  took := sum_took;
  sink_write := sum_sink_write;
}.

(** ** Reading labels back *)

Definition read_value (s : string) : option (string * string) :=
  if HasPrefix s (str1 quote_char) then
    '(v, r) ← read_quoted s; r ← CutPrefix r " "; Some (v, r)
  else let '(v, r, found) := Cut s " " in if (found : bool) then Some (v, r) else None.

Fixpoint read_labels (n : nat) (s : string) : option (list (string * string) * string) :=
  match n with
  | O => Some ([], s)
  | S n =>
      let '(k, s, found) := Cut s "=" in
      if negb found then None
      else '(v, s) ← read_value s; '(l, s) ← read_labels n s; Some ((k, v) :: l, s)
  end.

Lemma unquoted_value v : needs_quotes v = false →
  str_in " " v = false ∧ str_in quote_char v = false.
Proof.
  unfold needs_quotes, ContainsAny. intros H%negb_false_iff. split; by apply (str_all_in _ _ _ H).
Qed.

Lemma CutPrefix_space t : CutPrefix (String " " t) " " = Some t.
Proof. unfold CutPrefix. by rewrite HasPrefix_cons, bool_decide_true, HasPrefix_empty. Qed.

Lemma quoted_reads isPrint v t : read_value (Quote isPrint v +:+ " " +:+ t) = Some (v, t).
Proof.
  assert (HasPrefix (Quote isPrint v +:+ " " +:+ t) (str1 quote_char) = true) as H.
  { unfold Quote, str1. cbn [String.append]. by rewrite HasPrefix_cons, bool_decide_true, HasPrefix_empty. }
  unfold read_value. rewrite H, read_Quote. cbn [mbind option_bind String.append]. by rewrite CutPrefix_space.
Qed.

Lemma value_reads isPrint v t : read_value (logfmtValue isPrint v +:+ " " +:+ t) = Some (v, t).
Proof.
  unfold logfmtValue. case_bool_decide as Hv; [subst v; apply (quoted_reads isPrint "")|].
  destruct (needs_quotes v) eqn:E; [apply quoted_reads|].
  apply unquoted_value in E as [Hs Hq]. unfold read_value. destruct v as [|a v]; [done|]. cbn [String.append].
  change (str1 quote_char) with (String quote_char ""). rewrite HasPrefix_cons. cbn in Hq. apply orb_false_iff in Hq as [Hq _].
  apply bool_decide_eq_false in Hq. rewrite bool_decide_false by done. cbn [andb].
  change (Cut _ _) with (Cut (String a v +:+ String " " t) (str1 " ")). by rewrite Cut_app.
Qed.

Lemma labels_read isPrint kvs t : Forall (λ kv, str_in "=" kv.1 = false) kvs →
  read_labels (length kvs) (label_prefix isPrint kvs +:+ t) = Some (kvs, t).
Proof.
  induction 1 as [|[k v] kvs Hk _ IH]; [done|]. cbn [length read_labels label_prefix foldr]. fold (label_prefix isPrint kvs).
  unfold label_text. cbn [fst snd]. rewrite !app_assoc_str.
  change (Cut _ _) with (Cut (k +:+ String "=" (logfmtValue isPrint v +:+ " " +:+ label_prefix isPrint kvs +:+ t)) (str1 "=")).
  rewrite Cut_app by done. cbn [negb]. rewrite value_reads. cbn [mbind option_bind]. by rewrite IH.
Qed.

(** ** Lines of a target *)

(** What a label must be for its text to stay on one line: the key is visible
    and has no equals sign, and a value that is not quoted is visible. *)
Definition label_ok (k v : string) : Prop :=
  str_in "=" k = false ∧ str_all visible k = true ∧ (needs_quotes v = false → str_all visible v = true).

Lemma value_visible isPrint v : (needs_quotes v = false → str_all visible v = true) → str_all visible (logfmtValue isPrint v) = true.
Proof. intros H. unfold logfmtValue. case_bool_decide; [done|]. destruct (needs_quotes v); [apply Quote_visible|auto]. Qed.

Lemma prefix_visible isPrint kvs : Forall (λ kv, label_ok kv.1 kv.2) kvs → str_all visible (label_prefix isPrint kvs) = true.
Proof.
  induction 1 as [|[k v] kvs (_ & Hk & Hv) _ IH]; [done|]. cbn [label_prefix foldr]. fold (label_prefix isPrint kvs).
  unfold label_text. cbn [fst snd] in *. by rewrite !str_all_app, Hk, (value_visible _ _ Hv), IH.
Qed.

(** The labels of a target in the order of their names. *)
Definition sorted_labels (labels : gmap string string) : list (string * string) :=
  (λ k, (k, default "" (labels !! k))) <$> sort_strings (elements (dom labels)).

Lemma sorted_labels_all (P : string → string → Prop) labels : map_Forall P labels → Forall (λ kv, P kv.1 kv.2) (sorted_labels labels).
Proof.
  intros H. apply Forall_fmap, Forall_forall. intros k Hk. rewrite sort_strings_perm in Hk. apply elem_of_elements, elem_of_dom in Hk as [v Hv].
  cbn. rewrite Hv. by apply H.
Qed.

Lemma length_sorted_labels labels : length (sorted_labels labels) = size labels.
Proof. unfold sorted_labels. rewrite length_fmap, sort_strings_perm, <- size_dom. done. Qed.

(** The writer under the labels, and writes one after the other. *)
Definition plain_of {S} (w : target_writer (S := S)) : plain_writer (S := S) := match w with inl w => w | inr l => lw l end.

Fixpoint write_all {W} `{WriteCloser W} (w : W) (ps : list bytes) : W :=
  match ps with
  | [] => w
  | p :: ps => write_all (Write w p).2 ps
  end.

Lemma write_all_ready {W} `{Sink W} ps : ∀ w, ready w → ready (write_all w ps).
Proof.
  induction ps as [|p ps IH]; intros w Hw; [done|]. cbn. apply IH. destruct (Write w p) as [r w'] eqn:E. by destruct (sink_write _ _ _ _ Hw E).
Qed.

Lemma write_all_kind {A} `{WriteCloser A} ps : ∀ (w : A + labelWriter A),
  match w with
  | inl _ => ∃ w', write_all w ps = inl w'
  | inr l => ∃ w', write_all w ps = inr (mkLabelWriter w' (prefix l))
  end.
Proof.
  induction ps as [|p ps IH]; intros [w|[w pre]]; [by eexists..| |]; cbn.
  - specialize (IH (inl (Write w p).2)). by destruct (Write w p).
  - unfold label_Write. cbn [lw prefix]. destruct (Write w _) as [r w1]. apply (IH (inr (mkLabelWriter w1 pre))).
Qed.

Section theorem.
Context {S : Type} `{Recorder S}.
Context (isPrint : Z → bool) (url_Parse : string → option (string * string)) (Dial : string → string → option S).
Context (lstat : string → Target.lstat_result) (leaf : string → Target.leaf_answer) (euid : Z).
Context (fd : nat) (dir : Rotate.fs) (later : list Rotate.env).

Lemma open_ready cfg w : Rotate.store_ok dir → is_Some (Rotate.inodes dir !! fd) →
  open_plain url_Parse Dial lstat leaf euid fd dir later cfg = Ok w → ready w.
Proof.
  intros Hd Hf. unfold open_plain. case_bool_decide.
  - destruct (openSyslog _ _ _); [|done]. by intros [= <-].
  - case_bool_decide; [|done]. destruct (Target.openFile _ _ _ _ _ _) as [fw|] eqn:E; [|done]. intros [= <-]. split; [done|].
    cbn. apply Target.open_fd in E. rewrite E. by intros i [= <-].
Qed.

(** C35: what a log target writes can be told apart again.  From a target that
    [NewTarget] made, after any number of writes, each write that succeeds
    reports the whole line and adds exactly one text to the syslog connection,
    or to the end of the current log file: the target's labels in the order of
    their names, however the map was walked, and the line without control
    sequences.  The labels are read back from that text exactly, quotes and
    spaces in values included, whatever the line holds.  This is for labels
    whose key holds no equals sign and no control byte, and whose value holds no
    control byte unless it is quoted ([label_ok]); NewTarget does not ask for
    that, and a value with a newline and nothing to quote breaks it (see
    [newline_not_quoted]). *)
Theorem target_lines (keys : list string) (name : string) (cfg : Config.TargetConfig) (t : TargetRec (S := S)) :
  keys ≡ₚ elements (dom (Config.tLabels cfg)) → map_Forall label_ok (Config.tLabels cfg) →
  Rotate.store_ok dir → is_Some (Rotate.inodes dir !! fd) →
  NewTarget isPrint url_Parse Dial lstat leaf euid fd dir later keys name cfg = Ok t →
  ∃ head, (∀ rest, read_labels (size (Config.tLabels cfg)) (head +:+ rest) = Some (sorted_labels (Config.tLabels cfg), rest)) ∧
  ∀ ps p n w', let w := write_all (Writer t) ps in
    Write w p = (Ok n, w') → n = Rotate.len p ∧ took (plain_of w) (to_bytes head ++ Rotate.sanitize p) (plain_of w').
Proof.
  intros Hk Hl Hd Hf. unfold NewTarget. destruct (open_plain _ _ _ _ _ _ _ _ cfg) as [pw|] eqn:Ep; [|done]. cbn [mbind result_bind]. intros [= <-].
  pose proof (open_ready cfg pw Hd Hf Ep) as Hr. cbn [Writer]. destruct (Nat.ltb_spec 0 (size (Config.tLabels cfg))) as [Hs|Hs].
  - exists (label_prefix isPrint (sorted_labels (Config.tLabels cfg))). split.
    + intros rest. rewrite <- length_sorted_labels. apply labels_read. eapply Forall_impl; [by apply (sorted_labels_all label_ok)|]. by intros kv [? _].
    + unfold newLabelWriter. rewrite (sort_strings_unique _ _ Hk). fold (sorted_labels (Config.tLabels cfg)). cbv zeta. intros ps p n w' Hw.
      set (l := mkLabelWriter pw _) in *. assert (Hl0 : ready (inr l : target_writer)).
      { change (ready pw ∧ str_all visible (label_prefix isPrint (sorted_labels (Config.tLabels cfg))) = true). split; [done|].
        apply prefix_visible. by apply (sorted_labels_all label_ok). }
      pose proof (write_all_ready ps _ Hl0) as Hrw. assert (∃ pw', write_all (inr l : target_writer) ps = inr (mkLabelWriter pw' (prefix l))) as [pw' Epw]
        by apply (write_all_kind ps (inr l)).
      destruct (sink_write _ _ _ _ Hrw Hw) as [_ Hok]. destruct (Hok n eq_refl) as [Hn Ht]. split; [done|].
      rewrite Epw in Ht |- *. destruct w' as [w'|l']; [done|]. destruct Ht as [Ht _]. exact Ht.
  - exists "". assert (E : Config.tLabels cfg = ∅) by (apply map_size_empty_iff; lia). split; [by rewrite E|].
    cbv zeta. intros ps p n w' Hw. assert (Hl0 : ready (inl pw : target_writer)) by done.
    pose proof (write_all_ready ps _ Hl0) as Hrw. assert (∃ pw', write_all (inl pw : target_writer) ps = inl pw') as [pw' Epw] by apply (write_all_kind ps (inl pw)).
    destruct (sink_write _ _ _ _ Hrw Hw) as [_ Hok]. destruct (Hok n eq_refl) as [Hn Ht]. split; [done|].
    rewrite Epw in Ht |- *. destruct w' as [w'|l']; [|done]. exact Ht.
Qed.

End theorem.

(** ** An example *)

(** A connection that keeps what it is told, and refuses once. *)
Definition recorder : Type := list bytes.

#[export] Instance recorder_infoer : syslogInfoer recorder := {
  Info s m := if bool_decide (m = []) then (Some ESend, s) else (None, s ++ [m]);
  infoer_Close s := (None, s);
}.

#[export] Program Instance recorder_ok : Recorder recorder := { sent s := s }.
Next Obligation. intros s m s'. cbn. case_bool_decide; [done|]. by intros [= <-]. Qed.

Definition demo_labels : gmap string string := {["env" := "prod eu"; "app" := "web"]}.
Definition demo_target : Config.TargetConfig := Config.mkTargetConfig demo_labels "syslog" "udp://h:514" "" [] 0 false.
Definition demo_disk : Rotate.fs := Rotate.mkFs ∅ {[0%nat := Rotate.mkFile false []]} 1.
Definition demo_new : result new_target_err (TargetRec (S := recorder)) :=
  NewTarget (λ _, true) (λ _, Some ("udp", "h:514")) (λ _ _, Some []) (λ _, Target.LErr) (λ _, Target.LeafError) 0 0 demo_disk [] ["env"; "app"] "t" demo_target.

Lemma target_lines_witness : ∃ t head w', demo_new = Ok t ∧ Write (write_all (Writer t) [[65; 10]]) [66; 27; 10] = (Ok 3, w') ∧
  read_labels 2 (head +:+ "x") = Some ([("app", "web"); ("env", "prod eu")], "x") ∧
  took (plain_of (write_all (Writer t) [[65; 10]])) (to_bytes head ++ [66; 10]) (plain_of w').
Proof.
  destruct demo_new as [t|] eqn:E; [|exfalso; vm_compute in E; discriminate E].
  destruct (Write (write_all (Writer t) [[65; 10]]) [66; 27; 10]) as [r w'] eqn:Ew.
  destruct (target_lines (λ _, true) (λ _, Some ("udp", "h:514")) (λ _ _, Some []) (λ _, Target.LErr) (λ _, Target.LeafError) 0 0 demo_disk []
    ["env"; "app"] "t" demo_target t) as (head & Hread & Hw).
  - apply NoDup_Permutation; [repeat constructor; set_solver|apply NoDup_elements|]. intros k. rewrite elem_of_elements.
    unfold demo_target, demo_labels. cbn [Config.tLabels]. rewrite dom_insert, dom_singleton. set_solver.
  - unfold demo_target, demo_labels. cbn [Config.tLabels]. apply map_Forall_insert_2; [|apply map_Forall_singleton]; repeat split; vm_compute; done.
  - split; cbn; [set_solver| |set_solver]. intros i [f [<- _]%lookup_singleton_Some]. lia.
  - cbn. rewrite lookup_singleton_eq. by eexists.
  - exact E.
  - assert (Er : r = Ok 3) by (vm_compute in E; injection E as <-; vm_compute in Ew; by injection Ew as <- _). subst r.
    exists t, head, w'. split; [reflexivity|]. split; [exact Ew|]. split; [exact (Hread "x")|].
    destruct (Hw [[65; 10]] [66; 27; 10] 3 w' Ew) as [_ Ht]. exact Ht.
Defined.

(** A line break in a label value is not quoted: it splits every line of the target. *)
Example newline_not_quoted : logfmtValue (λ _, true) (String "a" (String "010" "fake")) = String "a" (String "010" "fake").
Proof. reflexivity. Qed.

End LogTarget.
