(* ===== verification/LogWiring.v ===== *)
(** * Wiring of log targets: src/daemon.go

    Which log targets the two writers of a service forward to, from the start of
    the daemon through reloads to its end.  A target is a handle with its
    configuration; whether one can be opened ([NewTarget], LogTarget.v) is an
    answer of the environment.  The functions below are those of Daemon.v with
    the writers added: the daemon they return is the one Daemon.v computes. *)

From S2P Require Import Prelude GoStrings Order Metrics Service Conc DaemonState Daemon DaemonSafety DaemonTheorems DaemonReload ReloadSpec Config Target.

Open Scope string_scope.
Open Scope list_scope.
Open Scope nat_scope.

Module LogWiring.
Import Conc DaemonState Daemon DaemonSafety DaemonTheorems DaemonReload.

(** ** State *)

Record target := mkTarget {
  handle : nat;
  t_cfg : Config.TargetConfig;
}.

(** [outs] and [errs]: the targets of [Stdout] and [Stderr] of each instance. *)
Record wiring := mkWiring {
  logTargets : list target;
  closed : gset nat;
  nextHandle : nat;
  outs : gmap nat (list nat);
  errs : gmap nat (list nat);
}.

Definition no_wiring : wiring := mkWiring [] ∅ 0 ∅ ∅.

Definition AddTarget (id h : nat) (w : wiring) : wiring :=
  mkWiring (logTargets w) (closed w) (nextHandle w) (<[id := lget (outs w) id ++ [h]]> (outs w)) (<[id := lget (errs w) id ++ [h]]> (errs w)).

Definition ClearTargets (w : wiring) (id : nat) : wiring :=
  mkWiring (logTargets w) (closed w) (nextHandle w) (<[id := []]> (outs w)) (<[id := []]> (errs w)).

(** ** Operations *)

(** The targets of the configuration in the order the map is walked, and whether
    each could be opened. *)
Definition walk : Type := list (Config.TargetConfig * bool).

Definition build_target (w : wiring) (t : Config.TargetConfig * bool) : wiring :=
  if t.2 then
    mkWiring (logTargets w ++ [mkTarget (nextHandle w) t.1]) (closed w) (S (nextHandle w)) (outs w) (errs w)
  else w.

Definition buildLogTargets (ts : walk) (w : wiring) : wiring := foldl build_target w ts.

Definition attach (id : nat) (name : string) (w : wiring) : wiring :=
  foldl (λ w t, if Target.AppliesTo (t_cfg t) name then AddTarget id (handle t) w else w) w (logTargets w).

Fixpoint build_loop_wired (ps : list Service.Process) (d : daemon) (w : wiring) : option Service.new_err * daemon * wiring :=
  match ps with
  | [] => (None, d, w)
  | p :: ps =>
      match build_service d p with
      | Ok d' => build_loop_wired ps d' (attach (nextId d) (Service.process_name p) w)
      | Err err => (Some err, d, w)
      end
  end.

Definition close_targets (w : wiring) : wiring :=
  mkWiring [] (closed w ∪ list_to_set (handle <$> logTargets w)) (nextHandle w) (outs w) (errs w).

Definition remove_one_wired (newNames : gset string) (w : wiring) (ni : string * nat) : wiring :=
  if bool_decide (ni.1 ∈ newNames) then w else ClearTargets w ni.2.

(** An instance that is kept gets the new targets. *)
Definition reconcile_one_wired (now : Z) (acc : list (option nat) * daemon * wiring) (ni : string * nat) : list (option nat) * daemon * wiring :=
  let '(waits, d, w) := acc in
  let old := get d ni.2 in
  let w :=
    match services d !! ni.1 with
    | None => w
    | Some newId =>
        if Service.IsRunning old && negb (processConfigChanged (Service.Proc old) (Service.Proc (get d newId)))
        then attach ni.2 (Service.Name old) w else w
    end in
  (reconcile_one now (waits, d) ni, w).

(** The locked section of [reload]. *)
Definition reload_wired (newCfg : Config) (ts : walk) (startOrd : list string) (e : env) (d : daemon) (w : wiring)
    : option (result reload_err (list (option nat) * list nat * list string) * daemon * wiring) :=
  if shuttingDown d then Some (Err RShuttingDown, d, w)
  else
    let newNames := list_to_set (Service.process_name <$> Processes newCfg) in
    l ← iteration e (services d);
    let oldChecks := elements (dom (Checks (cfg d))) in
    let d := remove_services (e_now e) newNames l d in
    let w := foldl (remove_one_wired newNames) w l in
    let d := stopSchedulers (stopChecks d) in
    let w := foldl ClearTargets w (map_to_list (services d)).*2 in
    let w := close_targets w in
    let d := set_cfg newCfg d in
    let w := buildLogTargets ts w in
    match build_loop_wired (Processes (cfg d)) (set_services ∅ d) w with
    | (Some err, d, w) => Some (Err (RService err), d, w)
    | (None, d, w) =>
        let d := foldl (λ d ni, match services d !! ni.1 with
                                | Some _ => d
                                | None => set_m (Metrics.UnregisterService (m d) ni.1) d
                                end) d l in
        let '(waits, d, w) := foldl (reconcile_one_wired (e_now e)) ([], d, w) l in
        let d := set_shutdownMode (ShutdownOrder newCfg) (set_shutdownSeq startOrd d) in
        Some (Ok (waits, to_start startOrd d, oldChecks), d, w)
    end.

(** The start of [run]. *)
Definition setup_wired (c : Config) (ts : walk) (d : daemon) : option Service.new_err * daemon * wiring :=
  build_loop_wired (Processes c) (set_services ∅ d) (buildLogTargets ts no_wiring).

(** What the end of [run] does: a stream of an instance is flushed to its targets,
    a target is closed. *)
Inductive stream := Stdout | Stderr.
Inductive closing :=
  | Flushed (id : nat) (s : stream) (to : list nat)
  | Closed (h : nat).

(** [order] is the walk over [d.services]: both streams of each are flushed, then
    the targets are closed. *)
Definition closeLogTargets (order : list nat) (w : wiring) : list closing * wiring :=
  ((id ← order; [Flushed id Stdout (lget (outs w) id); Flushed id Stderr (lget (errs w) id)]) ++ (Closed ∘ handle <$> logTargets w),
   close_targets w).

(** ** The daemon is that of Daemon.v *)

Lemma build_loop_daemon ps : ∀ d w, (build_loop_wired ps d w).1 = build_loop ps d.
Proof. induction ps as [|p ps IH]; intros d w; [done|]. cbn. by destruct (build_service d p). Qed.

Lemma reconcile_daemon now l : ∀ acc w, (foldl (reconcile_one_wired now) (acc, w) l).1 = foldl (reconcile_one now) acc l.
Proof. induction l as [|ni l IH]; intros [waits d] w; [done|]. apply IH. Qed.

Lemma reload_daemon c ts l e d w : fst <$> reload_wired c ts l e d w = reload_locked c l e d.
Proof.
  unfold reload_wired, reload_locked, buildServices. destruct (shuttingDown d); [done|]. cbv zeta.
  destruct (iteration e (services d)) as [it|]; [|done]. cbn [mbind option_bind].
  match goal with |- context [build_loop_wired ?ps ?d2 ?w2] => pose proof (build_loop_daemon ps d2 w2) as Hb; destruct (build_loop_wired ps d2 w2) as [[err d3] w3] end.
  cbn [fst] in Hb. cbn [cfg set_services] in Hb |- *. rewrite <- Hb. destruct err; [done|].
  match goal with |- context [foldl (reconcile_one_wired ?now) (?acc, ?w4) it] =>
    pose proof (reconcile_daemon now it acc w4) as Hr; destruct (foldl (reconcile_one_wired now) (acc, w4) it) as [[waits d5] w5] end.
  cbn [fst] in Hr. rewrite <- Hr. done.
Qed.

(** ** What each operation does to the writers *)

Definition out (w : wiring) (id : nat) : list nat := lget (outs w) id.

Definition applicable (ts : list target) (name : string) : list nat :=
  handle <$> filter (λ t, Config.tServices (t_cfg t) = [] ∨ name ∈ Config.tServices (t_cfg t)) ts.

Lemma applies_iff cfg name : Target.AppliesTo cfg name = true ↔ Config.tServices cfg = [] ∨ name ∈ Config.tServices cfg.
Proof.
  unfold Target.AppliesTo. cbv zeta. rewrite orb_true_iff, !bool_decide_eq_true, elem_of_list_to_set.
  split; (intros [H|H]; [left|by right]); [|by rewrite H]. destruct (Config.tServices cfg) as [|x l]; [done|]. exfalso.
  assert (Hx : x ∈ (list_to_set (x :: l) : gset string)) by (apply elem_of_list_to_set; left). rewrite H in Hx. by apply elem_of_empty in Hx.
Qed.

(** Both streams of every instance have the same targets. *)
Definition paired (w : wiring) : Prop := outs w = errs w.

(** [w'] has the targets of [w]. *)
Definition same_targets (w w' : wiring) : Prop :=
  logTargets w' = logTargets w ∧ closed w' = closed w ∧ nextHandle w' = nextHandle w ∧ (paired w → paired w').

Lemma same_targets_trans w w' w'' : same_targets w w' → same_targets w' w'' → same_targets w w''.
Proof. intros (? & ? & ? & ?) (? & ? & ? & ?). split_and!; [congruence..|auto]. Qed.

Lemma add_spec id h w i : out (AddTarget id h w) i = if bool_decide (i = id) then out w id ++ [h] else out w i.
Proof. unfold out, lget. cbn. case_bool_decide; [subst; by rewrite lookup_insert_eq|by rewrite lookup_insert_ne]. Qed.

Lemma clear_spec w id i : out (ClearTargets w id) i = if bool_decide (i = id) then [] else out w i.
Proof. unfold out, lget. cbn. case_bool_decide; [subst; by rewrite lookup_insert_eq|by rewrite lookup_insert_ne]. Qed.

Lemma add_same id h w : same_targets w (AddTarget id h w).
Proof. split_and!; try done. unfold paired. cbn. by intros ->. Qed.

Lemma clear_same w id : same_targets w (ClearTargets w id).
Proof. split_and!; try done. unfold paired. cbn. by intros ->. Qed.

Lemma attach_list id name ts : ∀ w, let w' := foldl (λ w t, if Target.AppliesTo (t_cfg t) name then AddTarget id (handle t) w else w) w ts in
  same_targets w w' ∧ ∀ i, out w' i = if bool_decide (i = id) then out w id ++ applicable ts name else out w i.
Proof.
  induction ts as [|t ts IH]; intros w; cbn zeta in *; cbn [foldl].
  { split; [by split_and!|]. intros i. case_bool_decide; [subst; by rewrite app_nil_r|done]. }
  unfold applicable. rewrite filter_cons. case_decide as Ha.
  - rewrite <- applies_iff in Ha. rewrite Ha. destruct (IH (AddTarget id (handle t) w)) as [H1 H2]. split; [by eapply same_targets_trans; [apply add_same|]|].
    intros i. rewrite H2, !add_spec, (bool_decide_true (id = id)) by done. case_bool_decide; [by rewrite <- app_assoc|done].
  - rewrite <- applies_iff in Ha. apply not_true_is_false in Ha. rewrite Ha. apply IH.
Qed.

Lemma attach_spec id name w : same_targets w (attach id name w) ∧
  ∀ i, out (attach id name w) i = if bool_decide (i = id) then out w id ++ applicable (logTargets w) name else out w i.
Proof. apply attach_list. Qed.

(** The instances of [l] have no targets any more. *)
Lemma clears_spec ids : ∀ w, same_targets w (foldl ClearTargets w ids) ∧
  ∀ i, out (foldl ClearTargets w ids) i = if bool_decide (i ∈ ids) then [] else out w i.
Proof.
  induction ids as [|id ids IH]; intros w; cbn [foldl]; [split; [by split_and!|]; intros i; by rewrite bool_decide_false by apply not_elem_of_nil|].
  destruct (IH (ClearTargets w id)) as [H1 H2]. split; [by eapply same_targets_trans; [apply clear_same|]|].
  intros i. rewrite H2, clear_spec. repeat case_bool_decide; set_solver.
Qed.

Lemma removes_spec names l : ∀ w, same_targets w (foldl (remove_one_wired names) w l) ∧
  ∀ i, out (foldl (remove_one_wired names) w l) i = [] ∨ out (foldl (remove_one_wired names) w l) i = out w i ∧ (∀ n, (n, i) ∈ l → n ∈ names).
Proof.
  induction l as [|[n id] l IH]; intros w; cbn [foldl]; [split; [by split_and!|]; intros i; right; split; [done|by intros ? ?%not_elem_of_nil]|].
  unfold remove_one_wired at 2 4 6. cbn [fst snd]. case_bool_decide as Hn.
  - destruct (IH w) as [H1 H2]. split; [done|]. intros i. destruct (H2 i) as [?|[? H]]; [by left|right]. split; [done|].
    intros x [[= -> ->]|Hx]%elem_of_cons; [done|]. eauto.
  - destruct (IH (ClearTargets w id)) as [H1 H2]. split; [by eapply same_targets_trans; [apply clear_same|]|].
    intros i. destruct (H2 i) as [?|[E H]]; [by left|]. rewrite clear_spec in E. case_bool_decide as Hi; [by left|right]. split; [done|].
    intros x [[= -> ->]|Hx]%elem_of_cons; [done|]. eauto.
Qed.

(** The current targets are open and distinct. *)
Record open_targets (w : wiring) : Prop := {
  ot_nodup : NoDup (handle <$> logTargets w);
  ot_new h : h ∈ handle <$> logTargets w → h < nextHandle w ∧ h ∉ closed w;
  ot_closed h : h ∈ closed w → h < nextHandle w;
  ot_paired : paired w;
}.

Lemma same_open w w' : same_targets w w' → open_targets w → open_targets w'.
Proof. intros (E1 & E2 & E3 & E4) [H1 H2 H3 H4]. split; rewrite ?E1, ?E2, ?E3; auto. Qed.

Lemma close_open w : open_targets w → open_targets (close_targets w) ∧ outs (close_targets w) = outs w ∧ logTargets (close_targets w) = [].
Proof.
  intros [H1 H2 H3 H4]. split_and!; [|done..]. split; cbn [logTargets closed nextHandle close_targets]; [apply NoDup_nil_2| | |done].
  - by intros h ?%not_elem_of_nil.
  - intros h [Hh|Hh%elem_of_list_to_set]%elem_of_union; [auto|]. by apply H2.
Qed.

Lemma build_targets_open ts : ∀ w, open_targets w → open_targets (buildLogTargets ts w) ∧ outs (buildLogTargets ts w) = outs w.
Proof.
  unfold buildLogTargets. induction ts as [|[cfg ok] ts IH]; intros w Hw; [done|]. cbn [foldl]. unfold build_target at 2 4. cbn [fst snd].
  destruct ok; [|by apply IH]. destruct (IH (mkWiring (logTargets w ++ [mkTarget (nextHandle w) cfg]) (closed w) (S (nextHandle w)) (outs w) (errs w))) as [H1 H2].
  - destruct Hw as [W1 W2 W3 W4]. split; cbn [logTargets closed nextHandle]; [| | |done].
    + rewrite fmap_app. apply NoDup_app. split_and!; [done| |apply NoDup_singleton]. intros h Hh. cbn. rewrite list_elem_of_singleton.
      intros ->. apply W2 in Hh as [Hh _]. lia.
    + intros h. rewrite fmap_app, elem_of_app. cbn. rewrite list_elem_of_singleton. intros [Hh| ->].
      * apply W2 in Hh as [? ?]. split; [lia|done].
      * split; [lia|]. intros Hc%W3. lia.
    + intros h Hh%W3. lia.
  - done.
Qed.

(** New instances get the targets that apply to them; nothing else changes. *)
Lemma build_wired ps : ∀ d w d' w', build_loop_wired ps d w = (None, d', w') →
  same_targets w w' ∧ nextId d ≤ nextId d' ∧
  (∀ i, i < nextId d ∨ nextId d' ≤ i → out w' i = out w i) ∧
  (∀ n id, services d' !! n = Some id → services d !! n = Some id ∨
     (nextId d ≤ id ∧ id < nextId d' ∧ out w' id = out w id ++ applicable (logTargets w) n)).
Proof.
  induction ps as [|p ps IH]; intros d w d' w'; cbn [build_loop_wired]; [intros [= <- <-]; split_and!; [by split_and!|done|done|by left]|].
  destruct (build_service d p) as [d1|] eqn:Eb; [|done]. intros H. destruct (IH _ _ _ _ H) as (H1 & H2 & H3 & H4).
  destruct (build_service_spec d p d1 Eb) as (s & _ & _ & Hsv & Hid & _).
  destruct (attach_spec (nextId d) (Service.process_name p) w) as [A1 A2]. split_and!.
  - by eapply same_targets_trans.
  - lia.
  - intros i Hi. rewrite H3, A2, bool_decide_false by lia. done.
  - intros n id Hn. destruct (H4 n id Hn) as [E|(L1 & L2 & L3)].
    + rewrite Hsv in E. apply lookup_insert_Some in E as [[<- <-]|[_ E]]; [|by left]. right. split_and!; [lia|lia|].
      rewrite H3, A2, bool_decide_true by lia. done.
    + right. split_and!; [lia|lia|]. rewrite L3, A2, bool_decide_false by lia. by destruct A1 as (-> & _).
Qed.

(** Each old instance that is kept gets the targets that apply to it. *)
Lemma reconcile_wired now l : ∀ waits d w,
  NoDup l.*1 → NoDup l.*2 → (∀ n id, (n, id) ∈ l → ∃ s, heap d !! id = Some s ∧ Service.Name s = n) →
  let r := foldl (reconcile_one_wired now) (waits, d, w) l in
  same_targets w r.2 ∧ (∀ i, i ∉ l.*2 → out r.2 i = out w i) ∧ (∀ n, n ∉ l.*1 → services r.1.2 !! n = services d !! n) ∧
  (∀ n id, (n, id) ∈ l →
     (services r.1.2 !! n = Some id ∧ out r.2 id = out w id ++ applicable (logTargets w) n) ∨
     (services r.1.2 !! n = services d !! n ∧ out r.2 id = out w id)).
Proof.
  induction l as [|[n id] l IH]; intros waits d w Hn Hi Hl; cbn zeta; cbn [foldl].
  { split_and!; [by split_and!|done..|]. by intros ? ? ?%not_elem_of_nil. }
  apply NoDup_cons in Hn as [Hnl Hn]. apply NoDup_cons in Hi as [Hil Hi]. cbn [fmap list_fmap fst snd] in *.
  destruct (Hl n id) as (s & Hs & Hname); [apply elem_of_cons; by left|].
  destruct (reconcile_one_spec now waits d n id (ex_intro _ s Hs)) as (Ho & _ & Hh & Hsv & _). cbn zeta in *.
  destruct (reconcile_one_wired now (waits, d, w) (n, id)) as [[waits1 d1] w1] eqn:Er. unfold reconcile_one_wired in Er. cbn [fst snd] in Er.
  destruct (reconcile_one now (waits, d) (n, id)) as [waits' d']. apply pair_equal_spec in Er as [[<- <-]%pair_equal_spec Ew1]. cbn [fst snd] in *.
  assert (Hne : ∀ i, i ∈ l.*2 → i ≠ id) by (intros i ? ->; done).
  assert (Hnn : ∀ x, x ∈ l.*1 → x ≠ n) by (intros x ? ->; done).
  assert (Hw1 : same_targets w w1 ∧ (∀ i, i ≠ id → out w1 i = out w i) ∧
    ((services d' !! n = Some id ∧ out w1 id = out w id ++ applicable (logTargets w) n) ∨ (services d' !! n = services d !! n ∧ out w1 id = out w id))).
  { clear IH Hl Hnl Hil. rewrite <- Ew1. unfold outcome in Ho. rewrite (get_lookup d id s Hs) in *. destruct (services d !! n) as [nid|]; cbv zeta in Ho.
    2:{ split_and!; [by split_and!|done|]. right. by destruct Ho as [-> _]. }
    unfold Service.IsRunning. destruct (Service.running s); cbn [andb].
    2:{ split_and!; [by split_and!|done|]. right. by destruct Ho as [-> _]. }
    destruct (processConfigChanged _ _); cbn [negb].
    { split_and!; [by split_and!|done|]. right. by destruct Ho as [-> _]. }
    rewrite Hname. destruct (attach_spec id n w) as [A1 A2]. split_and!; [done|intros i Hne'; by rewrite A2, bool_decide_false|].
    left. split; [by destruct Ho|]. by rewrite A2, bool_decide_true. }
  destruct Hw1 as (W1 & W2 & W3). destruct (IH waits' d' w1 Hn Hi) as (H1 & H2 & H3 & H4).
  { intros x i Hin. rewrite Hh by (apply Hne; by eapply elem_snd). apply Hl, elem_of_cons. by right. }
  cbn zeta in *. split_and!.
  - by eapply same_targets_trans.
  - intros i [Hi1 Hi2]%not_elem_of_cons. rewrite H2 by done. by apply W2.
  - intros x [Hx1 Hx2]%not_elem_of_cons. rewrite H3 by done. by apply Hsv.
  - intros x i [[= -> ->]|Hin]%elem_of_cons.
    + rewrite H2, H3 by done. exact W3.
    + destruct W1 as (Et & _). rewrite Et in H4. destruct (H4 x i Hin) as [[? E]|[E1 E2]].
      * left. split; [done|]. rewrite E, W2; [done|]. apply Hne. by eapply elem_snd.
      * right. rewrite E1, E2, W2, Hsv; [done|apply Hnn; by eapply elem_fst|apply Hne; by eapply elem_snd].
Qed.

(** ** Runs *)

(** [seen] collects the instances that have been in service: the others were
    built for a process whose old instance was kept, and are never started. *)
Record wired (seen : gset nat) (d : daemon) (w : wiring) : Prop := {
  wi_open : open_targets w;
  wi_current n id : services d !! n = Some id → id ∈ seen ∧ out w id = applicable (logTargets w) n;
  wi_past id : id ∈ seen → (∀ n, services d !! n ≠ Some id) → out w id = [];
  wi_seen id : id ∈ seen → id < nextId d;
  wi_fresh id : nextId d ≤ id → out w id = [];
}.

Definition instances (d : daemon) : gset nat := list_to_set (map_to_list (services d)).*2.

Lemma elem_instances d id : id ∈ instances d ↔ ∃ n, services d !! n = Some id.
Proof.
  unfold instances. rewrite elem_of_list_to_set, list_elem_of_fmap. split.
  - intros ([n i] & -> & H%elem_of_map_to_list). by exists n.
  - intros (n & H). exists (n, id). split; [done|]. by apply elem_of_map_to_list.
Qed.

(** A run: the start, any action of the daemon that leaves its services and
    objects in place, and reloads. *)
Inductive run_wired : gset nat → daemon → wiring → Prop :=
  | rw_start c args sock ts d w : setup_wired c ts (empty_daemon c args sock) = (None, d, w) → run_wired (instances d) d w
  | rw_other seen d w d' : run_wired seen d w → services d' = services d → nextId d ≤ nextId d' → run_wired seen d' w
  | rw_reload seen d w c ts l e r d' w' : run_wired seen d w → Inv d → reload_validate c = Ok l →
      reload_wired c ts l e d w = Some (Ok r, d', w') → run_wired (seen ∪ instances d') d' w'.

Lemma start_wired c args sock ts d w : setup_wired c ts (empty_daemon c args sock) = (None, d, w) → wired (instances d) d w.
Proof.
  unfold setup_wired. intros H. destruct (build_wired _ _ _ _ _ H) as (H1 & _ & H3 & H4).
  assert (H0 : open_targets no_wiring).
  { split; cbn; [apply NoDup_nil_2|by intros h ?%not_elem_of_nil|set_solver|done]. }
  destruct (build_targets_open ts no_wiring H0) as [Ho Hout]. set (w0 := buildLogTargets ts no_wiring) in *.
  assert (He : ∀ i, out w0 i = []) by (intros i; unfold out, lget; by rewrite Hout).
  assert (Hcur : ∀ n id, services d !! n = Some id → id < nextId d ∧ out w id = applicable (logTargets w) n).
  { intros n id Hn. destruct (H4 n id Hn) as [E|(_ & L & E)]; [cbn in E; by rewrite lookup_empty in E|]. split; [done|].
    rewrite E, He. by destruct H1 as (-> & _). }
  split.
  - by eapply same_open.
  - intros n id Hn. split; [apply elem_instances; by exists n|]. by apply Hcur.
  - intros id (n & Hn)%elem_instances Hno. by destruct (Hno n).
  - intros id (n & Hn)%elem_instances. by destruct (Hcur n id Hn).
  - intros id Hid. rewrite H3 by (by right). apply He.
Qed.

Lemma remove_services_keep now names l : ∀ d n, n ∈ names → services (remove_services now names l d) !! n = services d !! n.
Proof.
  induction l as [|[x id] l IH]; intros d n Hn; [done|]. cbn [remove_services foldl]. unfold remove_services in IH. rewrite IH by done.
  unfold remove_one. cbn [fst snd]. case_bool_decide as Hx; [done|]. cbv zeta. cbn [services set_services].
  rewrite lookup_delete_ne by (intros ->; done). destruct (Service.IsRunning _); [|done]. by rewrite stop_service_services.
Qed.

Lemma retired_name now s : Service.Name (retired now s) = Service.Name s.
Proof. unfold retired, Service.Stop. cbv zeta. repeat case_match; reflexivity. Qed.

(** The writers when the old targets have just been closed: no instance that is
    or was in service has any left. *)
Lemma cleared seen d w e it names : wired seen d w → iteration e (services d) = Some it →
  let w1 := foldl (remove_one_wired names) w it in
  let d1 := stopSchedulers (stopChecks (remove_services (e_now e) names it d)) in
  let w2 := close_targets (foldl ClearTargets w1 (map_to_list (services d1)).*2) in
  open_targets w2 ∧ (∀ id, id ∈ seen ∨ nextId d ≤ id → out w2 id = []).
Proof.
  intros Hw Hit w1 d1 w2. destruct (removes_spec names it w) as [R1 R2]. fold w1 in R1, R2.
  destruct (clears_spec (map_to_list (services d1)).*2 w1) as [C1 C2].
  destruct (close_open (foldl ClearTargets w1 (map_to_list (services d1)).*2)) as (O1 & O2 & _).
  { eapply same_open; [exact C1|]. eapply same_open; [exact R1|]. apply (wi_open _ _ _ Hw). }
  split; [exact O1|]. intros id Hid. unfold out, w2. rewrite O2. fold (out (foldl ClearTargets w1 (map_to_list (services d1)).*2) id).
  rewrite C2. case_bool_decide as Hc; [done|].
  assert (Hx : (∃ n, services d !! n = Some id) ∨ out w id = []).
  { destruct Hid as [Hs|Hf]; [|right; by apply (wi_fresh _ _ _ Hw)].
    destruct (decide (id ∈ instances d)) as [Hi|Hi]; [left; by apply elem_instances|right]. apply (wi_past _ _ _ Hw); [done|].
    intros n Hn. apply Hi, elem_instances. by exists n. }
  destruct (R2 id) as [E|[E HR]]; [done|]. destruct Hx as [(n & Hn)|Hx]; [|congruence]. destruct Hc.
  assert (Hin : n ∈ names) by (apply HR, (iteration_spec e _ _ _ _ Hit); done).
  apply list_elem_of_fmap. exists (n, id). split; [done|]. apply elem_of_map_to_list.
  change (services d1) with (services (remove_services (e_now e) names it d)). by rewrite remove_services_keep.
Qed.

(** What a reload leaves: with the old instances unplugged ([w3]), the new ones
    plugged in ([w4]) and the kept ones plugged in again ([w5]), every current
    instance has the targets of the configuration and no other has any. *)
Lemma reconciled_wired seen d w (it : list (string * nat)) d3 d5 w3 w4 w5 :
  wired seen d w → (∀ n id, (n, id) ∈ it ↔ services d !! n = Some id) → (∀ n id, (n, id) ∈ it → id < nextId d) →
  open_targets w3 → (∀ id, id ∈ seen ∨ nextId d ≤ id → out w3 id = []) → same_targets w3 w4 → nextId d ≤ nextId d3 →
  (∀ i, i < nextId d ∨ nextId d3 ≤ i → out w4 i = out w3 i) →
  (∀ n id, services d3 !! n = Some id → nextId d ≤ id ∧ id < nextId d3 ∧ out w4 id = out w3 id ++ applicable (logTargets w3) n) →
  same_targets w4 w5 → (∀ i, i ∉ it.*2 → out w5 i = out w4 i) → (∀ n, n ∉ it.*1 → services d5 !! n = services d3 !! n) →
  (∀ n id, (n, id) ∈ it → (services d5 !! n = Some id ∧ out w5 id = out w4 id ++ applicable (logTargets w4) n) ∨
     (services d5 !! n = services d3 !! n ∧ out w5 id = out w4 id)) →
  nextId d5 = nextId d3 → wired (seen ∪ instances d5) d5 w5.
Proof.
  intros Hw Hit Hold O3 E3 B1 B2 B3 B4 H1 H2 H3 H4 Hnid.
  assert (Hseen : ∀ n id, (n, id) ∈ it → id ∈ seen).
  { intros n id Hin%Hit. by apply (wi_current _ _ _ Hw n). }
  assert (Ets : logTargets w5 = logTargets w3 ∧ logTargets w4 = logTargets w3) by (destruct H1 as (-> & _), B1 as (-> & _); done).
  destruct Ets as [Et5 Et4]. rewrite Et4 in H4.
  assert (Hnew : ∀ n id, services d3 !! n = Some id → id < nextId d3 ∧ nextId d ≤ id ∧ out w5 id = applicable (logTargets w3) n).
  { intros n id Hn. destruct (B4 n id Hn) as (L1 & L2 & E). split_and!; [done..|].
    rewrite H2, E, E3 by (auto || (intros ([x i] & -> & Hin)%list_elem_of_fmap; apply Hold in Hin; cbn in L1; lia)). done. }
  assert (Hcur : ∀ n id, services d5 !! n = Some id → id < nextId d3 ∧ out w5 id = applicable (logTargets w3) n).
  { intros n id Hn. destruct (decide (n ∈ it.*1)) as [([x oid] & -> & Hin)%list_elem_of_fmap|Hni].
    - cbn in Hn. destruct (H4 x oid Hin) as [[E1 E2']|[E1 _]].
      + assert (id = oid) as -> by congruence. split; [apply Hold in Hin; lia|]. rewrite E2', B3, E3; [done|left; by eapply Hseen|].
        left. by eapply Hold.
      + rewrite E1 in Hn. by destruct (Hnew x id Hn) as (? & _ & ?).
    - rewrite H3 in Hn by done. by destruct (Hnew n id Hn) as (? & _ & ?). }
  split; rewrite ?Hnid.
  - eapply same_open; [exact H1|]. by eapply same_open.
  - intros n id Hn. destruct (Hcur n id Hn) as [_ E]. split; [|by rewrite Et5]. apply elem_of_union_r, elem_instances. by exists n.
  - intros id [Hs|(n & Hn)%elem_instances]%elem_of_union Hno; [|by destruct (Hno n)].
    pose proof (wi_seen _ _ _ Hw id Hs) as Hlt. destruct (decide (id ∈ it.*2)) as [([x oid] & -> & Hin)%list_elem_of_fmap|Hni].
    + cbn in *. destruct (H4 x oid Hin) as [[E1 _]|[_ E]]; [by destruct (Hno x)|]. rewrite E, B3, E3; auto.
    + rewrite H2, B3, E3; auto.
  - intros id [Hs|(n & Hn)%elem_instances]%elem_of_union; [pose proof (wi_seen _ _ _ Hw id Hs); lia|]. by destruct (Hcur n id Hn).
  - intros id Hid. rewrite H2, B3, E3; [done|right; lia|by right|]. intros ([x oid] & -> & Hin)%list_elem_of_fmap. apply Hold in Hin. cbn in Hid. lia.
Qed.

Lemma reload_wired_ok seen d w c ts l e r d' w' : wired seen d w → Inv d → reload_validate c = Ok l →
  reload_wired c ts l e d w = Some (Ok r, d', w') → wired (seen ∪ instances d') d' w'.
Proof.
  intros Hw HI Hv. unfold reload_wired. destruct (shuttingDown d); [done|]. cbv zeta.
  destruct (iteration e (services d)) as [it|] eqn:Hit; [|done]. cbn [mbind option_bind]. set (names := list_to_set _ : gset string).
  destruct (cleared seen d w e it names Hw Hit) as [O2 E2]. cbv zeta in O2, E2. set (w2 := close_targets _) in *. clearbody w2.
  destruct (build_targets_open ts w2 O2) as [O3 Eo3]. set (w3 := buildLogTargets ts w2) in *.
  assert (E3 : ∀ id, id ∈ seen ∨ nextId d ≤ id → out w3 id = []) by (intros id Hid; unfold out; rewrite Eo3; by apply E2). clearbody w3. clear E2 O2 Eo3 w2.
  destruct (rebuild c l e d it HI Hv Hit _ eq_refl) as [Hnone Hreb].
  match type of Hnone with (build_loop _ ?d2).1 = None => set (d2' := d2) in Hnone, Hreb end.
  match goal with |- context [build_loop_wired ?ps ?d2 w3] =>
    assert (Hbw : build_loop_wired ps d2 w3 = build_loop_wired (Processes c) d2' w3) by reflexivity; rewrite Hbw; clear Hbw end. pose proof (build_loop_daemon (Processes c) d2' w3) as Hb.
  destruct (build_loop_wired (Processes c) d2' w3) as [[err d3] w4] eqn:Ebw. cbn [fst] in Hb. rewrite <- Hb in Hnone, Hreb. cbn [fst snd] in Hnone, Hreb. subst err.
  destruct (build_wired _ _ _ _ _ Ebw) as (B1 & B2 & B3 & B4).
  assert (Hlow : nextId d2' = nextId d ∧ services d2' = ∅).
  { destruct (remove_services_heap (e_now e) names it d (iteration_ids e d it HI Hit)) as ((Hid & _) & _); [|done].
    intros n id Hin%(iteration_spec e _ _ _ _ Hit). destruct (so_heap _ (i_services _ HI) _ _ Hin) as (s & Hs & _). eauto. }
  destruct Hlow as [Eid Esv]. rewrite Eid in B2, B3, B4. rewrite Esv in B4. clearbody d2'.
  pose proof (unregister_same it d3) as (Eh & Es & _ & En & _). cbn zeta in Eh, Es, En. set (d4 := foldl _ d3 it) in *. clearbody d4.
  destruct (reconcile_wired (e_now e) it [] d4 w4) as (H1 & H2 & H3 & H4).
  { apply (iteration_names _ _ _ Hit). }
  { by eapply iteration_ids. }
  { intros n id Hin%(iteration_spec e _ _ _ _ Hit). destruct (so_heap _ (i_services _ HI) _ _ Hin) as (s & Hs & Hname). rewrite Eh.
    rewrite (rb_old _ _ _ _ Hreb n id s Hin Hs). eexists. split; [done|]. case_bool_decide; [done|]. by rewrite retired_name. }
  cbn zeta in *. pose proof (reconcile_daemon (e_now e) it ([], d4) w4) as Hrd. pose proof (reconcile_setup (e_now e) it [] d4) as (Hnid & _).
  destruct (foldl (reconcile_one_wired (e_now e)) ([], d4, w4) it) as [[waits d5] w5]. cbn [fst snd] in *. rewrite <- Hrd in Hnid. cbn [snd] in Hnid.
  intros [= <- <- <-].
  apply (reconciled_wired seen d w it d3 _ w3 w4 w5); try done.
  - intros n id. by apply (iteration_spec e).
  - intros n id Hin. apply (old_ids e d it HI Hit). by eapply elem_snd.
  - intros n id Hn. destruct (B4 n id Hn) as [E|?]; [by rewrite lookup_empty in E|done].
  - intros n Hn. cbn. by rewrite <- Es, H3.
  - intros n id Hin. cbn. rewrite <- Es. by apply H4.
  - cbn. congruence.
Qed.

Lemma run_wired_ok seen d w : run_wired seen d w → wired seen d w.
Proof.
  induction 1 as [c args sock ts d w H|seen d w d' _ IH Es En|seen d w c ts l e r d' w' _ IH HI Hv H].
  - by eapply start_wired.
  - destruct IH as [W1 W2 W3 W4 W5]. split; [done|rewrite Es; done|rewrite Es; done|intros id Hid%W4; lia|intros id Hid; apply W5; lia].
  - by eapply reload_wired_ok.
Qed.

Lemma wired_attached seen d w id h : wired seen d w → id ∈ seen → h ∈ out w id → h ∈ handle <$> logTargets w.
Proof.
  intros Hw Hs Hh. destruct (decide (id ∈ instances d)) as [(n & Hn)%elem_instances|Hi].
  - destruct (wi_current _ _ _ Hw n id Hn) as [_ E]. rewrite E in Hh. unfold applicable in Hh.
    apply list_elem_of_fmap in Hh as (t & -> & [_ Ht]%list_elem_of_filter). apply list_elem_of_fmap. by exists t.
  - rewrite (wi_past _ _ _ Hw id Hs) in Hh; [by apply not_elem_of_nil in Hh|]. intros n Hn. apply Hi, elem_instances. by exists n.
Qed.

Lemma closing_flushed order w id st : id ∈ order →
  ∃ fx1 fx2, (closeLogTargets order w).1 = fx1 ++ Flushed id st (lget (match st with Stdout => outs w | Stderr => errs w end) id) :: fx2 ∧
    ∀ h, Closed h ∉ fx1.
Proof.
  intros Hid. unfold closeLogTargets. cbn [fst]. set (flush := λ id, [Flushed id Stdout _; Flushed id Stderr _]).
  assert (Hno : ∀ l h, Closed h ∉ (l ≫= flush)) by (intros l h (i & Hi & _)%list_elem_of_bind; unfold flush in Hi; set_solver).
  apply list_elem_of_split in Hid as (l1 & l2 & ->). rewrite bind_app. cbn [mbind list_bind].
  destruct st; [exists (l1 ≫= flush)|exists ((l1 ≫= flush) ++ [Flushed id Stdout (lget (outs w) id)])]; eexists; (split; [|intros h]).
  - rewrite <- !app_assoc. cbn. reflexivity.
  - apply Hno.
  - rewrite <- !app_assoc. cbn. reflexivity.
  - rewrite elem_of_app. intros [Hh|Hh]; [by apply (Hno l1 h)|set_solver].
Qed.

Lemma closing_only order w id st to : Flushed id st to ∈ (closeLogTargets order w).1 →
  id ∈ order ∧ to = lget (match st with Stdout => outs w | Stderr => errs w end) id.
Proof.
  unfold closeLogTargets. cbn [fst]. intros [(i & Hi & Ho)%list_elem_of_bind|H]%elem_of_app; [set_solver|].
  apply list_elem_of_fmap in H as (t & H & _). done.
Qed.

(** The targets that are closed, in order. *)
Definition closings (fx : list closing) : list nat := omap (λ x, match x with Closed h => Some h | _ => None end) fx.

Lemma closing_all order w : closings (closeLogTargets order w).1 = handle <$> logTargets w.
Proof.
  unfold closings, closeLogTargets. cbn [fst]. rewrite omap_app.
  assert (omap (λ x, match x with Closed h => Some h | _ => None end)
    (id ← order; [Flushed id Stdout (lget (outs w) id); Flushed id Stderr (lget (errs w) id)]) = []) as ->
    by (induction order as [|i order IH]; [done|]; by cbn; rewrite IH).
  cbn [app]. induction (logTargets w) as [|t ts IH]; [done|]. cbn. by f_equal.
Qed.

(** C36: log lines go where the configuration says.  At every moment between the
    start and the end, whatever was reloaded in between, both streams of the
    instance filed under a name forward to exactly the open targets that apply
    to that name (those that list it or list none), each once and in order; no
    instance that is or ever was in service forwards to a target that has been
    closed, and no two targets share a writer.  At the end, in whatever order
    the services are walked, both streams of every instance are flushed to all
    its targets, which are open then, before any target is closed, and every
    target is closed once.  A reload changes the daemon as the model of the
    daemon says. *)
Theorem log_wiring (seen : gset nat) (d : daemon) (w : wiring) :
  run_wired seen d w →
  (∀ n id, services d !! n = Some id →
     id ∈ seen ∧ lget (outs w) id = applicable (logTargets w) n ∧ lget (errs w) id = applicable (logTargets w) n) ∧
  (∀ id h, id ∈ seen → h ∈ (lget (outs w) id ++ lget (errs w) id) → (h ∉ closed w) ∧ h ∈ (handle <$> logTargets w)) ∧
  NoDup (handle <$> logTargets w) ∧
  (∀ order, order ≡ₚ (map_to_list (services d)).*2 →
     let '(fx, w') := closeLogTargets order w in
     (∀ n id st, services d !! n = Some id →
        ∃ fx1 fx2, fx = fx1 ++ Flushed id st (applicable (logTargets w) n) :: fx2 ∧ ∀ h, Closed h ∉ fx1) ∧
     (∀ id st to h, Flushed id st to ∈ fx → h ∈ to → (h ∉ closed w) ∧ h ∈ (handle <$> logTargets w)) ∧
     closings fx = (handle <$> logTargets w) ∧ (∀ h, h ∈ handle <$> logTargets w → h ∈ closed w') ∧ logTargets w' = []) ∧
  (∀ c ts l e, fst <$> reload_wired c ts l e d w = reload_locked c l e d).
Proof.
  intros H%run_wired_ok. pose proof (wi_open _ _ _ H) as [O1 O2 O3 O4]. unfold paired in O4.
  assert (Hout : ∀ id h, id ∈ seen → h ∈ (lget (outs w) id ++ lget (errs w) id) → (h ∉ closed w) ∧ h ∈ (handle <$> logTargets w)).
  { intros id h Hs Hh. rewrite <- O4 in Hh. assert (Hh' : h ∈ out w id) by (apply elem_of_app in Hh; naive_solver).
    pose proof (wired_attached _ _ _ _ _ H Hs Hh') as Hin. split; [by apply O2|done]. }
  assert (Hcur : ∀ n id, services d !! n = Some id →
     id ∈ seen ∧ lget (outs w) id = applicable (logTargets w) n ∧ lget (errs w) id = applicable (logTargets w) n).
  { intros n id Hn. rewrite <- O4. destruct (wi_current _ _ _ H n id Hn). done. }
  split_and!; [done|done|done| |intros; apply reload_daemon]. intros order Ho.
  assert (Hin : ∀ id, id ∈ order ↔ ∃ n, services d !! n = Some id).
  { intros id. rewrite Ho, list_elem_of_fmap. split; [intros ([n i] & -> & Hn%elem_of_map_to_list); eauto|].
    intros [n Hn]. exists (n, id). by rewrite elem_of_map_to_list. }
  destruct (closeLogTargets order w) as [fx w'] eqn:E. split_and!.
  - intros n id st Hn. destruct (Hcur n id Hn) as (_ & H1 & H2). destruct (closing_flushed order w id st) as (fx1 & fx2 & Hf & Hc).
    { apply Hin. eauto. }
    rewrite E in Hf. exists fx1, fx2. cbn [fst] in Hf. split; [|done]. rewrite Hf. by destruct st; rewrite ?H1, ?H2.
  - intros id st to h Hf Hh. destruct (closing_only order w id st to) as [Hid ->]; [by rewrite E|].
    apply Hin in Hid as [n Hn]. apply (Hout id h); [by apply (Hcur n)|]. rewrite elem_of_app. destruct st; auto.
  - by rewrite <- (closing_all order w), E.
  - intros h Hh. unfold closeLogTargets in E. injection E as _ <-. cbn. by apply elem_of_union_r, elem_of_list_to_set.
  - unfold closeLogTargets in E. by injection E as _ <-.
Qed.

(** ** An example *)

(** A target for every service, one for db, and one that cannot be opened. *)
Definition some_target (only : list string) : Config.TargetConfig := Config.mkTargetConfig ∅ "file" "/var/log/x" "" only 0 false.
Definition demo_walk : walk := [(some_target [], true); (some_target ["db"], true); (some_target ["web"], false)].

Definition demo_start_wired : option Service.new_err * daemon * wiring := setup_wired demo_cfg demo_walk (empty_daemon demo_cfg [] "").
Definition demo_reload_wired (w : wiring) := reload_wired ReloadSpec.demo_cfg' demo_walk ["db"; "web"] (demo_env 1 0 0 CReload Quiet) (st (demo_at demo_running)) w.

Lemma log_wiring_witness : ∃ seen d w, run_wired seen d w ∧ services d !! "db" = Some 1 ∧ lget (outs w) 1 = [2; 3] ∧
  services d !! "web" = Some 2 ∧ lget (errs w) 2 = [2] ∧ closed w = {[0; 1]}.
Proof.
  assert (HI : Inv (st (demo_at demo_running))) by (eapply reachable_Inv, demo_reachable; vm_compute; reflexivity).
  destruct demo_start_wired as [[[err|] d0] w0] eqn:E0; [exfalso; vm_compute in E0; discriminate E0|].
  destruct (demo_reload_wired w0) as [[[[r|err] d] w]|] eqn:E; [|exfalso..].
  - assert (Hrun : run_wired (instances d0 ∪ instances d) d w).
    { eapply rw_reload; [|exact HI| |exact E]; [|vm_compute; reflexivity]. eapply rw_other; [by eapply rw_start|..].
      - vm_compute in E0. injection E0 as <- <-. vm_compute. reflexivity.
      - vm_compute in E0. injection E0 as <- <-. vm_compute. lia. }
    exists (instances d0 ∪ instances d), d, w. split; [exact Hrun|]. destruct (log_wiring _ _ _ Hrun) as (Hcur & _).
    assert (Hd : services d !! "db" = Some 1 ∧ services d !! "web" = Some 2 ∧ applicable (logTargets w) "db" = [2; 3] ∧
      applicable (logTargets w) "web" = [2] ∧ closed w = {[0; 1]}).
    { clear Hcur Hrun HI. vm_compute in E0. injection E0 as <- <-. vm_compute in E. injection E as _ <- <-. repeat split; vm_compute; reflexivity. }
    destruct Hd as (H1 & H2 & H3 & H4 & H5). destruct (Hcur _ _ H1) as (_ & Hdb & _). destruct (Hcur _ _ H2) as (_ & _ & Hweb).
    split_and!; congruence.
  - vm_compute in E0. injection E0 as <- <-. vm_compute in E. discriminate E.
  - vm_compute in E0. injection E0 as <- <-. vm_compute in E. discriminate E.
Defined.

End LogWiring.
