(* ===== verification/ControlSocket.v ===== *)
(** * The control socket: src/control/server.go and src/control/client.go

    Claiming the name of the control socket, giving it up, and asking whether
    somebody answers there.  The state is the node at the path as [lstat] sees
    it; between any two system calls others may do what they like to it. *)

From S2P Require Import Prelude GoStrings Control.

Open Scope string_scope.
Open Scope list_scope.
Open Scope Z_scope.

Module ControlSocket.

Inductive who := Ours | Theirs.

Inductive node :=
  | Absent
  | Link
  | Sock (by_ : who) (mode : Z)
  | Other.

#[export] Instance who_eq_dec : EqDecision who.
Proof. solve_decision. Defined.
#[export] Instance node_eq_dec : EqDecision node.
Proof. solve_decision. Defined.

Definition DefaultSocketMode : Z := 0x180.
Definition DefaultSocketPath : string := "/run/gopherd.sock".

(** [closes] counts the [close(cs.done)]: a second one would panic. *)
Record Server := mkServer {
  SocketPath : string;
  socketMode : Z;
  listening : bool;
  closed : bool;
  closes : nat;
}.

Definition NewServer (path : string) (mode : Z) : Server :=
  mkServer (if bool_decide (path = "") then DefaultSocketPath else path) (if mode =? 0 then DefaultSocketMode else mode) false false 0.

Inductive start_err :=
  | EIsSymlink
  | EHeldRemove
  | EHeldBind
  | EListen
  | EPostLstat
  | ENotSocket.

(** [errors.Is(err, ErrSocketPathHeld)]. *)
Definition is_held (e : start_err) : bool := match e with EHeldRemove | EHeldBind => true | _ => false end.

(** What others do before each call, and how the calls answer. *)
Record calls := mkCalls {
  gap : nat → node → node;
  first_lstat : bool;
  may_remove : bool;
  may_bind : bool;
  lstat_ok : bool;
  chmod_ok : bool;
}.

(** A name that goes away: by [os.Remove] or when a listener is closed. *)
Definition unlink (k : calls) (n : node) : node := if may_remove k then Absent else n.

(** The stale node, if any, is removed; when the first [lstat] fails nothing is
    done. *)
Definition make_room (k : calls) (n : node) : result start_err unit * node :=
  if negb (first_lstat k) then (Ok tt, n)
  else match n with
  | Absent => (Ok tt, n)
  | Link => (Err EIsSymlink, n)
  | _ =>
      let n := gap k 1 n in
      if bool_decide (n = Absent) || may_remove k then (Ok tt, Absent) else (Err EHeldRemove, n)
  end.

(** [bind]: the mode is that of the umask 077. *)
Definition bind (k : calls) (n : node) : result start_err unit * node :=
  if negb (bool_decide (n = Absent)) then (Err EHeldBind, n)
  else if negb (may_bind k) then (Err EListen, n)
  else (Ok tt, Sock Ours 0x1c0).

(** The check of what was bound, and the mode. *)
Definition confirm (k : calls) (mode : Z) (n : node) : result start_err unit * node :=
  if negb (lstat_ok k) then (Err EPostLstat, unlink k n)
  else match n with
  | Absent => (Err EPostLstat, Absent)
  | Link | Other => (Err ENotSocket, unlink k n)
  | Sock _ _ =>
      let n := gap k 4 n in
      (Ok tt, match n with Sock w m => Sock w (if chmod_ok k then mode else m) | _ => n end)
  end.

Definition Start (k : calls) (s : Server) (n : node) : result start_err Server * node :=
  match make_room k (gap k 0 n) with
  | (Err e, n) => (Err e, n)
  | (Ok _, n) =>
      match bind k (gap k 2 n) with
      | (Err e, n) => (Err e, n)
      | (Ok _, n) =>
          match confirm k (socketMode s) (gap k 3 n) with
          | (Err e, n) => (Err e, n)
          | (Ok _, n) => (Ok (mkServer (SocketPath s) (socketMode s) true (closed s) (closes s)), n)
          end
      end
  end.

Definition Stop (k : calls) (s : Server) (n : node) : Server * node :=
  let n := if listening s then unlink k n else n in
  (mkServer (SocketPath s) (socketMode s) false true (if closed s then closes s else S (closes s)), unlink k n).

(** [dial] is the uid of the peer that answered. *)
Definition IsAlive (euid : Z) (dial : option Z) : bool :=
  match dial with None => false | Some uid => Control.peerTrusted uid euid end.

(** ** What a client of the socket finds *)

Inductive life := LStart (k : calls) | LStop (k : calls).

(** Starts (failed ones leave the server as it was) and stops. *)
Definition live (sn : Server * node) (l : life) : Server * node :=
  match l with
  | LStart k => match Start k sn.1 sn.2 with (Ok s, n) => (s, n) | (Err _, n) => (sn.1, n) end
  | LStop k => Stop k sn.1 sn.2
  end.

Definition nobody : nat → node → node := λ _ n, n.

Lemma start_closes k s n s' n' : Start k s n = (Ok s', n') → closes s' = closes s ∧ closed s' = closed s.
Proof.
  unfold Start. destruct (make_room _ _) as [[?|] ?]; [|done]. destruct (bind _ _) as [[?|] ?]; [|done].
  destruct (confirm _ _ _) as [[?|] ?]; [|done]. by intros [= <- <-].
Qed.

(** Closed as often as it is marked closed: never or once. *)
Lemma live_closes ls : ∀ s n, closes s = (if closed s then 1 else 0)%nat → (closes (foldl live (s, n) ls).1 ≤ 1)%nat.
Proof.
  induction ls as [|[k|k] ls IH]; intros s n H; cbn [foldl live fst snd]; [rewrite H; destruct (closed s); lia|..].
  - destruct (Start k s n) as [[s'|e] n'] eqn:E; [|by apply IH]. apply IH. destruct (start_closes _ _ _ _ _ E) as [-> ->]. done.
  - apply IH. cbn. destruct (closed s); [done|]. by rewrite H.
Qed.

(** A start nobody interferes with, from a free path and from any. *)
Definition fresh_start (k : calls) (s : Server) : result start_err Server * node :=
  if negb (may_bind k) then (Err EListen, Absent)
  else if negb (lstat_ok k) then (Err EPostLstat, unlink k (Sock Ours 0x1c0))
  else (Ok (mkServer (SocketPath s) (socketMode s) true (closed s) (closes s)), Sock Ours (if chmod_ok k then socketMode s else 0x1c0)).

Lemma quiet_start k s n : gap k = nobody → first_lstat k = true → Start k s n =
  match n with
  | Absent => fresh_start k s
  | Link => (Err EIsSymlink, Link)
  | _ => if may_remove k then fresh_start k s else (Err EHeldRemove, n)
  end.
Proof.
  intros Hq Hf. unfold Start, make_room, bind, confirm, fresh_start. rewrite Hq, Hf. unfold nobody.
  destruct n; cbn; destruct (may_remove k); cbn; destruct (may_bind k); cbn; try destruct (lstat_ok k); done.
Qed.

(** The name of the socket is taken over safely.  Whatever others do in
    between, a server that starts has seen a socket, not a link, at its path
    after the bind.  When nobody interferes and the path can be looked at, the
    outcome is: a link is refused
    and left alone; any other node is replaced if it can be removed, and is
    reported as held, and left alone, if not; a server that starts has its own
    socket with its mode at the path; and when the error is not the one for a
    held path, the path is free or still the link.  The channel that ends the
    log streams is closed at most once however often the server is stopped. *)
Theorem socket_claim (k : calls) (s : Server) (n n' : node) (r : result start_err Server) :
  Start k s n = (r, n') →
  (is_ok r = true → ∃ w m, gap k 3 (Sock Ours 0x1c0) = Sock w m) ∧
  (gap k = nobody → first_lstat k = true →
     (n = Link → r = Err EIsSymlink ∧ n' = Link) ∧
     (n ≠ Link → n ≠ Absent → may_remove k = false → r = Err EHeldRemove ∧ n' = n) ∧
     (n = Absent ∨ n ≠ Link ∧ may_remove k = true → may_bind k = true → lstat_ok k = true → chmod_ok k = true →
        is_ok r = true ∧ n' = Sock Ours (socketMode s)) ∧
     (∀ e, r = Err e → is_held e = false → may_remove k = true → n' = Absent ∨ n' = Link)) ∧
  (∀ path mode ls, (closes (foldl live (NewServer path mode, n) ls).1 ≤ 1)%nat).
Proof.
  intros H. split_and!; [| |intros path mode ls; by apply live_closes].
  - unfold Start in H. destruct (make_room k (gap k 0 n)) as [[[]|e] n1]; [|by simplify_eq].
    unfold bind in H. case_bool_decide; cbn [negb] in H; [|by simplify_eq]. destruct (may_bind k); cbn [negb] in H; [|by simplify_eq].
    unfold confirm in H. destruct (lstat_ok k); cbn [negb] in H; [|by simplify_eq].
    destruct (gap k 3 (Sock Ours 448)) as [| |w m|]; simplify_eq; try done. intros _. eauto.
  - intros Hq Hf. rewrite quiet_start in H by done. unfold fresh_start, unlink in H. split_and!.
    + intros ->. by simplify_eq.
    + intros H1 H2 H3. rewrite H3 in H. by destruct n; simplify_eq.
    + intros Hn Hb Hl Hc. rewrite Hb, Hl, Hc in H. cbn in H. destruct Hn as [->|[Hn Hr]]; [by simplify_eq|]. rewrite Hr in H. by destruct n; simplify_eq.
    + intros e -> He Hr. rewrite Hr in H. destruct n, (may_bind k), (lstat_ok k); cbn in H; simplify_eq; auto.
Qed.

(** A link at the path does not count as held: the daemon goes on without a
    socket, and its stop removes the link it refused to replace. *)
Example link_not_held (k : calls) (s : Server) : gap k = nobody → first_lstat k = true → may_remove k = true → listening s = false →
  Start k s Link = (Err EIsSymlink, Link) ∧ is_held EIsSymlink = false ∧ (Stop k s Link).2 = Absent.
Proof. intros Hq Hf Hr Hl. unfold Start, make_room. rewrite Hq, Hf. cbn. unfold Stop, unlink. rewrite Hl, Hr. done. Qed.

End ControlSocket.
