(* ===== verification/Startup.v ===== *)
(** * Starting up: src/run.go

    The part of [run] before services are started: from the files and the
    environment to the daemon that boots, or to the reason why not; and which
    signals it subscribes to. *)

From S2P Require Import Prelude GoStrings Order Metrics Reaper Service Conc DaemonState Daemon DaemonSafety DaemonTheorems DaemonReload Control ControlSocket Templates Config ConfigTheorems Target Launch.

Open Scope string_scope.
Open Scope list_scope.
Open Scope nat_scope.

Module Startup.
Import DaemonState Daemon DaemonSafety.

Definition defaultConfigPath : string := "/etc/gopherd/gopherd.yml".

Inductive fatal :=
  | FRead (e : Launch.file_err)
  | FConfig (e : Config.cfg_err)
  | FEntrypoint
  | FOrder (e : Order.order_err)
  | FService (e : Service.new_err)
  | FSocket (e : ControlSocket.start_err).

(** [Up]: the daemon that boots the layers, and whether its control socket is
    served.  [Never]: a computation that does not end. *)
Inductive verdict :=
  | Fatal (f : fatal)
  | AlreadyRunning (socket : string)
  | Up (cfg : Config.Config) (socket : string) (layers : list (list string)) (d : daemon) (serving : bool)
  | Never.

Section startup.
Context (env : gmap string string) (fs : Launch.files) (euid : Z).
Context (open_file : string → bool → Templates.open_result) (ws : nat → Config.walk).
Context (dial : string → option Z) (k : ControlSocket.calls) (at_path : ControlSocket.node).

Definition from_env (key default : string) : string :=
  match env !! key with Some v => if bool_decide (v = "") then default else v | None => default end.

Definition configured_socket (cfg : Config.Config) : string := from_env "GOPHERD_SOCKET" (Config.SocketPath cfg).

Definition socket_path (cfg : Config.Config) : string :=
  let p := configured_socket cfg in
  if bool_decide (p = "") then ControlSocket.DefaultSocketPath else p.

Definition start_control (cfg : Config.Config) (socket : string) : option ControlSocket.start_err :=
  match (ControlSocket.Start k (ControlSocket.NewServer socket (Config.SocketMode cfg)) at_path).1 with
  | Ok _ => None
  | Err e => Some e
  end.

(** The services are built and the control socket is started. *)
Definition bring_up (cfg : Config.Config) (socket : string) (startOrd : list string) (layers : list (list string)) (args : list string) : verdict :=
  let c := ConfigTheorems.daemon_config cfg in
  match buildServices (set_shutdownMode (ShutdownOrder c) (set_shutdownSeq startOrd (empty_daemon c args socket))) with
  | (Some e, _) => Fatal (FService e)
  | (None, d) =>
      match start_control cfg socket with
      | None => Up cfg socket layers d true
      | Some e => if ControlSocket.is_held e then Fatal (FSocket e) else Up cfg socket layers d false
      end
  end.

Definition order_services (cfg : Config.Config) (socket : string) (args : list string) : verdict :=
  let svcs := buildOrderServices (ConfigTheorems.daemon_config cfg) in
  match Order.TopoSort svcs with
  | OutOfFuel => Never
  | Done (Err e) => Fatal (FOrder e)
  | Done (Ok startOrd) =>
      match Order.TopoLayers svcs with
      | OutOfFuel => Never
      | Done (Err e) => Fatal (FOrder e)
      | Done (Ok layers) => bring_up cfg socket startOrd layers args
      end
  end.

Definition run (args : list string) : verdict :=
  match Launch.readConfigFile fs euid (from_env "GOPHERD_CONFIG" defaultConfigPath) with
  | Err e => Fatal (FRead e)
  | Ok data =>
      match Config.Unmarshal open_file ws env data with
      | NoFuel => Never
      | Fail e => Fatal (FConfig e)
      | Ret (cfg, _) =>
          let socket := socket_path cfg in
          if ControlSocket.IsAlive euid (dial socket) then AlreadyRunning socket
          else if 1 <? length (List.filter Service.pUseEntrypointArgs (Config.Processes cfg)) then Fatal FEntrypoint
          else order_services cfg socket args
      end
  end.

(** ** Signals *)

Definition SIGUSR1 : Z := 10.
Definition SIGUSR2 : Z := 12.

(** The signals [run] asks for, each once. *)
Definition notify (subscribed : list Z) (sig : Z) : list Z :=
  if bool_decide (sig ∈ subscribed) then subscribed else subscribed ++ [sig].

(** [shutdownSigs] is the order in which the set is walked. *)
Definition subscribe (shutdownSigs : list Z) : list Z :=
  foldl notify [] (shutdownSigs ++ [Service.SIGHUP; SIGUSR1; SIGUSR2]).

Definition formatSignalSet (sigs : list Z) : string :=
  match sigs with
  | [] => "(none)"
  | _ => Join (Service.SignalName <$> merge_sort Z.le sigs) ", "
  end.

End startup.

(** ** What start-up decides *)

Section verdict.
Context (env : gmap string string) (fs : Launch.files) (euid : Z).
Context (open_file : string → bool → Templates.open_result) (ws : nat → Config.walk).
Context (dial : string → option Z) (k : ControlSocket.calls) (at_path : ControlSocket.node).

(** The configuration [run] works with. *)
Definition loaded (cfg : Config.Config) : Prop :=
  ∃ data warned, Launch.readConfigFile fs euid (from_env env "GOPHERD_CONFIG" defaultConfigPath) = Ok data ∧
    Config.Unmarshal open_file ws env data = Ret (cfg, warned).

Lemma order_verdict cfg socket args :
  let svcs := buildOrderServices (ConfigTheorems.daemon_config cfg) in
  (∃ e, order_services k at_path cfg socket args = Fatal (FOrder e) ∧ Order.TopoSort svcs = Done (Err e)) ∨
  (∃ startOrd layers, Order.TopoSort svcs = Done (Ok startOrd) ∧ Order.TopoLayers svcs = Done (Ok layers) ∧
     order_services k at_path cfg socket args = bring_up k at_path cfg socket startOrd layers args).
Proof.
  intros svcs. unfold order_services. fold svcs. destruct (Order.toposort_returns svcs) as [[startOrd|e] Ho]; rewrite Ho; [|left; eauto].
  right. exists startOrd. pose proof (Order.topolayers_correct svcs) as Hc.
  destruct (Order.TopoLayers svcs) as [[layers|e]|] eqn:Hl; [eauto| |done]. apply Order.topo_errors_agree in Hl. congruence.
Qed.

Lemma build_failure c d0 startOrd e : Order.TopoSort (buildOrderServices c) = Done (Ok startOrd) →
  (1 <? length (List.filter Service.pUseEntrypointArgs (Processes c))) = false → cfg d0 = c →
  (buildServices d0).1 = Some e → ∃ ne, reload_validate c = Err (RService ne).
Proof.
  intros Ho Hn Hc Hb. destruct (reload_validate c) as [l|err] eqn:Ev.
  - destruct (reload_validate_order c l Ev) as [_ Hnew]. unfold buildServices in Hb. rewrite Hc in Hb.
    rewrite (build_loop_total (Processes c)) in Hb; [done|]. intros p Hp. destruct (Hnew p Hp). eauto.
  - unfold reload_validate in Ev. rewrite Hn, Ho in Ev. destruct (foldM _ _ _) as [|ne]; [done|]. injection Ev as <-. eauto.
Qed.

Lemma build_idle c d0 startOrd : Order.TopoSort (buildOrderServices c) = Done (Ok startOrd) → cfg d0 = c → (buildServices d0).1 = None →
  let d := (buildServices d0).2 in
  dom (services d) = list_to_set (Service.process_name <$> Processes c) ∧
  ∀ n id, services d !! n = Some id → Service.running (get d id) = false ∧ Service.Name (get d id) = n.
Proof.
  intros Ho Hc Hb d. apply Order.toposort_order in Ho as (Hnd & _). unfold buildOrderServices in Hnd. rewrite <- list_fmap_compose in Hnd.
  unfold buildServices in d, Hb. rewrite Hc in Hb. unfold d. rewrite Hc. clear d.
  destruct (DaemonReload.build_loop_spec (Processes c) (set_services ∅ d0) Hb Hnd) as (H1 & _ & H3). cbn zeta in *.
  set (d := (build_loop (Processes c) (set_services ∅ d0)).2) in *.
  assert (Hnew : ∀ n, n ∈ Service.process_name <$> Processes c → ∃ id, services d !! n = Some id ∧ Service.running (get d id) = false ∧ Service.Name (get d id) = n).
  { intros n (p & -> & Hp)%list_elem_of_fmap. destruct (H3 p Hp) as (id & s & Hs & _ & Hh & Hbt). exists id. split; [done|].
    rewrite (get_lookup d id s Hh). by destruct (DaemonReload.built_facts _ _ _ Hbt) as (-> & -> & _). }
  assert (Hold : ∀ n, n ∉ Service.process_name <$> Processes c → services d !! n = None) by (intros n Hn; rewrite H1 by done; apply lookup_empty).
  split.
  - apply set_eq. intros n. rewrite elem_of_dom, elem_of_list_to_set. destruct (decide (n ∈ Service.process_name <$> Processes c)) as [Hn|Hn].
    + destruct (Hnew n Hn) as (id & -> & _). split; [done|eauto].
    + rewrite Hold by done. split; [by intros [? ?]|done].
  - intros n id Hid. destruct (decide (n ∈ Service.process_name <$> Processes c)) as [Hn|Hn]; [|rewrite Hold in Hid by done; done].
    destruct (Hnew n Hn) as (id' & Hid' & ?). by assert (id' = id) as <- by congruence.
Qed.

Lemma bring_up_verdict cfg startOrd layers args :
  let c := ConfigTheorems.daemon_config cfg in
  let socket := socket_path env cfg in
  Order.TopoSort (buildOrderServices c) = Done (Ok startOrd) →
  (1 <? length (List.filter Service.pUseEntrypointArgs (Processes c))) = false →
  match bring_up k at_path cfg socket startOrd layers args with
  | Fatal (FService _) => ∃ ne, reload_validate c = Err (RService ne)
  | Fatal (FSocket e) => start_control k at_path cfg socket = Some e ∧ ControlSocket.is_held e = true
  | Up cfg' socket' layers' d serving =>
      cfg' = cfg ∧ socket' = socket ∧ layers' = layers ∧
      dom (services d) = list_to_set (Service.process_name <$> Processes c) ∧
      (∀ n id, services d !! n = Some id → Service.running (get d id) = false ∧ Service.Name (get d id) = n) ∧
      (serving = true ↔ start_control k at_path cfg socket = None) ∧
      (∀ url_ok e, setup url_ok e c args socket =
         r ← startSchedulers e (startChecks url_ok (set_reaper (Reaper.Activate (reaper d)) d)); Some (r.1, set_started true r.2))
  | _ => False
  end.
Proof.
  intros c socket Ho Hn. unfold bring_up. fold c. set (d0 := set_shutdownMode _ _).
  pose proof (build_failure c d0 startOrd) as Hf. pose proof (build_idle c d0 startOrd Ho eq_refl) as Hi.
  assert (Hset : ∀ url_ok e, setup url_ok e c args socket = match buildServices d0 with (Some _, _) => None | (None, d) =>
    r ← startSchedulers e (startChecks url_ok (set_reaper (Reaper.Activate (reaper d)) d)); Some (r.1, set_started true r.2) end).
  { intros url_ok e. unfold setup. rewrite Hn, Ho. cbv zeta. rewrite bool_decide_false; [done|].
    unfold socket, socket_path. cbv zeta. case_bool_decide; done. }
  destruct (buildServices d0) as [[e|] d]; cbn [fst snd] in *; [by eapply Hf|]. destruct (Hi eq_refl) as [Hd Hr].
  destruct (start_control k at_path cfg socket) as [e|] eqn:Es; [destruct (ControlSocket.is_held e) eqn:Eh|]; cbv zeta; split_and!; done.
Qed.

(** C37: starting up ends, and for the documented reasons.  [run] always comes to
    a verdict.  It gives up on a configuration that cannot be read, does not
    load or orders services in a way that cannot be met (the layers never fail
    when the order does not), on two users of the entrypoint arguments, on a
    kill or backoff duration (nothing else of a loaded configuration makes a
    service impossible to build), and on a control socket somebody else holds;
    it yields to a trusted daemon that answers at the socket.  Otherwise it
    boots the layers of the configuration with one idle instance per process,
    serving the socket exactly when it could be started, and the daemon that
    then runs is the one of the model of the daemon. *)
Theorem startup_verdict (args : list string) : (∀ i, Config.fair_walk (ws i)) →
  match run env fs euid open_file ws dial k at_path args with
  | Never => False
  | Fatal (FRead e) => Launch.readConfigFile fs euid (from_env env "GOPHERD_CONFIG" defaultConfigPath) = Err e
  | Fatal (FConfig e) => ∃ data, Launch.readConfigFile fs euid (from_env env "GOPHERD_CONFIG" defaultConfigPath) = Ok data ∧
      Config.Unmarshal open_file ws env data = Fail e
  | Fatal FEntrypoint => ∃ cfg, loaded cfg ∧ 1 < length (List.filter Service.pUseEntrypointArgs (Config.Processes cfg))
  | Fatal (FOrder e) => ∃ cfg, loaded cfg ∧ Order.TopoSort (buildOrderServices (ConfigTheorems.daemon_config cfg)) = Done (Err e)
  | Fatal (FService _) => ∃ cfg ne, loaded cfg ∧ reload_validate (ConfigTheorems.daemon_config cfg) = Err (RService ne) ∧ ConfigTheorems.duration_err ne
  | Fatal (FSocket e) => ∃ cfg, loaded cfg ∧ start_control k at_path cfg (socket_path env cfg) = Some e ∧ ControlSocket.is_held e = true
  | AlreadyRunning socket => ∃ uid, dial socket = Some uid ∧ Control.peerTrusted uid euid = true
  | Up cfg socket layers d serving =>
      let c := ConfigTheorems.daemon_config cfg in
      loaded cfg ∧ socket = socket_path env cfg ∧ ControlSocket.IsAlive euid (dial socket) = false ∧
      Order.TopoLayers (buildOrderServices c) = Done (Ok layers) ∧
      dom (services d) = list_to_set (Service.process_name <$> Processes c) ∧
      (∀ n id, services d !! n = Some id → Service.running (get d id) = false ∧ Service.Name (get d id) = n) ∧
      (serving = true ↔ start_control k at_path cfg socket = None) ∧
      (∀ url_ok e, setup url_ok e c args socket =
         r ← startSchedulers e (startChecks url_ok (set_reaper (Reaper.Activate (reaper d)) d)); Some (r.1, set_started true r.2))
  end.
Proof.
  intros Hws. unfold run. destruct (Launch.readConfigFile _ _ _) as [data|e] eqn:Er; [|done].
  pose proof (ConfigTheorems.loaded_config_errors open_file ws env data Hws) as Hl.
  destruct (Config.Unmarshal open_file ws env data) as [[cfg warned]|e|] eqn:Eu; [|eauto|done].
  assert (Hcfg : loaded cfg) by (by exists data, warned). cbv zeta.
  destruct (ControlSocket.IsAlive euid (dial (socket_path env cfg))) eqn:Ea.
  { unfold ControlSocket.IsAlive in Ea. destruct (dial (socket_path env cfg)) as [uid|]; [by exists uid|done]. }
  destruct (1 <? _) eqn:En; [exists cfg; split; [done|]; by apply Nat.ltb_lt|].
  destruct (order_verdict cfg (socket_path env cfg) args) as [(e & -> & Ho)|(startOrd & layers & Ho & Hy & ->)]; [by eauto|].
  pose proof (bring_up_verdict cfg startOrd layers args Ho En) as Hv. cbv zeta in Hv.
  destruct (bring_up _ _ _ _ _ _ _) as [[]| |cfg' socket' layers' d serving|]; try done.
  - destruct Hv as [ne Hv]. exists cfg, ne. split_and!; [done..|]. destruct (Hl _ Hv) as [?|[(? & ? & _)|(ne' & [= <-] & Hd)]]; done.
  - exists cfg. by destruct Hv.
  - destruct Hv as (-> & -> & -> & Hv). cbv zeta. split_and!; try done; by destruct Hv as (? & ? & ? & ?).
Qed.

End verdict.

(** Every signal with a meaning is subscribed to once, and nothing else; how the
    set was walked does not show in the log. *)
Lemma subscribe_spec l : NoDup (subscribe l) ∧ ∀ s, s ∈ subscribe l ↔ s ∈ l ∨ s ∈ [Service.SIGHUP; SIGUSR1; SIGUSR2].
Proof.
  unfold subscribe. assert (H : ∀ l acc, NoDup acc → NoDup (foldl notify acc l) ∧ ∀ s, s ∈ foldl notify acc l ↔ s ∈ acc ∨ s ∈ l).
  { clear. induction l as [|x l IH]; intros acc Ha; cbn [foldl]; [split; [done|]; intros s; rewrite elem_of_nil; tauto|].
    unfold notify at 2 4. case_bool_decide as Hx.
    - destruct (IH acc Ha) as [H1 H2]. split; [done|]. intros s. rewrite H2, elem_of_cons. naive_solver.
    - destruct (IH (acc ++ [x])) as [H1 H2]; [apply NoDup_app; split_and!; [done|intros y Hy ->%list_elem_of_singleton; done|apply NoDup_singleton]|].
      split; [done|]. intros s. rewrite H2, elem_of_app, list_elem_of_singleton, elem_of_cons. tauto. }
  destruct (H (l ++ [Service.SIGHUP; SIGUSR1; SIGUSR2]) [] (NoDup_nil_2)) as [H1 H2]. split; [done|]. intros s. rewrite H2, elem_of_app, elem_of_nil. tauto.
Qed.

Lemma formatSignalSet_perm l1 l2 : l1 ≡ₚ l2 → formatSignalSet l1 = formatSignalSet l2.
Proof.
  intros H. assert (Hs : merge_sort Z.le l1 = merge_sort Z.le l2).
  { apply (StronglySorted_unique Z.le); try apply (StronglySorted_merge_sort _). by rewrite !merge_sort_Permutation. }
  unfold formatSignalSet. rewrite Hs. destruct l1, l2; try done; [by apply Permutation_nil_cons in H|by symmetry in H; apply Permutation_nil_cons in H].
Qed.

(** ** An example *)

Definition demo_fs : Launch.files :=
  Launch.mkFiles None (λ _, Target.LErr) (λ _, Launch.OFile (Some (Launch.mkInfo true 0 0x1a4)) (Some ConfigTheorems.demo_doc)) (λ _, inl Launch.ONotExist).
Definition demo_calls : ControlSocket.calls := ControlSocket.mkCalls ControlSocket.nobody true true true true true.
Definition demo_run : verdict :=
  run ConfigTheorems.demo_env demo_fs 0 ConfigTheorems.no_files (λ _, ConfigTheorems.map_walk) (λ _, None) demo_calls
    (ControlSocket.Sock ControlSocket.Theirs 0) [].

Definition summary (v : verdict) : option (list string * string * list (list string) * bool) :=
  match v with Up c s l _ serving => Some (Service.process_name <$> Config.Processes c, s, l, serving) | _ => None end.

Lemma startup_verdict_witness : ∃ cfg d, demo_run = Up cfg "/run/gopherd.sock" [["db"; "nightly"]; ["/bin/proxy"]] d true ∧
  dom (services d) = list_to_set ["db"; "/bin/proxy"; "nightly"].
Proof.
  pose proof (startup_verdict ConfigTheorems.demo_env demo_fs 0 ConfigTheorems.no_files (λ _, ConfigTheorems.map_walk) (λ _, None) demo_calls
    (ControlSocket.Sock ControlSocket.Theirs 0) [] (λ _, ConfigTheorems.map_walk_fair)) as H. fold demo_run in H.
  assert (Hs : summary demo_run = Some (["db"; "/bin/proxy"; "nightly"], "/run/gopherd.sock", [["db"; "nightly"]; ["/bin/proxy"]], true))
    by (vm_compute; reflexivity).
  destruct demo_run as [| |cfg socket layers d serving|]; [discriminate Hs|discriminate Hs| |discriminate Hs].
  cbn [summary] in Hs. injection Hs as Hn -> -> ->. destruct H as (_ & _ & _ & _ & Hdom & _). exists cfg, d. split; [reflexivity|].
  rewrite Hdom. cbn [ConfigTheorems.daemon_config DaemonState.Processes]. rewrite Hn. reflexivity.
Defined.

End Startup.
