(* ===== verification/CheckOwner.v ===== *)
(** * Whose checks they are: startChecks and runCheckAsOwner of src/daemon.go

    An exec check runs as the service that refers to it.  Which service that is
    when several do depends on the order in which the map of services is walked;
    the walk is an argument. *)

From S2P Require Import Prelude GoStrings Service Credential Check HostLimits Launch LaunchSpec.

Open Scope string_scope.
Open Scope list_scope.
Open Scope nat_scope.

Module CheckOwner.

Import Service.

(** What [SetCredential] and [SetEnv] leave in a checker: [None] is as gopherd. *)
Record identity := mkIdentity {
  credential : option Credential.Cred;
  env : option (list string);
}.

Definition as_gopherd : identity := mkIdentity None None.

(** ** Owners *)

(** The checks an action of the service is tied to, if nobody has them yet. *)
Definition claim (svc : Service) (owners : gmap string Service) (check : string) : gmap string Service :=
  match owners !! check with Some _ => owners | None => <[check := svc]> owners end.

Definition claim_checks (owners : gmap string Service) (svc : Service) : gmap string Service :=
  let owners := if bool_decide (pReadyCheck (Proc svc) = "") then owners else <[pReadyCheck (Proc svc) := svc]> owners in
  foldl (claim svc) owners (elements (dom (OnCheckFailure svc))).

Definition checkOwner (services : list Service) : gmap string Service := foldl claim_checks ∅ services.

(** ** Identity *)

(** [os.LookupEnv]: the first of several entries counts. *)
Fixpoint LookupEnv (environ : list string) (key : string) : option string :=
  match environ with
  | [] => None
  | kv :: environ =>
      match Cut kv "=" with
      | (k, v, true) => if bool_decide (k = key) then Some v else LookupEnv environ key
      | _ => LookupEnv environ key
      end
  end.

Definition path_only (environ : list string) : list string :=
  match LookupEnv environ "PATH" with Some path => ["PATH=" +:+ path] | None => [] end.

Definition runCheckAsOwner (w : Launch.world) (svc : Service) : result Launch.prep_err identity :=
  match Launch.credential w (Proc svc) with
  | Err e => Err e
  | Ok None => Ok as_gopherd
  | Ok (Some cred) =>
      Ok (mkIdentity (Some cred) (if default false (pPassEnv (Proc svc)) then None else Some (path_only (Launch.w_environ w))))
  end.

(** The identity of a check [startChecks] runs; an error is only logged. *)
Definition check_identity (w : Launch.world) (services : list Service) (name : string) (exec : bool) : identity :=
  match checkOwner services !! name with
  | Some svc => if exec then match runCheckAsOwner w svc with Ok i => i | Err _ => as_gopherd end else as_gopherd
  | None => as_gopherd
  end.

(** ** Who owns a check *)

Definition waits_for (svc : Service) (check : string) : Prop := check ≠ "" ∧ pReadyCheck (Proc svc) = check.
Definition refers_to (svc : Service) (check : string) : Prop := waits_for svc check ∨ check ∈ dom (OnCheckFailure svc).

Lemma claims_lookup svc checks : ∀ owners check, foldl (claim svc) owners checks !! check =
  match owners !! check with Some s => Some s | None => if bool_decide (check ∈ checks) then Some svc else None end.
Proof.
  induction checks as [|c checks IH]; intros owners check; cbn [foldl]; [by destruct (owners !! check)|].
  rewrite IH. unfold claim. destruct (decide (check = c)) as [->|Hne].
  - rewrite (bool_decide_true (c ∈ c :: checks)) by (apply elem_of_cons; by left).
    destruct (owners !! c) eqn:Ec; [by rewrite Ec|]. by rewrite lookup_insert_eq.
  - rewrite (bool_decide_ext (check ∈ c :: checks) (check ∈ checks)) by set_solver.
    destruct (owners !! c); [done|]. by rewrite lookup_insert_ne by done.
Qed.

Lemma claim_checks_lookup owners svc check :
  (waits_for svc check ∧ claim_checks owners svc !! check = Some svc) ∨
  (¬ waits_for svc check ∧ claim_checks owners svc !! check =
     match owners !! check with Some s => Some s | None => if bool_decide (refers_to svc check) then Some svc else None end).
Proof.
  unfold claim_checks, waits_for, refers_to. rewrite claims_lookup.
  destruct (decide (check ≠ "" ∧ pReadyCheck (Proc svc) = check)) as [Hw|Hw].
  - left. split; [done|]. destruct Hw as [Hne Hc]. rewrite bool_decide_false by congruence. by rewrite Hc, lookup_insert_eq.
  - right. split; [done|].
    assert (E : (if bool_decide (pReadyCheck (Proc svc) = "") then owners else <[pReadyCheck (Proc svc) := svc]> owners) !! check = owners !! check).
    { case_bool_decide; [done|]. apply lookup_insert_ne. intros <-. by apply Hw. }
    rewrite E. destruct (owners !! check); [done|]. rewrite (bool_decide_ext (check ∈ elements _) (waits_for svc check ∨ check ∈ dom (OnCheckFailure svc))); [done|].
    rewrite elem_of_elements. unfold waits_for. tauto.
Qed.

(** The owner refers to the check, and waits for it if anyone does. *)
Lemma owner_spec services check :
  match checkOwner services !! check with
  | None => Forall (λ s, ¬ refers_to s check) services
  | Some s => s ∈ services ∧ refers_to s check ∧ ((∃ s', s' ∈ services ∧ waits_for s' check) → waits_for s check)
  end.
Proof.
  unfold checkOwner. induction services as [|svc services IH] using rev_ind; [cbn; by rewrite lookup_empty|]. rewrite foldl_app. cbn [foldl].
  destruct (claim_checks_lookup (foldl claim_checks ∅ services) svc check) as [[Hw E]|[Hw E]]; rewrite E; clear E.
  { split_and!; [set_solver|by left|done]. }
  destruct (foldl claim_checks ∅ services !! check) as [s|].
  - destruct IH as (H1 & H2 & H3). split_and!; [set_solver|done|]. intros (s' & [Hs'| ->%list_elem_of_singleton]%elem_of_app & Hw'); eauto. done.
  - case_bool_decide as Hr.
    + split_and!; [set_solver|done|]. intros (s' & [Hs'| ->%list_elem_of_singleton]%elem_of_app & Hw'); [|done].
      rewrite Forall_forall in IH. destruct (IH s' Hs'). by left.
    + apply Forall_app. split; [done|]. by apply Forall_singleton.
Qed.

(** [l] is the first PATH of the environment, or nothing when it has none. *)
Definition path_alone (environ l : list string) : Prop :=
  (l = [] ∧ ∀ v, "PATH=" +:+ v ∉ environ) ∨
  ∃ v e1 e2, l = ["PATH=" +:+ v] ∧ environ = e1 ++ ("PATH=" +:+ v) :: e2 ∧ ∀ u, "PATH=" +:+ u ∉ e1.

Lemma path_only_alone environ : path_alone environ (path_only environ).
Proof.
  unfold path_only. induction environ as [|e l IH]; cbn [LookupEnv]; [left; split; [done|]; intros v; apply not_elem_of_nil|].
  destruct (LaunchSpec.entry_or_none e) as [Hn|(k & v & Hk & ->)].
  - rewrite (Cut_none "=" e Hn : Cut e "=" = _).
    assert (He : ∀ v, "PATH=" +:+ v ≠ e). { intros v <-. change (str_in "=" (LaunchSpec.entry "PATH" v) = false) in Hn. unfold LaunchSpec.entry in Hn. by rewrite str_in_app in Hn. }
    destruct IH as [[-> IH]|(v & e1 & e2 & -> & -> & IH)].
    + left. split; [done|]. intros v [?|?]%elem_of_cons; [by apply (He v)|by apply (IH v)].
    + right. exists v, (e :: e1), e2. split_and!; [done..|]. intros u [?|?]%elem_of_cons; [by apply (He u)|by apply (IH u)].
  - rewrite LaunchSpec.entry_cut by done. case_bool_decide as Ek.
    + subst k. right. exists v, [], l. split_and!; [done..|]. intros u. apply not_elem_of_nil.
    + assert (He : ∀ u, "PATH=" +:+ u ≠ LaunchSpec.entry k v).
      { intros u Hu. change (LaunchSpec.entry "PATH" u = LaunchSpec.entry k v) in Hu. apply LaunchSpec.entry_inj in Hu as [? _]; [congruence|done|done]. }
      destruct IH as [[-> IH]|(u & e1 & e2 & -> & -> & IH)].
      * left. split; [done|]. intros u [?|?]%elem_of_cons; [by apply (He u)|by apply (IH u)].
      * right. exists u, (LaunchSpec.entry k v :: e1), e2. split_and!; [done..|]. intros u' [?|?]%elem_of_cons; [by apply (He u')|by apply (IH u')].
Qed.

(** C38: an exec check has the rights of its service.  Whatever the order of the
    walk, the identity of a check is that of a service which refers to it, one
    that waits for it to be ready if there is one; if that service can be
    launched, the check runs with exactly the credentials of its process, and
    when these are set and the service does not take over the environment, its
    environment is gopherd's PATH entry and nothing else, and empty when gopherd
    has none; with pass-env, or without credentials of its own, it inherits
    gopherd's environment.  Other checks run as gopherd. *)
Theorem check_as_service (fs : Launch.files) (euid : Z) (w : Launch.world) (services : list Service) (name : string) :
  match checkOwner services !! name with
  | None => Forall (λ s, ¬ refers_to s name) services ∧ ∀ exec, check_identity w services name exec = as_gopherd
  | Some svc =>
      svc ∈ services ∧ refers_to svc name ∧ ((∃ s', s' ∈ services ∧ waits_for s' name) → waits_for svc name) ∧
      check_identity w services name false = as_gopherd ∧
      ∀ order plan, Launch.PrepareStart fs euid w svc order = Ok plan →
        let i := check_identity w services name true in
        credential i = Launch.Cred (Launch.cmd plan) ∧
        (credential i = None ∨ pPassEnv (Proc svc) = Some true → env i = None) ∧
        (credential i ≠ None → pPassEnv (Proc svc) ≠ Some true → ∃ l, env i = Some l ∧ path_alone (Launch.w_environ w) l)
  end.
Proof.
  pose proof (owner_spec services name) as Ho. unfold check_identity. destruct (checkOwner services !! name) as [svc|]; [|done].
  destruct Ho as (H1 & H2 & H3). split_and!; try done. intros order plan Hp. cbv zeta.
  assert (Hc : Launch.credential w (Proc svc) = Ok (Launch.Cred (Launch.cmd plan))) by (by eapply Launch.plan_credential).
  unfold runCheckAsOwner. rewrite Hc. destruct (Launch.Cred (Launch.cmd plan)) as [cred|]; cbn [credential env as_gopherd]; [|done].
  split; [done|]. destruct (pPassEnv (Proc svc)) as [[]|]; cbn [default from_option id].
  - split; [done|]. intros _ H. by destruct H.
  - split; [by intros [?|?]|]. intros _ _. eexists. split; [reflexivity|]. apply path_only_alone.
  - split; [by intros [?|?]|]. intros _ _. eexists. split; [reflexivity|]. apply path_only_alone.
Qed.

(** ** An example *)

(** The service of Launch.v with an action for the check ping. *)
Definition pinged : Service :=
  mkService Launch.demo_process "web" true false false None 15 0 ActionShutdown ActionShutdown (backoff_New 0 f64_two 0) ∅
    {["ping" := ActionRestart]} true "" "" None 0 false false None 0 0 0 None.

Lemma check_as_service_witness : credential (check_identity Launch.demo_world [pinged] "ping" true) = Some (Credential.mkCred 1000 1000 [1000; 998]%Z).
Proof.
  pose proof (check_as_service Launch.demo_files 0 Launch.demo_world [pinged] "ping") as H.
  destruct (checkOwner [pinged] !! "ping") as [svc|] eqn:E; [|exfalso; vm_compute in E; discriminate E].
  assert (Hs : svc = pinged) by (vm_compute in E; injection E as <-; vm_compute; reflexivity). subst svc.
  destruct H as (_ & _ & _ & _ & H).
  destruct (H Launch.demo_order Launch.demo_plan) as [Hc _]; [vm_compute; reflexivity|]. exact Hc.
Defined.

(** A user that cannot be resolved leaves the check with all of gopherd's rights. *)
Example unresolved_runs_as_gopherd :
  let w := Launch.mkWorld [] (λ _, None) (λ _, None) (λ _, None) 0 None (λ _, None) HostLimits.pod in
  is_ok (runCheckAsOwner w pinged) = false ∧ check_identity w [pinged] "ping" true = as_gopherd.
Proof. split; vm_compute; reflexivity. Qed.

End CheckOwner.
