(* ===== verification/Backoff.v ===== *)
(** * Restart delays: src/internal/backoff/backoff.go

    [Next] and [Reset] in float64, with the algorithm of [math.Pow] for the whole
    exponents it is called with.  The random number is an argument.  Each
    operation rounds and a conversion that overflows gives the least integer, as
    on amd64; Go permits other machines to fuse a product with a sum. *)

From S2P Require Import Prelude GoStrings GoTime GoFloat Service.
From Stdlib Require Import SpecFloat.

Open Scope string_scope.
Open Scope list_scope.
Open Scope Z_scope.

Module Backoff.

(** ** math.Pow *)

Definition f64_half : float64 := f64_div (f64_of_Z 1) (f64_of_Z 2).

(** [ans *= x**i] with the mantissa and exponent of [x], bit by bit. *)
Fixpoint pow_loop (i : positive) (x1 : float64) (xe : Z) (a1 : float64) (ae : Z) : float64 * Z :=
  if (xe <? -4096) || (4096 <? xe) then (a1, ae + xe)
  else
    let sq := f64_mul x1 x1 in
    let '(sq, sqe) := if f64_ltb sq f64_half then (f64_add sq sq, 2 * xe - 1) else (sq, 2 * xe) in
    match i with
    | xH => (f64_mul a1 x1, ae + xe)
    | xO i => pow_loop i sq sqe a1 ae
    | xI i => pow_loop i sq sqe (f64_mul a1 x1) (ae + xe)
    end.

(** [x] is finite and positive: [New] replaces any other factor. *)
Definition Pow (x : float64) (n : nat) : float64 :=
  match n with
  | O => f64_of_Z 1
  | _ =>
      if SFeqb x (f64_of_Z 1) then f64_of_Z 1
      else if Nat.eqb n 1 then x
      else
        let '(x1, xe) := SFfrexp 53 1024 x in
        let '(a1, ae) := pow_loop (Pos.of_nat n) x1 xe (f64_of_Z 1) 0 in
        SFldexp 53 1024 a1 ae
  end.

(** ** Delays *)

(** The settings are those [New] leaves (Service.v); these are the other fields. *)
Record Backoff := mkBackoff {
  settings : Service.Backoff;
  atLimit : bool;
  attempt : nat;
}.

Definition New (delay : Z) (factor : float64) (limit : Z) : Backoff := mkBackoff (Service.backoff_New delay factor limit) false 0.

Definition limit64 (s : Service.Backoff) : float64 := f64_of_Z (Service.Limit s).

(** [float64(b.delay) * math.Pow(b.factor, float64(b.attempt))]. *)
Definition raw (s : Service.Backoff) (n : nat) : float64 := f64_mul (f64_of_Z (Service.delay s)) (Pow (Service.factor s) n).

(** [time.Duration(d)]: truncation; what does not fit gives the least integer. *)
Definition to_duration (d : float64) : Z :=
  match f64_trunc d with
  | Some z => if (MinInt64 <=? z) && (z <=? MaxInt64) then z else MinInt64
  | None => MinInt64
  end.

Definition f64_tenth : float64 := f64_div (f64_of_Z 1) (f64_of_Z 10).

(** Up to a tenth more or less; [r] is [rand.Float64]. *)
Definition jittered (d r : float64) : Z :=
  let jitter := f64_mul (f64_mul d f64_tenth) (f64_sub (f64_mul (f64_of_Z 2) r) (f64_of_Z 1)) in
  let d := f64_add d jitter in
  to_duration (if f64_ltb d (f64_of_Z 0) then f64_of_Z 0 else d).

Definition Next (r : float64) (b : Backoff) : Z * Backoff :=
  let s := settings b in
  let '(d, lim) :=
    if atLimit b then (limit64 s, true)
    else
      let d := raw s (attempt b) in
      if f64_ltb (limit64 s) d then (limit64 s, true) else (d, false) in
  (jittered d r, mkBackoff s lim (S (attempt b))).

Definition Reset (b : Backoff) : Backoff := mkBackoff (settings b) false 0.

(** ** The schedule *)

(** A history: delays asked for, each with its random number, and resets. *)
Inductive op := ONext (r : float64) | OReset.

Fixpoint delays (b : Backoff) (ops : list op) : list Z :=
  match ops with
  | [] => []
  | ONext r :: ops => let '(d, b) := Next r b in d :: delays b ops
  | OReset :: ops => delays (Reset b) ops
  end.

(** Whether one of the first [n] delays passed the limit. *)
Definition capped (s : Service.Backoff) (n : nat) : bool := existsb (λ j, f64_ltb (limit64 s) (raw s j)) (seq 0 n).

(** The delay before jitter of the restart with number [n] since the last reset. *)
Definition base (s : Service.Backoff) (n : nat) : float64 := if capped s (S n) then limit64 s else raw s n.

Fixpoint schedule (s : Service.Backoff) (n : nat) (ops : list op) : list Z :=
  match ops with
  | [] => []
  | ONext r :: ops => jittered (base s n) r :: schedule s (S n) ops
  | OReset :: ops => schedule s 0 ops
  end.

Lemma capped_S s n : capped s (S n) = capped s n || f64_ltb (limit64 s) (raw s n).
Proof. unfold capped. rewrite seq_S, existsb_app. cbn [existsb Nat.add]. by rewrite orb_false_r. Qed.

Lemma delays_schedule s ops : ∀ n, delays (mkBackoff s (capped s n) n) ops = schedule s n ops.
Proof.
  induction ops as [|[r|] ops IH]; intros n; [done| |apply (IH O)]. cbn [delays schedule]. unfold Next. cbn [settings atLimit attempt].
  unfold base. rewrite capped_S. destruct (capped s n) eqn:E; cbn [orb].
  - f_equal. rewrite <- IH, capped_S, E. done.
  - destruct (f64_ltb (limit64 s) (raw s n)) eqn:Er; f_equal; rewrite <- IH, capped_S, E, Er; done.
Qed.

Lemma not_below_itself s : f64_ltb (limit64 s) (limit64 s) = false.
Proof.
  unfold f64_ltb, SFltb. assert (H : SFcompare (limit64 s) (limit64 s) = None ∨ SFcompare (limit64 s) (limit64 s) = Some Eq).
  { destruct (limit64 s) as [[]|[]| |[] m e]; cbn; auto; rewrite Z.compare_refl, Pos.compare_refl; auto. }
  by destruct H as [-> | ->].
Qed.

(** The delays of a service.  The flag that spares the power makes no
    difference: since the last reset, restart number [n] waits for the [n]-th
    term of the geometric sequence or, once a term has passed the limit, for
    the limit, a tenth more or less; never for more than the limit before the
    jitter; and a reset starts the sequence again. *)
Theorem backoff_schedule (delay : Z) (factor : float64) (limit : Z) (ops : list op) :
  let s := Service.backoff_New delay factor limit in
  delays (New delay factor limit) ops = schedule s 0 ops ∧
  (∀ n, f64_ltb (limit64 s) (base s n) = false) ∧
  (∀ n, capped s n = true → ∀ k, (n ≤ k)%nat → base s k = limit64 s).
Proof.
  intros s. split; [|split].
  - unfold New. fold s. change false with (capped s 0). apply delays_schedule.
  - intros n. unfold base. rewrite capped_S. destruct (capped s n); cbn [orb]; [apply not_below_itself|].
    destruct (f64_ltb (limit64 s) (raw s n)) eqn:E; [apply not_below_itself|done].
  - intros n Hc k Hk. unfold base. assert (capped s (S k) = true) as ->; [|done]. unfold capped in *. apply existsb_exists in Hc as (j & Hj & Hl).
    apply existsb_exists. exists j. split; [|done]. apply in_seq in Hj. apply in_seq. lia.
Qed.

(** ** Restarts: the reap loop of src/run.go *)

(** An exit that is answered by a restart: a run that lasted as long as the limit
    starts the sequence again. *)
Definition restart_delay (runDuration : Z) (r : float64) (b : Backoff) : Z * Backoff :=
  Next r (if Service.Limit (settings b) <=? runDuration then Reset b else b).

Fixpoint restarts (b : Backoff) (exits : list (Z * float64)) : list Z :=
  match exits with
  | [] => []
  | (runDuration, r) :: exits => let '(d, b) := restart_delay runDuration r b in d :: restarts b exits
  end.

(** How many exits in a row, the latest first, came before the limit; the first
    of a series does not count. *)
Fixpoint streak (limit : Z) (durations : list Z) : nat :=
  match durations with
  | [] => O
  | d :: l => if limit <=? d then O else match l with [] => O | _ => S (streak limit l) end
  end.

(** Where the sequence stands after a history. *)
Definition level (limit : Z) (past : list Z) : nat := match past with [] => O | _ => S (streak limit past) end.

Lemma streak_level limit d past : streak limit (d :: past) = if limit <=? d then O else level limit past.
Proof. cbn. destruct past; [by destruct (limit <=? d)|done]. Qed.

Lemma restarts_levels s exits : ∀ past i d r,
  exits !! i = Some (d, r) →
  restarts (mkBackoff s (capped s (level (Service.Limit s) past)) (level (Service.Limit s) past)) exits !! i =
    Some (jittered (base s (streak (Service.Limit s) (d :: reverse (take i (fst <$> exits)) ++ past))) r).
Proof.
  induction exits as [|[d0 r0] exits IH]; intros past i d r Hi; [done|]. cbn [restarts]. unfold restart_delay. cbn [settings].
  set (n := streak (Service.Limit s) (d0 :: past)).
  assert (E : (if Service.Limit s <=? d0 then Reset (mkBackoff s (capped s (level (Service.Limit s) past)) (level (Service.Limit s) past))
    else mkBackoff s (capped s (level (Service.Limit s) past)) (level (Service.Limit s) past)) = mkBackoff s (capped s n) n).
  { unfold n. rewrite streak_level. by destruct (Service.Limit s <=? d0). }
  rewrite E. pose proof (delays_schedule s [ONext r0] n) as Hd. cbn [delays schedule] in Hd.
  assert (Hb : (Next r0 (mkBackoff s (capped s n) n)).2 = mkBackoff s (capped s (S n)) (S n)).
  { unfold Next. cbn [settings atLimit attempt]. rewrite capped_S. destruct (capped s n); [done|]. by destruct (f64_ltb _ _). }
  destruct (Next r0 (mkBackoff s (capped s n) n)) as [d1 b1]. cbn [snd] in Hb. subst b1. injection Hd as ->.
  destruct i as [|i]; [cbn in Hi; by injection Hi as <- <-|]. change (exits !! i = Some (d, r)) in Hi.
  change (restarts (mkBackoff s (capped s (level (Service.Limit s) (d0 :: past))) (level (Service.Limit s) (d0 :: past))) exits !! i =
    Some (jittered (base s (streak (Service.Limit s) (d :: reverse (d0 :: take i (fst <$> exits)) ++ past))) r)).
  by rewrite (IH (d0 :: past) i d r Hi), reverse_cons, <- app_assoc.
Qed.

(** The delay after an exit is the term of the sequence for the number of exits
    in a row that came before the limit was reached, whatever happened earlier;
    in particular a run as long as the limit is followed by the first delay. *)
Theorem restart_delays (delay : Z) (factor : float64) (limit : Z) (exits : list (Z * float64)) (i : nat) (d : Z) (r : float64) :
  let s := Service.backoff_New delay factor limit in
  exits !! i = Some (d, r) →
  restarts (New delay factor limit) exits !! i =
    Some (jittered (base s (streak (Service.Limit s) (d :: reverse (take i (fst <$> exits))))) r) ∧
  (Service.Limit s ≤ d → restarts (New delay factor limit) exits !! i = Some (jittered (base s 0) r)).
Proof.
  intros s Hi. pose proof (restarts_levels s exits [] i d r Hi) as H. rewrite app_nil_r in H. change (New delay factor limit) with (mkBackoff s (capped s 0) 0).
  split; [exact H|]. intros Hd. etransitivity; [exact H|]. cbn [streak]. by rewrite (proj2 (Z.leb_le _ _)).
Qed.

(** The defaults, without jitter: 0.5 s doubling up to 30 s. *)
Example default_delays :
  delays (New 0 (f64_of_Z 0) 0) (replicate 8 (ONext f64_half) ++ [OReset; ONext f64_half]) =
  [500000000; 1000000000; 2000000000; 4000000000; 8000000000; 16000000000; 30000000000; 30000000000; 500000000].
Proof. vm_compute. reflexivity. Qed.

(** A factor of 1.5 from one second, and jitter at its extremes. *)
Example other_delays :
  delays (New 1000000000 (f64_div (f64_of_Z 3) (f64_of_Z 2)) 4000000000) (replicate 5 (ONext f64_half)) =
    [1000000000; 1500000000; 2250000000; 3375000000; 4000000000] ∧
  jittered (f64_of_Z 1000000000) (f64_of_Z 0) = 900000000 ∧ jittered (f64_of_Z 1000000000) (f64_of_Z 1) = 1100000000.
Proof. vm_compute. repeat split. Qed.

(** Three crashes, a run of a minute, a crash. *)
Example restart_ex :
  restarts (New 0 (f64_of_Z 0) 0) [(0, f64_half); (0, f64_half); (0, f64_half); (60000000000, f64_half); (0, f64_half)] =
  [500000000; 1000000000; 2000000000; 500000000; 1000000000].
Proof. vm_compute. reflexivity. Qed.

(** A falling sequence that begins above the limit stays at the limit. *)
Example falling_delays :
  delays (New 4000000000 f64_half 2000000000) (replicate 4 (ONext f64_half)) = [2000000000; 2000000000; 2000000000; 2000000000].
Proof. vm_compute. reflexivity. Qed.

End Backoff.
