(* ===== verification/ControlClient.v ===== *)
(** * The client as a whole: RunClient of src/control/client.go

    The command is built (Control.v), the socket dialled, the peer checked, the
    command sent and the reply printed; and what the user of a client sees of a
    callback of the server at the other end. *)

From S2P Require Import Prelude GoStrings Control ControlSocket.

Open Scope string_scope.
Open Scope list_scope.
Open Scope nat_scope.

Module ControlClient.

Definition newline : ascii := "010"%char.
Definition clientMaxLine : Z := 1048576.

(** ** Reading the reply *)

Definition drop_cr (line : string) : string :=
  if HasSuffix line (str1 "013") then take_str (String.length line - 1) line else line.

(** [bufio.Scanner] over the raw lines: the last one, which no line end
    follows, only counts when it is not empty; a line as long as the buffer
    ends the scan with an error. *)
Fixpoint scan_lines (raw : list string) : list string * bool :=
  match raw with
  | [] => ([], true)
  | line :: rest =>
      if (clientMaxLine <=? Z.of_nat (String.length line))%Z then ([], false)
      else match rest with
      | [] => (if bool_decide (line = "") then [] else [drop_cr line], true)
      | _ => let r := scan_lines rest in (drop_cr line :: r.1, r.2)
      end
  end.

(** The lines of what came in, and whether [scanner.Err] is nil; [eof] is false
    when reading ended with a timeout or another error. *)
Definition scan (data : string) (eof : bool) : list string * bool :=
  let r := scan_lines (Split newline data) in (r.1, r.2 && eof).

(** ** RunClient *)

Inductive outcome :=
  | CUsage (e : Control.ctl_err)
  | CNoConnection
  | CRefused (uid : Z)
  | CDone (path sent : string) (out errs : list string) (read_ok : bool).

Definition exit_status (o : outcome) : Z :=
  match o with
  | CDone _ _ _ errs true => if bool_decide (errs = []) then 0 else 1
  | _ => 1
  end.

Definition client_socket (env : gmap string string) : string :=
  match env !! "GOPHERD_SOCKET" with
  | Some v => if bool_decide (v = "") then ControlSocket.DefaultSocketPath else v
  | None => ControlSocket.DefaultSocketPath
  end.

(** [dial] is the uid of whoever listens at a path, and [serve] what it sends
    back there for a line, and whether it closes the connection in the end. *)
Definition RunClient (env : gmap string string) (euid : Z) (dial : string → option Z) (serve : string → string → string * bool)
    (args : list string) : outcome :=
  let socketPath := client_socket env in
  match Control.buildClientCommand args with
  | Err e => CUsage e
  | Ok command =>
      match dial socketPath with
      | None => CNoConnection
      | Some uid =>
          if negb (Control.peerTrusted uid euid) then CRefused uid
          else
            let sent := command +:+ str1 newline in
            let '(data, eof) := serve socketPath sent in
            let '(lines, ok) := scan data eof in
            let '(out, errs, _) := Control.RunClient_lines lines in
            CDone socketPath sent out errs ok
      end
  end.

(** ** The other end *)

(** What [handleConn] writes; the texts of errors are not modelled further. *)
Definition written (text : Control.ctl_err → string) (s : Control.session) : string :=
  match s with
  | Control.Nothing => ""
  | Control.Answer (Control.Text msg) => msg +:+ str1 newline
  | Control.Answer (Control.Failed e) => "error: " +:+ text e +:+ str1 newline
  | Control.Lines l => String.concat "" ((λ line, line +:+ str1 newline) <$> l)
  end.

(** ** What the user sees *)

(** A line that arrives as it was sent. *)
Definition clean (line : string) : Prop :=
  str_in newline line = false ∧ HasSuffix line (str1 "013") = false ∧ (Z.of_nat (String.length line) < clientMaxLine)%Z.

Lemma scan_clean lines last : Forall clean lines → last = "" →
  scan_lines (lines ++ [last]) = (lines, true).
Proof.
  intros H ->. induction H as [|line lines (_ & Hcr & Hlen) _ IH]; [done|]. cbn [app scan_lines].
  assert ((clientMaxLine <=? Z.of_nat (String.length line))%Z = false) as -> by lia.
  destruct (lines ++ [""]) as [|x rest] eqn:E; [by destruct lines|]. rewrite IH. unfold drop_cr. by rewrite Hcr.
Qed.

Lemma split_written lines : Forall clean lines →
  Split newline (String.concat "" ((λ line, line +:+ str1 newline) <$> lines)) = lines ++ [""].
Proof.
  induction 1 as [|line lines (Hnl & _) _ IH]; [done|]. rewrite fmap_cons.
  assert (E : String.concat "" ((line +:+ str1 newline) :: ((λ l, l +:+ str1 newline) <$> lines)) =
    line +:+ String newline (String.concat "" ((λ l, l +:+ str1 newline) <$> lines))).
  { destruct ((λ l, l +:+ str1 newline) <$> lines) as [|x xs]; cbn [String.concat]; [done|].
    by rewrite app_assoc_str. }
  rewrite E, Split_app by done. by rewrite IH.
Qed.

Lemma scan_written lines : Forall clean lines →
  scan (String.concat "" ((λ line, line +:+ str1 newline) <$> lines)) true = (lines, true).
Proof. intros H. unfold scan. by rewrite split_written, scan_clean. Qed.

(** A client hands its command to nobody but root or its own user. *)
Lemma client_discreet env euid dial serve args path sent out errs ok :
  RunClient env euid dial serve args = CDone path sent out errs ok →
  path = client_socket env ∧ (∃ line, Control.buildClientCommand args = Ok line ∧ sent = line +:+ str1 newline) ∧
  ∃ uid, dial path = Some uid ∧ Control.peerTrusted uid euid = true.
Proof.
  unfold RunClient. destruct (Control.buildClientCommand args) as [line|e]; [|done]. destruct (dial _) as [uid|] eqn:Ed; [|done].
  destruct (Control.peerTrusted uid euid) eqn:Et; [|done]. cbn [negb]. destruct (serve _ _) as [data eof]. destruct (scan data eof) as [lines ok'].
  destruct (Control.RunClient_lines lines) as [[out' errs'] st]. intros [= <- <- <- <- <-]. eauto 10.
Qed.

(** The request as the user writes it, to the server and back: the lines of the
    answer that are not errors are printed, and the exit status tells whether
    there were any. *)
Lemma client_sees {S : Type} (cs : Control.Server S) (text : Control.ctl_err → string) (env : gmap string string) (euid uid peer : Z)
    (dial : string → option Z) (q : Control.request) (args : list string) (evs : list Control.stream_event) (st : S) (lines : list string) :
  Control.request_ok q → Control.spelled q args → Control.peerTrusted uid euid = true → Control.peerTrusted euid peer = true →
  dial (client_socket env) = Some uid → (Z.of_nat (String.length (Join (Control.tokens q) " ")) < Control.MaxScanTokenSize)%Z →
  Forall clean lines →
  written text (Control.invoke cs q evs st).1 = String.concat "" ((λ line, line +:+ str1 newline) <$> lines) →
  let serve := λ _ data, (written text (Control.handleConn cs data euid peer true evs st).1, true) in
  let o := RunClient env euid dial serve args in
  let '(out, errs, code) := Control.RunClient_lines lines in
  o = CDone (client_socket env) (Join (Control.tokens q) " " +:+ str1 newline) out errs true ∧ exit_status o = code.
Proof.
  intros Hq Hs Ht Hp Hd Hlen Hl Hw serve o. subst o. unfold RunClient.
  pose proof (Control.client_tokens q args Hq Hs) as Hc. rewrite Hc, Hd, Ht. cbn [negb]. unfold serve. 
  assert (Hh : Control.handleConn cs (Join (Control.tokens q) " " +:+ str1 newline) euid peer true evs st = Control.invoke cs q evs st).
  { pose proof (Control.tokens_words q Hq) as Hws. pose proof (Control.dispatch_tokens cs q evs st Hq) as Hdt.
    destruct (Control.tokens q) as [|w ws] eqn:E; [by destruct q as [[]| | | |]|]. rewrite Control.handleConn_words by done. exact Hdt. }
  rewrite Hh, Hw, scan_written by done. unfold Control.RunClient_lines. split; [done|]. cbn. by case_bool_decide.
Qed.

Definition demo_serve : string → string → string * bool := λ _ _, ("one" +:+ str1 newline +:+ "error: two" +:+ String "013" (str1 newline) +:+ "three", true).

Example client_ex :
  RunClient ∅ 1000 (λ _, Some 0%Z) demo_serve ["web"; "status"] =
    CDone "/run/gopherd.sock" ("status web" +:+ str1 newline) ["one"; "three"] ["error: two"] true ∧
  RunClient {["GOPHERD_SOCKET" := "/tmp/s"]} 1000 (λ p, if bool_decide (p = "/tmp/s") then Some 1001%Z else None) demo_serve ["reload"] = CRefused 1001 ∧
  RunClient ∅ 1000 (λ _, None) demo_serve ["reload"] = CNoConnection ∧
  RunClient ∅ 1000 (λ _, Some 0%Z) demo_serve ["bogus"] = CUsage Control.EUsage.
Proof. repeat split; vm_compute; reflexivity. Qed.

End ControlClient.
