(* ===== verification/Json.v ===== *)
(** * encoding/json

    What the JSON callbacks use of [json.Marshal]: objects, arrays, strings,
    whole numbers and booleans, without white space; and a reader that follows
    the grammar of JSON for such texts. *)

From S2P Require Import Prelude GoStrings GoQuote.

Open Scope string_scope.
Open Scope list_scope.
Open Scope Z_scope.

Module Json.
Import GoQuote.

Inductive jvalue :=
  | JStr (s : string)
  | JInt (z : Z)
  | JBool (b : bool)
  | JArr (l : list jvalue)
  | JObj (l : list (string * jvalue)).

(** ** Writing *)

Definition short_forms : list (Z * ascii) := [(8, "b"); (12, "f"); (10, "n"); (13, "r"); (9, "t")]%char.
Definition short_form (b : Z) : option ascii := snd <$> List.find (λ p, p.1 =? b) short_forms.

(** [htmlSafeSet] below 128. *)
Definition html_safe (b : Z) : bool := (32 <=? b) && negb (bool_decide (b ∈ [34; 92; 60; 62; 38])).

(** The text for the first rune of a string; bytes that are no rune become the
    replacement character. *)
Definition jpiece (s : string) : string :=
  let b := byte_val (at_ s 0) in
  let width := rune_len s in
  if b <? 128 then
    if html_safe b then str1 (at_ s 0)
    else if (b =? 34) || (b =? 92) then String backslash (str1 (at_ s 0))
    else match short_form b with Some c => String backslash (str1 c) | None => "\u" +:+ hex 4 b end
  else if Nat.eqb width 1 then "\ufffd"
  else
    let r := rune_at width s in
    if (r =? 0x2028) || (r =? 0x2029) then "\u" +:+ hex 4 r else take_str width s.

Fixpoint jstring_go (skip : nat) (s : string) : string :=
  match s with
  | "" => ""
  | String _ s' =>
      match skip with
      | S k => jstring_go k s'
      | O => jpiece s +:+ jstring_go (pred (rune_len s)) s'
      end
  end.

Definition jstring (s : string) : string := String quote_char (jstring_go 0 s +:+ str1 quote_char).

Fixpoint marshal (v : jvalue) : string :=
  match v with
  | JStr s => jstring s
  | JInt z => fmt_d z
  | JBool b => if b then "true" else "false"
  | JArr l => "[" +:+ Join (List.map marshal l) "," +:+ "]"
  | JObj l => "{" +:+ Join (List.map (λ kv, jstring kv.1 +:+ ":" +:+ marshal kv.2) l) "," +:+ "}"
  end.

(** ** Reading *)

(** The text after a backslash; surrogates are not read. *)
Definition read_jescape (s : string) : option (string * nat) :=
  match s with
  | "" => None
  | String c t =>
      if bool_decide (c = "u"%char) then r ← unhex 4 0 t; if (0xd800 <=? r) && (r <=? 0xdfff) then None else Some (encode_rune r, 5%nat)
      else if bool_decide (c ∈ [quote_char; backslash; "/"%char]) then Some (str1 c, 1%nat)
      else match List.find (λ p, bool_decide (p.2 = c)) short_forms with
      | Some p => Some (str1 (chr p.1), 1%nat)
      | None => None
      end
  end.

Fixpoint read_string_go (skip : nat) (s : string) : option (string * string) :=
  match s with
  | "" => None
  | String c s' =>
      match skip with
      | S k => read_string_go k s'
      | O =>
          if bool_decide (c = quote_char) then Some ("", s')
          else if bool_decide (c = backslash) then
            '(v, n) ← read_jescape s'; '(w, r) ← read_string_go n s'; Some (v +:+ w, r)
          else if byte_val c <? 32 then None
          else '(w, r) ← read_string_go 0 s'; Some (String c w, r)
      end
  end.

Definition num_char (a : ascii) : bool := is_digit a || bool_decide (a = "-"%char).

Fixpoint span (P : ascii → bool) (s : string) : string * string :=
  match s with
  | "" => ("", "")
  | String a t => if P a then let r := span P t in (String a r.1, r.2) else ("", s)
  end.

Definition read_int (s : string) : option Z :=
  match s with String "-" d => Z.opp <$> parse_nat 10 d | _ => parse_nat 10 s end.

Definition expect (a : ascii) (s : string) : option string :=
  match s with String c t => if bool_decide (c = a) then Some t else None | "" => None end.

Fixpoint read_value (n : nat) (s : string) : option (jvalue * string) :=
  match n, s with
  | S n, String c t =>
      if bool_decide (c = quote_char) then '(v, r) ← read_string_go 0 t; Some (JStr v, r)
      else if bool_decide (c = "t"%char) then r ← CutPrefix s "true"; Some (JBool true, r)
      else if bool_decide (c = "f"%char) then r ← CutPrefix s "false"; Some (JBool false, r)
      else if bool_decide (c = "["%char) then
        match expect "]" t with
        | Some r => Some (JArr [], r)
        | None => '(l, r) ← read_elements n t; Some (JArr l, r)
        end
      else if bool_decide (c = "{"%char) then
        match expect "}" t with
        | Some r => Some (JObj [], r)
        | None => '(l, r) ← read_members n t; Some (JObj l, r)
        end
      else let '(d, r) := span num_char s in z ← read_int d; Some (JInt z, r)
  | _, _ => None
  end
with read_elements (n : nat) (s : string) : option (list jvalue * string) :=
  match n with
  | O => None
  | S n =>
      '(v, r) ← read_value n s;
      match expect "]" r with
      | Some r => Some ([v], r)
      | None => r ← expect "," r; '(l, r) ← read_elements n r; Some (v :: l, r)
      end
  end
with read_members (n : nat) (s : string) : option (list (string * jvalue) * string) :=
  match n with
  | O => None
  | S n =>
      r ← expect quote_char s;
      '(k, r) ← read_string_go 0 r;
      r ← expect ":" r;
      '(v, r) ← read_value n r;
      match expect "}" r with
      | Some r => Some ([(k, v)], r)
      | None => r ← expect "," r; '(l, r) ← read_members n r; Some ((k, v) :: l, r)
      end
  end.

(** A whole text. *)
Definition read_json (s : string) : option jvalue :=
  match read_value (2 * String.length s + 1) s with Some (v, "") => Some v | _ => None end.

(** ** Strings *)

(** The string a reader gets: bytes that are no rune are replaced. *)
Definition scrub_piece (s : string) : string :=
  if (128 <=? byte_val (at_ s 0)) && Nat.eqb (rune_len s) 1 then encode_rune 0xfffd else take_str (rune_len s) s.

Fixpoint scrub_go (skip : nat) (s : string) : string :=
  match s with
  | "" => ""
  | String _ s' =>
      match skip with
      | S k => scrub_go k s'
      | O => scrub_piece s +:+ scrub_go (pred (rune_len s)) s'
      end
  end.

Definition scrub (s : string) : string := scrub_go 0 s.

(** [utf8.ValidString]. *)
Fixpoint valid_go (skip : nat) (s : string) : bool :=
  match s with
  | "" => true
  | String a s' =>
      match skip with
      | S k => valid_go k s'
      | O => negb ((128 <=? byte_val a) && Nat.eqb (rune_len s) 1) && valid_go (pred (rune_len s)) s'
      end
  end.

Definition ValidString (s : string) : bool := valid_go 0 s.

Fixpoint scrub_value (v : jvalue) : jvalue :=
  match v with
  | JStr s => JStr (scrub s)
  | JArr l => JArr (List.map scrub_value l)
  | JObj l => JObj (List.map (λ kv, (scrub kv.1, scrub_value kv.2)) l)
  | _ => v
  end.

Lemma scrub_skip n : ∀ s, scrub_go n s = scrub_go 0 (drop_str n s).
Proof. induction n as [|n IH]; intros [|a s]; [done..|]. cbn [drop_str]. rewrite <- IH. done. Qed.

Lemma valid_skip n : ∀ s, valid_go n s = valid_go 0 (drop_str n s).
Proof. induction n as [|n IH]; intros [|a s]; [done..|]. cbn [drop_str]. rewrite <- IH. done. Qed.

Lemma jstring_skip n : ∀ s, jstring_go n s = jstring_go 0 (drop_str n s).
Proof. induction n as [|n IH]; intros [|a s]; [done..|]. cbn [drop_str]. rewrite <- IH. done. Qed.

(** Induction on a string, rune by rune. *)
Lemma rune_ind (P : string → Prop) : P "" → (∀ a s, P (drop_str (pred (rune_len (String a s))) s) → P (String a s)) → ∀ s, P s.
Proof.
  intros H0 HS s. induction s as [s IH] using (induction_ltof1 _ String.length). unfold ltof in IH. destruct s as [|a s]; [done|].
  apply HS, IH. pose proof (length_drop_str (pred (rune_len (String a s))) s). cbn [String.length]. lia.
Qed.

Lemma scrub_valid s : ValidString s = true → scrub s = s.
Proof.
  unfold ValidString, scrub. induction s as [|a s IH] using rune_ind; [done|]. cbn [valid_go scrub_go].
  intros [H1 H2]%andb_true_iff. rewrite valid_skip in H2. rewrite scrub_skip, (IH H2).
  unfold scrub_piece. change (at_ (String a s) 0) with a. apply negb_true_iff in H1. rewrite H1.
  rewrite rune_len_S at 1. cbn [take_str String.append]. by rewrite take_drop_str.
Qed.

Definition prepend (v : string) (o : option (string * string)) : option (string * string) := '(w, r) ← o; Some (v +:+ w, r).

Lemma read_skip x t : read_string_go (String.length x) (x +:+ t) = read_string_go 0 t.
Proof. induction x; cbn; auto. Qed.

Definition bare (a : ascii) : bool := unquoted a && visible a.

Lemma read_bare raw t : str_all bare raw = true → read_string_go 0 (raw +:+ t) = prepend raw (read_string_go 0 t).
Proof.
  induction raw as [|a raw IH]; intros H; [cbn; by destruct (read_string_go 0 t) as [[]|]|].
  cbn in H. apply andb_true_iff in H as [[Ha Hv]%andb_true_iff H]. unfold unquoted in Ha. unfold visible in Hv. cbn [String.append read_string_go].
  destruct (bool_decide (a = quote_char)), (bool_decide (a = backslash)); try done.
  rewrite (proj2 (Z.ltb_ge _ _)) by lia. rewrite IH by done. by destruct (read_string_go 0 t) as [[]|].
Qed.

Lemma read_escaped x v t : read_jescape (x +:+ t) = Some (v, String.length x) →
  read_string_go 0 (String backslash x +:+ t) = prepend v (read_string_go 0 t).
Proof. intros H. cbn [String.append read_string_go]. rewrite bool_decide_false, bool_decide_true, H by done. cbn. by rewrite read_skip. Qed.

Lemma read_hex r t : 0 ≤ r < 65536 → ¬ (0xd800 ≤ r ≤ 0xdfff) →
  read_string_go 0 (("\u" +:+ hex 4 r) +:+ t) = prepend (encode_rune r) (read_string_go 0 t).
Proof.
  intros Hr Hs. change ("\u" +:+ hex 4 r) with (String backslash (String "u" (hex 4 r))). apply read_escaped.
  cbn [String.append]. unfold read_jescape. rewrite bool_decide_true by done. rewrite unhex_hex by lia. rewrite Z.mod_small by (cbn; lia).
  cbn [mbind option_bind Z.mul]. rewrite Z.add_0_l. destruct ((0xd800 <=? r) && (r <=? 0xdfff)) eqn:E; [lia|].
  cbn [String.length]. by rewrite length_hex.
Qed.

Lemma short_form_reads b c t : short_form b = Some c → b < 128 ∧ read_jescape (String c t) = Some (str1 (chr b), 1%nat).
Proof.
  unfold short_form, short_forms. cbn [List.find fst snd].
  repeat match goal with |- context [?z =? b] => destruct (Z.eqb_spec z b) as [<-|_]; [cbn; intros [= <-]; split; [lia|reflexivity]|] end. done.
Qed.

Lemma high_bare a : 128 ≤ byte_val a → bare a = true.
Proof.
  intros H. unfold bare, unquoted, visible. rewrite !bool_decide_false by (intros ->; vm_compute in H; by apply H). cbn. lia.
Qed.

(** A rune of several bytes is written as it is. *)
Lemma first_bare w s : first_rune w s → w ≠ 1%nat → str_all bare (take_str w s) = true.
Proof. intros H Hw. destruct H; [done|..]; cbn [take_str str_all]; rewrite !high_bare by lia; done. Qed.

Lemma safe_bare a : byte_val a < 128 → html_safe (byte_val a) = true → bare a = true.
Proof.
  intros Ha [H1 H2]%andb_true_iff. unfold bare, unquoted, visible. rewrite H1, andb_true_r. apply negb_true_iff, bool_decide_eq_false in H2.
  rewrite !bool_decide_false; [done|..]; intros ->; apply H2; vm_compute; set_solver.
Qed.

Lemma jpiece_reads a s t : let v := String a s in
  read_string_go 0 (jpiece v +:+ t) = prepend (scrub_piece v) (read_string_go 0 t).
Proof.
  intros v. pose proof (rune_first a s) as Hf. fold v in Hf. unfold jpiece, scrub_piece. change (at_ v 0) with a.
  destruct (Z.ltb_spec (byte_val a) 128) as [Ha|Ha].
  - rewrite (proj2 (Z.leb_gt _ _)) by lia. cbn [andb]. pose proof (byte_range a).
    assert (E : rune_len v = 1%nat). { unfold v. cbn [rune_len]. by rewrite (proj2 (Z.leb_gt 194 _)), (proj2 (Z.leb_gt 224 _)), (proj2 (Z.leb_gt 240 _)) by lia. } rewrite E. change (take_str 1 v) with (str1 a).
    destruct (html_safe (byte_val a)) eqn:Es; [apply read_bare; cbn; by rewrite safe_bare|].
    destruct ((byte_val a =? 34) || (byte_val a =? 92)) eqn:Eq.
    { apply (read_escaped (str1 a)). assert (a = quote_char ∨ a = backslash) as [-> | ->]; [|reflexivity..].
      apply orb_true_iff in Eq as [Eq|Eq]; [left|right]; apply Z.eqb_eq in Eq; rewrite <- (chr_byte a), Eq; reflexivity. }
    destruct (short_form (byte_val a)) as [c|] eqn:Ec.
    { destruct (short_form_reads _ _ t Ec) as [_ Hc]. rewrite chr_byte in Hc. by apply (read_escaped (str1 c)). }
    rewrite read_hex by lia. rewrite encode_ascii by lia. by rewrite chr_byte.
  - rewrite (proj2 (Z.leb_le _ _)) by lia. cbn [andb]. destruct (Nat.eqb_spec (rune_len v) 1) as [E|E].
    { change "\ufffd" with ("\u" +:+ hex 4 0xfffd). apply read_hex; lia. }
    destruct (encode_first _ _ Hf E) as [Hr He]. destruct ((rune_at _ _ =? 0x2028) || _) eqn:Er.
    + rewrite read_hex by lia. by rewrite He.
    + apply read_bare. by apply first_bare.
Qed.

Lemma jstring_reads s t : read_string_go 0 (jstring_go 0 s +:+ String quote_char t) = Some (scrub s, t).
Proof.
  unfold scrub. induction s as [|a s IH] using rune_ind; [reflexivity|]. cbn [jstring_go scrub_go].
  rewrite app_assoc_str, jpiece_reads, jstring_skip, IH, (scrub_skip (pred _)). done.
Qed.

(** ** Values *)

Section induction.
Context (P : jvalue → Prop).
Context (HStr : ∀ s, P (JStr s)) (HInt : ∀ z, P (JInt z)) (HBool : ∀ b, P (JBool b)).
Context (HArr : ∀ l, Forall P l → P (JArr l)) (HObj : ∀ l, Forall (λ kv, P kv.2) l → P (JObj l)).

Fixpoint jvalue_nested (v : jvalue) : P v :=
  match v with
  | JStr s => HStr s
  | JInt z => HInt z
  | JBool b => HBool b
  | JArr l => HArr l ((fix go l : Forall P l := match l with [] => Forall_nil_2 _ | x :: l => Forall_cons_2 _ _ _ (jvalue_nested x) (go l) end) l)
  | JObj l => HObj l ((fix go l : Forall (λ kv, P kv.2) l :=
                         match l with [] => Forall_nil_2 _ | (k, x) :: l => Forall_cons_2 _ (k, x) _ (jvalue_nested x) (go l) end) l)
  end.
End induction.

(** How much fuel reading a value takes. *)
Fixpoint weight (v : jvalue) : nat :=
  match v with
  | JArr l => S (list_sum (List.map (λ x, S (weight x)) l))
  | JObj l => S (list_sum (List.map (λ kv, S (weight kv.2)) l))
  | _ => 1
  end.

(** What may follow a value. *)
Definition delimited (r : string) : Prop := match r with "" => True | String c _ => num_char c = false end.

Lemma span_stop P s r : str_all P s = true → match r with "" => True | String c _ => P c = false end → span P (s +:+ r) = (s, r).
Proof.
  intros Hs Hr. induction s as [|a s IH]; [destruct r as [|c r]; [done|]; cbn; by rewrite Hr|].
  cbn in *. apply andb_true_iff in Hs as [-> Hs]. by rewrite IH.
Qed.

Lemma fmt_d_spelled z : str_all num_char (fmt_d z) = true ∧ read_int (fmt_d z) = Some z ∧
  ∃ c t, fmt_d z = String c t ∧ c ∉ [quote_char; "t"; "f"; "["; "{"]%char.
Proof.
  assert (Hd : ∀ s, str_all is_digit s = true → str_all num_char s = true).
  { intros s. apply str_all_impl. intros a Ha. unfold num_char. by rewrite Ha. }
  assert (Hc : ∀ c, num_char c = true → c ∉ [quote_char; "t"; "f"; "["; "{"]%char).
  { intros c Hc Hin. revert Hc. rewrite !elem_of_cons in Hin. by repeat (destruct Hin as [->|Hin]); [..|apply not_elem_of_nil in Hin]. }
  assert (Hall : str_all num_char (fmt_d z) = true).
  { destruct z as [|p|p]; [done|apply Hd, fmt_d_digits; lia|]. change (fmt_d (Zneg p)) with (String "-" (pretty (Npos p))).
    cbn [str_all]. rewrite Hd by apply pretty_N_digits. done. }
  split; [done|]. split.
  - destruct (Z.le_gt_cases 0 z) as [Hz|Hz].
    + rewrite fmt_d_nonneg by done. pose proof (pretty_N_parse (Z.to_N z)) as Hp. pose proof (pretty_N_digits (Z.to_N z)) as Hg.
      destruct (pretty (Z.to_N z)) as [|a s]; [done|]. cbn in Hg. apply andb_prop in Hg as [Ha _].
      rewrite Z2N.id in Hp by done. by destruct a as [[] [] [] [] [] [] [] []].
    + destruct z as [|p|p]; try lia. change (fmt_d (Zneg p)) with (String "-" (pretty (Npos p))). cbn [read_int]. by rewrite pretty_N_parse.
  - destruct (fmt_d z) as [|c t] eqn:E; [by destruct (fmt_d_not_nil z)|]. exists c, t. split; [done|]. apply Hc.
    cbn in Hall. by apply andb_prop in Hall as [? _].
Qed.

Lemma expect_other a c s : c ≠ a → expect a (String c s) = None.
Proof. intros H. unfold expect. by rewrite bool_decide_false. Qed.

(** No value begins with a closing bracket. *)
Lemma marshal_begins v : ∃ c t, marshal v = String c t ∧ c ≠ "]"%char.
Proof.
  destruct v as [s|z|[]|l|l]; cbn [marshal]; try (eexists _, _; split; [reflexivity|done]).
  destruct (fmt_d_spelled z) as (Ha & _ & c & t & E & _). rewrite E. exists c, t. split; [done|]. intros ->. by rewrite E in Ha.
Qed.

Definition reads (v : jvalue) : Prop :=
  ∀ n r, (weight v ≤ n)%nat → delimited r → read_value n (marshal v +:+ r) = Some (scrub_value v, r).

Lemma read_elements_marshal l : Forall reads l → l ≠ [] → ∀ n r, (list_sum (List.map (λ x, S (weight x)) l) ≤ n)%nat →
  read_elements n (Join (List.map marshal l) "," +:+ String "]" r) = Some (List.map scrub_value l, r).
Proof.
  induction 1 as [|v l Hv Hl IH]; intros Hne n r Hn; [done|]. change (list_sum (List.map _ (v :: l))) with (S (weight v) + list_sum (List.map (λ x, S (weight x)) l))%nat in Hn. destruct n as [|n]; [lia|].
  cbn [List.map read_elements]. destruct l as [|v' l'].
  - cbn [List.map Join]. rewrite Hv; [reflexivity|lia|done].
  - change (Join (marshal v :: List.map marshal (v' :: l')) ",") with (marshal v +:+ "," +:+ Join (List.map marshal (v' :: l')) ",").
    rewrite app_assoc_str. cbn [String.append]. rewrite Hv; [|lia|done]. cbn [mbind option_bind]. rewrite expect_other by done.
    cbn [expect]. rewrite bool_decide_true by done. cbn [mbind option_bind]. rewrite IH; [reflexivity|done|lia].
Qed.

Lemma read_members_marshal l : Forall (λ kv, reads kv.2) l → l ≠ [] → ∀ n r, (list_sum (List.map (λ kv, S (weight kv.2)) l) ≤ n)%nat →
  read_members n (Join (List.map (λ kv, jstring kv.1 +:+ ":" +:+ marshal kv.2) l) "," +:+ String "}" r) =
    Some (List.map (λ kv, (scrub kv.1, scrub_value kv.2)) l, r).
Proof.
  induction 1 as [|[k v] l Hv Hl IH]; intros Hne n r Hn; [done|]. cbn [fst snd] in *.
  change (list_sum (List.map _ ((k, v) :: l))) with (S (weight v) + list_sum (List.map (λ kv : string * jvalue, S (weight kv.2)) l))%nat in Hn. destruct n as [|n]; [lia|].
  set (rest := List.map (λ kv : string * jvalue, jstring kv.1 +:+ ":" +:+ marshal kv.2) l) in *.
  assert (E : ∃ tail, Join (List.map (λ kv : string * jvalue, jstring kv.1 +:+ ":" +:+ marshal kv.2) ((k, v) :: l)) "," +:+ String "}" r =
    String quote_char (jstring_go 0 k +:+ String quote_char (String ":" (marshal v +:+ tail))) ∧
    ((l = [] ∧ tail = String "}" r) ∨ (l ≠ [] ∧ tail = String "," (Join rest "," +:+ String "}" r)))).
  { cbn [List.map fst snd]. fold rest. destruct l as [|kv' l'].
    - exists (String "}" r). split; [|by left]. cbn [rest List.map Join]. unfold jstring. cbn [String.append]. rewrite !app_assoc_str. done.
    - exists (String "," (Join rest "," +:+ String "}" r)). split; [|by right]. subst rest. cbn [List.map Join]. unfold jstring. cbn [String.append].
      rewrite !app_assoc_str. cbn [String.append]. rewrite ?app_assoc_str. done. }
  destruct E as (tail & -> & Ht). cbn [read_members expect]. rewrite bool_decide_true by done. cbn [mbind option_bind].
  rewrite jstring_reads. cbn [mbind option_bind expect]. rewrite bool_decide_true by done. cbn [mbind option_bind].
  rewrite Hv; [|lia|by destruct Ht as [[_ ->]|[_ ->]]]. cbn [mbind option_bind]. destruct Ht as [[-> ->]|[Hne' ->]].
  - reflexivity.
  - rewrite expect_other by done. cbn [expect]. rewrite bool_decide_true by done. cbn [mbind option_bind]. rewrite IH; [reflexivity|done|lia].
Qed.

Lemma marshal_reads v : reads v.
Proof.
  induction v as [s|z|b|l IH|l IH] using jvalue_nested; intros n r Hn Hr; (destruct n as [|n]; [cbn in Hn; lia|]).
  - cbn [marshal]. unfold jstring. cbn [String.append read_value]. rewrite bool_decide_true, app_assoc_str by done.
    cbn [String.append str1]. by rewrite jstring_reads.
  - destruct (fmt_d_spelled z) as (Ha & Hz & c & t & E & Hc). cbn [marshal scrub_value]. rewrite E in *. cbn [String.append read_value].
    rewrite !bool_decide_false by set_solver. change (String c (t +:+ r)) with (String c t +:+ r).
    rewrite span_stop by done. by rewrite Hz.
  - destruct b, r; reflexivity.
  - cbn [marshal]. cbn [String.append read_value]. rewrite !bool_decide_false by done. rewrite bool_decide_true, app_assoc_str by done.
    cbn [String.append scrub_value]. destruct l as [|x l]; [reflexivity|].
    assert (Hx : expect "]" (Join (List.map marshal (x :: l)) "," +:+ String "]" r) = None).
    { destruct (marshal_begins x) as (c & t & E & Hc). cbn [List.map Join]. destruct (List.map marshal l); rewrite E; cbn [String.append]; by apply expect_other. }
    rewrite Hx, read_elements_marshal; [reflexivity|done|done|]. cbn [weight] in Hn. lia.
  - set (text := Join (List.map (λ kv : string * jvalue, jstring kv.1 +:+ ":" +:+ marshal kv.2) l) ",").
    change (marshal (JObj l) +:+ r) with (String "{" ((text +:+ "}") +:+ r)). cbn [read_value].
    rewrite !bool_decide_false by done. rewrite bool_decide_true, app_assoc_str by done.
    cbn [String.append scrub_value]. subst text. destruct l as [|[k x] l]; [reflexivity|].
    assert (Hx : expect "}" (Join (List.map (λ kv : string * jvalue, jstring kv.1 +:+ ":" +:+ marshal kv.2) ((k, x) :: l)) "," +:+ String "}" r) = None).
    { cbn [List.map Join]. destruct (List.map _ l); unfold jstring; cbn [String.append]; by apply expect_other. }
    rewrite Hx, read_members_marshal; [reflexivity|done|done|]. cbn [weight] in Hn. lia.
Qed.

Lemma length_Join l sep : (list_sum (List.map String.length l) + pred (length l) * String.length sep ≤ String.length (Join l sep))%nat.
Proof.
  induction l as [|x [|y l] IH]; [cbn; lia..|].
  change (Join (x :: y :: l) sep) with (x +:+ sep +:+ Join (y :: l) sep). rewrite !length_app_str. cbn [List.map list_sum foldr fold_right length pred] in *. lia.
Qed.

(** Each piece takes at most its share of the fuel. *)
Lemma weight_pieces {A} (text : A → string) (w : A → nat) l :
  Forall (λ x, (w x ≤ 2 * String.length (text x) + 1)%nat) l →
  (list_sum (List.map (λ x, S (w x)) l) ≤ 2 * String.length (Join (List.map text l) ",") + 4)%nat.
Proof.
  intros Hw. enough (list_sum (List.map (λ x, S (w x)) l) ≤ 2 * list_sum (List.map String.length (List.map text l)) + 2 * length l)%nat as H.
  { pose proof (length_Join (List.map text l) ",") as Hj. rewrite length_map in Hj. cbn [String.length] in Hj. destruct l; cbn [length pred] in *; lia. }
  induction Hw as [|x l Hx _ IH]; unfold list_sum in *; simpl in *; lia.
Qed.

Lemma weight_length v : (weight v ≤ 2 * String.length (marshal v) + 1)%nat.
Proof.
  induction v as [s|z|b|l IH|l IH] using jvalue_nested; try (cbn; lia).
  - cbn [weight marshal]. rewrite !length_app_str. cbn [String.length].
    pose proof (weight_pieces marshal weight l IH). lia.
  - cbn [weight]. change (marshal (JObj l)) with ("{" +:+ Join (List.map (λ kv : string * jvalue, jstring kv.1 +:+ ":" +:+ marshal kv.2) l) "," +:+ "}").
    rewrite !length_app_str. cbn [String.length].
    pose proof (weight_pieces (λ kv : string * jvalue, jstring kv.1 +:+ ":" +:+ marshal kv.2) (λ kv, weight kv.2) l) as H. cbv beta in H.
    enough (list_sum (List.map (λ kv : string * jvalue, S (weight kv.2)) l) ≤ 2 * String.length (Join (List.map (λ kv : string * jvalue, jstring kv.1 +:+ ":" +:+ marshal kv.2) l) ",") + 4)%nat by lia.
    apply H. eapply Forall_impl; [exact IH|]. intros kv Hkv. cbv beta in *. rewrite !length_app_str. lia.
Qed.

(** Every value is read back, its strings with bytes that are no rune replaced. *)
Theorem json_roundtrip (v : jvalue) : read_json (marshal v) = Some (scrub_value v).
Proof.
  unfold read_json. pose proof (marshal_reads v (2 * String.length (marshal v) + 1)%nat "" (weight_length v) I) as H.
  rewrite app_nil_r_str in H. by rewrite H.
Qed.

(** *** The text is one line *)

Lemma jpiece_visible a s : str_all visible (jpiece (String a s)) = true.
Proof.
  unfold jpiece. change (at_ (String a s) 0) with a. destruct (Z.ltb_spec (byte_val a) 128) as [Ha|Ha].
  - destruct (html_safe (byte_val a)) eqn:Es; [apply andb_true_iff in Es as [Es _]; cbn; by rewrite andb_true_r|].
    destruct ((byte_val a =? 34) || (byte_val a =? 92)) eqn:Eq; [cbn [str_all str1]; unfold visible at 2; by rewrite (proj2 (Z.leb_le _ _)) by lia|].
    destruct (short_form (byte_val a)) as [c|] eqn:Ec; [|rewrite str_all_app, hex_visible; done].
    revert Ec. unfold short_form, short_forms. cbn [List.find fst snd].
    repeat match goal with |- context [?z =? ?b] => destruct (z =? b); [cbn; intros [= <-]; reflexivity|] end. done.
  - destruct (Nat.eqb_spec (rune_len (String a s)) 1); [done|]. destruct (_ || _); [rewrite str_all_app, hex_visible; done|].
    eapply str_all_impl; [|by apply first_bare; [apply rune_first|]]. intros x [_ Hx]%andb_true_iff. exact Hx.
Qed.

Lemma jstring_visible s : str_all visible (jstring s) = true.
Proof.
  unfold jstring. cbn [str_all]. rewrite str_all_app. assert (∀ n, str_all visible (jstring_go n s) = true) as ->; [|done].
  induction s as [|a s IH]; intros n; [done|]. cbn [jstring_go]. destruct n; [|apply IH]. by rewrite str_all_app, jpiece_visible, IH.
Qed.

Lemma Join_visible l : Forall (λ s, str_all visible s = true) l → str_all visible (Join l ",") = true.
Proof.
  induction 1 as [|x l Hx Hl IH]; [done|]. destruct l as [|y l]; [done|].
  change (Join (x :: y :: l) ",") with (x +:+ "," +:+ Join (y :: l) ","). by rewrite !str_all_app, Hx, IH.
Qed.

Lemma marshal_visible v : str_all visible (marshal v) = true.
Proof.
  induction v as [s|z|b|l IH|l IH] using jvalue_nested.
  - apply jstring_visible.
  - destruct (fmt_d_spelled z) as [H _]. eapply str_all_impl; [|exact H]. intros a. unfold num_char, is_digit, visible.
    intros [Ha|Ha%bool_decide_eq_true]%orb_true_iff; [lia|by subst].
  - by destruct b.
  - cbn [marshal]. rewrite !str_all_app, Join_visible; [done|]. by apply Forall_map.
  - change (marshal (JObj l)) with ("{" +:+ Join (List.map (λ kv : string * jvalue, jstring kv.1 +:+ ":" +:+ marshal kv.2) l) "," +:+ "}").
    rewrite !str_all_app, Join_visible; [done|]. apply Forall_map. eapply Forall_impl; [exact IH|]. intros kv Hkv. cbv beta in *.
    by rewrite !str_all_app, jstring_visible, Hkv.
Qed.

Example json_ex :
  let q s := str1 quote_char +:+ s +:+ str1 quote_char in
  marshal (JObj [("a<b", JArr [JInt (-5); JBool true; JStr (String "010" (str1 "255"))]); ("", JObj [])]) =
    "{" +:+ q "a\u003cb" +:+ ":[-5,true," +:+ q "\n\ufffd" +:+ "]," +:+ q "" +:+ ":{}}" ∧
  read_json ("{" +:+ q "k" +:+ ":[]}") = Some (JObj [("k", JArr [])]) ∧ read_json "[1,]" = None ∧ read_json "truex" = None.
Proof. vm_compute. repeat split. Qed.

End Json.
