(* ===== verification/StatusJson.v ===== *)
(** * Machine-readable status: the JSON callbacks of setupControl in src/daemon.go

    [gopherd status -o json] from the metrics of the daemon to the terminal: the
    snapshots of internal/metrics as JSON objects, with the names and the
    omitempty flags of their tags, and back. *)

From S2P Require Import Prelude GoStrings GoQuote Json Metrics Reaper Service Conc DaemonState Daemon Control ControlSocket ControlClient.

Open Scope string_scope.
Open Scope list_scope.
Open Scope Z_scope.

Module StatusJson.
Import Json DaemonState.

(** ** Snapshots as JSON *)

(** omitempty *)
Definition omit_str (k s : string) : list (string * jvalue) := if bool_decide (s = "") then [] else [(k, JStr s)].
Definition omit_int (k : string) (z : Z) : list (string * jvalue) := if z =? 0 then [] else [(k, JInt z)].

Definition service_json (r : Metrics.ServiceSnapshot) : jvalue :=
  JObj ([("name", JStr (Metrics.SName r)); ("state", JStr (Metrics.SState r))] ++ omit_str "reason" (Metrics.SReason r)
    ++ omit_int "pid" (Metrics.SPid r) ++ omit_int "uptime_seconds" (Metrics.SUptime r)
    ++ [("enabled", JBool (Metrics.SEnabled r)); ("exits", JInt (Metrics.SExits r)); ("restarts", JInt (Metrics.SRestarts r));
        ("successes", JInt (Metrics.SSuccesses r)); ("failures", JInt (Metrics.SFailures r))]).

Definition check_json (r : Metrics.CheckSnapshot) : jvalue :=
  JObj [("name", JStr (Metrics.KName r)); ("healthy", JBool (Metrics.KHealthy r)); ("failures", JInt (Metrics.KFailures r))].

Definition snapshot_json (s : Metrics.Snapshot) : jvalue :=
  JObj [("services", JArr (List.map service_json (Metrics.Services s))); ("checks", JArr (List.map check_json (Metrics.Checks s)))].

(** ** The callbacks *)

Section callbacks.
Context (isPrint : Z → bool) (now : Z).

Definition StatsJSONFn (d : daemon) : string * daemon := (marshal (snapshot_json (Metrics.take_snapshot now (m d))), d).

Definition StatusJSONFn (name : string) (d : daemon) : result string string * daemon :=
  match Metrics.service_snapshot now (m d) name with
  | None => (Err ("unknown service " +:+ GoQuote.Quote isPrint name), d)
  | Some snap => (Ok (marshal (service_json snap)), d)
  end.
End callbacks.

(** ** Reading a snapshot *)

Definition field (k : string) (l : list (string * jvalue)) : option jvalue := snd <$> List.find (λ p, bool_decide (p.1 = k)) l.
Definition str_field (k : string) (l : list (string * jvalue)) : option string := match field k l with Some (JStr s) => Some s | _ => None end.
Definition int_field (k : string) (l : list (string * jvalue)) : option Z := match field k l with Some (JInt z) => Some z | _ => None end.
Definition bool_field (k : string) (l : list (string * jvalue)) : option bool := match field k l with Some (JBool b) => Some b | _ => None end.

Definition read_service (v : jvalue) : option Metrics.ServiceSnapshot :=
  match v with
  | JObj l =>
      name ← str_field "name" l; state ← str_field "state" l; enabled ← bool_field "enabled" l;
      exits ← int_field "exits" l; restarts ← int_field "restarts" l; successes ← int_field "successes" l; failures ← int_field "failures" l;
      Some (Metrics.mkServiceSnapshot name state (default "" (str_field "reason" l)) (default 0 (int_field "pid" l))
              (default 0 (int_field "uptime_seconds" l)) enabled exits restarts successes failures)
  | _ => None
  end.

Definition read_check (v : jvalue) : option Metrics.CheckSnapshot :=
  match v with
  | JObj l => name ← str_field "name" l; healthy ← bool_field "healthy" l; failures ← int_field "failures" l; Some (Metrics.mkCheckSnapshot name healthy failures)
  | _ => None
  end.

Definition read_snapshot (v : jvalue) : option Metrics.Snapshot :=
  match v with
  | JObj l =>
      match field "services" l, field "checks" l with
      | Some (JArr ss), Some (JArr cs) => ss ← mapM read_service ss; cs ← mapM read_check cs; Some (Metrics.mkSnapshot ss cs)
      | _, _ => None
      end
  | _ => None
  end.

(** Bytes that are no rune cannot be sent. *)
Definition scrub_service (r : Metrics.ServiceSnapshot) : Metrics.ServiceSnapshot :=
  Metrics.mkServiceSnapshot (scrub (Metrics.SName r)) (scrub (Metrics.SState r)) (scrub (Metrics.SReason r)) (Metrics.SPid r) (Metrics.SUptime r)
    (Metrics.SEnabled r) (Metrics.SExits r) (Metrics.SRestarts r) (Metrics.SSuccesses r) (Metrics.SFailures r).
Definition scrub_check (r : Metrics.CheckSnapshot) : Metrics.CheckSnapshot :=
  Metrics.mkCheckSnapshot (scrub (Metrics.KName r)) (Metrics.KHealthy r) (Metrics.KFailures r).
Definition scrub_snapshot (s : Metrics.Snapshot) : Metrics.Snapshot :=
  Metrics.mkSnapshot (List.map scrub_service (Metrics.Services s)) (List.map scrub_check (Metrics.Checks s)).

Definition service_valid (r : Metrics.ServiceSnapshot) : Prop :=
  ValidString (Metrics.SName r) = true ∧ ValidString (Metrics.SState r) = true ∧ ValidString (Metrics.SReason r) = true.
Definition snapshot_valid (s : Metrics.Snapshot) : Prop :=
  Forall service_valid (Metrics.Services s) ∧ Forall (λ r, ValidString (Metrics.KName r) = true) (Metrics.Checks s).

Lemma scrub_service_valid r : service_valid r → scrub_service r = r.
Proof. intros (H1 & H2 & H3). unfold scrub_service. rewrite !scrub_valid by done. by destruct r. Qed.

Lemma scrub_snapshot_valid s : snapshot_valid s → scrub_snapshot s = s.
Proof.
  intros [H1 H2]. unfold scrub_snapshot. destruct s as [ss cs]. cbn in *. f_equal.
  - induction H1 as [|r ss Hr _ IH]; [done|]. cbn. by rewrite scrub_service_valid, IH.
  - induction H2 as [|r cs Hr _ IH]; [done|]. cbn. rewrite IH. unfold scrub_check. rewrite scrub_valid by done. by destruct r.
Qed.

Lemma read_service_json r : read_service (scrub_value (service_json r)) = Some (scrub_service r).
Proof.
  destruct r as [name state reason pid uptime enabled exits restarts successes failures]. unfold service_json, omit_str, omit_int.
  cbn [Metrics.SName Metrics.SState Metrics.SReason Metrics.SPid Metrics.SUptime Metrics.SEnabled Metrics.SExits Metrics.SRestarts Metrics.SSuccesses Metrics.SFailures].
  case_bool_decide; destruct (Z.eqb_spec pid 0), (Z.eqb_spec uptime 0); subst; reflexivity.
Qed.

Lemma mapM_map {A B C} (f : B → option C) (g : A → B) (h : A → C) l : (∀ x, f (g x) = Some (h x)) → mapM f (List.map g l) = Some (List.map h l).
Proof. intros H. induction l as [|x l IH]; [done|]. cbn. by rewrite H; cbn; rewrite IH. Qed.

Lemma read_snapshot_json s : read_snapshot (scrub_value (snapshot_json s)) = Some (scrub_snapshot s).
Proof.
  assert (Hr : ∀ ss cs, read_snapshot (JObj [("services", JArr ss); ("checks", JArr cs)]) =
    (ss ← mapM read_service ss; cs ← mapM read_check cs; Some (Metrics.mkSnapshot ss cs))) by reflexivity.
  unfold snapshot_json. cbn [scrub_value List.map fst snd]. rewrite !List.map_map.
  change (scrub "services") with "services". change (scrub "checks") with "checks". rewrite Hr.
  rewrite (mapM_map read_service _ scrub_service) by apply read_service_json. cbn [mbind option_bind].
  rewrite (mapM_map read_check _ scrub_check); [done|]. by intros [].
Qed.

(** ** From the daemon to the terminal *)

Section terminal.
Context (isPrint : Z → bool) (now : Z) (cs : Control.Server daemon) (text : Control.ctl_err → string).
Context (Hstats : Control.StatsJSONFn cs = Some (StatsJSONFn now)) (Hstatus : Control.StatusJSONFn cs = Some (StatusJSONFn isPrint now)).
Context (Htext : ∀ msg, text (Control.ECallback msg) = msg).

(** The line a request for JSON is answered with. *)
Definition json_line (name : option string) (d : daemon) : string :=
  match name with
  | None => (StatsJSONFn now d).1
  | Some n => match (StatusJSONFn isPrint now n d).1 with Ok t => t | Err e => "error: " +:+ e end
  end.

Lemma visible_clean s : str_all GoQuote.visible s = true → Z.of_nat (String.length s) < ControlClient.clientMaxLine → ControlClient.clean s.
Proof.
  intros Hv Hl. split; [by eapply str_all_in|]. split; [|done]. destruct (HasSuffix s (str1 "013")) eqn:E; [exfalso|done].
  destruct (snoc_str s) as [->|(r & a & ->)]; [done|]. rewrite str_all_app in Hv. apply andb_true_iff in Hv as [_ Ha].
  unfold HasSuffix in E. rewrite str_rev_app in E. change (HasPrefix (String a (str_rev r)) (String "013" "") = true) in E.
  rewrite HasPrefix_cons in E. apply andb_true_iff in E as [->%bool_decide_eq_true _]. done.
Qed.

Lemma json_line_visible name d : str_all GoQuote.visible (json_line name d) = true.
Proof.
  destruct name as [n|]; [|apply marshal_visible]. unfold json_line, StatusJSONFn. destruct (Metrics.service_snapshot _ _ _); cbn [fst]; [apply marshal_visible|].
  by rewrite !str_all_app, GoQuote.Quote_visible.
Qed.

Lemma json_written name d evs :
  ControlClient.written text (Control.invoke cs (Control.QStatus name true) evs d).1 = json_line name d +:+ str1 ControlClient.newline.
Proof.
  destruct name as [n|]; cbn [Control.invoke]; rewrite ?Hstatus, ?Hstats; cbn [fmap option_fmap option_map Control.told fst snd].
  - unfold json_line, StatusJSONFn. destruct (Metrics.service_snapshot now (m d) n); cbn [fst snd Control.told ControlClient.written]; [done|].
    rewrite Htext. by rewrite app_assoc_str.
  - done.
Qed.

(** C39: machine-readable status arrives.  A user who may ask, in any spelling of
    the request, is shown the snapshot of the daemon's metrics as one line of
    JSON, which a reader of JSON turns back into that snapshot (up to bytes
    that are not UTF-8, and exactly when there are none), with exit status 0;
    an unknown service gives an error line and exit status 1.  The answer must
    fit the megabyte the client reads. *)
Theorem status_json (env : gmap string string) (euid uid peer : Z) (dial : string → option Z) (name : option string) (args : list string)
    (evs : list Control.stream_event) (d : daemon) :
  let q := Control.QStatus name true in
  let line := json_line name d in
  Control.request_ok q → Control.spelled q args → Control.peerTrusted uid euid = true → Control.peerTrusted euid peer = true →
  dial (ControlClient.client_socket env) = Some uid → Z.of_nat (String.length (Join (Control.tokens q) " ")) < Control.MaxScanTokenSize →
  Z.of_nat (String.length line) < ControlClient.clientMaxLine →
  let serve := λ _ data, (ControlClient.written text (Control.handleConn cs data euid peer true evs d).1, true) in
  let o := ControlClient.RunClient env euid dial serve args in
  let shown out errs code := (∃ path sent, o = ControlClient.CDone path sent out errs true) ∧ ControlClient.exit_status o = code in
  match name with
  | None =>
      let snap := Metrics.take_snapshot now (m d) in
      shown [line] [] 0 ∧ read_json line ≫= read_snapshot = Some (scrub_snapshot snap) ∧ (snapshot_valid snap → scrub_snapshot snap = snap)
  | Some n =>
      match Metrics.service_snapshot now (m d) n with
      | Some row => shown [line] [] 0 ∧ read_json line ≫= read_service = Some (scrub_service row) ∧ (service_valid row → scrub_service row = row)
      | None => shown [] [line] 1
      end
  end.
Proof.
  intros q line Hq Hs Ht Hp Hd Hlen Hfit serve o shown.
  pose proof (ControlClient.client_sees cs text env euid uid peer dial q args evs d [line] Hq Hs Ht Hp Hd Hlen) as Hc.
  specialize (Hc ltac:(constructor; [apply visible_clean; [apply json_line_visible|done]|constructor]) (json_written name d evs)).
  cbn zeta in Hc. fold serve o in Hc. unfold Control.RunClient_lines in Hc. cbn [List.filter] in Hc.
  assert (Hrow : ∀ r, HasPrefix (marshal (service_json r)) "error:" = false) by done.
  assert (Hall : ∀ s, HasPrefix (marshal (snapshot_json s)) "error:" = false) by done.
  destruct name as [n|].
  - subst line. unfold json_line, StatusJSONFn in *. destruct (Metrics.service_snapshot now (m d) n) as [row|] eqn:Er; cbn [fst] in *.
    + rewrite Hrow in Hc. cbn [negb] in Hc. destruct Hc as [Ho He]. split_and!; [split; eauto| |apply scrub_service_valid].
      rewrite json_roundtrip. apply read_service_json.
    + assert (Hpre : ∀ t, HasPrefix ("error: " +:+ t) "error:" = true) by done. rewrite Hpre in Hc. destruct Hc as [Ho He]. split; eauto.
  - subst line. unfold json_line, StatsJSONFn in *. cbn [fst] in *. rewrite Hall in Hc. cbn [negb] in Hc. destruct Hc as [Ho He].
    split_and!; [split; eauto| |apply scrub_snapshot_valid]. rewrite json_roundtrip. apply read_snapshot_json.
Qed.

End terminal.

(** ** An example *)

Definition demo_metrics : Metrics.Metrics :=
  Metrics.run [Metrics.ORegisterService "web" true; Metrics.OServiceStarted "web" 7 1; Metrics.ORegisterCheck "c"].
Definition demo_daemon : daemon := set_m demo_metrics (Daemon.empty_daemon (mkConfig [] "" "" ∅ false) [] "/run/gopherd.sock").
Definition demo_now : Z := 4 * Second + 1.
Definition demo_cs : Control.Server daemon :=
  Control.mkServer None None None None None None None (Some (StatsJSONFn demo_now)) (Some (StatusJSONFn (λ _, true) demo_now)) None.
Definition demo_text (e : Control.ctl_err) : string := match e with Control.ECallback msg => msg | _ => "" end.
Definition demo_client (args : list string) : ControlClient.outcome :=
  ControlClient.RunClient ∅ 1000 (λ _, Some 0)
    (λ _ data, (ControlClient.written demo_text (Control.handleConn demo_cs data 1000 1000 true [] demo_daemon).1, true)) args.

Lemma status_json_witness :
  let row := Metrics.mkServiceSnapshot "web" "up" "" 7 4 true 0 0 0 0 in
  ∃ path sent line, demo_client ["web"; "-o"; "json"; "status"] = ControlClient.CDone path sent [line] [] true ∧
    read_json line ≫= read_service = Some row.
Proof.
  intros row.
  pose proof (status_json (λ _, true) demo_now demo_cs demo_text eq_refl eq_refl (λ _, eq_refl) ∅ 1000 0 1000 (λ _, Some 0) (Some "web")
    ["web"; "-o"; "json"; "status"] [] demo_daemon) as H. cbv beta iota zeta in H.
  assert (Er : Metrics.service_snapshot demo_now (m demo_daemon) "web" = Some row) by (vm_compute; reflexivity). rewrite Er in H.
  destruct H as (((path & sent & Ho) & _) & Hr & _).
  - split; [Control.closed_word|set_solver].
  - apply (Control.sp_status "web" ["web"; "status"] ["web"] ["status"] true); [right; split; [done|set_solver]|done].
  - reflexivity.
  - reflexivity.
  - reflexivity.
  - vm_compute. reflexivity.
  - vm_compute. reflexivity.
  - exists path, sent, (json_line (λ _, true) demo_now (Some "web") demo_daemon). split; [exact Ho|]. rewrite Hr. vm_compute. reflexivity.
Defined.

Example status_json_ex :
  let q s := str1 GoQuote.quote_char +:+ s +:+ str1 GoQuote.quote_char in
  demo_client ["status"; "-o"; "json"] =
    ControlClient.CDone "/run/gopherd.sock" ("status -o json" +:+ str1 "010")
      ["{" +:+ q "services" +:+ ":[{" +:+ q "name" +:+ ":" +:+ q "web" +:+ "," +:+ q "state" +:+ ":" +:+ q "up" +:+ "," +:+ q "pid" +:+ ":7,"
       +:+ q "uptime_seconds" +:+ ":4," +:+ q "enabled" +:+ ":true," +:+ q "exits" +:+ ":0," +:+ q "restarts" +:+ ":0," +:+ q "successes" +:+ ":0,"
       +:+ q "failures" +:+ ":0}]," +:+ q "checks" +:+ ":[{" +:+ q "name" +:+ ":" +:+ q "c" +:+ "," +:+ q "healthy" +:+ ":true," +:+ q "failures" +:+ ":0}]}"]
      [] true ∧
  demo_client ["db"; "status"; "-o"; "json"] =
    ControlClient.CDone "/run/gopherd.sock" ("status db -o json" +:+ str1 "010") [] ["error: unknown service " +:+ q "db"] true.
Proof. vm_compute. repeat split. Qed.

End StatusJson.
