(* ===== verification/BootEffects.v ===== *)
(** * What the oneshots of a boot leave behind: runLayerOneshots of src/run.go

    The machine of Boot.v decides what happens next; here its steps carry the
    calls the source makes on the way for oneshots: metrics, [MarkExited], and
    the SIGKILLs sent before gopherd gives up. *)

From S2P Require Import Prelude GoTime Order Metrics Service DaemonState Daemon Boot BootSpec.

Open Scope string_scope.
Open Scope list_scope.
Open Scope nat_scope.

Module BootEffects.
Import DaemonState Boot BootSpec.

Inductive effect :=
  | ESkipped (name reason : string)
  | EStarted (name : string) (pid : Z)
  | EMarked (name : string)
  | EExited (name : string) (code : Z)
  | EKilled (name : string) (pid : Z).

Definition about (e : effect) : string :=
  match e with ESkipped n _ | EStarted n _ | EMarked n | EExited n _ | EKilled n _ => n end.

(** An event with the reason of an unmet condition and the pid of a fork. *)
Record happening := mkHappening { ev : event; reason : string; pid : Z }.

Record state := mkState { at_ : boot; pids : gmap string Z; trace : list effect }.

Section effects.
Context (svcs : gmap string Service.Service).

(** SIGKILL for the group of a started oneshot. *)
Definition kill (pids : gmap string Z) (n : string) : list effect :=
  match pids !! n with Some p => if (0 <? p)%Z then [EKilled n p] else [] | None => [] end.

Definition oneshot_effects (s : state) (h : happening) (n : string) (unmet fork : bool) : list effect :=
  if negb (is_oneshot svcs n) then []
  else if unmet then [ESkipped n (reason h)]
  else if fork then [EStarted n (pid h)]
  else concat (kill (pids s) <$> reverse (waiting (at_ s))).

Definition exit_effects (s : state) (n : string) (a : wait_answer) : list effect :=
  match waitOneshot (startup_timeout svcs n) a with
  | None => []
  | Some None => kill (pids s) n ++ [EExited n 1]
  | Some (Some raw) => [EMarked n; EExited n (match svcs !! n with Some svc => Service.RemapExitCode svc raw | None => raw end)]
  end.

Definition effects_of (s : state) (h : happening) : list effect :=
  match at_stage (at_ s), ev h, todo (at_ s) with
  | Oneshots, EvOneshot unmet fork, n :: _ => oneshot_effects s h n unmet fork
  | Oneshots, EvExit n a, [] => exit_effects s n a
  | _, _, _ => []
  end.

Definition forked (s : state) (h : happening) : gmap string Z :=
  match at_stage (at_ s), ev h, todo (at_ s) with
  | Oneshots, EvOneshot false true, n :: _ => if is_oneshot svcs n then <[n := pid h]> (pids s) else pids s
  | _, _, _ => pids s
  end.

Definition effect_step (s : state) (h : happening) : option state :=
  b ← boot_step svcs (at_ s) (ev h); Some (mkState b (forked s h) (trace s ++ effects_of s h)).

Fixpoint effect_run (hs : list happening) (s : state) : option state :=
  match hs with
  | [] => Some s
  | h :: hs => s' ← effect_step s h; effect_run hs s'
  end.

Definition effect_start (layers : list (list string)) : state := mkState (boot_start layers) ∅ [].

(** ** The history of a service *)

Definition history (n : string) (t : list effect) : list effect := filter (λ e, about e = n) t.

Definition story (b : boot) (pids : gmap string Z) (n : string) (h : list effect) : Prop :=
  match settled b !! n with
  | Some Skipped => ∃ r, h = [ESkipped n r]
  | Some Completed => ∃ p, h = [EStarted n p; EMarked n; EExited n 0]
  | Some (Ignored c) => c ≠ 0%Z ∧ ∃ p, h = [EStarted n p; EMarked n; EExited n c]
  | Some Failed => ∃ p, (∃ c, c ≠ 0%Z ∧ h = [EStarted n p; EMarked n; EExited n c]) ∨ h = [EStarted n p; EKilled n p; EExited n 1]
  | Some (AlreadyUp | Ready) => False
  | None =>
      if decide (n ∈ waiting b) then
        ∃ p, (0 < p)%Z ∧ pids !! n = Some p ∧ h = EStarted n p :: (if decide (at_stage b = Aborted) then [EKilled n p] else [])
      else h = []
  end.

(** Nothing is looked at twice, and what is awaited is of the kind of the stage. *)
Record tidy (b : boot) : Prop := {
  td_todo : at_stage b = Oneshots → NoDup (todo b) ∧ ∀ n, n ∈ todo b → ¬ reached b n;
  td_in : ∀ n, n ∈ todo b ∨ n ∈ waiting b → n ∈ cur b;
  td_cur : NoDup (cur b);
  td_rest : NoDup (concat (rest b)) ∧ ∀ n, n ∈ concat (rest b) → ¬ reached b n ∧ n ∉ cur b;
  td_one : at_stage b = Oneshots → NoDup (waiting b) ∧ ∀ n, n ∈ waiting b → is_oneshot svcs n = true ∧ settled b !! n = None;
  td_svc : at_stage b = Services → ∀ n, n ∈ waiting b → is_oneshot svcs n = false;
}.

Lemma tidy_start layers : NoDup (concat layers) → tidy (boot_start layers).
Proof.
  intros Hnd. assert (Hno : ∀ n cur rest st todo f, ¬ reached (mkBoot cur rest st todo [] f ∅) n).
  { intros n cur rest st todo f [H|[h H]]; cbn in H; [by apply elem_of_nil in H|by rewrite lookup_empty in H]. }
  destruct layers as [|l rest]; cbn [boot_start concat] in *.
  - split; cbn; try done; [set_solver|]. split; [constructor|set_solver].
  - apply NoDup_app in Hnd as (H1 & H2 & H3). split; cbn; try done.
    + intros n [?|H]; [done|by apply elem_of_nil in H].
    + split; [done|]. intros n Hn. split; [apply Hno|]. intros Hn'. by apply (H2 n).
    + intros _. split; [constructor|]. intros n H. by apply elem_of_nil in H.
Qed.

(** A step that only reaches [n] of the current layer keeps the later layers out of reach. *)
Lemma rest_kept b b' : cur b' = cur b → rest b' = rest b → (∀ m, reached b' m → reached b m ∨ m ∈ cur b) →
  (NoDup (concat (rest b)) ∧ ∀ n, n ∈ concat (rest b) → ¬ reached b n ∧ n ∉ cur b) →
  NoDup (concat (rest b')) ∧ ∀ n, n ∈ concat (rest b') → ¬ reached b' n ∧ n ∉ cur b'.
Proof. intros -> -> Hr [H1 H2]. split; [done|]. intros n Hn. destruct (H2 n Hn). split; [|done]. intros Hx. by destruct (Hr n Hx). Qed.

Lemma tidy_take n l b : tidy b → at_stage b = Oneshots → todo b = n :: l →
  tidy (set_todo l b) ∧ ¬ reached b n ∧ n ∈ cur b ∧ n ∉ l.
Proof.
  intros [H1 H2 H3 H4 H5 H6] Hs Ht. destruct (H1 Hs) as [Hnd Hfresh]. rewrite Ht in *. apply NoDup_cons in Hnd as [Hn Hnd].
  split; [|split_and!; [apply Hfresh; left|apply H2; left; left|done]]. split; cbn; try done.
  - intros _. split; [done|]. intros m Hm. apply Hfresh. by right.
  - intros m [Hm|Hm]; apply H2; [left; by right|by right].
Qed.

Lemma tidy_settle n h b : tidy b → at_stage b = Oneshots → n ∈ cur b → n ∉ todo b → n ∉ waiting b → tidy (settle n h b).
Proof.
  intros [H1 H2 H3 H4 H5 H6] Hs Hc Ht Hw. assert (Hr : ∀ m, reached (settle n h b) m → reached b m ∨ m = n).
  { intros m [Hm|Hm]; [left; by left|]. cbn in Hm. apply settled_insert_inv in Hm as [?|?]; [left; by right|by right]. }
  split; cbn; try done.
  - intros _. destruct (H1 Hs) as [? Hf]. split; [done|]. intros m Hm Hx. destruct (Hr m Hx) as [?| ->]; [by apply (Hf m)|done].
  - apply (rest_kept b (settle n h b)); [done..| |done]. intros m Hm. destruct (Hr m Hm) as [?| ->]; auto.
  - intros _. destruct (H5 Hs) as [? Hf]. split; [done|]. intros m Hm. destruct (Hf m Hm). split; [done|]. rewrite lookup_insert_ne; [done|]. by intros ->.
Qed.

Lemma tidy_wait n b : tidy b → at_stage b = Oneshots → n ∈ cur b → n ∉ todo b → ¬ reached b n → is_oneshot svcs n = true →
  tidy (set_waiting (n :: waiting b) b).
Proof.
  intros [H1 H2 H3 H4 H5 H6] Hs Hc Ht Hw Ho. assert (Hr : ∀ m, reached (set_waiting (n :: waiting b) b) m → reached b m ∨ m = n).
  { intros m [[->|Hm]%elem_of_cons|Hm]; [by right|left; by left|left; by right]. }
  split; cbn; try done.
  - intros _. destruct (H1 Hs) as [? Hf]. split; [done|]. intros m Hm Hx. destruct (Hr m Hx) as [?| ->]; [by apply (Hf m)|done].
  - intros m [Hm|[->|Hm]%elem_of_cons]; auto.
  - apply (rest_kept b (set_waiting (n :: waiting b) b)); [done..| |done]. intros m Hm. destruct (Hr m Hm) as [?| ->]; auto.
  - intros _. destruct (H5 Hs) as [? Hf]. split; [constructor; [|done]; intros ?; apply Hw; by left|].
    intros m [->|Hm]%elem_of_cons; [|auto]. split; [done|]. apply eq_None_not_Some. intros ?. apply Hw. by right.
  - intros Hs'. congruence.
Qed.

Lemma tidy_end b b' : tidy b → cur b' = cur b → rest b' = rest b → todo b' = todo b → waiting b' = waiting b → settled b' = settled b →
  at_stage b' = Aborted → tidy b'.
Proof.
  intros [H1 H2 H3 H4 H5 H6] E1 E2 E3 E4 E5 E6. split; rewrite ?E1, ?E2, ?E3, ?E4, ?E6; try done.
  destruct H4 as [? H4]. split; [done|]. intros n Hn. destruct (H4 n Hn) as [Hr ?]. split; [|done]. unfold reached. by rewrite E4, E5.
Qed.

Lemma tidy_drop n b : tidy b → tidy (set_waiting (remove n (waiting b)) b).
Proof.
  intros [H1 H2 H3 H4 H5 H6]. assert (Hr : ∀ m, reached (set_waiting (remove n (waiting b)) b) m → reached b m).
  { intros m [Hm|Hm]; [|by right]. cbn in Hm. apply elem_of_remove in Hm as [_ Hm]. by left. }
  split; cbn; try done.
  - intros Hs. destruct (H1 Hs) as [? Hf]. split; [done|]. intros m Hm Hx. by apply (Hf m), Hr.
  - intros m [?|[_ ?]%elem_of_remove]; auto.
  - apply (rest_kept b (set_waiting (remove n (waiting b)) b)); auto.
  - intros Hs. destruct (H5 Hs) as [? Hf]. split; [by apply NoDup_filter|]. intros m [_ Hm]%elem_of_remove. auto.
  - intros Hs m [_ Hm]%elem_of_remove. auto.
Qed.

Lemma tidy_fatal b : tidy b → tidy (set_fatal b).
Proof. by intros []. Qed.

Lemma tidy_services b b' : tidy b → at_stage b' = Services ∨ at_stage b' = Aborted → cur b' = cur b → rest b' = rest b →
  (∀ m, m ∈ todo b' → m ∈ cur b) → (∀ m, m ∈ waiting b' → m ∈ cur b ∧ is_oneshot svcs m = false) →
  (∀ m, reached b' m → reached b m ∨ m ∈ cur b) → tidy b'.
Proof.
  intros [H1 H2 H3 H4 H5 H6] Hs Ec Er Ht Hw Hr. split; [|rewrite Ec|rewrite Ec|..].
  - intros Es. by destruct Hs; congruence.
  - intros n [?|Hn]; [auto|by apply Hw].
  - done.
  - by apply (rest_kept b).
  - intros Es. by destruct Hs; congruence.
  - intros _ n Hn. by apply Hw.
Qed.

Lemma tidy_next b : tidy b → todo b = [] → waiting b = [] → at_stage b = Oneshots ∨ at_stage b = Services → tidy (next_stage b).
Proof.
  intros HT Ht Hw Hs. unfold next_stage. pose proof HT as [H1 H2 H3 [H4 H4'] H5 H6]. destruct Hs as [Es|Es]; rewrite Es.
  - destruct (fatal b); [by apply (tidy_end b)|]. apply (tidy_services b); cbn; auto; [intros m H; by apply elem_of_nil in H|].
    intros m [H|H]; cbn in H; [by apply elem_of_nil in H|]. left. by right.
  - destruct (rest b) as [|l rest] eqn:Er; cbn [concat] in H4, H4'.
    + split; cbn; try done; [set_solver|]. split; [constructor|set_solver].
    + apply NoDup_app in H4 as (N1 & N2 & N3). assert (Hfresh : ∀ f st m, m ∈ l ++ concat rest → ¬ reached (mkBoot l rest st l [] f (settled b)) m).
      { intros f st m Hm [H|H]; cbn in H; [by apply elem_of_nil in H|]. destruct (H4' m Hm) as [Hn _]. apply Hn. by right. }
      split; cbn; try done.
      * intros _. split; [done|]. intros n Hn. apply Hfresh. set_solver.
      * intros n [?|H]; [done|by apply elem_of_nil in H].
      * split; [done|]. intros n Hn. split; [apply Hfresh; set_solver|]. intros Hl. by apply (N2 n).
      * intros _. split; [constructor|]. intros n H. by apply elem_of_nil in H.
Qed.

Lemma tidy_result n code b : tidy b → at_stage b = Oneshots → todo b = [] → n ∈ waiting b →
  tidy (oneshot_result svcs n code (set_waiting (remove n (waiting b)) b)).
Proof.
  intros HT Hs Ht Hn. assert (HS : ∀ h, tidy (settle n h (set_waiting (remove n (waiting b)) b))).
  { intros h. apply tidy_settle; [by apply tidy_drop|done|apply HT; by right|cbn; rewrite Ht; apply not_elem_of_nil|].
    cbn. rewrite elem_of_remove. tauto. }
  unfold oneshot_result. repeat case_match; auto using tidy_fatal.
Qed.

Lemma tidy_oneshot n l unmet fork b : tidy b → at_stage b = Oneshots → todo b = n :: l →
  tidy (start_oneshot svcs n unmet fork (set_todo l b)).
Proof.
  intros HT Hs Ht. destruct (tidy_take n l b HT Hs Ht) as (HT' & Hr & Hc & Hl). unfold start_oneshot.
  destruct (is_oneshot svcs n) eqn:Eo; cbn [negb]; [|done]. destruct unmet; [apply tidy_settle; try done; intros Hw; apply Hr; by left|].
  destruct fork; [by apply tidy_wait|]. by apply (tidy_end (set_todo l b)).
Qed.

(** In the stage of the services only these are settled and awaited. *)
Lemma services_kind n b : is_oneshot svcs n = false → tidy b → at_stage b = Services → n ∈ cur b →
  (∀ b', cur b' = cur b → rest b' = rest b → at_stage b' = Services ∨ at_stage b' = Aborted → (∀ m, m ∈ todo b' → m ∈ todo b) →
     (∀ m, m ∈ waiting b' → m ∈ waiting b ∨ m = n) → (∀ m, m ≠ n → settled b' !! m = settled b !! m) → tidy b').
Proof.
  intros Ho HT Hs Hn b' E1 E2 E3 E4 E5 E6. apply (tidy_services b); try done.
  - intros m Hm. apply HT. left. auto.
  - intros m Hm. destruct (E5 m Hm) as [?| ->]; [|done]. split; [apply HT; by right|by apply (td_svc _ HT)].
  - intros m [Hm|Hm]; [destruct (E5 m Hm) as [?| ->]; [left; by left|by right]|]. destruct (decide (m = n)) as [->|]; [by right|].
    left. right. by rewrite <- E6.
Qed.

Lemma spawn_kind n l up b : todo b = n :: l → let b' := spawn_service svcs n up (set_todo l b) in
  cur b' = cur b ∧ rest b' = rest b ∧ at_stage b' = at_stage b ∧ (∀ m, m ∈ todo b' → m ∈ todo b) ∧
  (∀ m, m ∈ waiting b' → m ∈ waiting b ∨ m = n) ∧ (∀ m, m ≠ n → settled b' !! m = settled b !! m) ∧
  (is_oneshot svcs n = true → waiting b' = waiting b ∧ settled b' = settled b).
Proof.
  intros Ht b'. subst b'. unfold spawn_service, is_oneshot. repeat case_match; cbn; rewrite ?Ht; split_and!; try done; try set_solver;
    intros; try (rewrite lookup_insert_ne by done; done).
  all: by destruct (Service.Enabled _), (Service.Oneshot _).
Qed.

Lemma service_result_kind n err b : let b' := service_result n err (set_waiting (remove n (waiting b)) b) in
  cur b' = cur b ∧ rest b' = rest b ∧ (at_stage b' = at_stage b ∨ at_stage b' = Aborted) ∧ todo b' = todo b ∧
  (∀ m, m ∈ waiting b' ↔ m ∈ waiting b ∧ m ≠ n) ∧ (∀ m, m ≠ n → settled b' !! m = settled b !! m).
Proof.
  intros b'. subst b'. unfold service_result. repeat case_match; cbn; split_and!; auto; try (intros m; rewrite elem_of_remove; tauto);
    intros m Hm; by rewrite lookup_insert_ne by done.
Qed.

(** ** Every oneshot has its story *)

Record good (s : state) : Prop := {
  g_tidy : tidy (at_ s);
  g_story : ∀ n, is_oneshot svcs n = true → story (at_ s) (pids s) n (history n (trace s));
  g_none : ∀ n, is_oneshot svcs n = false → history n (trace s) = [];
}.

Lemma story_frame b b' ps ps' n h : settled b' !! n = settled b !! n → (n ∈ waiting b' ↔ n ∈ waiting b) →
  (n ∈ waiting b → (at_stage b' = Aborted ↔ at_stage b = Aborted) ∧ ps' !! n = ps !! n) → story b ps n h → story b' ps' n h.
Proof.
  intros Es Hw Hp. unfold story. rewrite Es. destruct (settled b !! n) as [[]|]; auto.
  destruct (decide (n ∈ waiting b)) as [H|H], (decide (n ∈ waiting b')) as [H'|H']; try tauto.
  destruct (Hp H) as [Ha ->]. by destruct (decide (at_stage b = Aborted)), (decide (at_stage b' = Aborted)); try tauto.
Qed.

Lemma history_app n t t' : history n (t ++ t') = history n t ++ history n t'.
Proof. apply filter_app. Qed.

Lemma history_all n t : Forall (λ e, about e = n) t → history n t = t.
Proof. induction 1 as [|e t He _ IH]; [done|]. unfold history in *. by rewrite filter_cons_True, IH. Qed.

Lemma history_other n m t : m ≠ n → Forall (λ e, about e = n) t → history m t = [].
Proof. intros Hm. induction 1 as [|e t He _ IH]; [done|]. unfold history in *. rewrite filter_cons_False; [done|]. congruence. Qed.

(** A step whose effects are about the oneshot [n]. *)
Lemma good_step_one s b ps t n : good s → tidy b → is_oneshot svcs n = true → Forall (λ e, about e = n) t →
  (∀ m, m ≠ n → settled b !! m = settled (at_ s) !! m ∧ (m ∈ waiting b ↔ m ∈ waiting (at_ s)) ∧ ps !! m = pids s !! m) →
  (at_stage b = Aborted ↔ at_stage (at_ s) = Aborted) →
  story b ps n (history n (trace s) ++ t) → good (mkState b ps (trace s ++ t)).
Proof.
  intros [G1 G2 G3] HT Ho Ht Hm Ha Hn. split; cbn [at_ pids trace]; [done|..]; intros m Hom; rewrite history_app.
  - destruct (decide (m = n)) as [->|Hne]; [by rewrite (history_all n t)|]. rewrite (history_other n m t) by done. rewrite app_nil_r.
    destruct (Hm m Hne) as (E1 & E2 & E3). apply (story_frame (at_ s) b (pids s)); auto.
  - rewrite (history_other n m t) by (congruence || done). by rewrite app_nil_r, G3.
Qed.

(** A step without effects that no oneshot notices. *)
Lemma good_step_quiet s b : good s → tidy b →
  (∀ m, is_oneshot svcs m = true → settled b !! m = settled (at_ s) !! m ∧ (m ∈ waiting b ↔ m ∈ waiting (at_ s)) ∧
     (m ∈ waiting (at_ s) → at_stage b = Aborted ↔ at_stage (at_ s) = Aborted)) →
  good (mkState b (pids s) (trace s ++ [])).
Proof.
  intros [G1 G2 G3] HT Hm. split; cbn [at_ pids trace]; [done|..]; intros m Hom; rewrite app_nil_r; [|auto].
  destruct (Hm m Hom) as (E1 & E2 & E3). apply (story_frame (at_ s) b (pids s)); auto.
Qed.

Lemma kill_history ps n l : NoDup l → (∀ m, m ∈ l → ∃ p, (0 < p)%Z ∧ ps !! m = Some p) →
  history n (concat (kill ps <$> l)) = if decide (n ∈ l) then kill ps n else [].
Proof.
  intros Hnd Hp. assert (Hab : ∀ m, Forall (λ e, about e = m) (kill ps m)).
  { intros m. unfold kill. destruct (ps !! m); [|constructor]. destruct (_ <? _)%Z; repeat constructor. }
  induction Hnd as [|m l Hm Hnd IH]; cbn [fmap list_fmap concat]; [by destruct (decide _) as [H|]; [apply elem_of_nil in H|]|].
  rewrite history_app, IH by (intros; apply Hp; by right). destruct (decide (n = m)) as [->|Hne].
  - rewrite history_all by done. rewrite (decide_False (P := m ∈ l)), app_nil_r by done. by rewrite decide_True by left.
  - rewrite (history_other m) by done. cbn [app]. destruct (decide (n ∈ l)); [by rewrite decide_True by (by right)|].
    rewrite decide_False; [done|]. intros [?|?]%elem_of_cons; done.
Qed.

Lemma waits_story s n : good s → at_stage (at_ s) = Oneshots → n ∈ waiting (at_ s) →
  ∃ p, (0 < p)%Z ∧ pids s !! n = Some p ∧ history n (trace s) = [EStarted n p].
Proof.
  intros HG Hs Hn. destruct (td_one _ (g_tidy _ HG) Hs) as [_ Hw]. destruct (Hw n Hn) as [Ho Hse].
  pose proof (g_story _ HG n Ho) as H. unfold story in H. rewrite Hse, decide_True in H by done.
  destruct H as (p & Hp & Hpn & Hh). rewrite decide_False in Hh by congruence. eauto.
Qed.

(** The failed start: every oneshot of the layer that was started is killed. *)
Lemma good_abort s n l : good s → at_stage (at_ s) = Oneshots → todo (at_ s) = n :: l →
  good (mkState (abort (set_todo l (at_ s))) (pids s) (trace s ++ concat (kill (pids s) <$> reverse (waiting (at_ s))))).
Proof.
  intros HG Hs Ht. destruct (tidy_take n l _ (g_tidy _ HG) Hs Ht) as (HT' & Hr & Hc & Hl).
  destruct (td_one _ (g_tidy _ HG) Hs) as [Hnd Hw].
  assert (Hk : ∀ m, m ∈ reverse (waiting (at_ s)) → ∃ p, (0 < p)%Z ∧ pids s !! m = Some p).
  { intros m Hm. rewrite elem_of_reverse in Hm. destruct (waits_story s m HG Hs Hm) as (p & ? & ? & _). eauto. }
  split; cbn [at_ pids trace]; [by apply (tidy_end (set_todo l (at_ s)))|..]; intros m Hom; rewrite history_app, kill_history by (done || by rewrite reverse_Permutation).
  - unfold story. cbn. destruct (decide (m ∈ waiting (at_ s))) as [Hm|Hm].
    + destruct (waits_story s m HG Hs Hm) as (p & Hp & Hpm & ->). destruct (Hw m Hm) as [_ ->].
      rewrite decide_True by (by apply elem_of_reverse). exists p. unfold kill. rewrite Hpm, (proj2 (Z.ltb_lt _ _)) by done. done.
    + rewrite decide_False by (by rewrite elem_of_reverse). rewrite app_nil_r. pose proof (g_story _ HG m Hom) as H. unfold story in H.
      destruct (settled (at_ s) !! m) as [[]|]; try done. by rewrite decide_False in H.
  - rewrite decide_False; [by rewrite app_nil_r, (g_none _ HG)|]. rewrite elem_of_reverse. intros Hm. destruct (Hw m Hm). congruence.
Qed.

Lemma fresh_story s n : good s → is_oneshot svcs n = true → ¬ reached (at_ s) n → history n (trace s) = [].
Proof.
  intros HG Ho Hr. pose proof (g_story _ HG n Ho) as H. unfold story in H.
  destruct (settled (at_ s) !! n) as [h|] eqn:E; [exfalso; apply Hr; right; by rewrite E|].
  rewrite decide_False in H; [done|]. intros Hw. apply Hr. by left.
Qed.

Lemma good_oneshot s n l unmet fork h : good s → (0 < pid h)%Z → at_stage (at_ s) = Oneshots → todo (at_ s) = n :: l →
  ev h = EvOneshot unmet fork →
  good (mkState (start_oneshot svcs n unmet fork (set_todo l (at_ s))) (forked s h) (trace s ++ oneshot_effects s h n unmet fork)).
Proof.
  intros HG Hp Hs Ht He. pose proof (tidy_oneshot n l unmet fork _ (g_tidy _ HG) Hs Ht) as HT'.
  destruct (tidy_take n l _ (g_tidy _ HG) Hs Ht) as (_ & Hr & _). unfold forked. rewrite Hs, He, Ht. unfold oneshot_effects, start_oneshot in *.
  destruct (is_oneshot svcs n) eqn:Eo; cbn [negb] in *.
  2: { assert ((if unmet then pids s else if fork then pids s else pids s) = pids s) as -> by (by destruct unmet, fork). by apply good_step_quiet. }
  pose proof (fresh_story s n HG Eo Hr) as Hh. destruct unmet; [|destruct fork].
  - apply (good_step_one s _ _ _ n); try done; [repeat constructor|intros m Hm; cbn; by rewrite lookup_insert_ne by done|].
    unfold story. cbn. rewrite lookup_insert_eq, Hh. by exists (reason h).
  - apply (good_step_one s _ _ _ n); try done; [repeat constructor|intros m Hm; cbn; rewrite elem_of_cons, lookup_insert_ne by done; tauto|].
    unfold story. cbn. rewrite Hh. destruct (settled (at_ s) !! n) eqn:E; [exfalso; apply Hr; right; by rewrite E|].
    rewrite decide_True by left. exists (pid h). rewrite lookup_insert_eq. rewrite decide_False by congruence. done.
  - by apply (good_abort s n).
Qed.

Lemma good_exit s n a code : good s → at_stage (at_ s) = Oneshots → todo (at_ s) = [] → n ∈ waiting (at_ s) →
  waitOneshot (startup_timeout svcs n) a = Some code →
  good (mkState (oneshot_result svcs n code (set_waiting (remove n (waiting (at_ s))) (at_ s))) (pids s) (trace s ++ exit_effects s n a)).
Proof.
  intros HG Hs Ht Hn Ha. pose proof (tidy_result n code _ (g_tidy _ HG) Hs Ht Hn) as HT'.
  destruct (waits_story s n HG Hs Hn) as (p & Hp & Hpn & Hh). destruct (td_one _ (g_tidy _ HG) Hs) as [_ Hw]. destruct (Hw n Hn) as [Ho _].
  assert (Hsv : ∃ svc, svcs !! n = Some svc) by (unfold is_oneshot in Ho; destruct (svcs !! n); [eauto|done]). destruct Hsv as [svc Hsv].
  assert (Hk : kill (pids s) n = [EKilled n p]) by (unfold kill; by rewrite Hpn, (proj2 (Z.ltb_lt _ _))).
  assert (Hstage : at_stage (oneshot_result svcs n code (set_waiting (remove n (waiting (at_ s))) (at_ s))) = Oneshots)
    by (unfold oneshot_result; repeat case_match; done).
  apply (good_step_one s _ _ _ n); try done.
  - unfold exit_effects. rewrite Ha, Hk. destruct code; repeat constructor.
  - intros m Hm. unfold oneshot_result. repeat case_match; cbn; rewrite elem_of_remove, lookup_insert_ne by done; tauto.
  - by rewrite Hstage, Hs.
  - rewrite Hh. unfold exit_effects. rewrite Ha, Hk, Hsv. unfold oneshot_result, story. rewrite Hsv. destruct code as [raw|].
    + destruct (Z.eqb_spec (Service.RemapExitCode svc raw) 0) as [->|Hc]; [cbn; rewrite lookup_insert_eq; by exists p|].
      case_bool_decide; cbn; rewrite lookup_insert_eq; [split; [done|]; by exists p|]. exists p. left. eauto.
    + cbn. rewrite lookup_insert_eq. exists p. by right.
Qed.

Lemma good_started s n err : good s → at_stage (at_ s) = Services → n ∈ waiting (at_ s) →
  good (mkState (service_result n err (set_waiting (remove n (waiting (at_ s))) (at_ s))) (pids s) (trace s ++ [])).
Proof.
  intros HG Es Hn. pose proof (g_tidy _ HG) as HT. pose proof (td_svc _ HT Es n Hn) as Ho.
  destruct (service_result_kind n err (at_ s)) as (S1 & S2 & S3 & S4 & S5 & S6). cbn zeta in *.
  apply good_step_quiet; [done|..].
  - apply (services_kind n (at_ s)); try done; [apply HT; by right|rewrite Es in S3; tauto|by rewrite S4|]. intros m [? _]%S5. by left.
  - intros m Hom. assert (Hm : m ≠ n) by congruence. rewrite S6, S5 by done.
    assert (Hno : m ∉ waiting (at_ s)) by (intros Hm'; rewrite (td_svc _ HT Es m Hm') in Hom; done). tauto.
Qed.

Lemma good_step s h s' : good s → (0 < pid h)%Z → effect_step s h = Some s' → good s'.
Proof.
  intros HG Hp H. unfold effect_step, boot_step in H. unfold effects_of in H. pose proof (g_tidy _ HG) as HT.
  destruct (at_stage (at_ s)) eqn:Es; [| |by destruct (ev h), (todo (at_ s))..].
  - destruct (ev h) as [unmet fork|n a|up|n err|] eqn:Ee; destruct (todo (at_ s)) as [|n0 l] eqn:Et; try done.
    + cbn in H. injection H as <-. by apply good_oneshot.
    + case_bool_decide as Hn; [|done]. destruct (waitOneshot _ a) as [code|] eqn:Ea; [|done]. cbn in H. injection H as <-.
      assert (forked s h = pids s) as -> by (unfold forked; by rewrite Es, Ee). by apply good_exit.
    + case_bool_decide as Hw; [|done]. cbn in H. injection H as <-. assert (forked s h = pids s) as -> by (unfold forked; by rewrite Es, Ee).
      apply good_step_quiet; [done|apply tidy_next; auto|]. intros m _. rewrite Hw. unfold next_stage. rewrite Es.
      destruct (fatal (at_ s)); cbn; rewrite ?Hw; split_and!; try done; intros H; by apply elem_of_nil in H.
  - assert (forked s h = pids s) as E by (unfold forked; by rewrite Es).
    destruct (ev h) as [unmet fork|n a|up|n err|] eqn:Ee; destruct (todo (at_ s)) as [|n0 l] eqn:Et; try done.
    + cbn in H. injection H as <-. rewrite E. destruct (spawn_kind n0 l up (at_ s) Et) as (S1 & S2 & S3 & S4 & S5 & S6 & S7).
      apply good_step_quiet; [done|..].
      * destruct (is_oneshot svcs n0) eqn:Eo.
        -- destruct (S7 eq_refl) as [E1 E2]. apply (tidy_services (at_ s)); try done; [left; congruence|..].
           ++ intros m Hm. apply HT. auto.
           ++ intros m Hm. rewrite E1 in Hm. split; [apply HT; by right|by apply (td_svc _ HT)].
           ++ intros m. unfold reached. rewrite E1, E2. auto.
        -- apply (services_kind n0 (at_ s)); try done; [apply HT; left; rewrite Et; left|left; congruence].
      * intros m Hom. destruct (decide (m = n0)) as [->|Hm]; [destruct (S7 Hom) as [-> ->]; rewrite S3; tauto|]. rewrite S3, S6 by done.
        split_and!; try tauto. split; [|intros Hm'; exfalso; rewrite (td_svc _ HT Es m Hm') in Hom; done].
        intros Hm'. by destruct (S5 m Hm').
    + case_bool_decide as Hn; [|done]. cbn in H. injection H as <-. rewrite E. by apply good_started.
    + case_bool_decide as Hn; [|done]. cbn in H. injection H as <-. rewrite E. by apply good_started.
    + case_bool_decide as Hw; [|done]. cbn in H. injection H as <-. rewrite E. apply good_step_quiet; [done|apply tidy_next; auto|].
      intros m _. rewrite Hw. unfold next_stage. rewrite Es. destruct (rest (at_ s)); cbn; split_and!; try done; intros H; by apply elem_of_nil in H.
Qed.

Lemma good_run hs : ∀ s s', good s → Forall (λ h, (0 < pid h)%Z) hs → effect_run hs s = Some s' → good s'.
Proof.
  induction hs as [|h hs IH]; intros s s' HG Hp; cbn; [by intros [= <-]|]. inversion Hp; subst.
  destruct (effect_step s h) as [s1|] eqn:E; [|done]. cbn. apply IH; [|done]. by eapply good_step.
Qed.

Lemma good_start layers : NoDup (concat layers) → good (effect_start layers).
Proof.
  intros Hnd. split; [by apply tidy_start| |done]. intros n _. unfold story, effect_start. cbn [at_ trace].
  destruct layers; cbn; rewrite lookup_empty; by destruct (decide _) as [H|]; [apply elem_of_nil in H|].
Qed.

End effects.

Lemma layers_nodup services layers : Order.TopoLayers services = Prelude.Done (Ok layers) → NoDup (concat layers).
Proof.
  intros H. destruct (Order.topolayers_layered _ _ H) as [-> _]. revert H. unfold Order.TopoLayers.
  destruct (Order.collect_names services) as [names|e] eqn:E; [|done]. by apply Order.collect_names_spec in E as [? _].
Qed.

Lemma effect_boot svcs hs : ∀ s s', effect_run svcs hs s = Some s' → boot_run svcs (ev <$> hs) (at_ s) = Some (at_ s').
Proof.
  induction hs as [|h hs IH]; intros s s'; cbn; [by intros [= <-]|]. unfold effect_step.
  destruct (boot_step svcs (at_ s) (ev h)) as [b|]; [|done]. cbn. apply IH.
Qed.

(** What was recorded of an exit, and why. *)
Definition accounted (svcs : gmap string Service.Service) (evs : list event) (t : list effect) : Prop :=
  (∀ n c, EExited n c ∈ t → ∃ svc a, svcs !! n = Some svc ∧ EvExit n a ∈ evs ∧
     (ended (Service.Proc svc) a c ∨ (lost (Service.Proc svc) a ∧ c = 1%Z ∧ ∃ p, EKilled n p ∈ t))) ∧
  (∀ n a, EvExit n a ∈ evs → ∃ c, EExited n c ∈ t).

Lemma accounted_quiet svcs evs t e t' : accounted svcs evs t → (∀ n a, e ≠ EvExit n a) → (∀ n c, EExited n c ∉ t') →
  accounted svcs (evs ++ [e]) (t ++ t').
Proof.
  intros [H1 H2] He Ht. split.
  - intros n c [Hc|Hc]%elem_of_app; [|by apply Ht in Hc]. destruct (H1 n c Hc) as (svc & a & Hs & Ha & Hr). exists svc, a.
    split_and!; [done|set_solver|]. destruct Hr as [?|(? & ? & p & ?)]; [by left|]. right. split_and!; auto. exists p. set_solver.
  - intros n a [Ha|Ha]%elem_of_app; [destruct (H2 n a Ha) as [c ?]; exists c; set_solver|].
    apply list_elem_of_singleton in Ha. by destruct (He n a).
Qed.

Lemma kill_no_exit pids l n c : EExited n c ∉ concat (kill pids <$> l).
Proof.
  induction l as [|m l IH]; cbn; [apply not_elem_of_nil|]. rewrite not_elem_of_app. split; [|done].
  unfold kill. repeat case_match; set_solver.
Qed.

Lemma accounted_exit svcs evs s n a code : good svcs s → at_stage (at_ s) = Oneshots → n ∈ waiting (at_ s) →
  waitOneshot (startup_timeout svcs n) a = Some code → accounted svcs evs (trace s) →
  accounted svcs (evs ++ [EvExit n a]) (trace s ++ exit_effects svcs s n a).
Proof.
  intros HG Hs Hn Ha [H1 H2]. destruct (waits_story svcs s n HG Hs Hn) as (p & Hp & Hpn & _).
  destruct (td_one _ _ (g_tidy _ _ HG) Hs) as [_ Hw]. destruct (Hw n Hn) as [Ho _].
  unfold is_oneshot in Ho. destruct (svcs !! n) as [svc|] eqn:Ev; [|done]. pose proof Ha as Ha'.
  unfold startup_timeout in Ha'. rewrite Ev in Ha'. apply wait_answered in Ha'. unfold exit_effects. rewrite Ha, Ev.
  unfold kill. rewrite Hpn, (proj2 (Z.ltb_lt _ _)) by done. split.
  - intros m c [Hc|Hc]%elem_of_app.
    + destruct (H1 m c Hc) as (svc' & a' & Hs' & Hin & Hr). exists svc', a'. split_and!; [done|set_solver|].
      destruct Hr as [?|(? & ? & q & ?)]; [by left|]. right. split_and!; auto. exists q. set_solver.
    + assert (m = n) as -> by (destruct code; set_solver). exists svc, a. split_and!; [done|set_solver|].
      destruct code as [raw|]; [left|right]; [assert (c = Service.RemapExitCode svc raw) as -> by set_solver; done|].
      split_and!; [done|set_solver|]. exists p. set_solver.
  - intros m b [Hb|Hb]%elem_of_app; [destruct (H2 m b Hb) as [c ?]; exists c; set_solver|].
    apply list_elem_of_singleton in Hb as [= -> ->]. destruct code as [raw|]; [exists (Service.RemapExitCode svc raw)|exists 1%Z]; set_solver.
Qed.

Lemma accounted_step svcs evs s h s' : good svcs s → accounted svcs evs (trace s) → effect_step svcs s h = Some s' →
  accounted svcs (evs ++ [ev h]) (trace s').
Proof.
  intros HG HA H. unfold effect_step in H. destruct (boot_step svcs (at_ s) (ev h)) as [b|] eqn:E; [|done]. cbn in H. injection H as <-.
  cbn [trace]. unfold effects_of. unfold boot_step in E. destruct (ev h) as [unmet fork|n a|up|n err|] eqn:Ee.
  2: { destruct (at_stage (at_ s)) eqn:Es, (todo (at_ s)) as [|n0 l]; try done. case_bool_decide; [|done].
       destruct (waitOneshot _ a) as [code|] eqn:Ea; [|done]. by apply (accounted_exit svcs evs s n a code). }
  all: apply accounted_quiet; [done|done|intros n' c]; destruct (at_stage (at_ s)), (todo (at_ s)); try apply not_elem_of_nil.
  unfold oneshot_effects. repeat case_match; try set_solver. apply kill_no_exit.
Qed.

Lemma accounted_run svcs hs : ∀ evs s s', good svcs s → Forall (λ h, (0 < pid h)%Z) hs → accounted svcs evs (trace s) →
  effect_run svcs hs s = Some s' → accounted svcs (evs ++ (ev <$> hs)) (trace s').
Proof.
  induction hs as [|h hs IH]; intros evs s s' HG Hp HA; cbn; [intros [= <-]; by rewrite app_nil_r|]. inversion Hp; subst.
  destruct (effect_step svcs s h) as [s1|] eqn:E; [|done]. cbn. intros H. rewrite cons_middle, (app_assoc evs).
  eapply IH; [by eapply good_step|done|by eapply accounted_step|done].
Qed.

(** A started oneshot after the boot. *)
Lemma straggler svcs layers hs s n p : good svcs s → effect_run svcs hs (effect_start layers) = Some s → EStarted n p ∈ trace s →
  (final (at_ s) → EKilled n p ∈ trace s ∨ EMarked n ∈ trace s) ∧
  (at_stage (at_ s) = Booted → EMarked n ∈ trace s ∧ (∀ q, EKilled n q ∉ trace s) ∧ ∃ c, EExited n c ∈ trace s).
Proof.
  intros HG HR Hin. destruct (run_from_start svcs layers _ _ (effect_boot _ _ _ _ HR)) as (pre & HI & HF).
  assert (Hh : ∀ e, about e = n → e ∈ trace s ↔ e ∈ history n (trace s)) by (intros e He; unfold history; rewrite list_elem_of_filter; tauto).
  assert (Ho : is_oneshot svcs n = true).
  { destruct (is_oneshot svcs n) eqn:E; [done|]. apply Hh in Hin; [|done]. rewrite (g_none _ _ HG n E) in Hin. by apply elem_of_nil in Hin. }
  rewrite (Hh (EKilled n p)), (Hh (EMarked n)) by done. setoid_rewrite Hh; [|done..]. apply Hh in Hin; [|done].
  pose proof (g_story _ _ HG n Ho) as H. set (h := history n (trace s)) in *. clearbody h. clear Hh.
  unfold story in H. destruct (settled (at_ s) !! n) as [[]|] eqn:Es; try done.
  - destruct H as [r ->]. apply list_elem_of_singleton in Hin. done.
  - destruct H as [q ->]. split; intros _; [right; set_solver|split_and!; [set_solver..|exists 0%Z; set_solver]].
  - destruct H as (_ & q & ->). split; intros _; [right; set_solver|split_and!; [set_solver..|exists code; set_solver]].
  - assert (Hnb : at_stage (at_ s) ≠ Booted) by (intros Hb; destruct HF as [? _]; [congruence|eauto|congruence]).
    split; [intros _|done]. destruct H as (q & [(c & _ & ->)| ->]); [right; set_solver|]. assert (q = p) as -> by set_solver. left. set_solver.
  - destruct (decide (n ∈ waiting (at_ s))) as [Hw|Hw]; [|subst h; by apply elem_of_nil in Hin].
    assert (Hnb : at_stage (at_ s) ≠ Booted).
    { intros Hb. pose proof (bi_waiting _ _ _ _ HI n Hw) as Hc. rewrite (proj2 (bi_booted _ _ _ _ HI Hb)) in Hc. by apply elem_of_nil in Hc. }
    destruct H as (q & _ & _ & ->). assert (q = p) as -> by (destruct (decide _); set_solver).
    split; [|done]. intros [?|Ha]; [done|]. left. rewrite decide_True by done. set_solver.
Qed.

(** C40: oneshots leave nothing behind.  However a boot goes, each oneshot has one of
    these stories: never started; skipped; started and still awaited; started,
    waited for and its status recorded; or killed, because waiting for it failed
    or because the start of another one did.  The status recorded is that of the
    process seen to end (the exit code, 128 and the signal, or 1 for neither),
    as its exit-code-map reports it; 1 is recorded for one whose end was not
    seen (the wait failed, the time was up, the timeout cannot be read), which
    is killed.  So once a boot is over, booted or aborted, every oneshot that
    was started has ended or its group has been sent SIGKILL, and a boot that
    succeeds has waited for each and recorded the mapped status of its exit. *)
Theorem boot_stragglers (svcs : gmap string Service.Service) (services : list Order.Service) (layers : list (list string))
    (hs : list happening) (s : state) :
  Order.TopoLayers services = Prelude.Done (Ok layers) → Forall (λ h, (0 < pid h)%Z) hs →
  effect_run svcs hs (effect_start layers) = Some s →
  (∀ n, is_oneshot svcs n = true → story (at_ s) (pids s) n (history n (trace s))) ∧
  (∀ n c, EExited n c ∈ trace s → ∃ svc a, svcs !! n = Some svc ∧ EvExit n a ∈ (ev <$> hs) ∧
     (ended (Service.Proc svc) a c ∨ (lost (Service.Proc svc) a ∧ c = 1%Z ∧ ∃ p, EKilled n p ∈ trace s))) ∧
  (∀ n a, EvExit n a ∈ (ev <$> hs) → ∃ c, EExited n c ∈ trace s) ∧
  (∀ n p, EStarted n p ∈ trace s →
     (final (at_ s) → EKilled n p ∈ trace s ∨ EMarked n ∈ trace s) ∧
     (at_stage (at_ s) = Booted → EMarked n ∈ trace s ∧
        ∃ svc a c, svcs !! n = Some svc ∧ EvExit n a ∈ (ev <$> hs) ∧ ended (Service.Proc svc) a c ∧ EExited n c ∈ trace s)).
Proof.
  intros HT Hp HR. pose proof (good_start svcs layers (layers_nodup _ _ HT)) as HG0.
  pose proof (good_run svcs hs _ _ HG0 Hp HR) as HG.
  assert (HA0 : accounted svcs [] (trace (effect_start layers))) by (split; intros; set_solver).
  destruct (accounted_run svcs hs [] _ _ HG0 Hp HA0 HR) as [HA HB].
  split_and!; [apply HG|exact HA|exact HB|]. intros n p Hin. destruct (straggler svcs layers hs s n p HG HR Hin) as [H1 H2].
  split; [exact H1|]. intros Hb. destruct (H2 Hb) as (Hm & Hk & c & Hc). split; [done|].
  destruct (HA n c Hc) as (svc & a & Hs & Ha & [He|(_ & _ & q & Hq)]); [by exists svc, a, c|by destruct (Hk q)].
Qed.

(** ** An example *)

Definition demo_happenings : list happening := (λ e, mkHappening e "" 41) <$> take 4 demo_events.

Example stragglers_ex :
  trace <$> effect_run demo_svcs demo_happenings (effect_start demo_layers) = Some [EStarted "init" 41; EMarked "init"; EExited "init" 0] ∧
  trace <$> effect_run demo_svcs [mkHappening (EvOneshot false true) "" 41; mkHappening (EvOneshot false true) "" 42; mkHappening (EvExit "init" WaitError) "" 1]
    (effect_start demo_layers) = Some [EStarted "init" 41; EKilled "init" 41; EExited "init" 1].
Proof. split; vm_compute; reflexivity. Qed.

(** After the whole demo boot [init] was waited for and its exit recorded. *)
Lemma boot_stragglers_witness : ∃ s, effect_run demo_svcs ((λ e, mkHappening e "" 41) <$> demo_events) (effect_start demo_layers) = Some s ∧
  EMarked "init" ∈ trace s ∧ ∃ svc a c, demo_svcs !! "init" = Some svc ∧ ended (Service.Proc svc) a c ∧ EExited "init" c ∈ trace s.
Proof.
  destruct (effect_run demo_svcs ((λ e, mkHappening e "" 41) <$> demo_events) (effect_start demo_layers)) as [s|] eqn:E;
    [|exfalso; vm_compute in E; discriminate E].
  exists s. split; [reflexivity|].
  destruct (boot_stragglers demo_svcs demo_services demo_layers ((λ e, mkHappening e "" 41) <$> demo_events) s) as (_ & _ & _ & H);
    [vm_compute; reflexivity|by apply Forall_fmap, Forall_true|exact E|].
  destruct (H "init" 41%Z) as [_ Hd].
  - vm_compute in E. injection E as <-. left.
  - destruct Hd as (Hm & svc & a & c & Hs & _ & He & Hc); [vm_compute in E; injection E as <-; reflexivity|].
    split; [exact Hm|]. exists svc, a, c. auto.
Defined.

End BootEffects.
