(* ===== verification/Probe.v ===== *)
(** * Setting probes up: checkExec and buildHTTPClient of src/check/check.go

    The process of an exec probe with its attributes and its cancellation, and
    the HTTP client of a checker, over what os/exec and net/http do with them. *)

From S2P Require Import Prelude GoStrings GoTime Reaper Check Service Credential Launch CheckOwner.

Open Scope string_scope.
Open Scope list_scope.
Open Scope Z_scope.

Module Probe.
Import Check.

(** ** Exec probes *)

Record Cmd := mkCmd {
  Path : string;
  Argv : list string;
  Setsid : bool;
  Cred : option Credential.Cred;
  Env : option (list string);
}.

(** Both ways to run a probe prepare it like this. *)
Definition probe_cmd (e : Exec) (i : CheckOwner.identity) : Cmd :=
  mkCmd (Command e) (Args e) true (CheckOwner.credential i) (CheckOwner.env i).

(** [kill] of the process group. *)
Inductive kill_answer := KSent | KNoSuchProcess | KRefused.

Inductive cancel_result := CancelNil | CancelProcessDone | CancelError.

Definition Cancel (started : bool) (k : kill_answer) : cancel_result :=
  if negb started then CancelNil
  else match k with KSent => CancelNil | KNoSuchProcess => CancelProcessDone | KRefused => CancelError end.

(** [cmd.Run]: the process starts or not; it is waited for; [expired] is the
    answer to [Cancel] if the context ended first.  A status other than 0 is an
    error, and so is a cancelled process unless it was done already. *)
Inductive wait_result := WExit (code : Z) | WStolen | WError.

Definition Run (start_ok : bool) (w : wait_result) (expired : option kill_answer) : run_result :=
  if negb start_ok then RunFailed
  else match w with
  | WStolen => RunEchild
  | WError => RunFailed
  | WExit code =>
      if negb (code =? 0) then RunFailed
      else match expired with
      | None => RunOk
      | Some k => match Cancel true k with CancelProcessDone => RunOk | _ => RunFailed end
      end
  end.

(** [reaper] is nil or says whether the reap loop has taken over; [None] at the
    end is a probe that still waits. *)
Definition checkExec (reaper : option Reaper.Registry) (direct : run_result) (fork : option Z) (sched : list tick)
    : option (option Reaper.Registry * option check_err) :=
  match reaper with
  | Some r =>
      if Reaper.Active r then '(r, res) ← checkExecReaped r fork sched; Some (Some r, res)
      else Some (Some r, checkExecDirect direct)
  | None => Some (None, checkExecDirect direct)
  end.

(** Before the reap loop runs a probe is its own parent: it passes exactly when
    its process exits with 0, not because it was killed, and is inconclusive
    only when somebody else took the status.  With the reap loop it never waits
    itself. *)
Lemma direct_verdict start_ok w expired : let res := checkExecDirect (Run start_ok w expired) in
  (res = None ↔ start_ok = true ∧ w = WExit 0 ∧ (expired = None ∨ expired = Some KNoSuchProcess)) ∧
  (res = Some EInconclusive ↔ start_ok = true ∧ w = WStolen).
Proof.
  destruct start_ok; [|split; split; [done|naive_solver|done|naive_solver]]. cbn. destruct w as [code| |]; [|split; split; naive_solver..].
  destruct (Z.eqb_spec code 0) as [->|Hc]; cbn; [|split; split; [done|naive_solver|done|naive_solver]].
  destruct expired as [[]|]; cbn; split; split; naive_solver.
Qed.

Lemma reaped_alone r direct direct' fork sched : Reaper.Active r = true →
  checkExec (Some r) direct fork sched = checkExec (Some r) direct' fork sched.
Proof. intros H. unfold checkExec. by rewrite H. Qed.

(** ** HTTP probes *)

Inductive transport := TUnix (path : string) | TOwnPool.

(** [follow] is false when CheckRedirect answers [http.ErrUseLastResponse]. *)
Record Client := mkClient { cl_timeout : Z; follow : bool; via : transport }.

Definition buildHTTPClient (c : Checker) (h : HTTP) : Client :=
  mkClient (timeout c) false (if bool_decide (Socket h = "") then TOwnPool else TUnix (Socket h)).

(** [http.Client.Do]: the URLs asked for, in order, and the status of the last
    response; a response may name another location. *)
Fixpoint Do (redirects : nat) (cl : Client) (fetch : transport → string → option (Z * option string)) (url : string) : list string * option Z :=
  match fetch (via cl) url with
  | None => ([url], None)
  | Some (code, None) => ([url], Some code)
  | Some (code, Some location) =>
      if negb (follow cl) then ([url], Some code)
      else match redirects with
      | O => ([url], None)
      | S n => let r := Do n cl fetch location in (url :: r.1, r.2)
      end
  end.

(** A probe asks the configured URL, over the configured socket if there is one,
    and nothing else, wherever the answer points to; it passes exactly when that
    URL itself answers with a status from 200 to 299. *)
Lemma http_probe (c : Checker) (h : HTTP) n fetch : let '(asked, resp) := Do n (buildHTTPClient c h) fetch (URL h) in
  let over := if bool_decide (Socket h = "") then TOwnPool else TUnix (Socket h) in
  asked = [URL h] ∧ (checkHTTP resp = None ↔ ∃ code location, fetch over (URL h) = Some (code, location) ∧ 200 ≤ code < 300).
Proof.
  assert (E : ∀ r, Do n (buildHTTPClient c h) fetch (URL h) = r →
    r = ([URL h], fst <$> fetch (if bool_decide (Socket h = "") then TOwnPool else TUnix (Socket h)) (URL h))).
  { intros r <-. destruct n; cbn; destruct (fetch _ _) as [[code [l|]]|]; done. }
  destruct (Do _ _ _ _) as [asked resp]. specialize (E _ eq_refl). injection E as -> ->. cbv zeta. split; [done|].
  destruct (fetch _ _) as [[code l]|]; cbn; [|split; [done|intros (? & ? & ? & _); done]].
  destruct (Z.ltb_spec code 200), (Z.leb_spec 300 code); cbn; split; try done; try (intros (? & ? & [= <- <-] & ?); lia).
  intros _. exists code, l. split; [done|lia].
Qed.

End Probe.
