(* ===== verification/TemplatePasses.v ===== *)
(** * One kind of placeholder at a time: ExpandEnvRefs of src/service/env.go and ExpandFileRefs of src/service/file_template.go

    Exported helpers that the program itself no longer calls: it uses
    [ExpandRefs] (Templates.v), with which they are compared here. *)

From S2P Require Import Prelude GoStrings GoTime GoRegexp Limits Templates.

Open Scope string_scope.
Open Scope list_scope.
Open Scope nat_scope.

Module TemplatePasses.
Import GoRegexp Templates.

Fixpoint env_pass (s : string) (env : gmap string string) (locs : list rmatch) (prev : nat) : string :=
  match locs with
  | [] => drop_str prev s
  | loc :: locs => substr s prev (m_start loc) +:+ (varValue s env loc).1 +:+ env_pass s env locs (m_end loc)
  end.

Definition ExpandEnvRefs (s : string) (env : gmap string string) : string :=
  if negb (Contains s "{{") then s else env_pass s env (FindAll templateRe s) 0.

Section files.
Context (open_file : string → bool → open_result).

Fixpoint file_pass (s : string) (locs : list rmatch) (prev : nat) : result tmpl_err string :=
  match locs with
  | [] => Ok (drop_str prev s)
  | loc :: locs => v ← fileRefValue open_file s loc; rest ← file_pass s locs (m_end loc); Ok (substr s prev (m_start loc) +:+ v +:+ rest)
  end.

Definition ExpandFileRefs (s : string) : result tmpl_err string :=
  if negb (Contains s "{{") then Ok s else file_pass s (FindAll fileRe s) 0.
End files.

(** ** Matches follow one another *)

Lemma star_answers {R} greedy body k n : (∀ s pos c (k' : string → nat → caps → option R) x, body s pos c k' = Some x → ∃ s' p' c', k' s' p' c' = Some x) →
  ∀ s pos c x, star_loop greedy body k n s pos c = Some x → ∃ s' p' c', k s' p' c' = Some x.
Proof.
  intros Hb. induction n as [|n IH]; intros s pos c x; cbn [star_loop]; [eauto|].
  assert (Hm : ∀ y, body s pos c (λ s' pos' c', if pos' =? pos then None else star_loop greedy body k n s' pos' c') = Some y →
    ∃ s' p' c', k s' p' c' = Some y).
  { intros y (s' & p' & c' & Hy)%Hb. destruct (p' =? pos); [done|]. by apply IH in Hy. }
  destruct greedy.
  - destruct (body s pos c _) as [y|] eqn:E; [intros [= <-]; by apply Hm|eauto].
  - destruct (k s pos c) as [y|] eqn:E; [intros [= <-]; eauto|apply Hm].
Qed.

Lemma mt_answers {R} r : ∀ s pos c (k : string → nat → caps → option R) x, mt r s pos c k = Some x → ∃ s' p' c', k s' p' c' = Some x.
Proof.
  induction r as [|p|a IHa b IHb|a IHa b IHb|g a IHa|i a IHa|]; intros s pos c k x; cbn [mt]; [eauto|..].
  - destruct s; [done|]. destruct (p a); [eauto|done].
  - intros (s' & p' & c' & H)%IHa. by apply IHb in H.
  - destruct (mt a s pos c k) eqn:E; [intros [= <-]; by apply IHa in E|apply IHb].
  - by apply star_answers.
  - intros (s' & p' & c' & H)%IHa. eauto.
  - case_bool_decide; [eauto|done].
Qed.

Lemma match_start r s pos m : match_at r s pos = Some m → m_start m = pos.
Proof. intros (s' & p' & c' & [= <-])%mt_answers. done. Qed.

Fixpoint ordered (prev : nat) (ms : list rmatch) : Prop :=
  match ms with
  | [] => True
  | m :: ms => prev ≤ m_start m ∧ ordered (Nat.max (S (m_start m)) (m_end m)) ms
  end.

Lemma ordered_weaken ms a b : a ≤ b → ordered b ms → ordered a ms.
Proof. destruct ms; cbn; [done|]. intros H [? ?]. split; [lia|done]. Qed.

Lemma find_ordered r : ∀ s skip pos, ordered (pos + skip) (find_from r skip s pos).
Proof.
  induction s as [|a s IH]; intros skip pos; [done|]. cbn [find_from]. destruct skip as [|skip].
  - destruct (match_at r (String a s) pos) as [m|] eqn:E.
    + apply match_start in E. cbn [ordered]. rewrite E. split; [lia|]. apply (ordered_weaken _ _ (S pos + (m_end m - S pos))); [lia|apply IH].
    + apply (ordered_weaken _ _ (S pos + 0)); [lia|apply IH].
  - apply (ordered_weaken _ _ (S pos + skip)); [lia|apply IH].
Qed.

Lemma sort_ordered b ms : ∀ prev, ordered prev ms → sort_refs (pair b <$> ms) = pair b <$> ms.
Proof.
  induction ms as [|m ms IH]; intros prev; [done|]. cbn [ordered fmap list_fmap]. intros [_ H].
  change (sort_refs ((b, m) :: (pair b <$> ms))) with (insert_ref (b, m) (sort_refs (pair b <$> ms))).
  erewrite IH by done. destruct ms as [|m' ms]; [done|]. cbn [fmap list_fmap insert_ref]. cbn [ordered] in H. destruct H as [H _].
  assert ((ref_start (b, m) <=? ref_start (b, m')) = true) as -> by (unfold ref_start; cbn; apply Nat.leb_le; lia). done.
Qed.

(** ** Agreement *)

Section agree.
Context (open_file : string → bool → open_result) (env : gmap string string).

Lemma env_refs s ms : ∀ prev, ordered prev ms → ∃ missing, expand_refs open_file s env (pair false <$> ms) prev = Ok (env_pass s env ms prev, missing).
Proof.
  induction ms as [|m ms IH]; intros prev; [by exists []|]. cbn [ordered fmap list_fmap expand_refs env_pass]. intros [H1 H2].
  rewrite (proj2 (Nat.ltb_ge _ _)) by done. destruct (varValue s env m) as [v l]. cbn [mbind result_bind fst].
  destruct (IH (m_end m)) as [l' ->]; [eapply ordered_weaken, H2; lia|]. by eexists.
Qed.

Lemma file_refs s ms : ∀ prev, ordered prev ms →
  expand_refs open_file s env (pair true <$> ms) prev = (v ← file_pass open_file s ms prev; Ok (v, [])).
Proof.
  induction ms as [|m ms IH]; intros prev; [done|]. cbn [ordered fmap list_fmap expand_refs file_pass]. intros [H1 H2].
  rewrite (proj2 (Nat.ltb_ge _ _)) by done. destruct (fileRefValue open_file s m) as [v|e]; [|done]. cbn [mbind result_bind].
  rewrite IH by (eapply ordered_weaken, H2; lia). by destruct (file_pass open_file s ms (m_end m)).
Qed.

(** On a text with one kind of placeholder the helper for that kind does what
    [ExpandRefs] does. *)
Theorem single_kind (s : string) :
  (FindAll fileRe s = [] → ∃ missing, ExpandRefs open_file s env = Ok (ExpandEnvRefs s env, missing)) ∧
  (FindAll templateRe s = [] → ExpandRefs open_file s env = (v ← ExpandFileRefs open_file s; Ok (v, []))).
Proof.
  unfold ExpandRefs, ExpandEnvRefs, ExpandFileRefs. destruct (Contains s "{{"); cbn [negb]; [|split; [by eexists|done]]. split; intros ->; cbn [fmap list_fmap].
  - cbn [app]. rewrite (sort_ordered _ _ 0) by apply (find_ordered _ _ 0 0). apply env_refs, (find_ordered _ _ 0 0).
  - rewrite app_nil_r. rewrite (sort_ordered _ _ 0) by apply (find_ordered _ _ 0 0). apply file_refs, (find_ordered _ _ 0 0).
Qed.
End agree.

(** One after the other they are not [ExpandRefs]: what a file holds is expanded. *)
Example two_passes :
  let s := text_of [File "/s" true false None] in
  (v ← ExpandFileRefs secret s; Ok (ExpandEnvRefs v {["X" := "1"]})) = Ok "a1" ∧ ExpandRefs secret s {["X" := "1"]} = Ok ("a{{.X}}", []).
Proof. split; vm_compute; reflexivity. Qed.

End TemplatePasses.
