(* ===== verification/Version.v ===== *)
(** * Build information: src/version/runtime.go

    The version, the tag and the date of a build from what the Go tool embeds. *)

From S2P Require Import Prelude GoStrings.

Open Scope string_scope.
Open Scope list_scope.
Open Scope nat_scope.

Module Version.

(** [strings.ReplaceAll] of a text that is not empty; [skip] bytes belong to the
    last one replaced. *)
Fixpoint replace_go (old new : string) (skip : nat) (s : string) : string :=
  match s with
  | "" => ""
  | String a s' =>
      match skip with
      | S k => replace_go old new k s'
      | O => if HasPrefix s old then new +:+ replace_go old new (pred (String.length old)) s' else String a (replace_go old new 0 s')
      end
  end.

Definition ReplaceAll (s old new : string) : string := replace_go old new 0 s.

(** [debug.BuildInfo], as far as it is read. *)
Record BuildInfo := mkBuildInfo { mainPath : string; mainVersion : string; settings : list (string * string) }.

Record vars := mkVars { Repo : string; Version : string; Tag : string; CommitDate : string }.

Definition unset : vars := mkVars "" "dev" "dev" "".

Definition get (b : BuildInfo) (key : string) : string :=
  match List.find (λ kv, bool_decide (kv.1 = key)) (settings b) with Some kv => kv.2 | None => "" end.

Definition setFrom (b : BuildInfo) : vars :=
  let tag := ReplaceAll (mainVersion b) "(devel)" "dev" in
  let commit := take_str 8 (get b "vcs.revision") in
  mkVars (mainPath b)
    (if bool_decide (commit = "") then
       if negb (bool_decide (mainVersion b = "(devel)")) && negb (bool_decide (mainVersion b = "")) then tag else tag +:+ "." +:+ "unknown"
     else tag +:+ "." +:+ commit)
    tag (get b "vcs.time").

Definition set (info : option BuildInfo) (v : vars) : bool * vars :=
  match info with None => (false, v) | Some b => (true, setFrom b) end.

Lemma replace_absent old new s : Contains s old = false → ReplaceAll s old new = s.
Proof.
  unfold ReplaceAll, Contains. induction s as [|a s IH]; intros H; [done|]. cbn [replace_go String.index] in *. unfold HasPrefix.
  destruct (String.prefix old (String a s)); [done|]. rewrite IH; [done|]. by destruct (String.index 0 old s).
Qed.

(** A version begins with the tag; what follows it is the commit, abbreviated
    to eight characters, when it is known, and nothing for a build of a released
    module; "unknown" only marks a development build without a commit. *)
Lemma version_of b : let v := setFrom b in
  (∃ rest, Version v = Tag v +:+ rest ∧ String.length rest ≤ 9) ∧
  (get b "vcs.revision" ≠ "" → Version v = Tag v +:+ "." +:+ take_str 8 (get b "vcs.revision")) ∧
  (Contains (mainVersion b) "(devel)" = false → Tag v = mainVersion b ∧
     (get b "vcs.revision" = "" → mainVersion b ≠ "" → Version v = mainVersion b)).
Proof.
  assert (Hlen : ∀ n s, String.length (take_str n s) ≤ n) by (induction n as [|n IH]; intros [|a s]; cbn; try lia; specialize (IH s); lia).
  assert (Hne : get b "vcs.revision" ≠ "" → take_str 8 (get b "vcs.revision") ≠ "") by (by destruct (get b "vcs.revision")).
  unfold setFrom. cbn [Version Tag]. split_and!.
  - case_bool_decide; [destruct (_ && _)|].
    + exists "". split; [by rewrite app_nil_r_str|cbn; lia].
    + exists ".unknown". split; [done|cbn; lia].
    + eexists. split; [reflexivity|]. specialize (Hlen 8 (get b "vcs.revision")). cbn [String.length String.append]. lia.
  - intros H%Hne. by rewrite bool_decide_false.
  - intros Hd. rewrite replace_absent by done. split; [done|]. intros -> Hv. cbn [take_str]. rewrite bool_decide_true by done.
    rewrite (bool_decide_false (mainVersion b = "")) by done. rewrite bool_decide_false; [done|]. intros E. by rewrite E in Hd.
Qed.

Example version_ex :
  setFrom (mkBuildInfo "r" "v1.2.3+dirty" [("vcs.time", "t"); ("vcs.revision", "0123456789abcdef")]) = mkVars "r" "v1.2.3+dirty.01234567" "v1.2.3+dirty" "t" ∧
  Version (setFrom (mkBuildInfo "r" "v1.2.3" [])) = "v1.2.3" ∧ Version (setFrom (mkBuildInfo "r" "(devel)" [])) = "dev.unknown" ∧
  set None unset = (false, unset).
Proof. vm_compute. repeat split. Qed.

End Version.
