(* ===== verification/Bringup.v ===== *)
(** * From the configuration to running services: [run] of src/run.go as a whole

    The start-up of [Startup] hands the boot of [Boot] its layers and instances.
    Here the two are put together: what the relations and startup settings of a
    configured process mean for the boot that follows. *)

From S2P Require Import Prelude Order Service DaemonState Daemon DaemonSafety DaemonReload ReloadSpec Control ControlSocket Templates Config ConfigTheorems Target Launch Boot BootSpec BootEffects Startup.

Open Scope string_scope.
Open Scope list_scope.
Open Scope nat_scope.

Module Bringup.
Import DaemonState Daemon DaemonSafety Boot BootSpec.

(** The instances behind [d.services]. *)
Definition instances (d : daemon) : gmap string Service.Service := get d <$> services d.

(** ** How an instance can end up *)

Section kinds.
Context (svcs : gmap string Service.Service).

Definition is_service (n : string) : bool :=
  match svcs !! n with
  | Some s => Service.Enabled s && negb (Service.Oneshot s) && negb (Service.Scheduled s)
  | None => false
  end.

Lemma service_oneshot n : is_service n = true → is_oneshot svcs n = false.
Proof. unfold is_service, is_oneshot. destruct (svcs !! n) as [s|]; [|done]. by destruct (Service.Enabled s), (Service.Oneshot s). Qed.

(** Who is awaited and still to be looked at, and where a failure can be: no
    instance is settled twice. *)
Record kind_inv (b : boot) : Prop := {
  ki_svc : at_stage b = Services → ∀ n, n ∈ waiting b → is_service n = true;
  ki_fail : ∀ n, settled b !! n = Some Failed → n ∈ cur b;
  ki_wait : ∀ n, n ∈ waiting b → settled b !! n = None;
  ki_todo : at_stage b = Services → NoDup (todo b) ∧ ∀ n, n ∈ todo b → is_oneshot svcs n = false → ¬ reached b n;
  ki_cur : at_stage b = Oneshots → ∀ n, n ∈ cur b → is_oneshot svcs n = false → ¬ reached b n;
  ki_fatal : fatal b = true → todo b = [];
}.

Lemma kind_start layers : kind_inv (boot_start layers).
Proof.
  destruct layers; split; cbn; try done; intros; try set_solver; try (by rewrite lookup_empty in * ).
  intros [H'|[h H']]; cbn in H'; [by apply elem_of_nil in H'|by rewrite lookup_empty in H'].
Qed.

(** A step that stays in its stage or gives up, taking [n] off the list and
    passing it by, sending it off or settling it. *)
Record one_step (n : string) (b b' : boot) : Prop := {
  os_in : n ∈ cur b;
  os_cur : cur b' = cur b;
  os_stage : at_stage b' = at_stage b ∨ at_stage b' = Aborted;
  os_todo : at_stage b = Services → NoDup (todo b') ∧ (n ∉ todo b') ∧ ∀ m, m ∈ todo b' → m ∈ todo b;
  os_wait : ∀ m, m ∈ waiting b' → (m ∈ waiting b ∧ settled b' !! m = settled b !! m) ∨
              (m = n ∧ settled b' !! n = None ∧ (at_stage b = Services → is_service n = true));
  os_one : at_stage b = Oneshots → is_oneshot svcs n = false → reached b' n → reached b n;
  os_settled : settled b' = settled b ∨ ∃ h, settled b' = <[n := h]> (settled b);
  os_fatal : fatal b' = true → todo b' = [];
}.

Lemma os_reached n b b' : one_step n b b' → ∀ m, reached b' m → reached b m ∨ m = n.
Proof.
  intros H m [Hm|[h Hm]].
  - destruct (os_wait _ _ _ H m Hm) as [[? _]|[? _]]; [left; by left|by right].
  - destruct (os_settled _ _ _ H) as [E|[h' E]]; rewrite E in Hm; [left; right; eauto|].
    apply lookup_insert_Some in Hm as [[-> _]|[_ ?]]; [by right|left; right; eauto].
Qed.

Lemma kind_step n b b' : kind_inv b → one_step n b b' → kind_inv b'.
Proof.
  intros [H1 H2 H3 H4 H5 _] HS. pose proof (os_reached n b b' HS) as Hr. destruct HS as [Hn Hc Hst Ht Hw Ho Hs Hf]. split.
  - intros E m Hm. destruct Hst as [Hst|]; [|congruence]. destruct (Hw m Hm) as [[? _]|(-> & _ & ?)]; [|by auto with congruence].
    apply H1; [congruence|done].
  - intros m Hm. rewrite Hc. destruct Hs as [E|[h E]]; rewrite E in Hm; [auto|].
    apply lookup_insert_Some in Hm as [[<- _]|[_ Hm]]; auto.
  - intros m Hm. destruct (Hw m Hm) as [[? ->]|(-> & ? & _)]; auto.
  - intros E. destruct Hst as [Hst|]; [|congruence]. rewrite E in Hst. destruct (Ht (eq_sym Hst)) as (Hnd & Hni & Hin).
    split; [done|]. intros m Hm Hom Hx. destruct (Hr m Hx) as [?| ->]; [|done]. by apply (proj2 (H4 (eq_sym Hst)) m (Hin m Hm) Hom).
  - intros E m Hm Hom Hx. destruct Hst as [Hst|]; [|congruence]. rewrite E in Hst. rewrite Hc in Hm.
    apply (H5 (eq_sym Hst) m Hm Hom). destruct (Hr m Hx) as [?| ->]; [done|]. by apply Ho.
  - done.
Qed.

(** What an event settles, and how. *)
Definition settles (ev : event) (n : string) (h : how) : Prop :=
  match ev with
  | EvExit m a => m = n ∧ is_oneshot svcs n = true ∧ ∃ s, svcs !! n = Some s ∧ exit_verdict (lenient_svc s) (Service.Proc s) a h
  | EvStarted m err => m = n ∧ is_service n = true ∧ start_verdict err h
  | EvOneshot unmet _ => unmet = true ∧ is_oneshot svcs n = true ∧ h = Skipped
  | EvSpawn up => (h = Skipped ∧ is_oneshot svcs n = false ∧ is_service n = false) ∨ (h = AlreadyUp ∧ up = true ∧ is_service n = true)
  | EvNext => False
  end.

Definition silent (ev : event) : Prop := match ev with EvExit _ _ | EvStarted _ _ => False | _ => True end.

Definition steps (ev : event) (b b' : boot) : Prop :=
  (settled b' = settled b ∧ silent ev) ∨ ∃ n h, settled b !! n = None ∧ settled b' = <[n := h]> (settled b) ∧ settles ev n h.

Lemma unreached b n : ¬ reached b n → settled b !! n = None.
Proof. intros H. apply eq_None_not_Some. intros ?. apply H. by right. Qed.

Lemma set_todo_step n l b : todo b = n :: l → n ∈ cur b → NoDup (todo b) → kind_inv b → one_step n b (set_todo l b).
Proof.
  intros Ht Hn Hnd HK. pose proof (ki_fatal b HK) as Hf. rewrite Ht in *. apply NoDup_cons in Hnd as [Hnl Hnd].
  split; cbn; auto; [intros _; split_and!; auto; intros; rewrite Ht; by right|]. intros H. by specialize (Hf H).
Qed.

Lemma settle_step n l h b : todo b = n :: l → n ∈ cur b → NoDup (todo b) → kind_inv b →
  n ∉ waiting b → (at_stage b = Oneshots → is_oneshot svcs n = true) → one_step n b (settle n h (set_todo l b)).
Proof.
  intros Ht Hn Hnd HK Hw Ho. destruct (set_todo_step n l b Ht Hn Hnd HK) as [H1 H2 H3 H4 H5 H6 H7 H8]. split; cbn in *; auto; try done.
  - intros m Hm. left. split; [done|]. rewrite lookup_insert_ne; [done|]. by intros ->.
  - intros Hs Hno. by rewrite (Ho Hs) in Hno.
  - right. eauto.
Qed.

Lemma send_step n l b : todo b = n :: l → n ∈ cur b → NoDup (todo b) → kind_inv b → settled b !! n = None →
  (at_stage b = Oneshots → is_oneshot svcs n = true) → (at_stage b = Services → is_service n = true) →
  one_step n b (set_waiting (n :: waiting (set_todo l b)) (set_todo l b)).
Proof.
  intros Ht Hn Hnd HK Hse Ho Hsv. destruct (set_todo_step n l b Ht Hn Hnd HK) as [H1 H2 H3 H4 H5 H6 H7 H8]. split; cbn in *; auto; try done.
  - intros m [->|Hm]%elem_of_cons; [right; auto|auto].
  - intros Hs Hno. by rewrite (Ho Hs) in Hno.
Qed.

Lemma abort_step n b b' : one_step n b b' → one_step n b (abort b').
Proof. intros [H1 H2 H3 H4 H5 H6 H7 H8]. split; cbn; auto. Qed.

(** An awaited instance is settled. *)
Lemma waited_step n h b : n ∈ waiting b → n ∈ cur b → kind_inv b → at_stage b = Oneshots ∨ at_stage b = Services →
  one_step n b (settle n h (set_waiting (remove n (waiting b)) b)).
Proof.
  intros Hw Hn HK Hs. split; cbn; auto.
  - intros E. destruct (ki_todo _ HK E) as [Hnd Hno]. split_and!; auto. intros Ht. apply (Hno n Ht); [|by left].
    by apply service_oneshot, (ki_svc _ HK E).
  - intros m [Hne Hm]%elem_of_remove. left. split; [done|]. by rewrite lookup_insert_ne.
  - intros E Hno _. by left.
  - right. eauto.
  - apply HK.
Qed.

Lemma fatal_step n b b' : todo b' = [] → one_step n b b' → one_step n b (set_fatal b').
Proof. intros Ht [H1 H2 H3 H4 H5 H6 H7 H8]. split; cbn; auto. Qed.

Section one.
Context (b : boot).
Hypothesis (HT : BootEffects.tidy svcs b) (HK : kind_inv b).

Lemma kind_oneshot n l unmet fork : at_stage b = Oneshots → todo b = n :: l →
  one_step n b (start_oneshot svcs n unmet fork (set_todo l b)) ∧
  steps (EvOneshot unmet fork) b (start_oneshot svcs n unmet fork (set_todo l b)).
Proof.
  intros Es Ht. destruct (BootEffects.tidy_take svcs n l b HT Es Ht) as (_ & Hr & Hc & _).
  destruct (BootEffects.td_todo _ _ HT Es) as [Hnd _]. pose proof (unreached b n Hr) as Hse.
  assert (Hw : n ∉ waiting b) by (intros ?; apply Hr; by left). unfold start_oneshot, steps.
  destruct (is_oneshot svcs n) eqn:Eo; cbn [negb]; [|split; [by apply set_todo_step|by left]].
  destruct unmet; [split; [by apply settle_step|right; by exists n, Skipped]|].
  destruct fork; (split; [|by left]); [|apply abort_step; by apply set_todo_step].
  apply send_step; auto. congruence.
Qed.

Lemma kind_result n a code : at_stage b = Oneshots → todo b = [] → n ∈ waiting b → waitOneshot (startup_timeout svcs n) a = Some code →
  let b' := oneshot_result svcs n code (set_waiting (remove n (waiting b)) b) in one_step n b b' ∧ steps (EvExit n a) b b'.
Proof.
  intros Es Ht Hw Ha b'. destruct (BootEffects.td_one _ _ HT Es) as [_ Ho]. destruct (Ho n Hw) as [Hone Hse].
  assert (Hc : n ∈ cur b) by (apply HT; by right). split.
  - subst b'. unfold oneshot_result. repeat case_match; try apply fatal_step; try done; apply waited_step; auto.
  - right. pose proof Hone as Hs. unfold is_oneshot in Hs. destruct (svcs !! n) as [s|] eqn:Ev; [|done].
    destruct (oneshot_settles svcs n s a code (set_waiting (remove n (waiting b)) b) Ev Ha) as (h & E & Hv).
    exists n, h. split_and!; [done|exact E|]. cbn. eauto.
Qed.

Lemma kind_spawn n l up : at_stage b = Services → todo b = n :: l →
  let b' := spawn_service svcs n up (set_todo l b) in one_step n b b' ∧ steps (EvSpawn up) b b'.
Proof.
  intros Es Ht b'. destruct (ki_todo _ HK Es) as [Hnd Hno]. assert (Hc : n ∈ cur b) by (apply HT; left; rewrite Ht; left).
  specialize (Hno n ltac:(rewrite Ht; left)). subst b'. unfold steps.
  assert (Hset : is_oneshot svcs n = false → ∀ h, settled b !! n = None ∧ one_step n b (settle n h (set_todo l b))).
  { intros Hf h. specialize (Hno Hf). split; [by apply unreached|]. apply settle_step; auto; [intros ?; apply Hno; by left|congruence]. }
  unfold spawn_service, settles. unfold is_service. unfold is_oneshot in *. destruct (svcs !! n) as [s|] eqn:Ev.
  2: { destruct (Hset eq_refl Skipped). split; [done|]. right. exists n, Skipped. rewrite Ev. split_and!; [done|done|by left]. }
  destruct (Service.Enabled s) eqn:E1; cbn [negb andb] in *.
  2: { destruct (Hset eq_refl Skipped). split; [done|]. right. exists n, Skipped. rewrite Ev, E1. split_and!; [done|done|by left]. }
  destruct (Service.Oneshot s) eqn:E2; [split; [by apply set_todo_step|by left]|].
  destruct (Service.Scheduled s) eqn:E3.
  { destruct (Hset eq_refl Skipped). split; [done|]. right. exists n, Skipped. rewrite Ev, E1, E2, E3. split_and!; [done|done|by left]. }
  destruct up.
  - destruct (Hset eq_refl AlreadyUp). split; [done|]. right. exists n, AlreadyUp. rewrite Ev, E1, E2, E3. split_and!; [done|done|by right].
  - split; [|by left]. apply send_step; auto; [by apply unreached, Hno|congruence|]. intros _. unfold is_service. by rewrite Ev, E1, E2, E3.
Qed.

Lemma kind_started n err : at_stage b = Services → n ∈ waiting b →
  let b' := service_result n err (set_waiting (remove n (waiting b)) b) in one_step n b b' ∧ steps (EvStarted n err) b b'.
Proof.
  intros Es Hw b'. assert (Hc : n ∈ cur b) by (apply HT; by right). split.
  - subst b'. unfold service_result. repeat case_match; try apply abort_step; apply waited_step; auto.
  - right. destruct (start_settles n err (set_waiting (remove n (waiting b)) b)) as (h & E & Hv). exists n, h.
    split_and!; [by apply (ki_wait _ HK)|exact E|]. cbn. split_and!; auto. by apply (ki_svc _ HK).
Qed.

Lemma kind_next : fail_inv b → at_stage b = Oneshots ∨ at_stage b = Services → todo b = [] → waiting b = [] →
  kind_inv (next_stage b) ∧ settled (next_stage b) = settled b.
Proof.
  intros HF Hs Ht Hw. unfold next_stage.
  assert (Hempty : ∀ n, ¬ n ∈ ([] : list string)) by (intros n; apply not_elem_of_nil). destruct Hs as [Hs|Hs]; rewrite Hs.
  - destruct (fatal b) eqn:Ef; (split; [|done]); destruct HK as [H1 H2 H3 H4 H5 H6]; split; cbn; try done.
    + intros _ n Hn. by apply Hempty in Hn.
    + intros n Hn. by apply Hempty in Hn.
    + intros _. split; [apply HT|]. intros n Hn Ho [Hx|Hx]; [by apply Hempty in Hx|]. apply (H5 Hs n Hn Ho). by right.
  - assert (Hno : ∀ n, settled b !! n ≠ Some Failed) by (intros n Hn; destruct HF as [? _]; [congruence|eauto|congruence]).
    destruct (BootEffects.td_rest _ _ HT) as [_ Hrest].
    destruct (rest b) as [|l rest]; (split; [|done]); split; cbn; try done.
    1,3: intros n Hn; by apply Hno in Hn.
    1,2: intros n Hn; by apply Hempty in Hn.
    intros _ n Hn _ [Hx|Hx]; cbn in Hx; [by apply Hempty in Hx|]. destruct (Hrest n) as [Hr _]; [cbn; rewrite elem_of_app; by left|].
    apply Hr. by right.
Qed.

Lemma kind_boot_step ev b' : fail_inv b → boot_step svcs b ev = Some b' → kind_inv b' ∧ steps ev b b'.
Proof.
  intros HF H. assert (Hone : ∀ n b', one_step n b b' ∧ steps ev b b' → kind_inv b' ∧ steps ev b b').
  { intros n b'' [Ho ?]. split; [by eapply kind_step|done]. }
  unfold boot_step in H. destruct (at_stage b) eqn:Es; [| |by destruct ev, (todo b)..];
    destruct ev as [unmet fork|n a|up|n err|]; destruct (todo b) as [|n0 l] eqn:Et; try done.
  all: try case_bool_decide as Hin; try done.
  - injection H as <-. by eapply Hone, kind_oneshot.
  - destruct (waitOneshot _ _) eqn:Ea; [|done]. injection H as <-. by eapply Hone, kind_result.
  - injection H as <-. destruct kind_next as [? E]; auto. split; [done|]. by left.
  - injection H as <-. by eapply Hone, kind_spawn.
  - injection H as <-. by eapply Hone, kind_started.
  - injection H as <-. by eapply Hone, kind_started.
  - injection H as <-. destruct kind_next as [? E]; auto. split; [done|]. by left.
Qed.
End one.

Lemma boot_run_snoc evs ev b b' : boot_run svcs (evs ++ [ev]) b = Some b' → ∃ b1, boot_run svcs evs b = Some b1 ∧ boot_step svcs b1 ev = Some b'.
Proof.
  revert b. induction evs as [|e evs IH]; intros b; cbn.
  - destruct (boot_step svcs b ev) as [b1|] eqn:E; [|done]. cbn. intros [= <-]. eauto.
  - destruct (boot_step svcs b e) as [b1|]; [|done]. cbn. apply IH.
Qed.

Lemma boot_run_app evs1 evs2 b b' : boot_run svcs (evs1 ++ evs2) b = Some b' → ∃ b1, boot_run svcs evs1 b = Some b1 ∧ boot_run svcs evs2 b1 = Some b'.
Proof.
  revert b. induction evs1 as [|e evs IH]; intros b; cbn; [eauto|]. destruct (boot_step svcs b e) as [b1|]; [|done]. cbn. apply IH.
Qed.

Lemma tidy_run layers evs b : NoDup (concat layers) → boot_run svcs evs (boot_start layers) = Some b → BootEffects.tidy svcs b.
Proof.
  intros Hnd HR. assert (H : ∀ evs s b, boot_run svcs evs (BootEffects.at_ s) = Some b →
    ∃ s', BootEffects.effect_run svcs ((λ e, BootEffects.mkHappening e "" 1) <$> evs) s = Some s' ∧ BootEffects.at_ s' = b).
  { clear. induction evs as [|e evs IH]; intros s b; cbn; [intros [= <-]; eauto|]. unfold BootEffects.effect_step. cbn.
    destruct (boot_step svcs (BootEffects.at_ s) e) as [b1|]; [|done]. cbn. intros H.
    match goal with |- ∃ s', BootEffects.effect_run _ _ ?s1 = _ ∧ _ => exact (IH s1 b H) end. }
  destruct (H evs (BootEffects.effect_start layers) b HR) as (s' & Hs & <-).
  eapply (BootEffects.good_run svcs _ _ _ (BootEffects.good_start svcs layers Hnd)), Hs. by apply Forall_fmap, Forall_true.
Qed.

(** Why an instance is settled the way it is: [idle], [one] and [long] tell its
    kind. *)
Definition cause (idle one long : Prop) (evs : list event) (n : string) (h : how) : Prop :=
  match h with
  | Completed | Ignored _ => ∃ a, EvExit n a ∈ evs
  | Ready => EvStarted n None ∈ evs
  | AlreadyUp => long ∧ (EvStarted n (Some ErrAlreadyRunning) ∈ evs ∨ EvSpawn true ∈ evs)
  | Failed => (∃ a, EvExit n a ∈ evs) ∨ ∃ e, EvStarted n (Some e) ∈ evs
  | Skipped => idle ∨ (one ∧ ∃ f, EvOneshot true f ∈ evs) ∨ EvStarted n (Some ErrConditionUnmet) ∈ evs
  end.

Abbreviation cause_of n := (cause (is_oneshot svcs n = false ∧ is_service n = false) (is_oneshot svcs n = true) (is_service n = true)).

Record log_inv (evs : list event) (b : boot) : Prop := {
  lg_exit : ∀ n a, EvExit n a ∈ evs → ∃ h, settled b !! n = Some h ∧ settles (EvExit n a) n h;
  lg_start : ∀ n err, EvStarted n err ∈ evs → ∃ h, settled b !! n = Some h ∧ settles (EvStarted n err) n h;
  lg_how : ∀ n h, settled b !! n = Some h → cause_of n evs n h;
}.

Lemma cause_snoc I O L evs ev n h : cause I O L evs n h → cause I O L (evs ++ [ev]) n h.
Proof.
  assert (Hin : ∀ e, e ∈ evs → e ∈ evs ++ [ev]) by (intros e ?; rewrite elem_of_app; by left).
  destruct h; cbn; try (intros [a ?]; eauto; fail); [|intros [? [?|?]]; eauto|eauto|intros [[a ?]|[e ?]]; eauto].
  intros [?|[[? [f ?]]|?]]; eauto 6.
Qed.

Lemma cause_new evs ev n h : settles ev n h → cause_of n (evs ++ [ev]) n h.
Proof.
  assert (Hin : ev ∈ evs ++ [ev]) by (rewrite elem_of_app; right; left).
  destruct ev as [unmet f|m a|up|m err|]; cbn.
  - intros (-> & ? & ->). cbn. eauto.
  - intros (-> & ? & s & _ & Hv). destruct h; cbn in Hv |- *; try done; eauto.
  - intros [(-> & ? & ?)|(-> & -> & ?)]; cbn; auto.
  - intros (-> & ? & Hv). destruct h; cbn in Hv |- *; try done; subst; auto. destruct Hv as (e & -> & _). eauto.
  - done.
Qed.

Lemma log_step evs ev b b' : log_inv evs b → steps ev b b' → log_inv (evs ++ [ev]) b'.
Proof.
  intros [H1 H2 H3] Hs. assert (Hkeep : ∀ n h, settled b !! n = Some h → settled b' !! n = Some h).
  { intros n h Hn. destruct Hs as [[-> _]|(m & h' & Hm & -> & _)]; [done|]. rewrite lookup_insert_ne; [done|congruence]. }
  split.
  - intros n a [Ha|Ha]%elem_of_app; [destruct (H1 n a Ha) as (h & ? & ?); eauto|]. apply list_elem_of_singleton in Ha as <-.
    destruct Hs as [[_ []]|(m & h & _ & E & Hv)]. pose proof Hv as [<- _]. exists h. by rewrite E, lookup_insert_eq.
  - intros n err [Ha|Ha]%elem_of_app; [destruct (H2 n err Ha) as (h & ? & ?); eauto|]. apply list_elem_of_singleton in Ha as <-.
    destruct Hs as [[_ []]|(m & h & _ & E & Hv)]. pose proof Hv as [<- _]. exists h. by rewrite E, lookup_insert_eq.
  - intros n h Hn. destruct Hs as [[E _]|(m & h' & Hm & E & Hv)]; rewrite E in Hn; [by apply cause_snoc, H3|].
    apply lookup_insert_Some in Hn as [[<- <-]|[_ Hn]]; [by apply cause_new|by apply cause_snoc, H3].
Qed.

Lemma kind_run layers evs b : NoDup (concat layers) → boot_run svcs evs (boot_start layers) = Some b → kind_inv b ∧ log_inv evs b.
Proof.
  intros Hnd. revert b. induction evs as [|ev evs IH] using rev_ind; intros b.
  - cbn. intros [= <-]. split; [apply kind_start|]. split; intros n ? Hn; try (by apply elem_of_nil in Hn).
    by destruct layers; cbn in Hn; rewrite lookup_empty in Hn.
  - intros (b1 & H1 & H2)%boot_run_snoc. destruct (IH b1 H1) as [HK HL].
    destruct (run_from_start svcs layers evs b1 H1) as (pre & _ & HF).
    destruct (kind_boot_step b1 (tidy_run layers evs b1 Hnd H1) HK ev b HF H2) as [HK' Hs]. eauto using log_step.
Qed.

(** After a failure nothing is started any more. *)
Definition starts (ev : event) : Prop := match ev with EvOneshot _ _ | EvSpawn _ => True | _ => False end.

Lemma failed_stops layers evs1 evs2 b1 b n : NoDup (concat layers) → boot_run svcs evs1 (boot_start layers) = Some b1 →
  boot_run svcs evs2 b1 = Some b → settled b1 !! n = Some Failed →
  settled b !! n = Some Failed ∧ ∀ ev, ev ∈ evs2 → ¬ starts ev.
Proof.
  intros Hnd. revert evs1 b1. induction evs2 as [|ev evs IH]; intros evs1 b1 H1; cbn.
  { intros [= <-] Hf. split; [done|]. intros ev Hev. by apply elem_of_nil in Hev. }
  destruct (boot_step svcs b1 ev) as [b2|] eqn:E; [|done]. cbn. intros H2 Hf.
  destruct (kind_run layers evs1 b1 Hnd H1) as [HK _]. destruct (run_from_start svcs layers evs1 b1 H1) as (pre & _ & HF).
  destruct (kind_boot_step b1 (tidy_run layers evs1 b1 Hnd H1) HK ev b2 HF E) as [_ Hs].
  assert (Hf2 : settled b2 !! n = Some Failed).
  { destruct Hs as [[-> _]|(m & h & Hm & -> & _)]; [done|]. rewrite lookup_insert_ne; [done|congruence]. }
  destruct (IH (evs1 ++ [ev]) b2) as [Hb Hev]; auto.
  { clear - H1 E. revert H1. generalize (boot_start layers) as b0. induction evs1 as [|e evs1 IH]; intros b0; cbn; [intros [= ->]; by rewrite E|].
    destruct (boot_step svcs b0 e); [|done]. cbn. apply IH. }
  split; [done|]. intros e [->|He]%elem_of_cons; [|auto]. intros Hst.
  assert (Hstage : at_stage b1 = Aborted ∨ (at_stage b1 = Oneshots ∧ fatal b1 = true)).
  { destruct (decide (at_stage b1 = Aborted)) as [?|Hs']; [by left|]. right. apply HF; eauto. }
  unfold boot_step in E. destruct Hstage as [Hs'|[Hs' Hfat]]; rewrite Hs' in E; [by destruct ev, (todo b1)|].
  rewrite (ki_fatal _ HK Hfat) in E. by destruct ev.
Qed.

(** A service starts only after what it is ordered after came up or was passed
    over without failing. *)
Lemma deps_not_failed services layers evs b a n : Order.TopoLayers services = Prelude.Done (Ok layers) →
  boot_run svcs evs (boot_start layers) = Some b → reached b n → Order.edge services a n → settled b !! a ≠ Some Failed.
Proof.
  intros HT HR Hn He Ha. destruct (run_from_start svcs layers evs b HR) as (pre & HI & HF).
  pose proof (BootEffects.layers_nodup _ _ HT) as Hnd. destruct (kind_run layers evs b Hnd HR) as [HK _].
  pose proof (ki_fail b HK a Ha) as Hcur.
  assert (Hb : at_stage b ≠ Booted) by (intros Hb; rewrite (proj2 (bi_booted _ _ _ _ HI Hb)) in Hcur; by apply elem_of_nil in Hcur).
  pose proof (bi_layers _ _ _ _ HI Hb) as HL.
  assert (Hpre : a ∈ concat pre).
  { destruct (bi_reached _ _ _ _ HI n Hn) as [Hp|Hc]; [|by eapply layer_deps].
    destruct (concat_layer pre n Hp) as (p1 & l & p2 & -> & Hl). rewrite concat_app, elem_of_app. left.
    eapply (layer_deps _ _ p1 l); [exact HT| |exact Hl|exact He]. by rewrite HL, <- app_assoc. }
  rewrite HL, concat_app in Hnd. apply NoDup_app in Hnd as (_ & Hd & _). apply (Hd a Hpre). cbn. rewrite elem_of_app. by left.
Qed.

End kinds.

(** ** The instances of a configuration *)

(** The kinds of process, by startup. *)
Definition idle (p : Service.Process) : Prop := Service.pStartup p = "disabled" ∨ Service.pStartup p = "scheduled".
Definition oneshot (p : Service.Process) : Prop := Service.pStartup p = "oneshot".
Definition long_running (p : Service.Process) : Prop := ¬ idle p ∧ ¬ oneshot p.
Definition lenient (p : Service.Process) : Prop := Service.pOnFailure p = "ignore".

Lemma effective_settings d p : let q := effective_process d p in
  Service.pStartup q = Service.pStartup p ∧ Service.pOnFailure q = Service.pOnFailure p ∧
  Service.pExitCodeMap q = Service.pExitCodeMap p ∧ Service.pStartupTimeout q = Service.pStartupTimeout p.
Proof. cbv zeta. unfold effective_process. cbv zeta. repeat case_match; split_and!; reflexivity. Qed.

Lemma action_ignore a : Service.action_of Service.ActionShutdown a = Service.ActionIgnore ↔ a = "ignore".
Proof.
  unfold Service.action_of. split; [|by intros ->]. cbn. repeat case_decide; subst; cbn; try done.
Qed.

(** The instance of a process is of the kind its settings say. *)
Lemma built_kind d svcs p s : DaemonReload.built d p s → svcs !! Service.process_name p = Some s →
  (is_oneshot svcs (Service.process_name p) = true → oneshot p) ∧ (is_service svcs (Service.process_name p) = true → long_running p) ∧
  (is_oneshot svcs (Service.process_name p) = false ∧ is_service svcs (Service.process_name p) = false → idle p) ∧
  ∀ a h, exit_verdict (lenient_svc s) (Service.Proc s) a h ↔ exit_verdict (lenient p) p a h.
Proof.
  intros Hb Hs. destruct (DaemonReload.built_facts d p s Hb) as (_ & _ & Hp). destruct Hb as (s0 & Hn & ->).
  apply ReloadSpec.New_startup in Hn as (H1 & H2 & H3 & H4). destruct (effective_settings d p) as (E1 & E2 & E3 & E4).
  rewrite E1 in H1, H2, H3. rewrite E2 in H4. unfold is_oneshot, is_service. rewrite Hs.
  change (Service.Enabled _) with (Service.Enabled s0). change (Service.Oneshot _) with (Service.Oneshot s0).
  change (Service.Scheduled _) with (Service.Scheduled s0). rewrite H1, H2, H3. unfold oneshot, long_running, idle, oneshot.
  split_and!.
  - intros [_ ?%bool_decide_eq_true]%andb_true_iff. done.
  - rewrite !andb_true_iff, !negb_true_iff, !bool_decide_eq_false. tauto.
  - rewrite !andb_false_iff, !negb_false_iff, !bool_decide_eq_true, bool_decide_eq_false. tauto.
  - intros a h. symmetry. apply exit_verdict_ext; rewrite ?Hp, ?E3, ?E4; try done. unfold lenient_svc, lenient. cbn. rewrite H4.
    symmetry. apply action_ignore.
Qed.

(** ** A boot of a configuration *)

Section bringup.
Context (env : gmap string string) (fs : Launch.files) (euid : Z).
Context (open_file : string → bool → Templates.open_result) (ws : nat → Config.walk).
Context (dial : string → option Z) (k : ControlSocket.calls) (at_path : ControlSocket.node).

Lemma bring_up_built cfg socket startOrd layers args cfg' socket' layers' d serving :
  Order.TopoSort (buildOrderServices (ConfigTheorems.daemon_config cfg)) = Done (Ok startOrd) →
  Startup.bring_up k at_path cfg socket startOrd layers args = Startup.Up cfg' socket' layers' d serving →
  cfg' = cfg ∧ layers' = layers ∧
  ∀ p, p ∈ Config.Processes cfg → ∃ d0 s, DaemonReload.built d0 p s ∧ instances d !! Service.process_name p = Some s.
Proof.
  intros Ho. unfold Startup.bring_up. set (d0 := set_shutdownMode _ _). destruct (buildServices d0) as [[e|] d1] eqn:Eb; [done|].
  intros H. assert (Hd : cfg' = cfg ∧ layers' = layers ∧ d = d1).
  { destruct (Startup.start_control _ _ _ _) as [e|]; [destruct (ControlSocket.is_held e); [done|]|]; by injection H. }
  destruct Hd as (-> & -> & ->). split_and!; [done..|]. intros p Hp.
  assert (Hnd : NoDup (Service.process_name <$> Config.Processes cfg)).
  { apply Order.toposort_order in Ho as (Hnd & _). unfold buildOrderServices in Hnd. by rewrite <- list_fmap_compose in Hnd. }
  unfold buildServices in Eb. destruct (DaemonReload.build_loop_spec (Config.Processes cfg) (set_services ∅ d0)) as (_ & _ & Hbuilt);
    [by change (Config.Processes cfg) with (Processes (DaemonState.cfg d0)); rewrite Eb|exact Hnd|].
  destruct (Hbuilt p Hp) as (id & s & Hs & _ & Hh & Hb). change (Config.Processes cfg) with (Processes (DaemonState.cfg d0)) in Hs, Hh.
  rewrite Eb in Hs, Hh. cbn [snd] in Hs, Hh. exists (set_services ∅ d0), s. split; [done|]. unfold instances. rewrite lookup_fmap, Hs. cbn. by rewrite (get_lookup _ _ _ Hh).
Qed.

Lemma up_built args cfg socket layers d serving :
  Startup.run env fs euid open_file ws dial k at_path args = Startup.Up cfg socket layers d serving →
  Order.TopoLayers (buildOrderServices (ConfigTheorems.daemon_config cfg)) = Done (Ok layers) ∧
  ∀ p, p ∈ Config.Processes cfg → ∃ d0 s, DaemonReload.built d0 p s ∧ instances d !! Service.process_name p = Some s.
Proof.
  unfold Startup.run. destruct (Launch.readConfigFile _ _ _) as [data|]; [|done].
  destruct (Config.Unmarshal _ _ _ _) as [[cfg0 warned]| |]; [|done..]. cbv zeta. destruct (ControlSocket.IsAlive _ _); [done|].
  destruct (1 <? _); [done|]. intros H.
  destruct (Startup.order_verdict k at_path cfg0 (Startup.socket_path env cfg0) args) as [(e & He & _)|(startOrd & ls & Ho & Hy & He)]; [congruence|].
  rewrite He in H. by destruct (bring_up_built _ _ _ _ _ _ _ _ _ _ Ho H) as (-> & -> & ?).
Qed.

(** The end of a oneshot that is not forgiven, or a start that failed. *)
Definition failing (cfg : Config.Config) (ev : event) : Prop :=
  ∃ p, p ∈ Config.Processes cfg ∧
    ((∃ a, ev = EvExit (Service.process_name p) a ∧ exit_verdict (lenient p) p a Failed) ∨
     ∃ err, ev = EvStarted (Service.process_name p) err ∧ start_verdict err Failed).

(** What the events of a boot have made of the processes. *)
Record boot_account (cfg : Config.Config) (evs : list event) (b : boot) : Prop := {
  (* a oneshot that ended is settled by its status, its exit-code-map and on-failure *)
  ba_exit : ∀ p a, p ∈ Config.Processes cfg → EvExit (Service.process_name p) a ∈ evs →
    oneshot p ∧ ∃ h, settled b !! Service.process_name p = Some h ∧ exit_verdict (lenient p) p a h;
  (* a service whose start returned is settled by what it returned *)
  ba_start : ∀ p err, p ∈ Config.Processes cfg → EvStarted (Service.process_name p) err ∈ evs →
    long_running p ∧ ∃ h, settled b !! Service.process_name p = Some h ∧ start_verdict err h;
  (* nothing is settled without a cause *)
  ba_cause : ∀ p h, p ∈ Config.Processes cfg → settled b !! Service.process_name p = Some h →
    cause (idle p) (oneshot p) (long_running p) evs (Service.process_name p) h;
  (* a failure is never passed *)
  ba_fail : ∀ evs1 ev evs2, evs = evs1 ++ ev :: evs2 → failing cfg ev → at_stage b ≠ Booted ∧ ∀ e, e ∈ evs2 → ¬ starts e;
}.

Lemma boot_accounted cfg d layers evs b : Order.TopoLayers (buildOrderServices (ConfigTheorems.daemon_config cfg)) = Done (Ok layers) →
  (∀ p, p ∈ Config.Processes cfg → ∃ d0 s, DaemonReload.built d0 p s ∧ instances d !! Service.process_name p = Some s) →
  boot_run (instances d) evs (boot_start layers) = Some b → boot_account cfg evs b.
Proof.
  intros HT Hb HR. pose proof (BootEffects.layers_nodup _ _ HT) as Hnd.
  assert (Hexit : ∀ evs b p a, boot_run (instances d) evs (boot_start layers) = Some b → p ∈ Config.Processes cfg →
    EvExit (Service.process_name p) a ∈ evs → oneshot p ∧ ∃ h, settled b !! Service.process_name p = Some h ∧ exit_verdict (lenient p) p a h).
  { clear evs b HR. intros evs b p a HR Hp Ha. destruct (kind_run _ layers evs b Hnd HR) as [_ HL]. destruct (Hb p Hp) as (d0 & s & Hbt & Hs).
    destruct (built_kind d0 _ p s Hbt Hs) as (K1 & _ & _ & K4). destruct (lg_exit _ _ _ HL _ a Ha) as (h & Hh & _ & Ho & s' & Hs' & Hv).
    rewrite Hs in Hs'. injection Hs' as <-. split; [auto|]. exists h. split; [done|by apply K4]. }
  assert (Hstart : ∀ evs b p err, boot_run (instances d) evs (boot_start layers) = Some b → p ∈ Config.Processes cfg →
    EvStarted (Service.process_name p) err ∈ evs → long_running p ∧ ∃ h, settled b !! Service.process_name p = Some h ∧ start_verdict err h).
  { clear evs b HR. intros evs b p err HR Hp Ha. destruct (kind_run _ layers evs b Hnd HR) as [_ HL]. destruct (Hb p Hp) as (d0 & s & Hbt & Hs).
    destruct (built_kind d0 _ p s Hbt Hs) as (_ & K2 & _). destruct (lg_start _ _ _ HL _ err Ha) as (h & Hh & _ & Ho & Hv). split; [auto|]. eauto. }
  split; [eauto..| |].
  - intros p h Hp Hh. destruct (kind_run _ layers evs b Hnd HR) as [_ HL]. destruct (Hb p Hp) as (d0 & s & Hbt & Hs).
    destruct (built_kind d0 _ p s Hbt Hs) as (K1 & K2 & K3 & _). pose proof (lg_how _ _ _ HL _ _ Hh) as Hc.
    destruct h; cbn in Hc |- *; try done; [|by destruct Hc; auto]. destruct Hc as [?|[[? ?]|?]]; auto.
  - intros evs1 ev evs2 -> (p & Hp & Hf). pose proof HR as HR0. rewrite cons_middle, app_assoc in HR. apply boot_run_app in HR as (b1 & H1 & H2).
    assert (Hfail : settled b1 !! Service.process_name p = Some Failed).
    { assert (Hev : ev ∈ evs1 ++ [ev]) by (rewrite elem_of_app; right; left).
      destruct Hf as [(a & -> & Hv)|(err & -> & Hv)].
      - destruct (Hexit _ _ _ _ H1 Hp Hev) as (_ & h & Hh & Hv'). by rewrite (failed_only _ _ _ _ Hv Hv') in Hh.
      - destruct (Hstart _ _ _ _ H1 Hp Hev) as (_ & h & Hh & Hv'). by rewrite (not_started_only _ _ Hv Hv') in Hh. }
    destruct (failed_stops _ _ _ _ _ _ _ Hnd H1 H2 Hfail) as [Hn He]. split; [|done]. intros Hbt.
    destruct (run_from_start _ layers _ b HR0) as (_ & _ & HF). destruct HF as [? _]; [congruence|eauto|congruence].
Qed.

(** C12: what a configuration means for the boot.  Once start-up has come up with
    the instances and layers of a configuration, then at every moment of the
    boot that follows, in whatever order processes end and gates open: a process
    is started (or passed over) only when every process it is configured to come
    after ([after], [requires], or the other's [before]) has settled without
    failing.  A oneshot that ended has completed exactly when its status, read
    through its exit-code-map, is 0; with another status it failed, unless
    on-failure is ignore; it failed also when the wait did, its time was up or
    its startup-timeout cannot be read.  A long-running service is up, already
    up, skipped or failed as its start returned; nothing else is settled, but
    disabled and scheduled processes and those whose conditions are unmet, which
    are skipped, and services found running.  A failure is never passed: after
    it nothing more is started and the boot does not succeed.  The boot takes at
    most four events per process and two per layer, can always go on until it is
    over, and when it ends normally every configured process has settled without
    failing. *)
Theorem configured_boot (args : list string) (cfg : Config.Config) (socket : string) (layers : list (list string)) (d : daemon)
    (serving : bool) (evs : list event) (b : boot) :
  Startup.run env fs euid open_file ws dial k at_path args = Startup.Up cfg socket layers d serving →
  boot_run (instances d) evs (boot_start layers) = Some b →
  (∀ p q, p ∈ Config.Processes cfg → q ∈ Config.Processes cfg → ReloadSpec.comes_after p q → reached b (Service.process_name p) →
     ∃ h, settled b !! Service.process_name q = Some h ∧ h ≠ Failed) ∧
  boot_account cfg evs b ∧
  length evs ≤ 4 * length (Config.Processes cfg) + 2 * length layers ∧ (final b ∨ goes_on (instances d) b) ∧
  (at_stage b = Booted → ∀ p, p ∈ Config.Processes cfg → ∃ h, settled b !! Service.process_name p = Some h ∧ h ≠ Failed).
Proof.
  intros HU HR. destruct (up_built _ _ _ _ _ _ HU) as [HT Hb]. set (c := ConfigTheorems.daemon_config cfg) in *.
  destruct (boot_order _ _ _ _ _ HT HR) as (H1 & H2 & H3). destruct (boot_ends _ _ _ _ _ HT HR) as [H4 H5].
  split_and!; [|by eapply boot_accounted| |done|].
  - intros p q Hp Hq Ho Hr. pose proof (ReloadSpec.comes_edge c p q Hp Hq Ho) as He. destruct (H1 _ _ Hr He) as [h Hh]. exists h. split; [done|].
    intros ->. by eapply deps_not_failed.
  - unfold buildOrderServices in H4. by rewrite length_fmap in H4.
  - intros Hbt p Hp. apply (H3 Hbt). unfold buildOrderServices. rewrite <- list_fmap_compose. by apply list_elem_of_fmap_2 with (f := Service.process_name).
Qed.

End bringup.

(** ** An example *)

Definition demo_boot (evs : list event) : option boot :=
  match Startup.demo_run with
  | Startup.Up _ _ layers d _ => boot_run (instances d) evs (boot_start layers)
  | _ => None
  end.

Definition demo_boot_events : list event :=
  [EvOneshot false true; EvOneshot false true; EvNext; EvSpawn false; EvSpawn false; EvStarted "db" None; EvNext;
   EvOneshot false true; EvNext; EvSpawn false].

Definition demo_shape : bool :=
  match Startup.demo_run with
  | Startup.Up c _ layers d _ =>
      match Config.Processes c with
      | q :: p :: _ => bool_decide (Service.process_name q = "db") && bool_decide (Service.process_name p = "/bin/proxy") &&
                       bool_decide ("db" ∈ Service.pAfter p)
      | _ => false
      end
  | _ => false
  end.

Example demo_boot_ex : (λ b, (map_to_list (settled b), waiting b, at_stage b)) <$> demo_boot demo_boot_events =
  Some ([("nightly", Skipped); ("db", Ready)], ["/bin/proxy"], Services).
Proof. vm_compute. reflexivity. Qed.

(** The proxy is being started, so what it comes after has settled. *)
Lemma configured_boot_witness : ∃ cfg socket layers d serving b,
  Startup.demo_run = Startup.Up cfg socket layers d serving ∧ boot_run (instances d) demo_boot_events (boot_start layers) = Some b ∧
  waiting b = ["/bin/proxy"] ∧ ∃ h, settled b !! "db" = Some h ∧ h ≠ Failed.
Proof.
  pose proof (configured_boot ConfigTheorems.demo_env Startup.demo_fs 0 ConfigTheorems.no_files (λ _, ConfigTheorems.map_walk) (λ _, None)
    Startup.demo_calls (ControlSocket.Sock ControlSocket.Theirs 0) []) as H. fold Startup.demo_run in H.
  assert (Hs : demo_shape = true) by (vm_compute; reflexivity). unfold demo_shape in Hs.
  assert (Hb : waiting <$> demo_boot demo_boot_events = Some ["/bin/proxy"]) by (vm_compute; reflexivity). unfold demo_boot in Hb.
  destruct Startup.demo_run as [| |cfg socket layers d serving|]; try discriminate Hs.
  destruct (boot_run (instances d) demo_boot_events (boot_start layers)) as [b|] eqn:Er; [|discriminate Hb]. injection Hb as Hw.
  exists cfg, socket, layers, d, serving, b. split_and!; [reflexivity|exact Er|exact Hw|].
  destruct (H _ _ _ _ _ _ _ eq_refl Er) as (Ho & _). destruct (Config.Processes cfg) as [|q [|p ps]]; try discriminate Hs.
  apply andb_true_iff in Hs as [[Hq%bool_decide_eq_true Hp%bool_decide_eq_true]%andb_true_iff Ha%bool_decide_eq_true].
  rewrite <- Hq in Ha |- *. apply (Ho p q); [right; left|left|by left|]. left. rewrite Hw, Hp. left.
Defined.

End Bringup.
