(* ===== verification/Platform.v ===== *)
(** * Calls that depend on the platform: src/control/peer_linux.go, src/service/prctl_linux.go, src/internal/sdnotify/cred_linux.go and their stubs

    Each file has a twin for other systems.  What the kernel answers is an
    argument; the models say what the code makes of it, and the theorems what
    the callers (the control server and its clients, [run], the sd_notify
    listener, the limits of the host) can rely on. *)

From S2P Require Import Prelude GoStrings Control ControlSocket HostLimits SdNotify Config.

Open Scope string_scope.
Open Scope list_scope.
Open Scope Z_scope.

Module Platform.

(** The system a file was built for. *)
Inductive os := Linux | OtherOS.

(** ** Who is at the other end: [peerUID] *)

(** What the calls on a connection answer; [ucred] is the uid of the peer, an
    unsigned number of 32 bits. *)
Record conn := mkConn {
  unixConn : bool;
  syscallConn : bool;
  controlled : bool;
  ucred : option Z;
}.

Definition peerUID (o : os) (c : conn) : Z :=
  match o with
  | OtherOS => -1
  | Linux =>
      if negb (unixConn c) then -1
      else if negb (syscallConn c) then -1
      else match (if controlled c then ucred c else None) with None => -1 | Some uid => uid end
  end.

(** The credentials of the peer, when they can be had. *)
Definition peer_known (o : os) (c : conn) : option Z :=
  match o with
  | OtherOS => None
  | Linux => if unixConn c && syscallConn c && controlled c then ucred c else None
  end.

Definition uid_ok (c : conn) : Prop := match ucred c with Some uid => 0 ≤ uid < 2 ^ 32 | None => True end.

Lemma peerUID_known o c : peerUID o c = default (-1) (peer_known o c).
Proof. destruct o; [|done]. unfold peerUID, peer_known. by destruct (unixConn c), (syscallConn c), (controlled c). Qed.

(** Trust is decided by the credentials when they are known: no uid passes for
    the -1 of unknown ones. *)
Lemma peer_trust o c euid : uid_ok c →
  Control.peerTrusted (peerUID o c) euid = match peer_known o c with Some uid => (uid =? 0) || (uid =? euid) | None => true end.
Proof.
  intros Hu. rewrite peerUID_known. destruct (peer_known o c) as [uid|] eqn:E; [|done]. cbn [default]. unfold Control.peerTrusted.
  assert (0 ≤ uid).
  { unfold peer_known in E. destruct o; [|done]. case_match; [|done]. unfold uid_ok in Hu. rewrite E in Hu. lia. }
  unfold id. by rewrite (proj2 (Z.eqb_neq uid (-1))) by lia.
Qed.

(** A connection of a user who is neither root nor the daemon's own changes
    nothing and is shown nothing but the refusal, whatever it sends; and a
    client takes no other user's listener for a running daemon. *)
Theorem stranger_refused {S : Type} (cs : Control.Server S) (c : conn) (uid euid : Z) (data : string) (slot : bool)
    (evs : list Control.stream_event) (st : S) :
  uid_ok c → peer_known Linux c = Some uid → uid ≠ 0 → uid ≠ euid →
  (Control.handleConn cs data (peerUID Linux c) euid slot evs st).2 = st ∧
  ((Control.handleConn cs data (peerUID Linux c) euid slot evs st).1 = Control.Nothing ∨
   (Control.handleConn cs data (peerUID Linux c) euid slot evs st).1 = Control.Answer (Control.Failed Control.EPermissionDenied)) ∧
  ControlSocket.IsAlive euid (Some (peerUID Linux c)) = false.
Proof.
  intros Hu Hk H0 He. pose proof (peer_trust Linux c euid Hu) as Ht. rewrite Hk in Ht.
  rewrite (proj2 (Z.eqb_neq _ _) H0), (proj2 (Z.eqb_neq _ _) He) in Ht. cbn [orb] in Ht. split_and!; [..|exact Ht];
    unfold Control.handleConn; rewrite Ht; (destruct (Control.scan_line data) as [text|]; [|by auto]); cbv zeta; case_bool_decide; cbn; auto.
Qed.

(** On Linux too a peer whose credentials cannot be had is trusted. *)
Example unknown_peer_trusted : Control.peerTrusted (peerUID Linux (mkConn true true true None)) 1000 = true.
Proof. reflexivity. Qed.

(** ** The child subreaper *)

Definition prSetChildSubreaper : Z := 36.

Inductive prctl_err := ErrPrctl (errno : Z) | ErrUnsupported.

(** [prctl] answers with an errno, 0 on success. *)
Definition SetChildSubreaper (o : os) (prctl : Z → Z → Z) : option prctl_err :=
  match o with
  | OtherOS => Some ErrUnsupported
  | Linux => let errno := prctl prSetChildSubreaper 1 in if errno =? 0 then None else Some (ErrPrctl errno)
  end.

Inductive subreaper_log := SubreaperOff | SubreaperWarning (e : prctl_err) | SubreaperEnabled.

(** The part of [run] that asks for it: never an error. *)
Definition run_subreaper (o : os) (prctl : Z → Z → Z) (cfg : Config.Config) : subreaper_log :=
  if Config.Subreaper cfg then
    match SetChildSubreaper o prctl with Some e => SubreaperWarning e | None => SubreaperEnabled end
  else SubreaperOff.

(** What is announced is true: the process is the reaper of its orphans exactly
    when the configuration asks for it and the kernel agreed. *)
Lemma subreaper_announced o prctl cfg :
  run_subreaper o prctl cfg = SubreaperEnabled ↔ Config.Subreaper cfg = true ∧ o = Linux ∧ prctl prSetChildSubreaper 1 = 0.
Proof.
  unfold run_subreaper, SetChildSubreaper. destruct (Config.Subreaper cfg), o; cbn; try naive_solver.
  destruct (Z.eqb_spec (prctl prSetChildSubreaper 1) 0); naive_solver.
Qed.

Definition setPdeathsig (o : os) (sig : Z) (attr : option Z) : option Z :=
  match o with Linux => Some sig | OtherOS => attr end.

(** ** The socket of an sd_notify listener *)

Definition credEnabled (o : os) : bool := match o with Linux => true | OtherOS => false end.

Record sock_calls := mkSockCalls {
  bound : bool;
  rawConn : bool;
  rawControl : bool;
  setsockopt : bool;
}.

Definition enablePassCred (o : os) (k : sock_calls) : bool :=
  match o with
  | OtherOS => true
  | Linux => if negb (rawConn k) then false else if negb (rawControl k) then false else setsockopt k
  end.

Inductive listen_err := ErrListen (name : string) | ErrPassCred (name : string).

(** A socket: its name and whether the kernel adds the sender's credentials. *)
Definition socket : Type := string * bool.

(** [Listen]; [socks] are the open sockets. *)
Definition Listen (o : os) (k : sock_calls) (name : string) (pid uid : Z) (nonce : string) (socks : list socket)
    : result listen_err (SdNotify.Listener * string) * list socket :=
  let path := SdNotify.notify_path pid name nonce in
  if negb (bound k) then (Err (ErrListen name), socks)
  else if negb (enablePassCred o k) then (Err (ErrPassCred name), socks)
  else (Ok (SdNotify.Listen uid, path), (path, credEnabled o) :: socks).

(** A listener that cannot tell its senders apart where the system could is
    never made, and a failed attempt leaves no socket open.  So on Linux every
    record that counts was sent by the service's uid or by root. *)
Lemma listen_guarded o k name pid uid nonce socks : let r := Listen o k name pid uid nonce socks in
  match r.1 with
  | Err _ => r.2 = socks
  | Ok (n, path) => r.2 = (path, credEnabled o) :: socks ∧ path = SdNotify.notify_path pid name nonce ∧
      (o = Linux → setsockopt k = true) ∧
      (o = Linux → ∀ oob data, SdNotify.step (credEnabled o) n (SdNotify.Datagram oob data) ≠ n →
         SdNotify.parseSenderUID oob = Some uid ∨ SdNotify.parseSenderUID oob = Some 0)
  end.
Proof.
  cbv zeta. unfold Listen. destruct (bound k); [|done]. cbn [negb]. destruct (enablePassCred o k) eqn:E; [|done]. cbn [negb fst snd].
  split_and!; [done..| |].
  - intros ->. unfold enablePassCred in E. by destruct (rawConn k), (rawControl k).
  - intros -> oob data Hn. cbn in Hn. destruct (SdNotify.parseSenderUID oob) as [u|] eqn:Eu; cbn in Hn; [|done].
    destruct (Z.eqb_spec u uid) as [->|]; [by left|]. destruct (Z.eqb_spec u 0) as [->|]; [by right|done].
Qed.

(** ** What the host has, asked once *)

Definition cpu_Available (cache : option Z) (h : HostLimits.host) : Z * option Z :=
  HostLimits.Available cache (HostLimits.cpu_available h).

Definition mem_Available (cache : option (result HostLimits.mem_err Z)) (h : HostLimits.host)
    : result HostLimits.mem_err Z * option (result HostLimits.mem_err Z) :=
  HostLimits.Available cache (HostLimits.mem_available h).

(** The answers of a series of calls, the host changing in between. *)
Fixpoint answers {A} (available : option A → HostLimits.host → A * option A) (cache : option A) (hosts : list HostLimits.host) : list A :=
  match hosts with
  | [] => []
  | h :: hosts => let r := available cache h in r.1 :: answers available r.2 hosts
  end.

(** Every call repeats the first one's answer, an error included, so all the
    expressions of a configuration and of its reloads see one host. *)
Lemma answers_repeat h hosts :
  answers cpu_Available None (h :: hosts) = replicate (S (length hosts)) (HostLimits.cpu_available h) ∧
  answers mem_Available None (h :: hosts) = replicate (S (length hosts)) (HostLimits.mem_available h).
Proof.
  assert (H : ∀ A (f : HostLimits.host → A) v hs, answers (λ c h, HostLimits.Available c (f h)) (Some v) hs = replicate (length hs) v).
  { intros A f v hs. induction hs as [|h' hs IH]; [done|]. cbn. by rewrite IH. }
  split; cbn; f_equal; apply H.
Qed.

End Platform.
