(* ===== verification/Doctest.v ===== *)
(** * The harness of the end-to-end tests: src/internal/doctest/doctest.go

    Finding the module, a private directory to build into, builds that several
    test processes run at once, the one build of a test process, the
    configuration a daemon is started with, waiting for it, and ending it.  The
    file system, the compiler and the child process answer through arguments. *)

From stdpp Require Import sorting.
From S2P Require Import Prelude GoStrings GoPath Order Daemon HostLimits Version Control ControlSocket ControlClient Templates Config Target Launch Startup.

Open Scope string_scope.
Open Scope list_scope.
Open Scope nat_scope.

Module Doctest.
Import GoPath.

(** ** The module root *)

(** [exists_at]: [os.Stat] succeeds; the error names the directory it ended at. *)
Fixpoint find_root (exists_at : string → bool) (fuel : nat) (dir : string) : option (result string string) :=
  match fuel with
  | O => None
  | S fuel =>
      if exists_at (join2 dir "go.mod") then Some (Ok dir)
      else
        let parent := Dir dir in
        if bool_decide (parent = dir) then Some (Err dir) else find_root exists_at fuel parent
  end.

Definition findRepoRoot (exists_at : string → bool) (dir : string) : option (result string string) :=
  find_root exists_at (S (length (components true dir))) dir.

Lemma abs_snoc_ne cs c : clean_list true (cs ++ [c]) → abs cs ≠ abs (cs ++ [c]).
Proof.
  intros H E. pose proof (components_render true _ H) as H2. pose proof (components_render true _ (clean_prefix _ _ _ H)) as H1.
  unfold abs in E. rewrite E, H2 in H1. apply (f_equal length) in H1. rewrite length_app in H1. cbn in H1. lia.
Qed.

(** From an absolute directory, as [os.Getwd] gives it, the walk ends, at the
    nearest directory above it with a go.mod. *)
Lemma findRepoRoot_nearest exists_at cs : clean_list true cs →
  findRepoRoot exists_at (abs cs) =
    Some (match List.find (λ d, exists_at (join2 d "go.mod")) (abs <$> HostLimits.up cs) with Some d => Ok d | None => Err "/" end).
Proof.
  intros Hcl. unfold findRepoRoot. unfold abs at 1. rewrite components_render by done. revert Hcl.
  induction cs as [|c cs IH] using rev_ind; intros Hcl.
  { cbn [length find_root]. change (abs <$> HostLimits.up []) with [abs []]. cbn [List.find]. destruct (exists_at _); [done|]. by rewrite bool_decide_true. }
  rewrite HostLimits.up_snoc, fmap_cons. rewrite length_app, Nat.add_comm. cbn [length Nat.add find_root List.find].
  destruct (exists_at _); [done|]. assert (Dir (abs (cs ++ [c])) = abs cs) as -> by (by apply Dir_clean). cbv zeta.
  rewrite bool_decide_false by (by apply abs_snoc_ne). apply IH. by eapply clean_prefix.
Qed.

(** ** The build directory *)

(** What is at the path: nothing, a directory with its owner and permission
    bits, or something else (a link, a file). *)
Inductive node := Missing | Directory (owner perm : Z) | Other.

Inductive dir_err := ErrMkdir | ErrLstat | ErrNotPrivate.

(** [hash] is the hexadecimal of the first eight bytes of SHA-256, [resolve] is
    [filepath.EvalSymlinks]. *)
Definition buildDirName (hash : string → string) (resolve : string → option string) (tmp : string) (uid : Z) (root : string) : string :=
  join2 tmp ("gopherd-doctest-" +:+ fmt_d uid +:+ "-" +:+ hash (default root (resolve root))).

(** [Mkdir] with mode 0700; an existing path fails, and so may a missing one. *)
Definition mkdir (euid umask : Z) (can : bool) (n : node) : option bool * node :=
  match n with
  | Missing => if can then (None, Directory euid (Z.ldiff 0x1c0 umask)) else (Some false, n)
  | _ => (Some true, n)
  end.

(** [gap]: what others do to the path between the two calls. *)
Definition buildDir (euid umask : Z) (can : bool) (gap : node → node) (n : node) : result dir_err unit * node :=
  match mkdir euid umask can n with
  | (None, n) => (Ok (), n)
  | (Some false, n) => (Err ErrMkdir, n)
  | (Some true, n) =>
      let n := gap n in
      match n with
      | Missing => (Err ErrLstat, n)
      | Other => (Err ErrNotPrivate, n)
      | Directory owner perm =>
          if negb (owner =? euid)%Z || negb (Z.land perm 0x3f =? 0)%Z then (Err ErrNotPrivate, n) else (Ok (), n)
      end
  end.

Lemma perm_private umask : Z.land (Z.ldiff 0x1c0 umask) 0x3f = 0%Z.
Proof. by rewrite Z.ldiff_land, <- Z.land_assoc, (Z.land_comm (Z.lnot umask)), Z.land_assoc. Qed.

(** The directory that is used is a real one, ours, and nobody else can write
    in it, whatever was at the path before and whatever others do meanwhile. *)
Lemma buildDir_private euid umask can gap n n' : buildDir euid umask can gap n = (Ok (), n') →
  ∃ perm, n' = Directory euid perm ∧ Z.land perm 0x3f = 0%Z.
Proof.
  unfold buildDir, mkdir. intros H. destruct n; [destruct can|..].
  1: { injection H as <-. eexists. split; [done|]. exact (perm_private umask). }
  1: done.
  all: destruct (gap _) as [|o p|]; try done; cbn [orb] in H.
  all: destruct (Z.eqb_spec o euid) as [->|]; [|done]; destruct (Z.eqb_spec (Z.land p 63) 0); [|done]; injection H as <-; eauto.
Qed.

Example other_users_dir : (buildDir 1000 0x12 true id (Directory 1001 0x1c0)).1 = Err ErrNotPrivate ∧
  (buildDir 1000 0x12 true id Other).1 = Err ErrNotPrivate ∧ (buildDir 1000 0x12 true id (Directory 1000 0x1ed)).1 = Err ErrNotPrivate.
Proof. repeat split. Qed.

(** ** Builds that run at once *)

Inductive phase :=
  | Waiting
  | Building (tmp : string)
  | Compiled (tmp : string)
  | Ended (ok : bool).

Definition temp_of (ph : phase) : option string := match ph with Building tmp | Compiled tmp => Some tmp | _ => None end.

(** One call of [buildTo] each: the name of the artifact and what the compiler
    makes of the tree. *)
Definition jobs : Type := list (string * string).

Record builds := mkBuilds { files : gmap string string; phases : list phase }.

(** [CreateTemp] with the digits it draws (it draws again when the name is
    taken), the compiler writing, its end, and [Rename]. *)
Inductive build_event :=
  | ETemp (digits : option string)
  | EWrite (part : string)
  | ECompile (ok : bool)
  | ERename (ok : bool).

Definition temp_name (name digits : string) : string := name +:+ "-" +:+ digits.

Definition build_to (name out : string) (fs : gmap string string) (ph : phase) (ev : build_event) : option (gmap string string * phase) :=
  match ph, ev with
  | Waiting, ETemp None => Some (fs, Ended false)
  | Waiting, ETemp (Some digits) =>
      let tmp := temp_name name digits in
      if str_all is_digit digits && bool_decide (fs !! tmp = None) then Some (<[tmp := ""]> fs, Building tmp) else None
  | Building tmp, EWrite part => Some (<[tmp := part]> fs, ph)
  | Building tmp, ECompile true => Some (<[tmp := out]> fs, Compiled tmp)
  | Building tmp, ECompile false => Some (delete tmp fs, Ended false)
  | Compiled tmp, ERename true => content ← fs !! tmp; Some (<[name := content]> (delete tmp fs), Ended true)
  | Compiled tmp, ERename false => Some (delete tmp fs, Ended false)
  | _, _ => None
  end.

Section builds.
Context (js : jobs) (fs0 : gmap string string).

Definition build_step (s : builds) (e : nat * build_event) : option builds :=
  job ← js !! e.1; ph ← phases s !! e.1;
  r ← build_to job.1 job.2 (files s) ph e.2;
  Some (mkBuilds r.1 (<[e.1 := r.2]> (phases s))).

Definition build_run (es : list (nat * build_event)) (s : builds) : option builds :=
  foldl (λ s e, s ≫= λ s, build_step s e) (Some s) es.

Definition build_start : builds := mkBuilds fs0 (replicate (length js) Waiting).

Definition names : list string := fst <$> js.

(** No temporary name is the name of an artifact. *)
Definition unclashing : Prop := ∀ n digits, n ∈ names → str_all is_digit digits = true → temp_name n digits ∉ names.

(** A whole artifact: one that was there, or what some build made. *)
Definition whole (n c : string) : Prop := fs0 !! n = Some c ∨ (n, c) ∈ js.

Record build_inv (s : builds) : Prop := {
  b_len : length (phases s) = length js;
  b_whole : ∀ n c, n ∈ names → files s !! n = Some c → whole n c;
  b_temp : ∀ i ph tmp, phases s !! i = Some ph → temp_of ph = Some tmp → (tmp ∉ names) ∧ is_Some (files s !! tmp);
  b_done : ∀ i tmp job, phases s !! i = Some (Compiled tmp) → js !! i = Some job → files s !! tmp = Some job.2;
  b_apart : ∀ i j ph ph' tmp, phases s !! i = Some ph → phases s !! j = Some ph' → temp_of ph = Some tmp → temp_of ph' = Some tmp → i = j;
  b_left : ∀ n, is_Some (files s !! n) → is_Some (fs0 !! n) ∨ n ∈ names ∨ ∃ i ph, phases s !! i = Some ph ∧ temp_of ph = Some n;
  b_there : ∀ i job, phases s !! i = Some (Ended true) → js !! i = Some job → is_Some (files s !! job.1);
}.

Lemma build_start_inv : build_inv build_start.
Proof.
  split; cbn.
  - by rewrite length_replicate.
  - intros n c _ H. by left.
  - by intros i ph tmp [-> _]%lookup_replicate.
  - by intros i tmp job [? _]%lookup_replicate.
  - by intros i j ph ph' tmp [-> _]%lookup_replicate.
  - by left.
  - by intros i job [? _]%lookup_replicate.
Qed.

Lemma phase_cases s i ph' j ph : i < length (phases s) → <[i := ph']> (phases s) !! j = Some ph → (j = i ∧ ph = ph') ∨ (j ≠ i ∧ phases s !! j = Some ph).
Proof.
  intros Hi. destruct (decide (j = i)) as [->|]; [rewrite list_lookup_insert_eq by done; intros [= <-]; by left|].
  rewrite list_lookup_insert_ne by done. by right.
Qed.

(** The temporary file of [i] is made or written. *)
Lemma inv_write s i ph ph' tmp c job : build_inv s → phases s !! i = Some ph → js !! i = Some job → tmp ∉ names →
  temp_of ph = Some tmp ∨ (temp_of ph = None ∧ files s !! tmp = None) → temp_of ph' = Some tmp → (ph' = Compiled tmp → c = job.2) →
  build_inv (mkBuilds (<[tmp := c]> (files s)) (<[i := ph']> (phases s))).
Proof.
  intros [H1 H2 H3 H4 H5 H6 H7] Hph Hj Hn Hold Hnew Hc. pose proof (lookup_lt_Some _ _ _ Hph) as Hi.
  assert (Hother : ∀ j phj, j ≠ i → phases s !! j = Some phj → temp_of phj ≠ Some tmp).
  { intros j phj Hji Hp Ht. destruct Hold as [Ho|[_ Ho]]; [by apply Hji, (H5 j i phj ph tmp)|]. destruct (H3 j phj tmp Hp Ht) as [_ [? ?]]. congruence. }
  split; cbn [files phases].
  - by rewrite length_insert.
  - intros n d Hin Hd. rewrite lookup_insert_ne in Hd by (intros ->; done). auto.
  - intros j phj t [[-> ->]|[Hji Hp]]%phase_cases Ht; [|destruct (H3 j phj t Hp Ht) as [? [d Hd]]|done].
    + assert (t = tmp) as -> by congruence. rewrite lookup_insert_eq. eauto.
    + split; [done|]. rewrite lookup_insert_ne by (intros <-; by eapply Hother). eauto.
  - intros j t jb [[-> <-]|[Hji Hp]]%phase_cases Hjb; [| |done].
    + injection Hnew as ->. rewrite lookup_insert_eq, Hc by done. congruence.
    + rewrite lookup_insert_ne by (intros <-; by eapply (Hother j (Compiled tmp))). eauto.
  - intros j k pj pk t [[-> ->]|[Hji Hp]]%phase_cases [[-> ->]|[Hki Hq]]%phase_cases Ht Ht'; try done.
    + exfalso. apply (Hother k pk Hki Hq). congruence.
    + exfalso. apply (Hother j pj Hji Hp). congruence.
    + by eapply H5.
  - intros n [d Hd]. destruct (decide (n = tmp)) as [->|Hne]; [right; right; exists i, ph'; by rewrite list_lookup_insert_eq|].
    rewrite lookup_insert_ne in Hd by done. destruct (H6 n ltac:(eauto)) as [?|[?|(j & pj & Hp & Ht)]]; [by left|by right; left|].
    right; right. exists j, pj. destruct (decide (j = i)) as [->|]; [|by rewrite list_lookup_insert_ne].
    destruct Hold as [?|[? _]]; congruence.
  - intros j jb [[-> <-]|[Hji Hp]]%phase_cases Hjb; [done| |done].
    destruct (decide (jb.1 = tmp)) as [->|]; [rewrite lookup_insert_eq; eauto|rewrite lookup_insert_ne by done; eauto].
Qed.

(** The build of [i] is given up, its temporary file (if any) removed. *)
Lemma inv_drop s i ph fs' : build_inv s → phases s !! i = Some ph →
  fs' = match temp_of ph with Some tmp => delete tmp (files s) | None => files s end →
  build_inv (mkBuilds fs' (<[i := Ended false]> (phases s))).
Proof.
  intros [H1 H2 H3 H4 H5 H6 H7] Hph Hfs. pose proof (lookup_lt_Some _ _ _ Hph) as Hi.
  assert (Hkeep : ∀ n, temp_of ph ≠ Some n → fs' !! n = files s !! n).
  { intros n Hn. subst fs'. destruct (temp_of ph); [|done]. apply lookup_delete_ne. congruence. }
  assert (Hsub : ∀ n c, fs' !! n = Some c → files s !! n = Some c).
  { intros n c Hc. subst fs'. destruct (temp_of ph); [|done]. by apply lookup_delete_Some in Hc as [_ ?]. }
  assert (Hname : ∀ n, n ∈ names → fs' !! n = files s !! n).
  { intros n Hn. apply Hkeep. intros Ht. by destruct (H3 i ph n Hph Ht). }
  split; cbn [files phases].
  - by rewrite length_insert.
  - intros n c Hn Hc. rewrite Hname in Hc by done. auto.
  - intros j pj t [[-> ->]|[Hji Hp]]%phase_cases Ht; [done| |done]. destruct (H3 j pj t Hp Ht) as [? ?]. split; [done|].
    rewrite Hkeep; [done|]. intros Hti. by apply Hji, (H5 j i pj ph t).
  - intros j t jb [[-> [=]]|[Hji Hp]]%phase_cases Hjb; [|done]. rewrite Hkeep; [eauto|]. intros Hti.
    by apply Hji, (H5 j i (Compiled t) ph t).
  - intros j k pj pk t [[-> ->]|[Hji Hp]]%phase_cases [[-> ->]|[Hki Hq]]%phase_cases Ht Ht'; try done. by eapply H5.
  - intros n [c Hc]. destruct (H6 n ltac:(eauto)) as [?|[?|(j & pj & Hp & Ht)]]; [by left|by right; left|].
    right; right. exists j, pj. split; [|done]. rewrite list_lookup_insert_ne; [done|]. intros ->. assert (pj = ph) as -> by congruence.
    rewrite Ht in Hfs. subst fs'. by rewrite lookup_delete_eq in Hc.
  - intros j jb [[-> [=]]|[Hji Hp]]%phase_cases Hjb; [|done]. rewrite Hname; [eauto|]. apply list_elem_of_fmap. eexists; split; [done|].
    by eapply list_elem_of_lookup_2.
Qed.

(** The temporary file of [i] becomes the artifact. *)
Lemma inv_rename s i tmp job c : build_inv s → phases s !! i = Some (Compiled tmp) → js !! i = Some job → files s !! tmp = Some c →
  build_inv (mkBuilds (<[job.1 := c]> (delete tmp (files s))) (<[i := Ended true]> (phases s))).
Proof.
  intros HI Hph Hj Hc. pose proof (lookup_lt_Some _ _ _ Hph) as Hi. assert (c = job.2) as -> by (rewrite (b_done _ HI i tmp job Hph Hj) in Hc; congruence).
  assert (Hin : job.1 ∈ names) by (apply list_elem_of_fmap; eexists; split; [done|]; by eapply list_elem_of_lookup_2).
  pose proof (inv_drop s i (Compiled tmp) _ HI Hph eq_refl) as [H1 H2 H3 H4 H5 H6 H7]. cbn [files phases temp_of] in *. rewrite length_insert in H1.
  assert (Hcase : ∀ j pj, <[i := Ended true]> (phases s) !! j = Some pj → pj = Ended true ∨ <[i := Ended false]> (phases s) !! j = Some pj).
  { intros j pj [[-> ->]|[Hji Hp]]%phase_cases; [by left|right; by rewrite list_lookup_insert_ne|done]. }
  split; cbn [files phases].
  - by rewrite length_insert.
  - intros n c Hn Hcn. apply lookup_insert_Some in Hcn as [[<- <-]|[_ Hcn]]; [|auto]. right. rewrite <- surjective_pairing. by eapply list_elem_of_lookup_2.
  - intros j pj t [->|Hp]%Hcase Ht; [done|]. destruct (H3 j pj t Hp Ht) as [? ?]. split; [done|].
    rewrite lookup_insert_ne; [done|]. by intros <-.
  - intros j t jb [[=]|Hp]%Hcase Hjb. rewrite lookup_insert_ne; [eauto|]. intros <-. by destruct (H3 j _ _ Hp eq_refl).
  - intros j k pj pk t [->|Hp]%Hcase [->|Hq]%Hcase Ht Ht'; try done. by eapply H5.
  - intros n [c Hcn]. apply lookup_insert_Some in Hcn as [[<- _]|[_ Hcn]]; [by right; left|].
    destruct (H6 n ltac:(eauto)) as [?|[?|(j & pj & Hp & Ht)]]; [by left|by right; left|]. right; right. exists j, pj. split; [|done].
    apply phase_cases in Hp as [[-> ->]|[Hji Hp]]; [done|by rewrite list_lookup_insert_ne|done].
  - intros j jb [[-> _]|[Hji Hp]]%phase_cases Hjb; [assert (jb = job) as -> by congruence; rewrite lookup_insert_eq; eauto| |done].
    destruct (decide (jb.1 = job.1)) as [->|]; [rewrite lookup_insert_eq; eauto|]. rewrite lookup_insert_ne by done.
    apply (H7 j jb); [by rewrite list_lookup_insert_ne|done].
Qed.

Lemma build_step_inv s e s' : unclashing → build_inv s → build_step s e = Some s' → build_inv s'.
Proof.
  intros Hu HI H. unfold build_step in H. destruct e as [i ev]. cbn [fst snd] in H. destruct (js !! i) as [job|] eqn:Hj; [|done].
  destruct (phases s !! i) as [ph|] eqn:Hph; [|done]. cbn [mbind option_bind] in H.
  destruct (build_to job.1 job.2 (files s) ph ev) as [[fs' ph']|] eqn:Hb; [|done]. injection H as <-. cbn [fst snd].
  assert (Hin : job.1 ∈ names) by (apply list_elem_of_fmap; eexists; split; [done|]; by eapply list_elem_of_lookup_2).
  destruct ph as [|tmp|tmp|ok], ev as [[digits|]|part|[]|[]]; try done; cbn [build_to] in Hb; try injection Hb as <- <-.
  - destruct (str_all is_digit digits) eqn:Ed; [|done]. case_bool_decide as Hf; [|done]. injection Hb as <- <-.
    by eapply inv_write; [done|exact Hph|exact Hj|apply Hu| | |]; auto.
  - by eapply inv_drop.
  - eapply inv_write; [done|exact Hph|exact Hj| | | |]; auto; [|done]. by destruct (b_temp _ HI i _ tmp Hph eq_refl).
  - eapply inv_write; [done|exact Hph|exact Hj| | | |]; auto. by destruct (b_temp _ HI i _ tmp Hph eq_refl).
  - by eapply inv_drop.
  - destruct (files s !! tmp) as [c|] eqn:Hc; [|done]. injection Hb as <- <-. by apply (inv_rename s i tmp job c).
  - by eapply inv_drop.
Qed.

(** However the builds of several test processes interleave and fail, the path
    of an artifact always holds a whole one; a build that ended well left one
    there; and once all have ended there is no temporary file left. *)
Theorem builds_atomic (es : list (nat * build_event)) (s : builds) : unclashing → build_run es build_start = Some s →
  (∀ n c, n ∈ names → files s !! n = Some c → whole n c) ∧
  (∀ i job, phases s !! i = Some (Ended true) → js !! i = Some job → ∃ c, files s !! job.1 = Some c ∧ whole job.1 c) ∧
  (Forall (λ ph, temp_of ph = None) (phases s) → ∀ n, is_Some (files s !! n) → is_Some (fs0 !! n) ∨ n ∈ names).
Proof.
  intros Hu HR. assert (HI : build_inv s).
  { revert s HR. unfold build_run. induction es as [|e es IH] using rev_ind; intros s; cbn [foldl]; [intros [= <-]; apply build_start_inv|].
    rewrite foldl_app. cbn [foldl]. destruct (foldl _ _ es) as [s1|]; [|done]. cbn. apply build_step_inv; [done|by apply IH]. }
  split_and!.
  - apply HI.
  - intros i job Hp Hj. destruct (b_there _ HI i job Hp Hj) as [c Hc]. exists c. split; [done|]. apply (b_whole _ HI); [|done].
    apply list_elem_of_fmap. eexists; split; [done|]. by eapply list_elem_of_lookup_2.
  - intros Hend n Hn. destruct (b_left _ HI n Hn) as [?|[?|(i & ph & Hp & Ht)]]; [auto..|].
    rewrite Forall_lookup in Hend. rewrite (Hend i ph Hp) in Ht. done.
Qed.

End builds.

(** Two test processes build the binary at the same time; the second one's
    compiler is still writing when the first one is done. *)
Example builds_ex : let js := [("gopherd", "ELF-1"); ("gopherd", "ELF-1")] in
  (λ s, (files s !! "gopherd", files s !! "gopherd-7")) <$>
    build_run js [(0, ETemp (Some "3")); (1, ETemp (Some "7")); (0, EWrite "EL"); (1, EWrite "E"); (0, ECompile true); (0, ERename true)]
      (build_start js ∅) = Some (Some "ELF-1", Some "E").
Proof. vm_compute. reflexivity. Qed.

(** ** The one build of a test process *)

(** [buildOnce] and the variables it guards. *)
Record once := mkOnce { did : bool; binPath : string; buildErr : option string }.

Definition once_start : once := mkOnce false "" None.

(** [buildTo] returns an empty path with an error. *)
Definition doBuild (built : result string string) : once :=
  match built with Ok p => mkOnce true p None | Err e => mkOnce true "" (Some e) end.

Inductive answer := Path (p : string) | Error (e : string) | Fatal.

(** [root] is what looking for the module root gives now, [build] what [buildTo]
    makes of a tree. *)
Definition BuildBinary (root : result string string) (build : string → result string string) (o : once) : answer * once :=
  let o := if did o then o else
    match root with Err e => mkOnce true (binPath o) (Some e) | Ok r => doBuild (build r) end in
  (match buildErr o with Some e => Error e | None => Path (binPath o) end, o).

(** [t.Fatalf] in the function of a [sync.Once] ends the test, and the function
    counts as done. *)
Definition binary (root : result string string) (build : string → result string string) (o : once) : answer * once :=
  let after o := (match buildErr o with Some _ => Fatal | None => Path (binPath o) end, o) in
  if did o then after o
  else match root with
       | Err _ => (Fatal, mkOnce true (binPath o) (buildErr o))
       | Ok r => after (doBuild (build r))
       end.

Inductive call := CBuildBinary (root : result string string) | CBinary (root : result string string).

Definition ask (build : string → result string string) (o : once) (c : call) : answer * once :=
  match c with CBuildBinary root => BuildBinary root build o | CBinary root => binary root build o end.

Fixpoint ask_all (build : string → result string string) (o : once) (cs : list call) : list answer :=
  match cs with [] => [] | c :: cs => let r := ask build o c in r.1 :: ask_all build r.2 cs end.

(** When the first caller finds the module, every caller of the process gets the
    outcome of the one build. *)
Lemma one_build build r c cs : c = CBuildBinary (Ok r) ∨ c = CBinary (Ok r) →
  Forall (λ a, match build r with Ok p => a = Path p | Err e => a = Error e ∨ a = Fatal end) (ask_all build once_start (c :: cs)).
Proof.
  intros Hc. assert (Hrest : ∀ cs, Forall (λ a, match build r with Ok p => a = Path p | Err e => a = Error e ∨ a = Fatal end)
    (ask_all build (doBuild (build r)) cs)).
  { induction cs0 as [|[root|root] cs0 IH]; cbn; [constructor|..]; unfold BuildBinary, binary.
    all: destruct (build r) as [p|e] eqn:E; cbn [doBuild did buildErr binPath fst snd] in *; constructor; auto. }
  destruct Hc as [-> | ->]; cbn; unfold BuildBinary, binary; cbn; constructor; auto; destruct (build r); cbn; auto.
Qed.

(** A test that does not find the module spoils the process: the next one is
    handed an empty path as the binary. *)
Example spoiled_once : ask_all (λ r, Ok "/tmp/gopherd") once_start [CBinary (Err "go.mod not found"); CBinary (Ok "/repo")] = [Fatal; Path ""].
Proof. reflexivity. Qed.

(** ** The configuration of a daemon under test *)

(** The order of the placeholders (none is empty): longest first, then as text. *)
Definition placed_before (p q : string) : Prop :=
  String.length q < String.length p ∨ (String.length p = String.length q ∧ String.le p q).

#[global] Instance placed_before_dec : RelDecision placed_before.
Proof. intros p q. unfold placed_before. apply _. Defined.
#[global] Instance placed_before_trans : Transitive placed_before.
Proof. intros p q r [?|[? ?]] [?|[? ?]]; unfold placed_before; [left; lia..|]. right. split; [lia|]. by etrans. Qed.
#[global] Instance placed_before_total : Total placed_before.
Proof.
  intros p q. unfold placed_before. destruct (Nat.lt_trichotomy (String.length p) (String.length q)) as [?|[?|?]]; [right; by left| |left; by left].
  destruct (total String.le p q); [left|right]; auto.
Qed.
#[global] Instance placed_before_antisymm : AntiSymm (=) placed_before.
Proof. intros p q [?|[? ?]] [?|[? ?]]; try lia. by apply (anti_symm String.le). Qed.

(** [order] is the order in which the map of commands is walked. *)
Definition substitute (commands : gmap string string) (order : list string) (config : string) : string :=
  foldl (λ c p, Version.ReplaceAll c p (default "" (commands !! p))) config (merge_sort placed_before order).

Definition with_socket (sock config : string) : string :=
  if Contains config "{{SOCKET}}" then Version.ReplaceAll config "{{SOCKET}}" sock
  else if negb (Contains config "control:") then
    "control:" +:+ str1 "010" +:+ "  socket: " +:+ sock +:+ str1 "010" +:+ str1 "010" +:+ config
  else config.

Definition prepare (commands : gmap string string) (order : list string) (sock config : string) : string :=
  with_socket sock (substitute commands order config).

(** The map's order does not show, and no placeholder is replaced before a
    longer one, of which it might be a part. *)
Lemma prepare_order commands o1 o2 sock config : o1 ≡ₚ o2 → prepare commands o1 sock config = prepare commands o2 sock config.
Proof.
  intros H. unfold prepare, substitute. assert (merge_sort placed_before o1 = merge_sort placed_before o2) as ->; [|done].
  apply (StronglySorted_unique placed_before); try apply (StronglySorted_merge_sort _). by rewrite !merge_sort_Permutation.
Qed.

Lemma longest_first order l1 p l2 : merge_sort placed_before order = l1 ++ p :: l2 → Forall (λ q, String.length q ≤ String.length p) l2.
Proof.
  intros H. pose proof (StronglySorted_merge_sort placed_before order) as Hs. rewrite H in Hs. apply StronglySorted_app in Hs as (_ & _ & Hs).
  apply StronglySorted_inv in Hs as [_ Hs]. eapply Forall_impl; [exact Hs|]. intros q [?|[? _]]; lia.
Qed.

(** What replaced one placeholder is searched for the shorter ones. *)
Example replaced_twice :
  substitute {["/usr/bin/app" := "sleep 300"; "sleep" := "true"]} ["sleep"; "/usr/bin/app"] "command: /usr/bin/app" = "command: true 300".
Proof. vm_compute. reflexivity. Qed.

(** ** Where the daemon under test listens *)

(** The environment it is started with; later entries win. *)
Definition daemon_env (environ : gmap string string) (cfgPath sockPath : string) : gmap string string :=
  <["GOPHERD_NO_LOGO" := "1"]> (<["GOPHERD_SOCKET" := sockPath]> (<["GOPHERD_CONFIG" := cfgPath]> environ)).

(** Whatever the configuration says about the control socket and whatever the
    environment of the tests holds, the daemon reads the file that was written
    and takes the socket the harness dials. *)
Lemma dialed_socket environ cfgPath sockPath fs euid open_file ws dial k at_path args : cfgPath ≠ "" → sockPath ≠ "" →
  let env := daemon_env environ cfgPath sockPath in
  Startup.from_env env "GOPHERD_CONFIG" Startup.defaultConfigPath = cfgPath ∧
  match Startup.run env fs euid open_file ws dial k at_path args with
  | Startup.Up _ socket _ _ _ | Startup.AlreadyRunning socket => socket = sockPath
  | _ => True
  end.
Proof.
  intros Hc Hs env.
  assert (E1 : env !! "GOPHERD_CONFIG" = Some cfgPath)
    by (unfold env, daemon_env; rewrite !lookup_insert_ne by done; apply lookup_insert_eq).
  assert (E2 : env !! "GOPHERD_SOCKET" = Some sockPath)
    by (unfold env, daemon_env; rewrite lookup_insert_ne by done; apply lookup_insert_eq).
  assert (Hsock : ∀ cfg, Startup.socket_path env cfg = sockPath).
  { intros cfg. unfold Startup.socket_path, Startup.configured_socket, Startup.from_env. rewrite E2. cbv zeta. by rewrite !bool_decide_false by (by rewrite ?bool_decide_false by done). }
  split; [unfold Startup.from_env; rewrite E1; by rewrite bool_decide_false|].
  unfold Startup.run. destruct (Launch.readConfigFile _ _ _) as [data|]; [|done]. destruct (Config.Unmarshal _ _ _ _) as [[cfg w]| |]; [|done..].
  cbv zeta. rewrite Hsock. destruct (ControlSocket.IsAlive _ _); [done|]. destruct (1 <? _); [done|]. unfold Startup.order_services.
  destruct (Order.TopoSort _) as [[startOrd|]|]; [|done..]. destruct (Order.TopoLayers _) as [[layers|]|]; [|done..].
  unfold Startup.bring_up. destruct (Daemon.buildServices _) as [[e|] d]; [done|].
  destruct (Startup.start_control _ _ _ _) as [e|]; [|done]. by destruct (ControlSocket.is_held e).
Qed.

(** ** Waiting *)

(** A loop until [deadline]: the clock at the head of each round and what the
    round saw; [leave] is the answer a round ends the loop with. *)
Fixpoint poll {A B} (leave : A → option B) (deadline : Z) (rounds : list (Z * A)) : option B * nat :=
  match rounds with
  | [] => (None, 0)
  | (now, a) :: rounds =>
      if (deadline <=? now)%Z then (None, 0)
      else match leave a with
           | Some b => (Some b, 1)
           | None => let r := poll leave deadline rounds in (r.1, S r.2)
           end
  end.

Definition pollStep : Z := 50 * 1000000.

Inductive start_answer := SReady | SExited.

(** The loop of [RunConfig]; [ProcessState] is only set by [cmd.Wait]. *)
Definition await_socket (start : Z) (processState : bool) (rounds : list (Z * bool)) : option start_answer * nat :=
  poll (λ dialed, if (dialed : bool) then Some SReady else if processState then Some SExited else None) (start + 5000 * 1000000) rounds.

Definition WaitRunning (start timeout : Z) (rounds : list (Z * string)) : option string * nat :=
  poll (λ resp, if Contains resp "running" then Some resp else None) (start + timeout) rounds.

(** Each round sleeps. *)
Fixpoint spaced {A} (start : Z) (rounds : list (Z * A)) : Prop :=
  match rounds with [] => True | (now, _) :: rounds => (start ≤ now)%Z ∧ spaced (now + pollStep) rounds end.

Lemma poll_bound {A B} (leave : A → option B) deadline rounds : ∀ start, spaced start rounds → (start < deadline + pollStep)%Z →
  (Z.of_nat (poll leave deadline rounds).2 * pollStep < deadline - start + pollStep)%Z.
Proof.
  assert (Hp : (0 < pollStep)%Z) by (unfold pollStep; lia).
  induction rounds as [|[now a] rounds IH]; intros start Hs Hd; cbn [poll]; [cbn; lia|]. cbn in Hs. destruct Hs as [Hn Hs].
  destruct (Z.leb_spec deadline now); [cbn; lia|]. destruct (leave a); cbn [snd]; [lia|]. specialize (IH _ Hs ltac:(lia)). lia.
Qed.

(** An answer is that of some round. *)
Lemma poll_leaves {A B} (leave : A → option B) deadline rounds b :
  (poll leave deadline rounds).1 = Some b → ∃ r, r ∈ rounds ∧ leave r.2 = Some b.
Proof.
  induction rounds as [|[now a] rounds IH]; cbn [poll]; [done|]. destruct (deadline <=? now)%Z; [done|]. destruct (leave a) as [b'|] eqn:E; cbn [fst].
  - intros [= ->]. exists (now, a). split; [left|done].
  - intros H. destruct (IH H) as (r & Hr & Hb). exists r. split; [by right|done].
Qed.

(** At most a hundred connections are tried, and the answer is the first
    success; a daemon that died is not noticed before, because nothing has
    waited for it yet. *)
Lemma await_socket_spec start rounds : spaced start rounds →
  (await_socket start false rounds).2 ≤ 100 ∧ (await_socket start false rounds).1 ≠ Some SExited.
Proof.
  intros Hs. split.
  - pose proof (poll_bound (λ dialed : bool, if dialed then Some SReady else None) (start + 5000 * 1000000) rounds start Hs) as H.
    unfold await_socket, pollStep in *. lia.
  - intros ([now []] & _ & [=])%poll_leaves.
Qed.

(** ** The end of a daemon *)

(** What [cmd.Wait] returned. *)
Inductive wait_err := WNil | WExit (code : Z) | WOther.

(** [waits] counts the calls of [cmd.Wait]; [waitErr] is set once it returned,
    when the process is gone. *)
Record Daemon := mkDaemon { waitErr : option wait_err; waits : nat }.

Definition launched : Daemon := mkDaemon None 0.

Definition reap (a : wait_err) (d : Daemon) : wait_err * Daemon :=
  match waitErr d with Some e => (e, d) | None => (a, mkDaemon (Some a) (S (waits d))) end.

Inductive reply := Code (c : Z) | TestFailed | Nothing.

(** A process that was waited for cannot be signalled. *)
Definition Signal (can : bool) (d : Daemon) : bool := match waitErr d with Some _ => false | None => can end.

(** [a]: how the process ends; [late]: the timer fired first (then it is killed). *)
Definition Wait (a : wait_err) (late : bool) (d : Daemon) : reply * Daemon :=
  let r := reap a d in
  if late then (TestFailed, r.2)
  else (match r.1 with WNil => Code 0 | WExit c => Code c | WOther => Code (-1) end, r.2).

Definition Kill (a : wait_err) (d : Daemon) : reply * Daemon := (Nothing, (reap a d).2).

Definition Stop (can : bool) (a : wait_err) (late : bool) (d : Daemon) : reply * Daemon :=
  if negb (Signal can d) then (TestFailed, d) else Wait a late d.

Inductive op := OWait (a : wait_err) (late : bool) | OKill (a : wait_err) | OStop (can : bool) (a : wait_err) (late : bool).

Definition perform (d : Daemon) (o : op) : reply * Daemon :=
  match o with OWait a late => Wait a late d | OKill a => Kill a d | OStop can a late => Stop can a late d end.

Fixpoint performed (d : Daemon) (os : list op) : list reply * Daemon :=
  match os with
  | [] => ([], d)
  | o :: os => let r := perform d o in let rest := performed r.2 os in (r.1 :: rest.1, rest.2)
  end.

Definition once_waited (d : Daemon) : Prop := waits d = match waitErr d with Some _ => 1 | None => 0 end.

Lemma perform_waited d o : once_waited d → once_waited (perform d o).2 ∧ (is_Some (waitErr d) → waitErr (perform d o).2 = waitErr d).
Proof.
  unfold once_waited. intros H. destruct o as [a late|a|can a late]; cbn [perform]; unfold Stop, Wait, Kill, Signal, reap.
  all: destruct (waitErr d) as [e|] eqn:E; cbn; try destruct late; try destruct can; cbn; rewrite ?E in *; split; first [done|lia|by intros [? [=]]].
Qed.

(** Every test ends with [Kill].  Whatever it did before, in any order, the
    process has then been waited for, exactly once; and all the exit codes the
    test was told agree. *)
Lemma no_daemon_left os a : let r := performed launched (os ++ [OKill a]) in
  waits r.2 = 1 ∧ is_Some (waitErr r.2) ∧ ∀ c c', Code c ∈ r.1 → Code c' ∈ r.1 → c = c'.
Proof.
  assert (H : ∀ os d, once_waited d → let r := performed d (os ++ [OKill a]) in
    waits r.2 = 1 ∧ ∃ e, waitErr r.2 = Some e ∧ (∀ e0, waitErr d = Some e0 → e0 = e) ∧
      ∀ c, Code c ∈ r.1 → c = match e with WNil => 0%Z | WExit c => c | WOther => (-1)%Z end).
  { clear os. induction os as [|o os IH]; intros d Hd; cbn [app performed]; cbv zeta.
    - cbn. unfold Kill, reap, once_waited in *. destruct (waitErr d) as [e|] eqn:E; cbn; rewrite ?E, ?Hd; (split; [done|]); eexists; (split; [done|]);
        (split; [congruence|]); intros c [[=]|Hc]%elem_of_cons; by apply elem_of_nil in Hc.
    - destruct (perform_waited d o Hd) as [Hd' Hk]. destruct (IH _ Hd') as (Hw & e & He & Hold & Hc). split; [done|]. exists e. split; [done|]. split.
      + intros e0 H0. apply Hold. rewrite Hk by eauto. done.
      + cbn [fst]. intros c [Ho|Hin]%elem_of_cons; [|auto]. revert Ho Hold. clear. destruct o as [a' late|a'|can a' late]; cbn [perform]; unfold Stop, Wait, Kill, Signal, reap.
        all: destruct (waitErr d) as [e1|] eqn:E; cbn; try destruct late; try destruct can; cbn; try done.
        all: intros Hc Ho; try (rewrite E in Ho); specialize (Ho _ eq_refl); subst e; first [destruct e1; congruence|destruct a'; congruence]. }
  cbv zeta. destruct (H os launched eq_refl) as (Hw & e & He & _ & Hc). split_and!; [done|eauto|]. intros c c' H1%Hc H2%Hc. congruence.
Qed.

(** ** A run *)

Inductive run_answer := RFatal | RReady (config : string).

(** [RunConfig]: the text written, the build, the start and the wait for the
    socket; with the daemon, if one was started.  [a] is how a daemon that is
    killed ends. *)
Definition RunConfig (commands : gmap string string) (order : list string) (sock config : string) (write_ok : bool)
    (root : result string string) (build : string → result string string) (start_ok : bool) (start : Z) (rounds : list (Z * bool))
    (a : wait_err) (o : once) : run_answer * once * option Daemon :=
  let config := prepare commands order sock config in
  if negb write_ok then (RFatal, o, None)
  else
    let (bin, o) := binary root build o in
    match bin with
    | Path p =>
        if negb start_ok then (RFatal, o, None)
        else match (await_socket start (bool_decide (is_Some (waitErr launched))) rounds).1 with
             | Some SReady => (RReady config, o, Some launched)
             | Some SExited => (RFatal, o, Some launched)
             | None => (RFatal, o, Some (Kill a launched).2)
             end
    | _ => (RFatal, o, None)
    end.

(** [UpdateConfig], with whether the file could be written. *)
Definition UpdateConfig (sock config : string) (write_ok : bool) : option string :=
  if write_ok then Some (with_socket sock config) else None.

(** A daemon that is handed to the test answers at its socket and has not been
    waited for; one that never came up has been ended. *)
Lemma run_daemon commands order sock config write_ok root build start_ok start rounds a o : let r := RunConfig commands order sock config write_ok root build start_ok start rounds a o in
  match r with
  | (RReady text, _, d) => d = Some launched ∧ text = prepare commands order sock config ∧ ∃ now, (now, true) ∈ rounds
  | (RFatal, _, Some d) => waits d = 1 ∧ waitErr d = Some a
  | (RFatal, _, None) => True
  end.
Proof.
  cbv zeta. unfold RunConfig. destruct write_ok; [|done]. cbn [negb]. destruct (binary root build o) as [[p|e|] o']; [|done..].
  destruct start_ok; [|done]. cbn [negb]. rewrite bool_decide_false by (by intros [? [=]]).
  destruct (await_socket start false rounds).1 as [[]|] eqn:E; [|apply poll_leaves in E as ([now []] & _ & [=])|done].
  apply poll_leaves in E as ([now []] & Hr & [=]). eauto.
Qed.

(** ** Talking to it *)

(** [bufio.Scanner] with its default buffer: a line that does not fit ends the
    scan, and the error is not looked at. *)
Fixpoint scan_tokens (raw : list string) : list string :=
  match raw with
  | [] => []
  | line :: rest =>
      if (Control.MaxScanTokenSize <=? Z.of_nat (String.length line))%Z then []
      else match rest with
      | [] => if bool_decide (line = "") then [] else [ControlClient.drop_cr line]
      | _ => ControlClient.drop_cr line :: scan_tokens rest
      end
  end.

Definition Command (data : string) : string := Join (scan_tokens (Split ControlClient.newline data)) (str1 "010").

(** An answer of lines that arrive as they were sent and fit the buffer is
    returned whole. *)
Lemma command_answer lines :
  Forall (λ l, ControlClient.clean l ∧ (Z.of_nat (String.length l) < Control.MaxScanTokenSize)%Z) lines →
  Command (String.concat "" ((λ line, line +:+ str1 ControlClient.newline) <$> lines)) = Join lines (str1 "010").
Proof.
  intros H. unfold Command. rewrite ControlClient.split_written by (eapply Forall_impl; [exact H|]; by intros l [? _]). f_equal.
  induction H as [|l lines [(_ & Hcr & _) Hlen] _ IH]; [done|]. cbn [app scan_tokens].
  assert ((Control.MaxScanTokenSize <=? Z.of_nat (String.length l))%Z = false) as -> by lia.
  destruct (lines ++ [""]) as [|x rest] eqn:E; [by destruct lines|]. rewrite IH. unfold ControlClient.drop_cr. by rewrite Hcr.
Qed.

(** [Tool]: [None] ends the test. *)
Definition Tool (root : result string string) (build : string → string → result string string) (name : string) (bins : gmap string string)
    : option string * gmap string string :=
  match bins !! name with
  | Some p => (Some p, bins)
  | None =>
      match root with
      | Err _ => (None, bins)
      | Ok r => match build r name with Ok p => (Some p, <[name := p]> bins) | Err _ => (None, bins) end
      end
  end.

(** A tool is built once, whatever other tools are asked for in between. *)
Lemma tool_once root build name bins p bins' : Tool root build name bins = (Some p, bins') →
  ∀ root' build' others, (Tool root' build' name (foldl (λ b n, (Tool root' build' n b).2) bins' others)).1 = Some p.
Proof.
  intros H root' build' others. assert (Hb : bins' !! name = Some p).
  { unfold Tool in H. destruct (bins !! name) as [q|] eqn:E; [by injection H as -> <-|]. destruct root as [r|]; [|done].
    destruct (build r name); [|done]. injection H as -> <-. apply lookup_insert_eq. }
  clear H. revert bins' Hb. induction others as [|n others IH]; intros b Hb; cbn [foldl]; [unfold Tool; by rewrite Hb|].
  apply IH. unfold Tool. destruct (b !! n) eqn:En; [done|]. destruct root' as [r|]; [|done]. destruct (build' r n); [|done]. cbn.
  rewrite lookup_insert_ne; [done|congruence].
Qed.

End Doctest.
